(* ===== verification/_CoqProject ===== *)
-Q . S2P
Prelude.v
Text.v
Numbers.v
Http2Frame.v
Http3Frame.v
Huffman.v
Hpack.v
Request.v
Http1Frame.v
Response.v
StaticFiles.v
Handler.v
BodyStream.v
Http2Session.v
Waf.v
VirtualHost.v
ReverseProxy.v
Config.v
ConfigFacts.v
Security.v
WebSocket.v
Tls.v
TlsSpec.v
Protocol.v
State.v
Upstream.v
Connection.v
AuditLog.v
ProxyExchange.v
WebSocketProxy.v
Reactor.v
Worker.v
Daemon.v
Main.v
MainSpec.v
ConnectionFacts.v
FrameFacts.v
ProxyFacts.v
ReactorFacts.v
SocketFacts.v
RelayFacts.v
EventFacts.v
Scenarios.v
Halting.v
ConnectionSpec.v
RequestSpec.v
WorkerFacts.v
WorkerSpec.v
DaemonSpec.v
ServerSpec.v
Progress.v
