(* ===== verification/Prelude.v ===== *)
(** * Rimau Web Server: a verification library

    This library models the program logic of the Rimau web server (C++20,
    under [src/]) and proves it correct.  The process loads its configuration,
    starts workers and serves signals.  Each worker accepts clients and drives
    them with [epoll]: it cuts what they send into HTTP/1.1 requests or HTTP/2
    frames, checks the requests with address rules, a rate limiter and a web
    application firewall, and answers from static files, upstream servers,
    WebSocket services or error pages.

    ** The files and the code they model

    Shared: [Prelude] (bytes, machine integers, the [outcome] monad of
    exceptions and fuel, notations, tactics, hint databases); [Text] and
    [Numbers] (the string and number helpers that the translation units
    repeat, and the parts of the C++ library they rest on); [State] (objects
    with mutable fields: record update, the monad of member functions and its
    weakest preconditions, the choice of descriptors).

    Protocols, pure functions on bytes and session objects:
    - [Http2Frame], [Http3Frame]: [src/protocol/http2_frame.cpp] and
      [http3_frame.cpp];
    - [Huffman], [Hpack]: [src/protocol/http2_hpack.cpp];
    - [Http2Session]: [src/protocol/http2_session.cpp];
    - [Request]: [src/http/parser.cpp], [include/rimau/http/request.hpp];
    - [Http1Frame]: [src/http/http1_session.cpp];
    - [Protocol]: [src/protocol/protocol.cpp] and the status texts of
      [http2_gateway.cpp] and [http3_gateway.cpp];
    - [WebSocket], [BodyStream]: frames and the upgrade, and request bodies
      that arrive in pieces ([src/core/server.cpp]).

    Requests and answers:
    - [Response], [StaticFiles]: [src/http/response.cpp];
    - [Handler]: sinks, builders, transactions and the static site
      ([response_sink.cpp], [response_builder.cpp], [transaction.cpp],
      [static_file_handler.cpp]);
    - [Waf]: [src/http/waf.cpp]; [AuditLog]: its log records ([server.cpp],
      [src/core/logger.cpp]);
    - [VirtualHost], [ReverseProxy], [Upstream]: [src/http/virtual_host.cpp]:
      selection, the proxied exchange with failover and circuit breakers, and
      the blocking transport it uses.

    Configuration and policy: [Config], [ConfigFacts] ([src/core/config.cpp]);
    [Security] (address rules, connection counters, rate limiter) and [Tls],
    [TlsSpec] (ALPN, SNI, the TLS context), both of [server.cpp].

    The event-driven server, [src/core/server.cpp]:
    - [Connection]: the 54 fields of [ClientConnection], the world around one
      connection and the operations that all its parts use; [ProxyExchange],
      [WebSocketProxy] and [Reactor]: its event handlers, which call the
      components above;
    - [Worker]: the listener, the table of clients, the pool of connection
      objects, configuration refresh, timeouts and shutdown of one thread; it
      calls [Reactor] for every event;
    - [Daemon]: [Server::run]: signals, reload, failing workers, exit status;
      what it publishes in the control block, [Worker] reads;
    - [Main]: [src/main.cpp].

    Proofs about these: [ConnectionFacts], [ProxyFacts], [ReactorFacts],
    [SocketFacts], [RelayFacts] and [EventFacts] show that every handler keeps
    a connection well-formed, [FrameFacts] what it leaves alone, [Scenarios]
    runs concrete traffic; [Halting] and [Progress] show that handlers and turns
    return; [ConnectionSpec], [RequestSpec], [WorkerFacts], [WorkerSpec],
    [DaemonSpec], [ServerSpec] and [MainSpec] hold the other theorems.

    ** How the model reads

    Bytes, [std::string] and [std::vector<std::uint8_t>] are [list byte];
    [size_t] and the fixed-width integers are [Z] with [wrap] written where the
    code can wrap; a [std::unordered_map] is a [gmap], and code that iterates
    over one is proved for every iteration order through the class [MapOrder]
    of [Request].  A function that may throw returns [outcome]: [Raise] carries
    [what()], and [Timeout] means that a loop ran out of fuel.  Objects with
    state are records.  A member function of a parser or session returns the
    new record; in the event-driven parts it is a computation of the monad of
    [State], which keeps what was written before an exception.  A theorem about
    such a computation is a [wp], which says nothing of a [Timeout]; when one
    can occur is a theorem of its own ([Halting], [Progress]).  Names follow the
    source.

    The environment is data.  What system calls and OpenSSL answer - accepted
    sizes, received bytes, errors, [poll] and handshake results - is a queue of
    answers in the state, and every theorem holds for every queue.  Clocks are
    streams of readings.  A worker runs over a list of turns, a process over a
    list of passes: what [epoll_wait] reports, what other threads and signal
    handlers did meanwhile, and the answers for that turn.  Other threads act
    between turns, while the worker sleeps in [epoll_wait]; within a turn the
    shared counters change only through the worker, as under their mutex.

    Loops get as much fuel as the buffer they scan has bytes (plus one; twice
    that where a turn may take nothing), as the list they walk has elements, or
    as there are answers left; a theorem of each component shows that this is
    enough, except where the program itself diverges, which is then a theorem
    too.  The loops of a worker and of the
    process run as long as there are turns and passes.

    ** What is proved

    - Framing ([Http1Frame], [Request], [BodyStream]): framing and parsing
      agree on the body of every request; bodies are decoded the same however
      the network cuts them.
    - Encodings: frames, settings, integers, HPACK blocks, Huffman codes,
      chunked bodies, query strings, JSON strings, HTTP/2 requests and
      responses are read back as they were written.
    - Refinement: the HPACK table implements the one of RFC 7541 over any
      sequence of operations, the Huffman automaton decodes exactly the
      canonical code, circuit breakers implement their policy, a reload leaves
      the process as a restart would with the certificates it last read.
    - Sessions: the invariant of an HTTP/2 session under any input, and that a
      request it yields is one the client sent in full.
    - Connections ([ConnectionSpec], [RequestSpec]): every reachable state is
      well-formed, responses leave in the order of the requests, the WebSocket
      relay is transparent and bounded, a refused request reaches nobody, and
      headers and bodies that stall are refused in time, but for a body of
      which a later part was read.
    - Workers and process ([WorkerSpec], [DaemonSpec], [ServerSpec]):
      descriptors belong to one client each and the counters count the clients
      for as long as a worker runs; draining ends; a reload is all or nothing
      and reaches every client; a request to stop is never missed.
    - Termination ([Halting], [Progress]): every handler of a connection and
      every turn of a worker returns, on any traffic, but for the chunked
      decoders on sizes near [2^64], which do loop for ever, and for the
      blocking exchange of an HTTP/2 request, which has no deadline.
    - Policy: SNI, ALPN, virtual hosts, address rules and limits select what
      the configuration says; encodings do not hide an attack from the
      firewall; its log cannot be forged; files outside the document root are
      never read; header values cannot forge header lines.
    - Transport ([Upstream]): an exchange that ends has closed each descriptor
      it opened exactly once, sent the request and kept the limits; one that
      does not end is kept going by wake-ups of the upstream alone.
    - Command line ([MainSpec]): its grammar and effects, with what a refused
      value or configuration leaves in the database.

    ** What is not modelled

    - SQLite, zlib, OpenSSL, [getaddrinfo], the file system and the kernel:
      parameters or answers, as above.  [Config] models the contents of the
      database, not its locking or the failures of statements; what a refused
      operation has already written is in [Main], and the writes of a reload,
      which repeat those of the start, are left out.
    - The time that blocking calls take.  In the handshake with a WebSocket
      upstream ([WebSocketProxy]) a wait whose answers run out counts as one
      that expired; in [Upstream] the exchange is then still in progress.
    - Calls that only set options on sockets, epoll descriptors and TLS
      objects; their failures appear where the code reacts to them.
    - Log lines other than audit records, and the time stamp of the log.
    - The older HTTP/2 implementation that [server.cpp] still holds (lines
      1349-1619 and 3113-3426): [handle_http2_frame] is called by nobody, since
      [ServerSession] serves HTTP/2.  Nor are the second copies of [trim],
      [lowercase], [split_delimited], [parse_decimal_size] and others, which
      are modelled once.
    - Running out of memory or threads, and the Windows branches.
    - Tests, scripts and build files.

    PROJECT.json lists every part with its status. *)

From Stdlib Require Export ZArith Lia.
From Stdlib Require Strings.Byte.
From stdpp Require Export base numbers countable strings gmap list.

#[global] Set Default Proof Using "Type".
#[global] Open Scope Z_scope.

(** ** Bytes

    [std::string], [std::string_view] and [std::vector<std::uint8_t>] are
    all lists of bytes; [val] is the conversion through [unsigned char] and
    [u8] is [static_cast<std::uint8_t>] (reduction modulo 256). *)

Abbreviation byte := Byte.byte.
Abbreviation bytes := (list Byte.byte).

#[export] Instance byte_eq_dec : EqDecision byte := Byte.byte_eq_dec.

#[export] Program Instance byte_countable : Countable byte :=
  inj_countable Byte.to_N Byte.of_N _.
Next Obligation. intros c; apply Byte.of_to_N. Qed.

Definition val (c : byte) : Z := Z.of_N (Byte.to_N c).

Definition u8 (z : Z) : byte :=
  match Byte.of_N (Z.to_N (z mod 256)) with
  | Some c => c
  | None => Byte.x00
  end.

(** Unsigned machine integers: [wrap w z] is [z] reduced to [w] bits. *)
Definition wrap (w z : Z) : Z := z mod 2 ^ w.
Abbreviation u32 := (wrap 32).
Abbreviation u64 := (wrap 64).
Definition size_max : Z := 2 ^ 64 - 1.

Lemma val_range c : 0 <= val c < 256.
Proof. unfold val. pose proof (Byte.to_N_bounded c). lia. Qed.

Lemma val_u8 z : val (u8 z) = z mod 256.
Proof.
  unfold val, u8. pose proof (Z.mod_pos_bound z 256 ltac:(lia)).
  destruct (Byte.of_N _) eqn:E.
  - apply Byte.to_of_N in E. rewrite E. lia.
  - apply Byte.of_N_None_iff in E. lia.
Qed.

Lemma u8_val c : u8 (val c) = c.
Proof.
  unfold u8, val. rewrite Z.mod_small by (pose proof (Byte.to_N_bounded c); lia).
  by rewrite N2Z.id, Byte.of_to_N.
Qed.

#[export] Instance val_inj : Inj (=) (=) val.
Proof. intros a b E. by rewrite <- (u8_val a), E, u8_val. Qed.

Lemma u8_inj_small a b : 0 <= a < 256 -> 0 <= b < 256 -> u8 a = u8 b -> a = b.
Proof.
  intros Ha Hb E. apply (f_equal val) in E. rewrite !val_u8 in E.
  by rewrite !Z.mod_small in E by lia.
Qed.

Lemma val_u8_small z : 0 <= z < 256 -> val (u8 z) = z.
Proof. intros. by rewrite val_u8, Z.mod_small. Qed.

Lemma u8_mod z : u8 (z mod 256) = u8 z.
Proof. unfold u8. by rewrite Z.mod_mod. Qed.

Lemma wrap_small w z : 0 <= z < 2 ^ w -> wrap w z = z.
Proof. apply Z.mod_small. Qed.

Lemma wrap_range w z : 0 <= w -> 0 <= wrap w z < 2 ^ w.
Proof. intros. apply Z.mod_pos_bound. lia. Qed.

(** A property of one byte can be checked on its 256 values. *)
Definition all_bytes : bytes := u8 <$> seqZ 0 256.

Lemma elem_of_all_bytes c : c ∈ all_bytes.
Proof.
  unfold all_bytes. apply list_elem_of_fmap. exists (val c).
  rewrite u8_val. split; [done|]. apply elem_of_seqZ. pose proof (val_range c). lia.
Qed.

Lemma byte_forall (P : byte -> bool) : forallb P all_bytes = true -> forall c, P c = true.
Proof.
  intros H c. rewrite forallb_forall in H. apply H, list_elem_of_In, elem_of_all_bytes.
Qed.

(** Two byte predicates agree when they agree on the 256 values. *)
Ltac by_byte c :=
  revert c;
  match goal with
  | |- forall c, ?P c = true => apply (byte_forall P); vm_compute; reflexivity
  | |- forall c, @?L c = @?R c =>
      let H := fresh in
      assert (H : forall c, bool_decide (L c = R c) = true);
      [ let P := constr:(fun c => bool_decide (L c = R c)) in
        apply (byte_forall P); vm_compute; reflexivity
      | intros c; apply (bool_decide_eq_true_1 _ (H c)) ]
  end.

(** Evaluates a closed decidable proposition. *)
Ltac by_decide := apply (bool_decide_eq_true_1 _); vm_compute; reflexivity.

(** ** String literals *)

Definition str (s : string) : bytes := String.list_byte_of_string s.
Arguments str : simpl never.

Declare Scope rimau_scope.
Delimit Scope rimau_scope with rimau.
Notation "'CR'" := Byte.x0d : rimau_scope.
Notation "'LF'" := Byte.x0a : rimau_scope.
Notation "'TAB'" := Byte.x09 : rimau_scope.
Notation "'SP'" := Byte.x20 : rimau_scope.
Notation "'CRLF'" := (@cons byte Byte.x0d (@cons byte Byte.x0a (@nil byte))) : rimau_scope.
Notation "'CRLF2'" := (@cons byte Byte.x0d (@cons byte Byte.x0a
   (@cons byte Byte.x0d (@cons byte Byte.x0a (@nil byte))))) : rimau_scope.
#[global] Open Scope rimau_scope.

(** The character of a one-character literal. *)
Definition chr (s : string) : byte := default Byte.x00 (head (str s)).

Abbreviation size s := (Z.of_nat (length s)).

(** ** Exceptions and loops

    A C++ call returns a value or throws; a loop translated with fuel may
    also run out of it.  [Raise] carries [std::exception::what()]. *)

Inductive outcome (A : Type) : Type :=
| Ret (a : A)
| Raise (what : string)
| Timeout.
Arguments Ret {A} a.
Arguments Raise {A} what.
Arguments Timeout {A}.

#[export] Instance outcome_ret : MRet outcome := fun A a => Ret a.
#[export] Instance outcome_bind : MBind outcome := fun A B f m =>
  match m with
  | Ret a => f a
  | Raise e => Raise e
  | Timeout => Timeout
  end.
#[export] Instance outcome_fmap : FMap outcome := fun A B f m =>
  match m with
  | Ret a => Ret (f a)
  | Raise e => Raise e
  | Timeout => Timeout
  end.

Definition out_of_range : string := "std::out_of_range".

(** [if (c) throw std::runtime_error(e);] *)
Definition throw_if (c : bool) (e : string) : outcome unit :=
  if c then Raise e else Ret tt.

(** [for (x : l) { ... }] whose body may throw, collecting the results. *)
Fixpoint mapO {A B} (f : A -> outcome B) (l : list A) : outcome (list B) :=
  match l with
  | [] => Ret []
  | x :: l' => y ← f x; ys ← mapO f l'; mret (y :: ys)
  end.

(** The same loop with an accumulator. *)
Fixpoint foldO {A B} (f : B -> A -> outcome B) (b : B) (l : list A) : outcome B :=
  match l with
  | [] => Ret b
  | x :: l' => b' ← f b x; foldO f b' l'
  end.

Lemma bind_Ret {A B} (m : outcome A) (f : A -> outcome B) y :
  (m ≫= f) = Ret y <-> exists x, m = Ret x /\ f x = Ret y.
Proof.
  destruct m; cbn; split; [eauto | | | | |]; try (intros (? & ? & ?); simplify_eq; done); done.
Qed.

Lemma throw_if_Ret c e u : throw_if c e = Ret u <-> c = false.
Proof. destruct c, u; cbn; done. Qed.

Lemma mapO_Ret {A B} (f : A -> outcome B) l ys :
  mapO f l = Ret ys <-> Forall2 (fun x y => f x = Ret y) l ys.
Proof.
  revert ys; induction l as [|x l IH]; intros ys; cbn.
  - split; [intros [= <-]; constructor | by inversion 1].
  - rewrite bind_Ret; split.
    + intros (y & Hy & H). apply bind_Ret in H as (ys' & Hys & [= <-]).
      constructor; [done|]. by apply IH.
    + inversion 1 as [|? y ? ys' Hy Hys]; subst. exists y; split; [done|].
      apply bind_Ret. exists ys'. split; [by apply IH | done].
Qed.

Lemma foldO_app {A B} (f : B -> A -> outcome B) b l k :
  foldO f b (l ++ k) = (x ← foldO f b l; foldO f x k).
Proof. revert b; induction l as [|a l IH]; intros b; cbn; [done|]. destruct (f b a); cbn; auto. Qed.

(** A computation that ends: it returns or throws, within its fuel. *)
Definition settles {A} (m : outcome A) : Prop := m <> Timeout.

Create HintDb settles.

Lemma settles_Ret {A} (a : A) : settles (Ret a).
Proof. done. Qed.
Lemma settles_mret {A} (a : A) : settles (mret a).
Proof. done. Qed.
Lemma settles_Raise {A} e : settles (@Raise A e).
Proof. done. Qed.
Lemma settles_throw_if c e : settles (throw_if c e).
Proof. by destruct c. Qed.
Lemma settles_bind {A B} (m : outcome A) (f : A -> outcome B) :
  settles m -> (forall a, m = Ret a -> settles (f a)) -> settles (m ≫= f).
Proof. destruct m; cbn; unfold settles in *; eauto. Qed.
Lemma settles_fmap {A B} (m : outcome A) (f : A -> B) : settles m -> settles (f <$> m).
Proof. by destruct m. Qed.
Lemma settles_mapO {A B} (f : A -> outcome B) l : (forall x, settles (f x)) -> settles (mapO f l).
Proof.
  intros H. induction l as [|x l IH]; [done|]. cbn.
  apply settles_bind; [done|]. intros y _. by apply settles_bind.
Qed.
Lemma settles_foldO {A B} (f : B -> A -> outcome B) b l :
  (forall b x, settles (f b x)) -> settles (foldO f b l).
Proof.
  intros H. revert b; induction l as [|x l IH]; intros b; [done|]. cbn.
  apply settles_bind; [done|]. intros y _. apply IH.
Qed.

#[export] Hint Resolve settles_Ret settles_mret settles_Raise settles_throw_if settles_fmap
  settles_mapO settles_foldO : settles.
#[export] Hint Extern 2 (settles (mbind _ _)) => apply settles_bind; intros : settles.
#[export] Hint Extern 3 (settles (if ?c then _ else _)) => destruct c : settles.
#[export] Hint Extern 3 (settles (match ?c with _ => _ end)) => destruct c : settles.
#[export] Hint Extern 4 (settles (let '_ := ?c in _)) => destruct c : settles.

(** The same without search: one bind or one branch at a time, for long
    computations. *)
Ltac settle :=
  repeat (cbv beta zeta; first
    [ done
    | match goal with H : _ |- settles _ => apply H end
    | match goal with
      | |- settles (mbind _ _) => apply settles_bind; [|intros]
      | |- settles (fmap _ _) => apply settles_fmap
      | |- settles (throw_if _ _) => apply settles_throw_if
      | |- settles (mapO _ _) => apply settles_mapO; intros
      | |- settles (foldO _ _ _) => apply settles_foldO; intros
      | |- settles (if ?c then _ else _) => destruct c
      | |- settles (match ?c with _ => _ end) => destruct c
      end ]).

(** Inverts a successful run of a monadic block, one bind at a time. *)
Ltac inv_ret :=
  repeat match goal with
  | H : mbind _ _ = Ret _ |- _ =>
      let x := fresh "x" in let Hx := fresh "Hx" in
      apply bind_Ret in H as (x & Hx & H)
  | H : mret _ = Ret _ |- _ => injection H; clear H; intros
  | H : Ret _ = Ret _ |- _ => injection H; clear H; intros
  | H : throw_if _ _ = Ret _ |- _ => apply throw_if_Ret in H
  | H : Raise _ = Ret _ |- _ => discriminate H
  | H : Timeout = Ret _ |- _ => discriminate H
  end.

(** Splits on every [if] and [match] of the context and the goal. *)
Ltac split_ifs := repeat first [case_match | case_decide]; simplify_eq.

(** ** Library databases *)

Create HintDb rimau.
Create Rewrite HintDb bytes.
Create Rewrite HintDb lens.
#[export] Hint Resolve val_range : rimau.
#[export] Hint Rewrite @val_u8 u8_val u8_mod : bytes.
#[export] Hint Rewrite @length_app @length_drop @length_take @length_fmap
  @length_reverse @length_replicate : lens.

(** Arithmetic about lengths of bytes. *)
Ltac lens := autorewrite with lens in *; cbn [length] in *; lia.

(** ** Bit operations *)

(** [a | b] is [a + b] when their bits do not meet. *)
Lemma lor_add n a b : 0 <= n -> 0 <= b < 2 ^ n -> Z.lor (a * 2 ^ n) b = a * 2 ^ n + b.
Proof.
  intros Hn Hb. assert (N : Z.land (a * 2 ^ n) b = 0).
  2: { rewrite <- Z.lxor_lor, <- Z.add_nocarry_lxor; done. }
  apply Z.bits_inj'. intros i Hi. rewrite Z.land_spec, Z.bits_0.
  destruct (Z.ltb_spec i n).
  - by rewrite Z.mul_pow2_bits_low.
  - destruct (decide (b = 0)) as [->|]; [by rewrite Z.bits_0, andb_false_r|].
    rewrite (Z.bits_above_log2 b); [by rewrite andb_false_r|lia|].
    apply Z.log2_lt_pow2; [lia|]. apply Z.lt_le_trans with (2 ^ n); [lia|].
    by apply Z.pow_le_mono_r.
Qed.

(** The big-endian assembly [(a << n) | b]. *)
Lemma shiftl_lor_add n a b : 0 <= n -> 0 <= b < 2 ^ n -> Z.lor (a ≪ n) b = a * 2 ^ n + b.
Proof. intros. rewrite Z.shiftl_mul_pow2 by done. by apply lor_add. Qed.

Lemma land_mask n a : 0 <= n -> Z.land a (2 ^ n - 1) = a mod 2 ^ n.
Proof. intros. rewrite <- Z.land_ones by done. by rewrite Z.ones_equiv, Z.sub_1_r. Qed.

Lemma land_0xff a : Z.land a 255 = a mod 256.
Proof. apply (land_mask 8). lia. Qed.

Lemma u8_land_0xff a : u8 (Z.land a 255) = u8 a.
Proof. by rewrite land_0xff, u8_mod. Qed.

Lemma u8_shiftr_land a n : 0 <= n -> u8 (Z.land (a ≫ n) 255) = u8 (a / 2 ^ n).
Proof. intros. by rewrite u8_land_0xff, Z.shiftr_div_pow2. Qed.

(** [s[i]] as a byte and as an unsigned value, for an index in range. *)
Definition byte_at (s : bytes) (i : nat) : byte := default Byte.x00 (s !! i).
Abbreviation nth_val s i := (val (byte_at s i)).

(** ** Lists *)

Lemma drop_drop_app {A} (l : list A) n k : drop k (drop n l) = drop (n + k)%nat l.
Proof. by rewrite drop_drop. Qed.

Lemma take_drop_cons {A} (l : list A) i x :
  l !! i = Some x -> l = take i l ++ x :: drop (S i) l.
Proof. intros H. by rewrite take_drop_middle. Qed.

Lemma app_inj_length {A} (a b c d : list A) :
  length a = length c -> a ++ b = c ++ d -> a = c /\ b = d.
Proof. intros ? E. by apply app_inj_1 in E. Qed.

Lemma drop_app_cons {A} (a : list A) x b : drop (S (length a)) (a ++ x :: b) = b.
Proof. rewrite (cons_middle x a b), app_assoc. apply drop_app_length'. rewrite length_app. cbn. lia. Qed.
