(* ===== verification/Text.v ===== *)
(** * Text: the C++ character, string and number idioms the server shares

    The static helpers that several translation units repeat ([trim],
    [lowercase], [parse_decimal_size], [parse_hex_size], [percent_decode],
    [split_delimited], [valid_header_name]) and the parts of the standard
    library they rest on ([isspace], [find], [substr], [getline], [>>],
    [strtol], [to_string]), with their specifications. *)

From S2P Require Import Prelude.

(** ** Character classes of the "C" locale *)

Definition isspace (c : byte) : bool :=
  let v := val c in ((9 <=? v) && (v <=? 13)) || (v =? 32).
Definition isdigit (c : byte) : bool := let v := val c in (48 <=? v) && (v <=? 57).
Definition isupper (c : byte) : bool := let v := val c in (65 <=? v) && (v <=? 90).
Definition islower (c : byte) : bool := let v := val c in (97 <=? v) && (v <=? 122).
Definition isalpha (c : byte) : bool := isupper c || islower c.
Definition isalnum (c : byte) : bool := isalpha c || isdigit c.
Definition tolower (c : byte) : byte := if isupper c then u8 (val c + 32) else c.

Definition lowercase (value : bytes) : bytes := tolower <$> value.

(** [ch < 0x20 || ch == 0x7f] *)
Definition is_control (c : byte) : bool := let v := val c in (v <? 32) || (v =? 127).

Definition contains_control_character (value : bytes) : bool := existsb is_control value.

(** [ch != '\t' && (ch < 0x20 || ch == 0x7f)] for some character *)
Definition header_value_has_invalid_control (value : bytes) : bool :=
  existsb (fun ch => negb (bool_decide (ch = TAB)) && is_control ch) value.

Definition token_char (ch : byte) : bool :=
  isalnum ch || bool_decide (ch ∈ str "!#$%&'*+-.^_`|~").

Definition valid_header_name (name : bytes) : bool :=
  match name with
  | [] => false
  | _ => forallb token_char name
  end.

Lemma tolower_idem c : tolower (tolower c) = tolower c.
Proof. by_byte c. Qed.

Lemma lowercase_idem s : lowercase (lowercase s) = lowercase s.
Proof.
  unfold lowercase. rewrite <- list_fmap_compose. apply list_fmap_ext.
  intros; apply tolower_idem.
Qed.

Lemma lowercase_app s t : lowercase (s ++ t) = lowercase s ++ lowercase t.
Proof. apply fmap_app. Qed.

Lemma length_lowercase s : length (lowercase s) = length s.
Proof. apply length_fmap. Qed.

(** ** Searching *)

(** [s.starts_with(p)] and [s.ends_with(p)] *)
Definition starts_with (s p : bytes) : bool := bool_decide (take (length p) s = p).
Definition ends_with (s p : bytes) : bool :=
  bool_decide (drop (length s - length p) s = p).

(** [s.find(p)]; [None] is [npos]. *)
Fixpoint find (p s : bytes) : option nat :=
  if starts_with s p then Some 0%nat
  else match s with
       | [] => None
       | _ :: s' => S <$> find p s'
       end.

(** [s.find(p, pos)] *)
Definition find_from (p s : bytes) (pos : nat) : option nat :=
  if (pos <=? length s)%nat then Nat.add pos <$> find p (drop pos s) else None.

(** [s.find(p) != npos] *)
Definition contains (s p : bytes) : bool := bool_decide (is_Some (find p s)).

(** [s.find(c)] for one character *)
Fixpoint find_byte (c : byte) (s : bytes) : option nat :=
  match s with
  | [] => None
  | x :: s' => if decide (x = c) then Some 0%nat else S <$> find_byte c s'
  end.

(** [s.rfind(c)] *)
Definition rfind_byte (c : byte) (s : bytes) : option nat :=
  (fun i => length s - 1 - i)%nat <$> find_byte c (reverse s).

(** [s.substr(pos, n)] for [pos] within the string *)
Definition substr (s : bytes) (pos n : nat) : bytes := take n (drop pos s).

Lemma length_substr s pos n : length (substr s pos n) = (n `min` (length s - pos))%nat.
Proof. unfold substr. by rewrite length_take, length_drop. Qed.

Lemma substr_app_le s t pos n : (pos + n <= length s)%nat -> substr (s ++ t) pos n = substr s pos n.
Proof.
  intros. unfold substr. rewrite drop_app_le by lia. rewrite take_app_le; [done|].
  rewrite length_drop. lia.
Qed.

Lemma substr_cons s pos n :
  (pos < length s)%nat -> substr s pos (S n) = byte_at s pos :: substr s (S pos) n.
Proof.
  intros H. unfold substr, byte_at. destruct (lookup_lt_is_Some_2 s pos H) as [x Hx].
  by rewrite (drop_S s x pos Hx), Hx.
Qed.

Lemma substr_app_skip s t pos n : substr (s ++ t) (length s + pos) n = substr t pos n.
Proof. unfold substr. by rewrite drop_app_add. Qed.

Lemma substr_all s t : substr (s ++ t) 0 (length s) = s.
Proof. unfold substr. cbn [drop]. apply take_app_length. Qed.

(** A loop over the indices [k, k + n) of a buffer, relative to [off]. *)
Lemma fold_left_index {A} (f : A -> byte -> A) s off k n acc :
  (off + k + n <= length s)%nat ->
  fold_left (fun v i => f v (byte_at s (off + i)%nat)) (seq k n) acc
  = fold_left f (substr s (off + k) n) acc.
Proof.
  revert k acc; induction n as [|n IH]; intros k acc H; [done|].
  rewrite substr_cons by lia. cbn [seq fold_left]. rewrite IH by lia.
  by rewrite <- plus_n_Sm.
Qed.

Lemma substr_middle (a b c : bytes) : substr (a ++ b ++ c) (length a) (length b) = b.
Proof. unfold substr. by rewrite drop_app_length, take_app_length. Qed.

Lemma starts_with_spec s p : starts_with s p = true <-> exists r, s = p ++ r.
Proof.
  unfold starts_with. rewrite bool_decide_eq_true. split.
  - intros E. exists (drop (length p) s). rewrite <- (take_drop (length p) s) at 1. by rewrite E.
  - intros [r ->]. by rewrite take_app_length.
Qed.

Lemma starts_with_app p r : starts_with (p ++ r) p = true.
Proof. apply starts_with_spec; eauto. Qed.

Lemma ends_with_spec s p : ends_with s p = true <-> exists r, s = r ++ p.
Proof.
  unfold ends_with. rewrite bool_decide_eq_true. split.
  - intros E. exists (take (length s - length p) s).
    rewrite <- (take_drop (length s - length p) s) at 1. by rewrite E.
  - intros [r ->]. rewrite length_app.
    replace (length r + length p - length p)%nat with (length r) by lia.
    by rewrite drop_app_length.
Qed.

(** The first occurrence. *)
Lemma find_spec p s i :
  find p s = Some i <->
  starts_with (drop i s) p = true /\ (i <= length s)%nat /\
  forall j, (j < i)%nat -> starts_with (drop j s) p = false.
Proof.
  revert i; induction s as [|x s IH]; intros i; cbn [find].
  - destruct (starts_with [] p) eqn:E.
    + split; [intros [= <-]; split; [done|]; split; [done|lia]|].
      intros (_ & H & _); cbn in H. f_equal; lia.
    + split; [done|]. intros (H & _). rewrite drop_nil in H. congruence.
  - destruct (starts_with (x :: s) p) eqn:E.
    + split; [intros [= <-]; split; [done|]; split; [lia|lia]|].
      intros (H & _ & Hj). destruct i; [done|]. specialize (Hj 0%nat ltac:(lia)).
      cbn in Hj. congruence.
    + rewrite fmap_Some. split.
      * intros (k & Hk & ->). apply IH in Hk as (H1 & H2 & H3).
        split; [done|]. split; [cbn; lia|]. intros [|j] Hj; [done|]. apply H3; lia.
      * intros (H1 & H2 & H3). destruct i as [|i]; [cbn in H1; congruence|].
        exists i. split; [|done]. apply IH. split; [done|]. split; [cbn in H2; lia|].
        intros j Hj. apply (H3 (S j)). lia.
Qed.

Lemma find_None p s :
  find p s = None <-> forall j, (j <= length s)%nat -> starts_with (drop j s) p = false.
Proof.
  split.
  - intros H. induction s as [|x s IH]; cbn [find] in H.
    + destruct (starts_with [] p) eqn:E; [done|]. intros j _. by rewrite drop_nil.
    + destruct (starts_with (x :: s) p) eqn:E; [done|].
      apply fmap_None in H. intros [|j] Hj; [done|]. apply IH; [done|cbn in Hj; lia].
  - intros H. destruct (find p s) eqn:E; [|done].
    apply find_spec in E as (E1 & E2 & _). rewrite H in E1; [done|lia].
Qed.

Lemma find_Some_app p s i :
  find p s = Some i -> s = take i s ++ p ++ drop (i + length p) s.
Proof.
  intros H. apply find_spec in H as (H & Hi & _). apply starts_with_spec in H as [r Hr].
  rewrite <- drop_drop, Hr, drop_app_length, <- Hr. by rewrite take_drop.
Qed.

Lemma find_length p s i : find p s = Some i -> (i + length p <= length s)%nat.
Proof.
  intros H. pose proof H as H'. apply find_Some_app in H.
  apply find_spec in H' as (_ & Hi & _).
  apply (f_equal length) in H. lens.
Qed.

Lemma contains_spec s p : contains s p = true <-> exists a r, s = a ++ p ++ r.
Proof.
  unfold contains. rewrite bool_decide_eq_true. split.
  - intros [i Hi]. apply find_Some_app in Hi. eauto.
  - intros (a & r & ->). destruct (find p (a ++ p ++ r)) eqn:E; [eauto|].
    exfalso. rewrite find_None in E. specialize (E (length a)).
    rewrite drop_app_length, starts_with_app, length_app in E. by specialize (E ltac:(lia)).
Qed.

(** An occurrence is found, and found no later than where it is known to be. *)
Lemma find_le p a r : exists i, find p (a ++ p ++ r) = Some i /\ (i <= length a)%nat.
Proof.
  destruct (find p (a ++ p ++ r)) as [i|] eqn:E.
  - exists i. split; [done|]. apply find_spec in E as (_ & _ & E).
    destruct (decide (i <= length a)%nat); [done|].
    specialize (E (length a) ltac:(lia)). rewrite drop_app_length, starts_with_app in E. done.
  - exfalso. rewrite find_None in E. specialize (E (length a)).
    rewrite drop_app_length, starts_with_app, length_app in E. by specialize (E ltac:(lia)).
Qed.

(** Appending bytes does not move the first occurrence. *)
Lemma find_app_Some p s t i : find p s = Some i -> find p (s ++ t) = Some i.
Proof.
  intros H. pose proof (find_length _ _ _ H). apply find_spec in H as (H1 & H2 & H3).
  apply find_spec. split; [|split].
  - rewrite drop_app_le by lia. apply starts_with_spec in H1 as [r ->].
    rewrite <- app_assoc. apply starts_with_app.
  - rewrite length_app. lia.
  - intros j Hj. specialize (H3 j Hj). apply not_true_iff_false. intros C.
    apply not_true_iff_false in H3. apply H3. apply starts_with_spec in C as [r Hr].
    rewrite drop_app_le in Hr by lia. apply starts_with_spec.
    exists (drop (length p) (drop j s)).
    rewrite <- (take_drop (length p) (drop j s)) at 1. f_equal.
    apply (f_equal (take (length p))) in Hr.
    rewrite take_app_length, take_app_le in Hr by (rewrite length_drop; lia). done.
Qed.

Lemma find_byte_Some c s i :
  find_byte c s = Some i -> s = take i s ++ c :: drop (S i) s /\ c ∉ take i s.
Proof.
  revert i; induction s as [|x s IH]; intros i; cbn; [done|].
  case_decide; [intros [= <-]; subst; cbn; split; [done|apply not_elem_of_nil]|].
  rewrite fmap_Some. intros (j & Hj & ->). destruct (IH _ Hj) as [E N]. cbn.
  split; [by f_equal|]. by apply not_elem_of_cons.
Qed.

Lemma find_byte_app c a r : c ∉ a -> find_byte c (a ++ c :: r) = Some (length a).
Proof.
  induction a as [|x a IH]; cbn; intros H.
  - by rewrite decide_True.
  - apply not_elem_of_cons in H as [H1 H2]. rewrite decide_False by done. by rewrite IH.
Qed.

Lemma find_byte_None c s : find_byte c s = None <-> c ∉ s.
Proof.
  induction s as [|x s IH]; cbn; [by split; [intros; apply not_elem_of_nil|]|].
  rewrite not_elem_of_cons. case_decide as D; [split; [done | by intros [? _]]|].
  rewrite fmap_None, IH. split; [by intros; split; [congruence|] | by intros [_ ?]].
Qed.

Lemma find_byte_lt c s i : find_byte c s = Some i -> (i < length s)%nat.
Proof.
  intros H. apply find_byte_Some in H as [E _]. apply (f_equal length) in E. lens.
Qed.

(** ** Trimming *)

Fixpoint drop_while (p : byte -> bool) (s : bytes) : bytes :=
  match s with
  | [] => []
  | x :: s' => if p x then drop_while p s' else s
  end.

Definition trim (value : bytes) : bytes :=
  reverse (drop_while isspace (reverse (drop_while isspace value))).

(** Neither end of the string is white space. *)
Definition trimmed (s : bytes) : Prop :=
  (forall c, head s = Some c -> isspace c = false) /\
  (forall c, last s = Some c -> isspace c = false).

Lemma drop_while_suffix p s : exists a, s = a ++ drop_while p s /\ Forall (fun c => p c = true) a.
Proof.
  induction s as [|x s (a & E & F)]; [by exists []|]. cbn.
  destruct (p x) eqn:Px.
  - exists (x :: a). split; [cbn; by rewrite <- E | by constructor].
  - by exists [].
Qed.

Lemma drop_while_head p s c : head (drop_while p s) = Some c -> p c = false.
Proof.
  induction s as [|x s IH]; cbn; [done|]. destruct (p x) eqn:Px; [done|].
  cbn. by intros [= <-].
Qed.

Lemma drop_while_id p s : (forall c, head s = Some c -> p c = false) -> drop_while p s = s.
Proof. destruct s as [|x s]; [done|]. cbn. intros H. by rewrite (H x eq_refl). Qed.

Lemma trim_trimmed s : trimmed (trim s).
Proof.
  unfold trim. set (a := drop_while isspace s).
  destruct (drop_while_suffix isspace (reverse a)) as (b & E & _).
  split; intros c H.
  - apply (drop_while_head isspace s). fold a.
    apply (f_equal reverse) in E. rewrite reverse_involutive, reverse_app in E. rewrite E.
    destruct (reverse (drop_while isspace (reverse a))); [done|]. exact H.
  - rewrite last_reverse in H. by apply drop_while_head in H.
Qed.

Lemma trimmed_trim s : trimmed s -> trim s = s.
Proof.
  intros [H1 H2]. unfold trim. rewrite (drop_while_id _ s) by done.
  rewrite drop_while_id by (intros c; rewrite head_reverse; apply H2).
  apply reverse_involutive.
Qed.

Lemma trim_idem s : trim (trim s) = trim s.
Proof. apply trimmed_trim, trim_trimmed. Qed.

(** [trim] returns a contiguous part of its argument. *)
Lemma trim_infix s : exists a b, s = a ++ trim s ++ b.
Proof.
  unfold trim. destruct (drop_while_suffix isspace s) as (a & E & _).
  destruct (drop_while_suffix isspace (reverse (drop_while isspace s))) as (b & E' & _).
  exists a, (reverse b). rewrite E at 1. f_equal.
  rewrite <- reverse_app, <- E'. by rewrite reverse_involutive.
Qed.

Lemma trim_elem_of s c : c ∈ trim s -> c ∈ s.
Proof. destruct (trim_infix s) as (a & b & E). rewrite E at 2. set_solver. Qed.

Lemma trim_nil : trim [] = [].
Proof. done. Qed.

(** Surrounding white space disappears. *)
Lemma trim_spaces a s b :
  Forall (fun c => isspace c = true) a -> Forall (fun c => isspace c = true) b ->
  trimmed s -> trim (a ++ s ++ b) = s.
Proof.
  intros Ha Hb [Hs1 Hs2].
  assert (D : forall u v, Forall (fun c => isspace c = true) u ->
            drop_while isspace (u ++ v) = drop_while isspace v).
  { induction 1 as [|x u Hx _ IH]; [done|]. cbn. by rewrite Hx. }
  unfold trim. rewrite D by done. destruct s as [|x s].
  - cbn [app]. rewrite <- (app_nil_r b), D by done. done.
  - assert (Hx : isspace x = false) by by apply Hs1.
    cbn [app drop_while]. rewrite Hx.
    change (x :: s ++ b) with ((x :: s) ++ b). rewrite reverse_app, D by by apply Forall_reverse.
    rewrite drop_while_id; [apply reverse_involutive|].
    intros c. rewrite head_reverse. apply Hs2.
Qed.

(** ** Lines and words *)

(** [std::getline(input, line, delimiter)] on the unread part of a stream:
    it fails on an exhausted stream, otherwise it extracts up to the
    delimiter, which it drops. *)
Definition getline (delimiter : byte) (input : bytes) : option (bytes * bytes) :=
  match input with
  | [] => None
  | _ => match find_byte delimiter input with
         | Some i => Some (take i input, drop (S i) input)
         | None => Some (input, [])
         end
  end.

(** [while (std::getline(input, item, delimiter))]: every line in turn;
    [current] is the part of the current line that was already read. *)
Fixpoint getlines_from (delimiter : byte) (current input : bytes) : list bytes :=
  match input with
  | [] => match current with [] => [] | _ => [current] end
  | x :: input' =>
      if decide (x = delimiter) then current :: getlines_from delimiter [] input'
      else getlines_from delimiter (current ++ [x]) input'
  end.

Definition getlines (delimiter : byte) (input : bytes) : list bytes :=
  getlines_from delimiter [] input.

Definition split_delimited (value : bytes) (delimiter : byte) : list bytes :=
  filter (fun item => item <> []) (trim <$> getlines delimiter value).

Definition split_csv (value : bytes) : list bytes := split_delimited value (chr ",").

(** [if (!line.empty() && line.back() == '\r') line.pop_back();] *)
Definition strip_cr (line : bytes) : bytes :=
  match reverse line with
  | c :: l => if decide (c = CR) then reverse l else line
  | [] => line
  end.

(** [in >> a >> b >> ...]: the words of a line; [current] as above. *)
Fixpoint words_from (current input : bytes) : list bytes :=
  match input with
  | [] => match current with [] => [] | _ => [current] end
  | x :: input' =>
      if isspace x
      then match current with [] => [] | _ => [current] end ++ words_from [] input'
      else words_from (current ++ [x]) input'
  end.

Definition words (input : bytes) : list bytes := words_from [] input.

Lemma getlines_from_app d cur l r :
  d ∉ l -> getlines_from d cur (l ++ d :: r) = (cur ++ l) :: getlines_from d [] r.
Proof.
  revert cur; induction l as [|x l IH]; intros cur H; cbn.
  - by rewrite decide_True, app_nil_r.
  - apply not_elem_of_cons in H as [H1 H2]. rewrite decide_False by done.
    rewrite IH by done. by rewrite <- app_assoc.
Qed.

Lemma getlines_from_last d cur l :
  d ∉ l -> getlines_from d cur l = match cur ++ l with [] => [] | x => [x] end.
Proof.
  revert cur; induction l as [|x l IH]; intros cur H; cbn.
  - rewrite app_nil_r. by destruct cur.
  - apply not_elem_of_cons in H as [H1 H2]. rewrite decide_False by done.
    rewrite IH by done. by rewrite <- app_assoc.
Qed.

(** The loop is [getline] repeated. *)
Lemma getlines_getline d s :
  getlines d s = match getline d s with
                 | None => []
                 | Some (line, rest) => line :: getlines d rest
                 end.
Proof.
  unfold getlines, getline. destruct s as [|x s]; [done|].
  destruct (find_byte d (x :: s)) as [i|] eqn:E.
  - apply find_byte_Some in E as [E N]. rewrite E at 1. by rewrite getlines_from_app.
  - apply find_byte_None in E. by rewrite getlines_from_last.
Qed.

Lemma getline_app d l r : d ∉ l -> getline d (l ++ d :: r) = Some (l, r).
Proof.
  intros H. unfold getline. rewrite find_byte_app by done.
  destruct (l ++ d :: r) eqn:E; [by destruct l|]. rewrite <- E.
  rewrite take_app_length. f_equal. f_equal.
  replace (S (length l)) with (length (l ++ [d])) by (rewrite length_app; cbn; lia).
  by rewrite (cons_middle d l r), (app_assoc l [d] r), drop_app_length.
Qed.

(** Every call shortens the stream. *)
Lemma getline_shorter d s l r : getline d s = Some (l, r) -> (length r < length s)%nat.
Proof.
  unfold getline. destruct s as [|x s]; [done|].
  destruct (find_byte d (x :: s)) as [i|] eqn:E; intros [= <- <-]; cbn; [|lia].
  rewrite length_drop. lia.
Qed.

Lemma getline_no_delim d s l r : getline d s = Some (l, r) -> d ∉ l.
Proof.
  unfold getline. destruct s as [|x s]; [done|].
  destruct (find_byte d (x :: s)) as [i|] eqn:E; intros [= <- <-].
  - by apply find_byte_Some in E as [_ ?].
  - by apply find_byte_None.
Qed.

Lemma getlines_no_delim d s l : l ∈ getlines d s -> d ∉ l.
Proof.
  unfold getlines. assert (G : forall cur, d ∉ cur -> l ∈ getlines_from d cur s -> d ∉ l).
  { induction s as [|x s IH]; intros cur Hc; cbn.
    - destruct cur; [set_solver|]. intros ->%list_elem_of_singleton. done.
    - case_decide.
      + intros [->|?]%elem_of_cons; [done|]. by apply (IH []); [apply not_elem_of_nil|].
      + apply IH. set_solver. }
  apply (G []), not_elem_of_nil.
Qed.

(** A line is part of the text. *)
Lemma getlines_elem_of d s l c : l ∈ getlines d s -> c ∈ l -> c ∈ s.
Proof.
  unfold getlines. enough (G : forall cur, l ∈ getlines_from d cur s -> c ∈ l -> c ∈ cur ++ s) by apply (G []).
  induction s as [|x v IH]; intros cur; cbn.
  - destruct cur; [by intros ?%elem_of_nil|]. rewrite app_nil_r. by intros ->%list_elem_of_singleton.
  - case_decide as D.
    + intros [-> |Hl]%elem_of_cons Hc; [set_solver|]. apply (IH [] Hl) in Hc. set_solver.
    + intros Hl Hc. apply (IH (cur ++ [x]) Hl) in Hc. set_solver.
Qed.

Lemma strip_cr_app l : strip_cr (l ++ [CR]) = l.
Proof. unfold strip_cr. rewrite reverse_snoc. cbn. apply reverse_involutive. Qed.

Lemma strip_cr_id l : last l <> Some CR -> strip_cr l = l.
Proof.
  intros H. unfold strip_cr. destruct (reverse l) as [|c r] eqn:E; [done|].
  case_decide; [|done]. subst. destruct H.
  by rewrite <- (reverse_involutive l), E, reverse_cons, last_snoc.
Qed.

Lemma strip_cr_elem_of l c : c ∈ strip_cr l -> c ∈ l.
Proof.
  unfold strip_cr. destruct (reverse l) as [|x r] eqn:E; [done|]. case_decide; [|done].
  intros Hc. rewrite <- (reverse_involutive l), E, reverse_cons. set_solver.
Qed.

Definition no_space (w : bytes) : Prop := Forall (fun c => isspace c = false) w.

Lemma words_from_space cur x r :
  isspace x = true ->
  words_from cur (x :: r) = match cur with [] => [] | _ => [cur] end ++ words r.
Proof. cbn. by intros ->. Qed.

Lemma words_from_word cur w r :
  no_space w -> words_from cur (w ++ r) = words_from (cur ++ w) r.
Proof.
  revert cur; induction w as [|x w IH]; intros cur H; cbn; [by rewrite app_nil_r|].
  inversion H; subst. rewrite H2, IH by done. by rewrite <- app_assoc.
Qed.

(** Reading the words of a line that starts with a word and a space. *)
Lemma words_cons w x r :
  w <> [] -> no_space w -> isspace x = true -> words (w ++ x :: r) = w :: words r.
Proof.
  intros Hw Hs Hx. unfold words. rewrite words_from_word by done. cbn [app].
  rewrite words_from_space by done. by destruct w.
Qed.

Lemma words_last w : w <> [] -> no_space w -> words w = [w].
Proof.
  intros Hw Hs. unfold words. rewrite <- (app_nil_r w) at 1.
  rewrite words_from_word by done. cbn. by destruct w.
Qed.

(** A space ends a word, wherever it is. *)
Lemma words_from_app_space cur a x b :
  isspace x = true -> words_from cur (a ++ x :: b) = words_from cur a ++ words b.
Proof.
  intros Hx. revert cur; induction a as [|y a IH]; intros cur; cbn [app words_from].
  - rewrite Hx. by destruct cur.
  - destruct (isspace y); [|apply IH]. by rewrite IH, app_assoc.
Qed.

Lemma words_app_space a x b : isspace x = true -> words (a ++ x :: b) = words a ++ words b.
Proof. apply words_from_app_space. Qed.

Lemma words_from_spec cur s :
  no_space cur -> Forall (fun w => w <> [] /\ no_space w) (words_from cur s).
Proof.
  revert cur; induction s as [|x s IH]; intros cur Hc; cbn.
  - destruct cur; [by constructor | by apply Forall_singleton].
  - destruct (isspace x) eqn:E.
    + apply Forall_app; split; [destruct cur; [by constructor | by apply Forall_singleton]|].
      apply IH. constructor.
    + apply IH. apply Forall_app; split; [done|]. by repeat constructor.
Qed.

(** Words are non-empty and without white space. *)
Lemma words_spec s : Forall (fun w => w <> [] /\ no_space w) (words s).
Proof. apply words_from_spec. constructor. Qed.

Lemma words_from_elem_of cur s w c :
  w ∈ words_from cur s -> c ∈ w -> c ∈ cur \/ c ∈ s.
Proof.
  revert cur; induction s as [|x s IH]; intros cur; cbn.
  - destruct cur; [set_solver|]. intros ->%list_elem_of_singleton. by left.
  - destruct (isspace x).
    + intros [H|H]%elem_of_app Hc.
      * destruct cur; [set_solver|]. apply list_elem_of_singleton in H as ->. by left.
      * destruct (IH _ H Hc); set_solver.
    + intros H Hc. destruct (IH _ H Hc); set_solver.
Qed.

(** ** Streams *)

(** [while (std::getline(input, line, delimiter))]: each line, with the part
    of the stream that is still unread once the line was extracted. *)
Fixpoint stream_lines_from (delimiter : byte) (current input : bytes) : list (bytes * bytes) :=
  match input with
  | [] => match current with [] => [] | _ => [(current, [])] end
  | x :: input' =>
      if decide (x = delimiter) then (current, input') :: stream_lines_from delimiter [] input'
      else stream_lines_from delimiter (current ++ [x]) input'
  end.

Definition stream_lines (delimiter : byte) (input : bytes) : list (bytes * bytes) :=
  stream_lines_from delimiter [] input.

(** The parts of a string between the occurrences of a separator. *)
Fixpoint split_byte (separator : byte) (s : bytes) : list bytes :=
  match s with
  | [] => [[]]
  | x :: s' =>
      if decide (x = separator) then [] :: split_byte separator s'
      else match split_byte separator s' with
           | p :: ps => (x :: p) :: ps
           | [] => [[x]]
           end
  end.

Lemma stream_lines_from_app d cur l r :
  d ∉ l -> stream_lines_from d cur (l ++ d :: r) = (cur ++ l, r) :: stream_lines d r.
Proof.
  revert cur; induction l as [|x l IH]; intros cur H; cbn.
  - by rewrite decide_True, app_nil_r.
  - apply not_elem_of_cons in H as [H1 H2]. rewrite decide_False by done.
    rewrite IH by done. by rewrite <- app_assoc.
Qed.

Lemma stream_lines_app d l r : d ∉ l -> stream_lines d (l ++ d :: r) = (l, r) :: stream_lines d r.
Proof. apply stream_lines_from_app. Qed.

Lemma stream_lines_fst d s : fst <$> stream_lines d s = getlines d s.
Proof.
  unfold stream_lines, getlines. generalize (@nil byte).
  induction s as [|x s IH]; intros cur; cbn; [by destruct cur|].
  case_decide; cbn; by rewrite ?IH.
Qed.

(** The unread part is a suffix of the stream. *)
Lemma stream_lines_suffix d s l r : (l, r) ∈ stream_lines d s -> r `suffix_of` s.
Proof.
  unfold stream_lines. generalize (@nil byte) at 1.
  induction s as [|x s IH]; intros cur; cbn.
  - destruct cur; [set_solver|]. intros E%list_elem_of_singleton. injection E as -> ->. done.
  - case_decide.
    + intros [E|E]%elem_of_cons; [injection E as -> ->|apply IH in E]; by apply suffix_cons_r.
    + intros E%IH. by apply suffix_cons_r.
Qed.

Lemma split_byte_nonempty d s : split_byte d s <> [].
Proof. destruct s as [|x s]; cbn; [done|]. case_decide; [done|]. by destruct (split_byte d s). Qed.

Lemma split_byte_app d p s : d ∉ p -> split_byte d (p ++ d :: s) = p :: split_byte d s.
Proof.
  induction p as [|x p IH]; cbn; intros H; [by rewrite decide_True|].
  apply not_elem_of_cons in H as [H1 H2]. rewrite decide_False by done. by rewrite IH.
Qed.

Lemma split_byte_last d p : d ∉ p -> split_byte d p = [p].
Proof.
  induction p as [|x p IH]; cbn; intros H; [done|].
  apply not_elem_of_cons in H as [H1 H2]. rewrite decide_False by done. by rewrite IH.
Qed.

(** [for (start = 0; ; start = end + 2)] with [end = s.find("\r\n", start)]:
    the lines that CRLF ends, and what follows the last of them. *)
Fixpoint crlf_lines_from (current s : bytes) : list bytes * bytes :=
  match s with
  | [] => ([], current)
  | x :: s' =>
      match s' with
      | y :: s'' =>
          if decide (x = CR /\ y = LF)
          then let '(ls, tail) := crlf_lines_from [] s'' in (current :: ls, tail)
          else crlf_lines_from (current ++ [x]) s'
      | [] => crlf_lines_from (current ++ [x]) s'
      end
  end.

Definition crlf_lines (s : bytes) : list bytes * bytes := crlf_lines_from [] s.

Lemma find_cons p x s :
  find p (x :: s) = if starts_with (x :: s) p then Some 0%nat else S <$> find p s.
Proof. done. Qed.

Lemma starts_with_CRLF x y s : starts_with (x :: y :: s) CRLF = bool_decide (x = CR /\ y = LF).
Proof.
  unfold starts_with. cbn [length take]. apply bool_decide_ext. split; [by intros [= -> ->]|].
  by intros [-> ->].
Qed.

(** The splitting is the iterated [find]. *)
Lemma crlf_lines_from_find cur s :
  crlf_lines_from cur s =
  match find CRLF s with
  | None => ([], cur ++ s)
  | Some i => let '(ls, tail) := crlf_lines (drop (i + 2) s) in ((cur ++ take i s) :: ls, tail)
  end.
Proof.
  assert (G : forall n s cur, (length s <= n)%nat ->
    crlf_lines_from cur s =
    match find CRLF s with
    | None => ([], cur ++ s)
    | Some i => let '(ls, tail) := crlf_lines (drop (i + 2) s) in ((cur ++ take i s) :: ls, tail)
    end); [|by apply (G (length s))].
  clear. induction n as [|n IH]; intros s cur Hn.
  { destruct s; [|cbn in Hn; lia]. cbn. by rewrite app_nil_r. }
  destruct s as [|x [|y s]]; [cbn; by rewrite app_nil_r|..].
  - rewrite find_cons. unfold starts_with. by rewrite bool_decide_false by done.
  - cbn [crlf_lines_from]. rewrite find_cons, starts_with_CRLF.
    destruct (decide (x = CR /\ y = LF)) as [C|C].
    + rewrite bool_decide_true by done. cbn [Nat.add drop take]. rewrite app_nil_r. done.
    + rewrite bool_decide_false by done.
      change (crlf_lines_from (cur ++ [x]) (y :: s) = match S <$> find CRLF (y :: s) with
        | None => ([], cur ++ x :: y :: s)
        | Some i => let '(ls, tail) := crlf_lines (drop (i + 2) (x :: y :: s)) in
                    ((cur ++ take i (x :: y :: s)) :: ls, tail) end).
      rewrite IH by (cbn in *; lia).
      destruct (find CRLF (y :: s)) as [i|]; cbn [fmap option_fmap option_map]; [|by rewrite <- app_assoc].
      cbn [Nat.add drop take]. by rewrite <- app_assoc.
Qed.

Lemma crlf_lines_find s :
  crlf_lines s =
  match find CRLF s with
  | None => ([], s)
  | Some i => let '(ls, tail) := crlf_lines (drop (i + 2) s) in (take i s :: ls, tail)
  end.
Proof. apply crlf_lines_from_find. Qed.

Lemma find_from_Some p s pos i :
  find_from p s pos = Some i ->
  (pos <= i)%nat /\ (i + length p <= length s)%nat /\ starts_with (drop i s) p = true /\
  forall j, (pos <= j < i)%nat -> starts_with (drop j s) p = false.
Proof.
  unfold find_from. destruct (Nat.leb_spec pos (length s)); [|done].
  intros (k & Hk & ->)%fmap_Some. pose proof (find_length _ _ _ Hk) as L. rewrite length_drop in L.
  apply find_spec in Hk as (H1 & H2 & H3). split; [lia|]. split; [lia|].
  rewrite drop_drop in H1. split; [done|]. intros j Hj.
  specialize (H3 (j - pos)%nat ltac:(lia)). rewrite drop_drop in H3.
  by replace (pos + (j - pos))%nat with j in H3 by lia.
Qed.

Lemma find_from_app_Some p s t pos i :
  find_from p s pos = Some i -> find_from p (s ++ t) pos = Some i.
Proof.
  unfold find_from. rewrite length_app.
  destruct (Nat.leb_spec pos (length s)); [|done].
  destruct (Nat.leb_spec pos (length s + length t)); [|lia].
  rewrite drop_app_le by done. intros (k & Hk & ->)%fmap_Some.
  by rewrite (find_app_Some p _ _ k).
Qed.

(** The line end after a line without carriage returns. *)
Lemma find_CRLF_app l r : CR ∉ l -> find CRLF (l ++ CRLF ++ r) = Some (length l).
Proof.
  intros H. apply find_spec. split; [|split].
  - rewrite drop_app_length. apply starts_with_app.
  - rewrite length_app. lia.
  - intros j Hj. apply not_true_iff_false. intros (s & E)%starts_with_spec.
    destruct (lookup_lt_is_Some_2 l j Hj) as [x Hx].
    assert (Hd : head (drop j (l ++ CRLF ++ r)) = Some CR) by (by rewrite E).
    rewrite (drop_S _ x j) in Hd by (by rewrite lookup_app_l). injection Hd as ->.
    by apply H, (list_elem_of_lookup_2 l j).
Qed.

Lemma find_from_CRLF pre l r :
  CR ∉ l -> find_from CRLF (pre ++ l ++ CRLF ++ r) (length pre) = Some (length pre + length l)%nat.
Proof.
  intros H. unfold find_from. rewrite drop_app_length, find_CRLF_app by done.
  rewrite length_app. by destruct (Nat.leb_spec (length pre) (length pre + length (l ++ CRLF ++ r))); [|lia].
Qed.

Lemma substr_infix s pos n : exists a b, s = a ++ substr s pos n ++ b.
Proof.
  exists (take pos s), (drop n (drop pos s)). unfold substr. by rewrite take_drop, take_drop.
Qed.

Lemma crlf_lines_app l s :
  CR ∉ l -> crlf_lines (l ++ CRLF ++ s) = (l :: (crlf_lines s).1, (crlf_lines s).2).
Proof.
  intros H. rewrite crlf_lines_find, find_CRLF_app by done.
  rewrite take_app_length. replace (length l + 2)%nat with (length (l ++ CRLF)) by (rewrite length_app; done).
  rewrite app_assoc, drop_app_length. by destruct (crlf_lines s).
Qed.

(** A block of lines, each ended by CRLF. *)
Definition unlines (ls : list bytes) : bytes := ls ≫= fun l => l ++ CRLF.

Lemma unlines_cons l ls : unlines (l :: ls) = l ++ CRLF ++ unlines ls.
Proof. unfold unlines. cbn [mbind list_bind]. by rewrite <- app_assoc. Qed.

Lemma unlines_app a b : unlines (a ++ b) = unlines a ++ unlines b.
Proof. apply bind_app. Qed.

Lemma crlf_lines_unlines ls s :
  Forall (fun l => CR ∉ l) ls -> crlf_lines (unlines ls ++ s) = (ls ++ (crlf_lines s).1, (crlf_lines s).2).
Proof.
  induction 1 as [|l ls H _ IH]; [change (unlines [] ++ s) with s; by destruct (crlf_lines s)|].
  rewrite unlines_cons, <- !app_assoc, crlf_lines_app, IH by done. done.
Qed.

(** The blank line after a block of non-empty lines is found where it is. *)
Lemma find_CRLF2_unlines ls l s :
  Forall (fun l => CR ∉ l /\ l <> []) (ls ++ [l]) ->
  find CRLF2 (unlines ls ++ l ++ CRLF2 ++ s) = Some (length (unlines ls ++ l)).
Proof.
  intros F. apply Forall_app in F as [F [[Hl Hn] _]%Forall_cons_1].
  induction F as [|l0 ls [H0 Hn0] F IH].
  - change (unlines [] ++ l ++ CRLF2 ++ s) with (l ++ CRLF2 ++ s). change (unlines [] ++ l) with l.
    apply find_spec. split; [|split].
    + rewrite drop_app_length. exact (starts_with_app CRLF2 s).
    + rewrite length_app. lia.
    + intros j Hj. apply not_true_iff_false. intros (u & E)%starts_with_spec.
      destruct (lookup_lt_is_Some_2 l j Hj) as [x Hx].
      assert (Hd : head (drop j (l ++ CRLF2 ++ s)) = Some CR) by (by rewrite E).
      rewrite (drop_S _ x j) in Hd by (by rewrite lookup_app_l). injection Hd as ->.
      by apply Hl, (list_elem_of_lookup_2 l j).
  - rewrite unlines_cons, <- !app_assoc.
    set (t := unlines ls ++ l ++ CRLF2 ++ s) in *.
    apply find_spec in IH as (I1 & I2 & I3). apply find_spec.
    assert (D : forall j, drop (length l0 + 2 + j) (l0 ++ CRLF ++ t) = drop j t).
    { intros j. rewrite app_assoc. replace (length l0 + 2 + j)%nat with (length (l0 ++ CRLF) + j)%nat
        by (rewrite length_app; done). apply drop_app_add. }
    assert (Le : length (l0 ++ CRLF ++ unlines ls ++ l) = (length l0 + 2 + length (unlines ls ++ l))%nat)
      by (rewrite app_assoc, length_app, length_app; done).
    rewrite Le, D. split; [done|]. split; [rewrite app_assoc, (length_app (l0 ++ CRLF)), (length_app l0); cbn [length]; lia|].
    intros j Hj. destruct (decide (length l0 + 2 <= j)%nat) as [G|G].
    { replace j with (length l0 + 2 + (j - (length l0 + 2)))%nat by lia. rewrite D. apply I3. lia. }
    apply not_true_iff_false. intros (u & E)%starts_with_spec.
    assert (Hd : (l0 ++ CRLF ++ t) !! j = Some CR).
    { rewrite <- (Nat.add_0_r j), <- lookup_drop, E. done. }
    assert (Hd2 : (l0 ++ CRLF ++ t) !! (j + 2)%nat = Some CR) by (rewrite <- lookup_drop, E; done).
    destruct (decide (j < length l0)%nat).
    { rewrite lookup_app_l in Hd by done. by apply H0, (list_elem_of_lookup_2 l0 j). }
    rewrite lookup_app_r in Hd, Hd2 by lia.
    destruct (decide (j = length l0)) as [-> |].
    + replace (length l0 + 2 - length l0)%nat with 2%nat in Hd2 by lia. cbn in Hd2.
      assert (Ht : head t = Some CR) by (by destruct t).
      unfold t in Ht. destruct ls as [|l1 ls].
      * cbn [unlines mbind list_bind app] in Ht. destruct l as [|c l]; [done|]. injection Ht as ->. set_solver.
      * apply Forall_cons_1 in F as [[H1 Hn1] _]. rewrite unlines_cons in Ht.
        destruct l1 as [|c l1]; [done|]. injection Ht as ->. set_solver.
    + replace (j - length l0)%nat with 1%nat in Hd by lia. done.
Qed.
