(* ===== verification/Numbers.v ===== *)
(** * Numbers: decimal and hexadecimal text, and percent decoding

    [parse_decimal_size] and [parse_hex_size] with their [std::size_t]
    overflow tests, the printing of integers by [std::to_string] and by a
    stream in [std::hex], the [strtol]/[stoull]/[stoi] conversions, and
    [percent_decode].  The overflow tests are shown to be exact, and
    printing and parsing to be inverse. *)

From S2P Require Import Prelude Text.

(** ** Digits *)

Definition hex_digit (c : byte) : option Z :=
  let v := val c in
  if (48 <=? v) && (v <=? 57) then Some (v - 48)
  else if (97 <=? v) && (v <=? 102) then Some (10 + v - 97)
  else if (65 <=? v) && (v <=? 70) then Some (10 + v - 65)
  else None.

Definition dec_digit (c : byte) : option Z := if isdigit c then Some (val c - 48) else None.

(** The digit loop of both parsers: [base] is 10 or 16, [digit] classifies
    a character, and [parsed > (max - digit) / base] is the overflow test. *)
Fixpoint parse_digits (digit : byte -> option Z) (base parsed : Z) (value : bytes) : option Z :=
  match value with
  | [] => Some parsed
  | ch :: value' =>
      match digit ch with
      | None => None
      | Some d =>
          if (size_max - d) / base <? parsed then None
          else parse_digits digit base (parsed * base + d) value'
      end
  end.

Definition parse_decimal_size (value : bytes) : option Z :=
  match value with
  | [] => None
  | _ => parse_digits dec_digit 10 0 value
  end.

Definition parse_hex_size (value : bytes) : option Z :=
  match value with
  | [] => None
  | _ => parse_digits hex_digit 16 0 value
  end.

(** The value a numeral denotes, without any bound. *)
Fixpoint numeral (digit : byte -> option Z) (base acc : Z) (value : bytes) : option Z :=
  match value with
  | [] => Some acc
  | ch :: value' => d ← digit ch; numeral digit base (acc * base + d) value'
  end.

Section parse_digits.
Context (digit : byte -> option Z) (base : Z).
Context (base_pos : 0 < base).
Context (digit_range : forall c d, digit c = Some d -> 0 <= d < base).

Lemma numeral_ge acc value n : 0 <= acc -> numeral digit base acc value = Some n -> acc <= n.
Proof using base_pos digit_range.
  revert acc; induction value as [|c value IH]; intros acc Ha; cbn; [by intros [= <-]|].
  destruct (digit c) as [d|] eqn:E; [|done]. cbn. intros H.
  apply digit_range in E. apply IH in H; nia.
Qed.

(** The overflow test rejects exactly the numerals above [SIZE_MAX]. *)
Lemma parse_digits_spec acc value :
  0 <= acc <= size_max -> base <= size_max ->
  parse_digits digit base acc value =
  (n ← numeral digit base acc value; if size_max <? n then None else Some n).
Proof using base_pos digit_range.
  intros Ha Hb. revert acc Ha; induction value as [|c value IH]; intros acc Ha; cbn.
  - destruct (Z.ltb_spec size_max acc); [lia|done].
  - destruct (digit c) as [d|] eqn:E; [|done]. cbn.
    pose proof (digit_range _ _ E) as Hd.
    destruct (Z.ltb_spec ((size_max - d) / base) acc) as [L|L].
    + assert (size_max < acc * base + d).
      { pose proof (Z.mul_succ_div_gt (size_max - d) base base_pos). nia. }
      destruct (numeral digit base (acc * base + d) value) as [n|] eqn:N; [|done]. cbn.
      apply numeral_ge in N; [|nia]. by destruct (Z.ltb_spec size_max n); [|lia].
    + pose proof (Z.mul_div_le (size_max - d) base base_pos).
      apply IH. nia.
Qed.
End parse_digits.

Lemma dec_digit_range c d : dec_digit c = Some d -> 0 <= d < 10.
Proof.
  unfold dec_digit, isdigit. destruct (_ && _) eqn:E; [|done].
  intros [= <-]. lia.
Qed.

Lemma hex_digit_range c d : hex_digit c = Some d -> 0 <= d < 16.
Proof. unfold hex_digit. intros H. split_ifs; lia. Qed.

#[export] Hint Resolve dec_digit_range hex_digit_range : rimau.

Lemma parse_decimal_size_spec value n :
  parse_decimal_size value = Some n <->
  value <> [] /\ numeral dec_digit 10 0 value = Some n /\ n <= size_max.
Proof.
  unfold parse_decimal_size. destruct value as [|c value]; [naive_solver|].
  rewrite parse_digits_spec by (eauto with rimau; unfold size_max; lia).
  destruct (numeral _ _ _ _) as [m|]; cbn; [|naive_solver].
  destruct (Z.ltb_spec size_max m); naive_solver lia.
Qed.

Lemma parse_hex_size_spec value n :
  parse_hex_size value = Some n <->
  value <> [] /\ numeral hex_digit 16 0 value = Some n /\ n <= size_max.
Proof.
  unfold parse_hex_size. destruct value as [|c value]; [naive_solver|].
  rewrite parse_digits_spec by (eauto with rimau; unfold size_max; lia).
  destruct (numeral _ _ _ _) as [m|]; cbn; [|naive_solver].
  destruct (Z.ltb_spec size_max m); naive_solver lia.
Qed.

Lemma parse_decimal_size_range value n : parse_decimal_size value = Some n -> 0 <= n <= size_max.
Proof.
  intros (_ & N & ?)%parse_decimal_size_spec.
  apply numeral_ge in N; [lia|lia|eauto with rimau|lia].
Qed.

Lemma parse_hex_size_range value n : parse_hex_size value = Some n -> 0 <= n <= size_max.
Proof.
  intros (_ & N & ?)%parse_hex_size_spec.
  apply numeral_ge in N; [lia|lia|eauto with rimau|lia].
Qed.

(** ** Printing *)

Definition digit_char (d : Z) : byte := if d <? 10 then u8 (48 + d) else u8 (87 + d).

Fixpoint print_digits (fuel : nat) (base n : Z) (acc : bytes) : bytes :=
  match fuel with
  | O => acc
  | S fuel' =>
      let acc' := digit_char (n mod base) :: acc in
      if n <? base then acc' else print_digits fuel' base (n / base) acc'
  end.

(** Unsigned numerals; [log2] digits are enough in every base. *)
Definition print_base (base n : Z) : bytes := print_digits (S (Z.to_nat (Z.log2 n))) base n [].

(** [std::to_string] of a signed integer, and [<<] in [std::dec]. *)
Definition to_string (n : Z) : bytes :=
  if n <? 0 then chr "-" :: print_base 10 (- n) else print_base 10 n.

(** [<<] in [std::hex << std::nouppercase]; a negative 64-bit value prints
    as its two's complement. *)
Definition to_hex (n : Z) : bytes := print_base 16 (u64 n).

Section print_digits.
Context (digit : byte -> option Z) (base : Z).
Context (base_range : 2 <= base).
Context (digit_print : forall d, 0 <= d < base -> digit (digit_char d) = Some d).

Lemma print_digits_acc fuel n acc :
  print_digits fuel base n acc = print_digits fuel base n [] ++ acc.
Proof using.
  revert n acc; induction fuel as [|fuel IH]; intros n acc; cbn; [done|].
  destruct (n <? base); [done|]. rewrite IH, (IH _ [_]). by rewrite <- app_assoc.
Qed.

Lemma numeral_app acc s t :
  numeral digit base acc (s ++ t) = (a ← numeral digit base acc s; numeral digit base a t).
Proof using.
  revert acc; induction s as [|c s IH]; intros acc; cbn; [done|].
  destruct (digit c); cbn; [apply IH|done].
Qed.

Lemma numeral_print_digits fuel n :
  0 <= n -> Z.log2 n < Z.of_nat fuel ->
  numeral digit base 0 (print_digits fuel base n []) = Some n.
Proof using base_range digit_print.
  revert n; induction fuel as [|fuel IH]; intros n Hn Hf.
  { pose proof (Z.log2_nonneg n). lia. }
  cbn [print_digits]. destruct (Z.ltb_spec n base) as [L|L].
  - cbn. rewrite digit_print by (apply Z.mod_pos_bound; lia). cbn.
    f_equal. rewrite Z.mod_small; lia.
  - rewrite print_digits_acc, numeral_app.
    pose proof (Z.div_mod n base ltac:(lia)) as DM.
    assert (0 < n / base) by (apply Z.div_str_pos; lia).
    rewrite IH.
    + cbn. rewrite digit_print by (apply Z.mod_pos_bound; lia). cbn. f_equal. lia.
    + lia.
    + assert (n / base <= n / 2) by (apply Z.div_le_compat_l; lia).
      assert (Z.log2 (n / 2) = Z.log2 n - 1).
      { rewrite <- Z.div2_div, Z.div2_spec, Z.log2_shiftr by lia.
        assert (1 <= Z.log2 n) by (apply (Z.log2_le_mono 2); lia). lia. }
      pose proof (Z.log2_le_mono (n / base) (n / 2)). lia.
Qed.

Lemma numeral_print_base n : 0 <= n -> numeral digit base 0 (print_base base n) = Some n.
Proof using base_range digit_print.
  intros. apply numeral_print_digits; [done|]. pose proof (Z.log2_nonneg n). lia.
Qed.
End print_digits.

Lemma print_base_nonempty base n : print_base base n <> [].
Proof.
  unfold print_base. cbn. destruct (n <? base); [done|].
  rewrite print_digits_acc. by intros [_ ?]%app_nil.
Qed.

Lemma print_digits_Forall (P : byte -> Prop) fuel base n acc :
  0 < base -> (forall d, 0 <= d < base -> P (digit_char d)) -> Forall P acc ->
  Forall P (print_digits fuel base n acc).
Proof.
  intros Hb HP. revert n acc; induction fuel as [|fuel IH]; intros n acc Ha; cbn; [done|].
  assert (Forall P (digit_char (n mod base) :: acc)).
  { constructor; [|done]. apply HP, Z.mod_pos_bound; lia. }
  destruct (n <? base); [done|]. by apply IH.
Qed.

(** A property of all digits of the base, by computation. *)
Lemma digits_forall (P : Z -> bool) (b : Z) :
  forallb P (seqZ 0 b) = true -> forall d, 0 <= d < b -> P d = true.
Proof.
  intros H d Hd. rewrite forallb_forall in H. apply H, list_elem_of_In, elem_of_seqZ. lia.
Qed.

Lemma digits_ext {A} `{EqDecision A} (f g : Z -> A) (b : Z) :
  forallb (fun d => bool_decide (f d = g d)) (seqZ 0 b) = true ->
  forall d, 0 <= d < b -> f d = g d.
Proof.
  intros H d Hd. eapply bool_decide_eq_true_1.
  exact (digits_forall (fun d => bool_decide (f d = g d)) b H d Hd).
Qed.

Lemma dec_digit_print d : 0 <= d < 10 -> dec_digit (digit_char d) = Some d.
Proof.
  apply (digits_ext (fun d => dec_digit (digit_char d)) Some). vm_compute; reflexivity.
Qed.

Lemma hex_digit_print d : 0 <= d < 16 -> hex_digit (digit_char d) = Some d.
Proof.
  apply (digits_ext (fun d => hex_digit (digit_char d)) Some). vm_compute; reflexivity.
Qed.

Lemma digit_char_alnum d : 0 <= d < 16 -> isalnum (digit_char d) = true.
Proof. revert d. apply digits_forall. vm_compute; reflexivity. Qed.

Lemma to_string_alnum n : 0 <= n -> Forall (fun c => isalnum c = true) (to_string n).
Proof.
  intros. unfold to_string. destruct (Z.ltb_spec n 0); [lia|].
  apply print_digits_Forall; [lia| |constructor]. intros; apply digit_char_alnum; lia.
Qed.

Lemma to_hex_alnum n : Forall (fun c => isalnum c = true) (to_hex n).
Proof.
  apply print_digits_Forall; [lia| |constructor]. intros; apply digit_char_alnum; lia.
Qed.

Lemma alnum_not_space c : isalnum c = true -> isspace c = false.
Proof. revert c. intros c. enough (implb (isalnum c) (negb (isspace c)) = true) by
  (destruct (isalnum c), (isspace c); done). by_byte c. Qed.

Lemma to_string_nonempty n : to_string n <> [].
Proof. unfold to_string. destruct (n <? 0); [done|]. apply print_base_nonempty. Qed.

Lemma parse_decimal_to_string n :
  0 <= n <= size_max -> parse_decimal_size (to_string n) = Some n.
Proof.
  intros H. apply parse_decimal_size_spec. unfold to_string.
  destruct (Z.ltb_spec n 0); [lia|]. split; [apply print_base_nonempty|]. split; [|lia].
  apply numeral_print_base; [lia|apply dec_digit_print|lia].
Qed.

Lemma parse_hex_to_hex n :
  0 <= n <= size_max -> parse_hex_size (to_hex n) = Some n.
Proof.
  intros H. apply parse_hex_size_spec. unfold to_hex. split; [apply print_base_nonempty|].
  rewrite wrap_small by (unfold size_max in *; lia). split; [|lia].
  apply numeral_print_base; [lia|apply hex_digit_print|lia].
Qed.

Lemma all_alnum_trimmed s : Forall (fun c => isalnum c = true) s -> trimmed s.
Proof.
  intros H. rewrite Forall_forall in H. split; intros c Hc; apply alnum_not_space, H.
  - by apply head_Some_elem_of.
  - by apply last_Some_elem_of.
Qed.

(** ** [strtol], [stoi], [stoull] *)

(** [strtol(hex, &end, 16)] on a two-character string, when it consumes both
    characters ([end == hex + 2]): two digits, or one digit after a white
    space or a sign. *)
Definition strtol_pair (a b : byte) : option Z :=
  lo ← hex_digit b;
  match hex_digit a with
  | Some hi => Some (hi * 16 + lo)
  | None =>
      if isspace a || bool_decide (a = chr "+") then Some lo
      else if bool_decide (a = chr "-") then Some (- lo)
      else None
  end.

(** The numeral at the front of a string in base 10: white space, an
    optional sign, digits; with the number of characters consumed. *)
Fixpoint leading_digits (acc : Z) (n : nat) (s : bytes) : Z * nat :=
  match s with
  | [] => (acc, n)
  | c :: s' => match dec_digit c with
               | Some d => leading_digits (acc * 10 + d) (S n) s'
               | None => (acc, n)
               end
  end.

Definition leading_number (s : bytes) : option (bool * Z * nat) :=
  let s1 := drop_while isspace s in
  let '(neg, s2) := match s1 with
                    | c :: s' => if decide (c = chr "-") then (true, s')
                                 else if decide (c = chr "+") then (false, s') else (false, s1)
                    | [] => (false, [])
                    end in
  let '(v, n) := leading_digits 0 0 s2 in
  if (n =? 0)%nat then None
  else Some (neg, v, (length s - length s2 + n)%nat).

Definition invalid_argument : string := "std::invalid_argument".

(** [std::stoi(value, &consumed)]; [int] has 32 bits. *)
Definition stoi (value : bytes) : outcome (Z * nat) :=
  match leading_number value with
  | None => Raise invalid_argument
  | Some (neg, v, n) =>
      let v := if neg then - v else v in
      if (v <? - 2 ^ 31) || (2 ^ 31 - 1 <? v) then Raise out_of_range else Ret (v, n)
  end.

(** [std::stoull(value, &consumed)]: a leading minus negates modulo [2^64]. *)
Definition stoull (value : bytes) : outcome (Z * nat) :=
  match leading_number value with
  | None => Raise invalid_argument
  | Some (neg, v, n) =>
      if size_max <? v then Raise out_of_range
      else Ret (if neg then u64 (- v) else v, n)
  end.

(** ** Percent decoding *)

Fixpoint percent_decode (value : bytes) (plus_as_space : bool) : bytes :=
  let plain ch := if bool_decide (ch = chr "+") && plus_as_space then SP else ch in
  match value with
  | [] => []
  | ch :: rest =>
      match rest with
      | a :: b :: rest' =>
          if decide (ch = chr "%") then
            match strtol_pair a b with
            | Some parsed => u8 parsed :: percent_decode rest' plus_as_space
            | None => plain ch :: percent_decode rest plus_as_space
            end
          else plain ch :: percent_decode rest plus_as_space
      | _ => plain ch :: percent_decode rest plus_as_space
      end
  end.

(** One escaped byte, the way a URL encoder writes it. *)
Definition percent_escape (c : byte) : bytes :=
  [chr "%"; digit_char (val c / 16); digit_char (val c mod 16)].

Lemma percent_decode_escape c s plus :
  percent_decode (percent_escape c ++ s) plus = c :: percent_decode s plus.
Proof.
  unfold percent_escape. cbn [app percent_decode]. rewrite decide_True by done.
  pose proof (val_range c).
  assert (0 <= val c / 16 < 16) by (split; [apply Z.div_pos|apply Z.div_lt_upper_bound]; lia).
  unfold strtol_pair. rewrite !hex_digit_print by (try apply Z.mod_pos_bound; lia).
  cbn. f_equal. rewrite <- (u8_val c) at 3. f_equal.
  pose proof (Z.div_mod (val c) 16). lia.
Qed.

Lemma percent_decode_plain c s plus :
  c <> chr "%" -> c <> chr "+" ->
  percent_decode (c :: s) plus = c :: percent_decode s plus.
Proof.
  intros H1 H2. destruct s as [|a [|b s]]; cbn [percent_decode];
    rewrite ?decide_False, bool_decide_false by done; done.
Qed.

Lemma percent_decode_id s : chr "%" ∉ s -> percent_decode s false = s.
Proof.
  induction s as [|c s IH]; [done|]. intros [H1 H2]%not_elem_of_cons.
  transitivity (c :: percent_decode s false); [|by rewrite IH].
  destruct s as [|a [|b s]]; cbn [percent_decode]; rewrite andb_false_r; try done.
  rewrite decide_False by done. done.
Qed.

Lemma percent_decode_cons c a b s plus :
  percent_decode (c :: a :: b :: s) plus =
  match (if decide (c = chr "%") then strtol_pair a b else None) with
  | Some parsed => u8 parsed :: percent_decode s plus
  | None => (if bool_decide (c = chr "+") && plus then SP else c)
              :: percent_decode (a :: b :: s) plus
  end.
Proof. cbn [percent_decode]. by destruct (decide _). Qed.

Lemma percent_decode_length s plus : (length (percent_decode s plus) <= length s)%nat.
Proof.
  remember (length s) as n eqn:E. assert (L : (length s <= n)%nat) by lia. clear E.
  revert s L; induction n as [|n IH]; intros s L; [by destruct s; [|cbn in L; lia]|].
  destruct s as [|c [|a [|b s]]]; [cbn in *; lia..|]. rewrite percent_decode_cons.
  cbn in L. destruct (if decide _ then _ else _); cbn [length].
  - specialize (IH s). lia.
  - specialize (IH (a :: b :: s)). cbn [length] in IH. lia.
Qed.
