(* ===== verification/Http2Frame.v ===== *)
(** * Http2Frame: the HTTP/2 frame layer

    Models [src/src/protocol/http2_frame.cpp]: the frame header codec, the
    per-type validation shared by the reader and the writer, and the SETTINGS
    payload codec.  Frames are shown to survive a round trip through the wire
    in both directions, and the parser to be insensitive to the bytes that
    follow a frame. *)

From S2P Require Import Prelude Text.

Definition client_connection_preface : bytes :=
  str "PRI * HTTP/2.0" ++ CRLF2 ++ str "SM" ++ CRLF2.
Definition default_max_frame_size : Z := 16 * 1024.
Definition max_allowed_frame_size : Z := 16 * 1024 * 1024 - 1.

Inductive FrameType : Type :=
| data | headers | priority | rst_stream | settings
| push_promise | ping | goaway | window_update | continuation.

#[export] Instance FrameType_eq_dec : EqDecision FrameType.
Proof. solve_decision. Defined.

(** [static_cast<FrameType>]: the enumerator with that value, if any. *)
Definition frame_type (type : byte) : option FrameType :=
  match val type with
  | 0 => Some data | 1 => Some headers | 2 => Some priority | 3 => Some rst_stream
  | 4 => Some settings | 5 => Some push_promise | 6 => Some ping | 7 => Some goaway
  | 8 => Some window_update | 9 => Some continuation
  | _ => None
  end.

Definition frame_type_value (type : FrameType) : byte :=
  u8 match type with
     | data => 0 | headers => 1 | priority => 2 | rst_stream => 3 | settings => 4
     | push_promise => 5 | ping => 6 | goaway => 7 | window_update => 8 | continuation => 9
     end.

Record Frame : Type := mk_frame {
  type : byte;
  flags : byte;
  stream_id : Z;
  payload : bytes;
}.

Record ParseResult : Type := mk_parse_result {
  ok : bool;
  incomplete : bool;
  consumed : nat;
  frame : Frame;
  error : string;
}.

(** [identifier] is the underlying 16-bit value of a [SettingIdentifier]. *)
Record Setting : Type := mk_setting {
  identifier : Z;
  value : Z;
}.

Definition SETTINGS_HEADER_TABLE_SIZE : Z := 1.
Definition SETTINGS_ENABLE_PUSH : Z := 2.
Definition SETTINGS_MAX_CONCURRENT_STREAMS : Z := 3.
Definition SETTINGS_INITIAL_WINDOW_SIZE : Z := 4.
Definition SETTINGS_MAX_FRAME_SIZE : Z := 5.
Definition SETTINGS_MAX_HEADER_LIST_SIZE : Z := 6.

(** ** Integers on the wire *)

Definition read_u24 (b : bytes) : Z :=
  Z.lor (Z.lor (nth_val b 0 ≪ 16) (nth_val b 1 ≪ 8)) (nth_val b 2).

Definition read_u31 (b : bytes) : Z :=
  Z.lor (Z.lor (Z.lor (Z.land (nth_val b 0) 0x7f ≪ 24) (nth_val b 1 ≪ 16))
               (nth_val b 2 ≪ 8)) (nth_val b 3).

Definition read_u32 (b : bytes) (offset : nat) : Z :=
  Z.lor (Z.lor (Z.lor (nth_val b offset ≪ 24) (nth_val b (offset + 1) ≪ 16))
               (nth_val b (offset + 2) ≪ 8)) (nth_val b (offset + 3)).

Definition write_u24 (value : Z) : bytes :=
  [u8 (Z.land (value ≫ 16) 0xff); u8 (Z.land (value ≫ 8) 0xff); u8 (Z.land value 0xff)].

Definition write_u32 (value : Z) : bytes :=
  [u8 (Z.land (value ≫ 24) 0xff); u8 (Z.land (value ≫ 16) 0xff);
   u8 (Z.land (value ≫ 8) 0xff); u8 (Z.land value 0xff)].

(** ** Validation: the error message, empty when the frame is valid *)

Definition has_flag (frame_flags mask : Z) : bool := negb (Z.land frame_flags mask =? 0).

Definition validate_stream_id (type : option FrameType) (stream_id : Z) : string :=
  match type with
  | Some (data | headers | priority | rst_stream | push_promise | continuation) =>
      if stream_id =? 0 then "HTTP/2 stream frame must use a non-zero stream id" else EmptyString
  | Some (settings | ping | goaway) =>
      if negb (stream_id =? 0)
      then "HTTP/2 connection frame must use stream id 0" else EmptyString
  | Some window_update | None => EmptyString
  end.

Definition validate_payload (type : option FrameType) (flags : byte) (payload : bytes) : string :=
  match type with
  | Some settings =>
      if has_flag (val flags) 0x1 && negb (bool_decide (payload = []))
      then "HTTP/2 SETTINGS ack frame must not contain a payload"
      else if negb (size payload mod 6 =? 0)
      then "HTTP/2 SETTINGS payload length must be a multiple of 6"
      else EmptyString
  | Some ping =>
      if negb (size payload =? 8) then "HTTP/2 PING payload length must be 8" else EmptyString
  | Some rst_stream =>
      if negb (size payload =? 4) then "HTTP/2 RST_STREAM payload length must be 4"
      else EmptyString
  | Some goaway =>
      if size payload <? 8 then "HTTP/2 GOAWAY payload length must be at least 8"
      else EmptyString
  | Some window_update =>
      if negb (size payload =? 4) then "HTTP/2 WINDOW_UPDATE payload length must be 4"
      else if Z.land (read_u32 payload 0) 0x7fffffff =? 0
      then "HTTP/2 WINDOW_UPDATE increment must be non-zero"
      else EmptyString
  | _ => EmptyString
  end.

Definition validate_frame (frame : Frame) (max_frame_size : Z) : string :=
  if max_allowed_frame_size <? max_frame_size then "max_frame_size exceeds HTTP/2 maximum"
  else if max_frame_size <? size (payload frame)
  then "HTTP/2 frame payload exceeds configured maximum frame size"
  else
    let t := frame_type (type frame) in
    let stream_error := validate_stream_id t (stream_id frame) in
    if negb (bool_decide (stream_error = EmptyString)) then stream_error
    else validate_payload t (flags frame) (payload frame).

(** ** The frame codec *)

Definition has_client_connection_preface (b : bytes) : bool :=
  starts_with b client_connection_preface.

Definition serialize_frame (frame : Frame) (max_frame_size : Z) : outcome bytes :=
  _ ← throw_if (0x7fffffff <? stream_id frame) "HTTP/2 stream id exceeds 31 bits";
  let validation_error := validate_frame frame max_frame_size in
  _ ← throw_if (negb (bool_decide (validation_error = EmptyString))) validation_error;
  mret (write_u24 (u32 (size (payload frame))) ++ [type frame] ++ [flags frame]
        ++ write_u32 (Z.land (stream_id frame) 0x7fffffff) ++ payload frame).

Definition empty_frame : Frame := mk_frame Byte.x00 Byte.x00 0 [].

Definition parse_frame (b : bytes) (max_frame_size : Z) : ParseResult :=
  if (length b <? 9)%nat then
    mk_parse_result false true 0 empty_frame "incomplete HTTP/2 frame header"
  else if max_allowed_frame_size <? max_frame_size then
    mk_parse_result false false 0 empty_frame "max_frame_size exceeds HTTP/2 maximum"
  else
    let len := read_u24 (substr b 0 3) in
    if max_frame_size <? len then
      mk_parse_result false false 0 empty_frame
        "HTTP/2 frame payload exceeds configured maximum frame size"
    else if size b <? 9 + len then
      mk_parse_result false true 0 empty_frame "incomplete HTTP/2 frame payload"
    else
      let f := mk_frame (byte_at b 3) (byte_at b 4) (read_u31 (substr b 5 4))
                        (substr b 9 (Z.to_nat len)) in
      let consumed := (9 + Z.to_nat len)%nat in
      let validation_error := validate_frame f max_frame_size in
      if negb (bool_decide (validation_error = EmptyString))
      then mk_parse_result false false consumed f validation_error
      else mk_parse_result true false consumed f EmptyString.

(** ** SETTINGS payloads *)

Definition serialize_setting (s : Setting) : bytes :=
  let identifier := wrap 16 (identifier s) in
  [u8 (Z.land (identifier ≫ 8) 0xff); u8 (Z.land identifier 0xff)] ++ write_u32 (value s).

Definition serialize_settings_payload (l : list Setting) : bytes := l ≫= serialize_setting.

(** The loop body for the six bytes at [offset]. *)
Definition parse_setting (payload : bytes) (offset : nat) : Setting :=
  mk_setting (Z.lor (nth_val payload offset ≪ 8) (nth_val payload (offset + 1)))
             (read_u32 payload (offset + 2)).

(** [for (offset = 0; offset < payload.size(); offset += 6)] *)
Definition parse_settings_payload (payload : bytes) : outcome (list Setting) :=
  _ ← throw_if (negb (size payload mod 6 =? 0))
        "HTTP/2 SETTINGS payload length must be a multiple of 6";
  mret ((fun i => parse_setting payload (6 * i)) <$> seq 0 (length payload / 6)).

(** ** Wire integers are inverse *)

Lemma read_u24_eq a b c r :
  read_u24 (a :: b :: c :: r) = val a * 65536 + val b * 256 + val c.
Proof.
  unfold read_u24, byte_at. cbn [lookup list_lookup default from_option id].
  pose proof (val_range a). pose proof (val_range b). pose proof (val_range c).
  rewrite (shiftl_lor_add 16), Z.shiftl_mul_pow2 by (rewrite ?Z.shiftl_mul_pow2; lia).
  replace (val a * 2 ^ 16 + val b * 2 ^ 8) with ((val a * 256 + val b) * 2 ^ 8) by lia.
  rewrite lor_add; lia.
Qed.

Lemma be32_eq a b c d :
  0 <= b < 256 -> 0 <= c < 256 -> 0 <= d < 256 ->
  Z.lor (Z.lor (Z.lor (a ≪ 24) (b ≪ 16)) (c ≪ 8)) d = a * 2 ^ 24 + b * 2 ^ 16 + c * 2 ^ 8 + d.
Proof.
  intros. rewrite !Z.shiftl_mul_pow2 by lia. rewrite (lor_add 24) by lia.
  replace (a * 2 ^ 24 + b * 2 ^ 16) with ((a * 256 + b) * 2 ^ 16) by lia.
  rewrite (lor_add 16) by lia.
  replace ((a * 256 + b) * 2 ^ 16 + c * 2 ^ 8) with (((a * 256 + b) * 256 + c) * 2 ^ 8) by lia.
  rewrite (lor_add 8); lia.
Qed.

Lemma read_u31_eq a b c d r :
  read_u31 (a :: b :: c :: d :: r)
  = (val a mod 128) * 2 ^ 24 + val b * 2 ^ 16 + val c * 2 ^ 8 + val d.
Proof.
  unfold read_u31. rewrite be32_eq by apply val_range.
  by rewrite (land_mask 7) by lia.
Qed.

Lemma read_u32_at b i :
  read_u32 b i = nth_val b i * 2 ^ 24 + nth_val b (i + 1) * 2 ^ 16
                 + nth_val b (i + 2) * 2 ^ 8 + nth_val b (i + 3).
Proof. unfold read_u32. apply be32_eq; apply val_range. Qed.

Lemma read_u32_range b i : 0 <= read_u32 b i < 2 ^ 32.
Proof.
  rewrite read_u32_at.
  pose proof (val_range (byte_at b i)). pose proof (val_range (byte_at b (i + 1))).
  pose proof (val_range (byte_at b (i + 2))). pose proof (val_range (byte_at b (i + 3))). lia.
Qed.

Lemma read_u31_range b : 0 <= read_u31 b < 2 ^ 31.
Proof.
  unfold read_u31. rewrite be32_eq by apply val_range. rewrite (land_mask 7) by lia.
  pose proof (Z.mod_pos_bound (val (byte_at b 0)) (2 ^ 7) ltac:(lia)).
  pose proof (val_range (byte_at b 1)). pose proof (val_range (byte_at b 2)).
  pose proof (val_range (byte_at b 3)). lia.
Qed.

Lemma read_u24_range b : 0 <= read_u24 b < 2 ^ 24.
Proof.
  pose proof (read_u24_eq (byte_at b 0) (byte_at b 1) (byte_at b 2) []) as E.
  pose proof (val_range (byte_at b 0)). pose proof (val_range (byte_at b 1)).
  pose proof (val_range (byte_at b 2)).
  change (read_u24 [byte_at b 0; byte_at b 1; byte_at b 2]) with (read_u24 b) in E. lia.
Qed.

Lemma read_write_u24 v r : 0 <= v < 2 ^ 24 -> read_u24 (write_u24 v ++ r) = v.
Proof.
  intros. unfold write_u24. cbn [app]. rewrite read_u24_eq, !u8_shiftr_land, u8_land_0xff by lia.
  rewrite !val_u8. Z.div_mod_to_equations. lia.
Qed.

Lemma read_write_u31 v r : 0 <= v < 2 ^ 31 -> read_u31 (write_u32 v ++ r) = v.
Proof.
  intros. unfold write_u32. cbn [app]. rewrite read_u31_eq, !u8_shiftr_land, u8_land_0xff by lia.
  rewrite !val_u8. Z.div_mod_to_equations. lia.
Qed.

Lemma read_write_u32 v r : 0 <= v < 2 ^ 32 -> read_u32 (write_u32 v ++ r) 0 = v.
Proof.
  intros. unfold write_u32. cbn [app]. rewrite read_u32_at. cbn [byte_at lookup list_lookup].
  unfold byte_at. cbn [Nat.add lookup list_lookup default from_option id].
  rewrite !u8_shiftr_land, u8_land_0xff by lia.
  rewrite !val_u8. Z.div_mod_to_equations. lia.
Qed.

(** ** The frame round trip *)

(** A frame on the wire: 24-bit length, type, flags, reserved bit with the
    31-bit stream identifier, payload. *)
Definition wire (f : Frame) : bytes :=
  write_u24 (size (payload f)) ++ [type f] ++ [flags f]
  ++ write_u32 (stream_id f) ++ payload f.

(** What validation guarantees about sizes. *)
Lemma validate_frame_size f max :
  validate_frame f max = EmptyString ->
  size (payload f) <= max /\ max <= max_allowed_frame_size.
Proof. unfold validate_frame. intros H. split_ifs; lia. Qed.

Lemma serialize_frame_Ret f max out :
  0 <= stream_id f ->
  serialize_frame f max = Ret out <->
  stream_id f < 2 ^ 31 /\ validate_frame f max = EmptyString /\ out = wire f.
Proof.
  intros Hs. unfold serialize_frame. rewrite bind_Ret.
  setoid_rewrite throw_if_Ret. setoid_rewrite bind_Ret. setoid_rewrite throw_if_Ret.
  setoid_rewrite negb_false_iff. setoid_rewrite bool_decide_eq_true.
  assert (W : 0 <= stream_id f < 2 ^ 31 -> validate_frame f max = EmptyString ->
    write_u24 (u32 (size (payload f))) ++ [type f] ++ [flags f]
     ++ write_u32 (Z.land (stream_id f) 0x7fffffff) ++ payload f = wire f).
  { intros ? V%validate_frame_size. unfold wire, max_allowed_frame_size in *.
    by rewrite (land_mask 31), Z.mod_small, wrap_small by lia. }
  split.
  - intros (_ & ? & _ & V & [= <-]). split; [lia|]. split; [done|]. apply W; [lia|done].
  - intros (? & V & ->). exists tt. split; [lia|]. exists tt. split; [done|].
    unfold mret, outcome_ret. by rewrite W by (done || lia).
Qed.

Lemma length_wire f : length (wire f) = (9 + length (payload f))%nat.
Proof. done. Qed.

Lemma parse_wire f max rest :
  0 <= stream_id f < 2 ^ 31 -> validate_frame f max = EmptyString ->
  parse_frame (wire f ++ rest) max
  = mk_parse_result true false (length (wire f)) f EmptyString.
Proof.
  intros Hs V. pose proof (validate_frame_size _ _ V) as [H1 H2].
  unfold max_allowed_frame_size in *.
  set (n := length (payload f)) in *.
  assert (L : (length (wire f ++ rest) = 9 + n + length rest)%nat)
    by (rewrite length_app; done).
  assert (E : read_u24 (substr (wire f ++ rest) 0 3) = Z.of_nat n).
  { change (substr (wire f ++ rest) 0 3) with (write_u24 (Z.of_nat n) ++ []).
    apply read_write_u24. lia. }
  assert (F : mk_frame (byte_at (wire f ++ rest) 3) (byte_at (wire f ++ rest) 4)
                (read_u31 (substr (wire f ++ rest) 5 4)) (substr (wire f ++ rest) 9 n) = f).
  { change (substr (wire f ++ rest) 5 4) with (write_u32 (stream_id f) ++ []).
    change (substr (wire f ++ rest) 9 n) with (take n (payload f ++ rest)).
    rewrite read_write_u31 by lia. unfold n. rewrite take_app_length. by destruct f. }
  unfold parse_frame. rewrite L, E, Nat2Z.id, F, V, length_wire.
  destruct (Nat.ltb_spec (9 + n + length rest) 9); [lia|].
  unfold max_allowed_frame_size.
  destruct (Z.ltb_spec (16 * 1024 * 1024 - 1) max); [lia|].
  destruct (Z.ltb_spec max (Z.of_nat n)); [lia|].
  destruct (Z.ltb_spec (Z.of_nat (9 + n + length rest)) (9 + Z.of_nat n)); [lia|]. done.
Qed.

(** What a successful parse says about its input. *)
Lemma parse_frame_ok b max :
  ok (parse_frame b max) = true ->
  let r := parse_frame b max in
  9 + read_u24 (substr b 0 3) <= size b /\ validate_frame (frame r) max = EmptyString /\
  consumed r = (9 + length (payload (frame r)))%nat /\ (consumed r <= length b)%nat /\
  frame r = mk_frame (byte_at b 3) (byte_at b 4) (read_u31 (substr b 5 4))
                     (substr b 9 (Z.to_nat (read_u24 (substr b 0 3)))).
Proof.
  unfold parse_frame. pose proof (read_u24_range (substr b 0 3)).
  destruct (Nat.ltb_spec (length b) 9); [done|].
  destruct (_ <? max); [done|]. destruct (max <? _); [done|].
  destruct (Z.ltb_spec (size b) (9 + read_u24 (substr b 0 3))); [done|].
  case_bool_decide as V; [|done]. intros _. cbn.
  split; [lia|]. split; [done|]. rewrite length_substr. split; [lia|]. split; [lia|done].
Qed.

(** Clearing the reserved bit of the stream identifier. *)
Definition clear_reserved (b : bytes) : bytes :=
  take 5 b ++ u8 (val (byte_at b 5) mod 128) :: drop 6 b.

Lemma nine_bytes (b : bytes) :
  (9 <= length b)%nat ->
  exists b0 b1 b2 b3 b4 b5 b6 b7 b8 r, b = b0::b1::b2::b3::b4::b5::b6::b7::b8::r.
Proof.
  intros H. do 9 (destruct b as [|? b]; [cbn in H; lia|]). repeat eexists.
Qed.

Lemma write_read_u24 a b c r : write_u24 (read_u24 (a :: b :: c :: r)) = [a; b; c].
Proof.
  unfold write_u24. rewrite read_u24_eq, !u8_shiftr_land, u8_land_0xff by lia.
  pose proof (val_range a). pose proof (val_range b). pose proof (val_range c).
  f_equal; [|f_equal; [|f_equal]]; apply (inj val); rewrite val_u8; Z.div_mod_to_equations; lia.
Qed.

Lemma write_read_u31 a b c d r :
  write_u32 (read_u31 (a :: b :: c :: d :: r)) = [u8 (val a mod 128); b; c; d].
Proof.
  unfold write_u32. rewrite read_u31_eq, !u8_shiftr_land, u8_land_0xff by lia.
  pose proof (val_range a). pose proof (val_range b). pose proof (val_range c).
  pose proof (val_range d).
  f_equal; [|f_equal; [|f_equal; [|f_equal]]]; apply (inj val); rewrite ?val_u8;
    Z.div_mod_to_equations; lia.
Qed.

Lemma wire_parse b max :
  ok (parse_frame b max) = true ->
  wire (frame (parse_frame b max)) = clear_reserved (take (consumed (parse_frame b max)) b).
Proof.
  intros H. apply parse_frame_ok in H as (L & V & C & Cl & F).
  rewrite C. set (r := parse_frame b max) in *. clearbody r.
  assert (P : size (payload (frame r)) = read_u24 (substr b 0 3)).
  { rewrite F. cbn [payload]. pose proof (read_u24_range (substr b 0 3)).
    rewrite length_substr. lia. }
  unfold wire. rewrite P. rewrite F at 1 2 3 4. cbn [type flags stream_id payload].
  assert (N : Z.to_nat (read_u24 (substr b 0 3)) = length (payload (frame r))) by lia.
  rewrite N. clear -L.
  destruct (nine_bytes b ltac:(pose proof (read_u24_range (substr b 0 3)); lia)) as (b0&b1&b2&b3&b4&b5&b6&b7&b8&t&->). unfold substr.
  cbn [drop take Nat.add]. rewrite write_read_u24, write_read_u31. done.
Qed.

(** ** SETTINGS payloads *)

Definition wf_setting (s : Setting) : Prop :=
  0 <= identifier s < 2 ^ 16 /\ 0 <= value s < 2 ^ 32.

Lemma length_serialize_settings l :
  length (serialize_settings_payload l) = (6 * length l)%nat.
Proof.
  induction l as [|s l IH]; [done|].
  change (serialize_settings_payload (s :: l)) with (serialize_setting s ++ serialize_settings_payload l).
  rewrite length_app, IH. change (length (serialize_setting s)) with 6%nat. cbn [length]. lia.
Qed.

Lemma parse_setting_app payload p i :
  length p = 6%nat -> parse_setting (p ++ payload) (6 + i) = parse_setting payload i.
Proof.
  intros L. unfold parse_setting, read_u32, byte_at.
  rewrite <- L, <- !Nat.add_assoc, !lookup_app_r by lia.
  rewrite !(Nat.add_comm (length p)), !Nat.add_sub. done.
Qed.

Lemma be16_eq a b : 0 <= b < 256 -> Z.lor (a ≪ 8) b = a * 256 + b.
Proof. apply (shiftl_lor_add 8). lia. Qed.

Lemma parse_serialize_setting s r : wf_setting s -> parse_setting (serialize_setting s ++ r) 0 = s.
Proof.
  intros [Hi Hv]. unfold serialize_setting, parse_setting.
  assert (V : read_u32 (write_u32 (value s) ++ r) 0 = value s) by by apply read_write_u32.
  rewrite wrap_small by lia. destruct s as [i v]; cbn [identifier value] in *.
  f_equal; [|exact V].
  unfold byte_at. cbn [app lookup list_lookup Nat.add default from_option id].
  rewrite !u8_shiftr_land, u8_land_0xff, be16_eq, !val_u8 by (try apply val_range; lia).
  Z.div_mod_to_equations. lia.
Qed.

Lemma parse_settings_Ret payload :
  (length payload mod 6 = 0)%nat ->
  parse_settings_payload payload
  = Ret ((fun i => parse_setting payload (6 * i)) <$> seq 0 (length payload / 6)).
Proof.
  intros H. unfold parse_settings_payload.
  rewrite (proj2 (Z.eqb_eq _ _)); [done|]. change 6 with (Z.of_nat 6). rewrite <- Nat2Z.inj_mod. lia.
Qed.

(** The loop reads a first entry, then the rest of the payload. *)
Lemma parse_settings_cons p payload l :
  length p = 6%nat -> parse_settings_payload payload = Ret l ->
  parse_settings_payload (p ++ payload) = Ret (parse_setting (p ++ payload) 0 :: l).
Proof.
  intros L H.
  assert (M : (length payload mod 6 = 0)%nat).
  { unfold parse_settings_payload in H. inv_ret. apply negb_false_iff, Z.eqb_eq in Hx.
    change 6 with (Z.of_nat 6) in Hx. rewrite <- Nat2Z.inj_mod in Hx. lia. }
  rewrite parse_settings_Ret in H by done. injection H as <-.
  assert (E : (length (p ++ payload) = length payload + 1 * 6)%nat) by (rewrite length_app; lia).
  rewrite parse_settings_Ret, E, Nat.div_add by (rewrite ?E, ?Nat.Div0.mod_add; lia).
  rewrite Nat.add_1_r. cbn [seq fmap list_fmap].
  f_equal. f_equal. rewrite <- fmap_S_seq, <- list_fmap_compose. apply list_fmap_ext. intros i x _.
  unfold compose. rewrite <- (parse_setting_app payload p) by done. f_equal. lia.
Qed.

(** ** The properties of the layer *)

(** Every frame that [serialize_frame] accepts is read back by
    [parse_frame] under the same limit, whatever follows it in the buffer:
    the parse succeeds, consumes exactly the serialized bytes and returns the
    same type, flags, stream identifier and payload. *)
Theorem parse_serialize_frame (f : Frame) (max_frame_size : Z) (out rest : bytes) :
  0 <= stream_id f ->
  serialize_frame f max_frame_size = Ret out ->
  parse_frame (out ++ rest) max_frame_size = mk_parse_result true false (length out) f EmptyString.
Proof. intros Hs (? & V & ->)%serialize_frame_Ret; [|done]. by apply parse_wire. Qed.

Lemma parse_serialize_frame_witness :
  let f := mk_frame Byte.x08 Byte.x00 5 [Byte.x00; Byte.x00; Byte.x10; Byte.x00] in
  exists out, serialize_frame f default_max_frame_size = Ret out /\
  parse_frame (out ++ str "next") default_max_frame_size
  = mk_parse_result true false 13 f EmptyString.
Proof.
  eexists. split; [vm_compute; reflexivity|].
  apply (parse_serialize_frame (mk_frame Byte.x08 Byte.x00 5 [Byte.x00; Byte.x00; Byte.x10; Byte.x00])
           default_max_frame_size); [cbn; lia | vm_compute; reflexivity].
Defined.

(** A frame that [parse_frame] accepts can be serialized under the same
    limit, and yields the bytes it was read from with the reserved bit of the
    stream identifier cleared. *)
Theorem serialize_parse_frame (b : bytes) (max_frame_size : Z) :
  let r := parse_frame b max_frame_size in
  ok r = true ->
  serialize_frame (frame r) max_frame_size = Ret (clear_reserved (take (consumed r) b)).
Proof.
  intros r H. subst r. rewrite <- wire_parse by done.
  apply parse_frame_ok in H as (_ & V & _ & _ & F).
  pose proof (read_u31_range (substr b 5 4)).
  apply serialize_frame_Ret; rewrite F in V |- *; cbn [stream_id]; [lia|]. split; [lia|done].
Qed.

Lemma serialize_parse_frame_witness :
  let b := [Byte.x00; Byte.x00; Byte.x02; Byte.x00; Byte.x01; Byte.x80; Byte.x00; Byte.x00;
            Byte.x07] ++ str "hi, and more" in
  ok (parse_frame b 16384) = true /\
  serialize_frame (frame (parse_frame b 16384)) 16384
  = Ret (clear_reserved (take (consumed (parse_frame b 16384)) b)).
Proof. split; [vm_compute; reflexivity|]. apply serialize_parse_frame. vm_compute; reflexivity. Defined.

(** The verdict of [parse_frame] does not depend on how the input was cut:
    once a buffer is not "incomplete", any bytes received later leave the
    result unchanged; and an accepted frame lies inside the buffer and inside
    the configured limit, so a reader that erases [consumed] bytes always
    makes progress and never past the end. *)
Theorem parse_frame_stable (b more : bytes) (max_frame_size : Z) :
  let r := parse_frame b max_frame_size in
  incomplete r = false ->
  parse_frame (b ++ more) max_frame_size = r /\
  (ok r = true -> (9 <= consumed r <= length b)%nat /\
                  size (payload (frame r)) <= max_frame_size <= max_allowed_frame_size).
Proof.
  intros r H. split.
  2: { intros (_ & V%validate_frame_size & C & Cl & _)%parse_frame_ok. subst r. lia. }
  subst r. revert H. unfold parse_frame. rewrite length_app.
  destruct (Nat.ltb_spec (length b) 9); [done|].
  destruct (Nat.ltb_spec (length b + length more) 9); [lia|].
  rewrite !substr_app_le by lia. destruct (_ <? max_frame_size); [done|].
  pose proof (read_u24_range (substr b 0 3)).
  destruct (max_frame_size <? _); [done|].
  destruct (Z.ltb_spec (size b) (9 + read_u24 (substr b 0 3))); [done|].
  destruct (Z.ltb_spec (Z.of_nat (length b + length more)) (9 + read_u24 (substr b 0 3))); [lia|].
  unfold byte_at. rewrite !lookup_app_l by lia. rewrite !substr_app_le by lia. done.
Qed.

Lemma parse_frame_stable_witness :
  let b := str "HTTP/1.1 GET" in
  incomplete (parse_frame b 16384) = false /\ parse_frame (b ++ str "xyz") 16384 = parse_frame b 16384.
Proof. split; [vm_compute; reflexivity|]. apply parse_frame_stable. vm_compute; reflexivity. Defined.

(** A SETTINGS payload written from any list of 16-bit identifiers and
    32-bit values parses back to that list, order and duplicates kept. *)
Theorem parse_serialize_settings (l : list Setting) :
  Forall wf_setting l ->
  parse_settings_payload (serialize_settings_payload l) = Ret l.
Proof.
  induction 1 as [|s l Hs _ IH]; [done|].
  change (serialize_settings_payload (s :: l)) with (serialize_setting s ++ serialize_settings_payload l).
  rewrite (parse_settings_cons _ _ l) by done. by rewrite parse_serialize_setting.
Qed.

Lemma parse_serialize_settings_witness :
  parse_settings_payload (serialize_settings_payload [mk_setting 5 65535; mk_setting 1 4096])
  = Ret [mk_setting 5 65535; mk_setting 1 4096].
Proof. apply parse_serialize_settings. repeat constructor; cbn; lia. Defined.
