(* ===== verification/Http3Frame.v ===== *)
(** * Http3Frame: the HTTP/3 frame layer

    Models [src/src/protocol/http3_frame.cpp]: QUIC variable-length integers,
    frames and SETTINGS payloads.  Lengths come off the wire as 62-bit
    numbers, so the reader is shown to stay inside its buffer; the SETTINGS
    loop is shown to terminate on every payload. *)

From S2P Require Import Prelude Text.

Record VarIntResult : Type := mk_varint {
  vi_ok : bool;
  vi_incomplete : bool;
  vi_consumed : nat;
  vi_value : Z;
  vi_error : string;
}.

Record Frame : Type := mk_frame {
  type : Z;
  payload : bytes;
}.

Record ParseResult : Type := mk_parse_result {
  ok : bool;
  incomplete : bool;
  consumed : nat;
  frame : Frame;
  error : string;
}.

(** [identifier] is the underlying value of a [SettingIdentifier]. *)
Record Setting : Type := mk_setting {
  identifier : Z;
  value : Z;
}.

(** The low [8 * n] bits of [v], most significant byte first: the run of
    [static_cast<std::uint8_t>((value >> k) & 0xff)] of the encoder. *)
Fixpoint be_bytes (n : nat) (v : Z) : bytes :=
  match n with
  | O => []
  | S n' => u8 (Z.land (v ≫ (8 * Z.of_nat n')) 0xff) :: be_bytes n' v
  end.

Definition encode_varint (value : Z) : outcome bytes :=
  if value <=? 0x3f then Ret [u8 value]
  else if value <=? 0x3fff then
    Ret (u8 (Z.lor 0x40 (Z.land (value ≫ 8) 0x3f)) :: be_bytes 1 value)
  else if value <=? 0x3fffffff then
    Ret (u8 (Z.lor 0x80 (Z.land (value ≫ 24) 0x3f)) :: be_bytes 3 value)
  else if value <=? 0x3fffffffffffffff then
    Ret (u8 (Z.lor 0xc0 (Z.land (value ≫ 56) 0x3f)) :: be_bytes 7 value)
  else Raise "HTTP/3 QUIC varint value exceeds 62 bits".

(** [for (index = 1; index < length; ++index) value = (value << 8) | byte_at(bytes, offset + index)] *)
Definition varint_tail (b : bytes) (offset len : nat) (value : Z) : Z :=
  fold_left (fun value index => Z.lor (u64 (value ≪ 8)) (nth_val b (offset + index)))
            (seq 1 (len - 1)) value.

Definition decode_varint (b : bytes) (offset : nat) : VarIntResult :=
  if (length b <=? offset)%nat then mk_varint false true 0 0 "incomplete QUIC varint"
  else
    let first := nth_val b offset in
    let len := Z.to_nat (1 ≪ (first ≫ 6)) in
    if (length b - offset <? len)%nat then mk_varint false true 0 0 "incomplete QUIC varint"
    else mk_varint true false len (varint_tail b offset len (Z.land first 0x3f)) EmptyString.

Definition serialize_frame (f : Frame) : outcome bytes :=
  t ← encode_varint (type f);
  l ← encode_varint (size (payload f));
  mret (t ++ l ++ payload f).

Definition empty_frame : Frame := mk_frame 0 [].

Definition parse_frame (b : bytes) : ParseResult :=
  let t := decode_varint b 0 in
  if negb (vi_ok t) then mk_parse_result false (vi_incomplete t) 0 empty_frame (vi_error t)
  else
    let l := decode_varint b (vi_consumed t) in
    if negb (vi_ok l) then mk_parse_result false (vi_incomplete l) 0 empty_frame (vi_error l)
    else
      let payload_offset := (vi_consumed t + vi_consumed l)%nat in
      if (size_max <? vi_value l) || (size b - Z.of_nat payload_offset <? vi_value l)
      then mk_parse_result false true 0 empty_frame "incomplete HTTP/3 frame payload"
      else
        mk_parse_result true false (payload_offset + Z.to_nat (vi_value l))
          (mk_frame (vi_value t) (substr b payload_offset (Z.to_nat (vi_value l)))) EmptyString.

Definition serialize_setting (s : Setting) : outcome bytes :=
  i ← encode_varint (identifier s); v ← encode_varint (value s); mret (i ++ v).

Definition serialize_settings_payload (l : list Setting) : outcome bytes :=
  entries ← mapO serialize_setting l; mret (concat entries).

(** [while (offset < payload.size())] *)
Fixpoint parse_settings_loop (fuel : nat) (payload : bytes) (offset : nat)
    (settings : list Setting) : outcome (list Setting) :=
  if (offset <? length payload)%nat then
    match fuel with
    | O => Timeout
    | S fuel' =>
        let identifier := decode_varint payload offset in
        _ ← throw_if (negb (vi_ok identifier)) "incomplete HTTP/3 SETTINGS identifier";
        let offset1 := (offset + vi_consumed identifier)%nat in
        let value := decode_varint payload offset1 in
        _ ← throw_if (negb (vi_ok value)) "incomplete HTTP/3 SETTINGS value";
        parse_settings_loop fuel' payload (offset1 + vi_consumed value)%nat
          (settings ++ [mk_setting (vi_value identifier) (vi_value value)])
    end
  else Ret settings.

Definition parse_settings_payload (payload : bytes) : outcome (list Setting) :=
  parse_settings_loop (length payload) payload 0 [].

(** ** Integers *)

(** The value a big-endian run denotes. *)
Definition be_value (acc : Z) (b : bytes) : Z := fold_left (fun v c => v * 256 + val c) b acc.

Lemma be_value_bytes n v acc :
  be_value acc (be_bytes n v) = acc * 2 ^ (8 * Z.of_nat n) + v mod 2 ^ (8 * Z.of_nat n).
Proof.
  revert acc; induction n as [|n IH]; intros acc.
  { cbn. rewrite Z.mod_1_r. lia. }
  cbn [be_bytes]. unfold be_value in *. cbn [fold_left]. rewrite IH.
  rewrite u8_shiftr_land, val_u8 by lia.
  set (k := 8 * Z.of_nat n). replace (8 * Z.of_nat (S n)) with (k + 8) by lia.
  assert (0 < 2 ^ k) by (apply Z.pow_pos_nonneg; lia).
  rewrite Z.pow_add_r by lia. change (2 ^ 8) with 256.
  rewrite (Z.mul_comm (2 ^ k)), (Z.mul_comm 256), Z.rem_mul_r by lia. lia.
Qed.

Lemma length_be_bytes n v : length (be_bytes n v) = n.
Proof. induction n; cbn; congruence. Qed.

Lemma be_value_bound acc b :
  0 <= acc -> 0 <= be_value acc b < (acc + 1) * 2 ^ (8 * size b).
Proof.
  revert acc; induction b as [|c b IH]; intros acc Ha; cbn [be_value fold_left length].
  - cbn. lia.
  - pose proof (val_range c). specialize (IH (acc * 256 + val c) ltac:(lia)).
    unfold be_value in IH.
    replace (8 * Z.of_nat (S (length b))) with (8 + 8 * size b) by lia.
    rewrite Z.pow_add_r by lia. change (2 ^ 8) with 256.
    assert (0 < 2 ^ (8 * size b)) by (apply Z.pow_pos_nonneg; lia). nia.
Qed.

(** The loop of [decode_varint]: no bit is lost while the value fits 64. *)
Lemma varint_tail_value b offset len acc :
  0 <= acc -> (acc + 1) * 2 ^ (8 * Z.of_nat (len - 1)) <= 2 ^ 64 ->
  (1 <= len)%nat -> (offset + len <= length b)%nat ->
  varint_tail b offset len acc = be_value acc (substr b (offset + 1) (len - 1)).
Proof.
  intros Ha Hb H1 Hl. unfold varint_tail.
  rewrite (fold_left_index (fun v c => Z.lor (u64 (v ≪ 8)) (val c))) by lia.
  assert (E : size (substr b (offset + 1) (len - 1)) = Z.of_nat (len - 1))
    by (rewrite length_substr; lia).
  rewrite <- E in Hb. clear E. revert acc Ha Hb.
  induction (substr b (offset + 1) (len - 1)) as [|c s IH]; intros acc Ha Hb; [done|].
  unfold be_value in *. cbn [fold_left]. pose proof (val_range c).
  cbn [length] in Hb. replace (8 * Z.of_nat (S (length s))) with (8 + 8 * size s) in Hb by lia.
  assert (P : 0 < 2 ^ (8 * size s)) by (apply Z.pow_pos_nonneg; lia).
  rewrite Z.pow_add_r in Hb by lia. change (2 ^ 8) with 256 in Hb.
  rewrite Z.shiftl_mul_pow2, wrap_small by (change (2 ^ 8) with 256; nia).
  rewrite (lor_add 8) by lia. change (2 ^ 8) with 256. apply IH; nia.
Qed.

(** The reading of a varint as a tag and a big-endian number. *)
Lemma decode_varint_eq pre c b rest :
  0 <= val c < 64 * 4 ->
  length b = (Z.to_nat (2 ^ (val c / 64)) - 1)%nat ->
  decode_varint (pre ++ c :: b ++ rest) (length pre)
  = mk_varint true false (S (length b)) (be_value (val c mod 64) b) EmptyString.
Proof.
  intros Hc Hb. unfold decode_varint.
  assert (Q : 0 <= val c / 64 <= 3) by (Z.div_mod_to_equations; lia).
  assert (L : Z.to_nat (1 ≪ (val c ≫ 6)) = S (length b)).
  { rewrite Z.shiftl_1_l, Z.shiftr_div_pow2 by lia. change (2 ^ 6) with 64.
    pose proof (Z.pow_pos_nonneg 2 (val c / 64)). lia. }
  assert (N : byte_at (pre ++ c :: b ++ rest) (length pre) = c).
  { unfold byte_at. rewrite lookup_app_r by lia. by rewrite Nat.sub_diag. }
  rewrite N, L. rewrite !length_app. cbn [length]. rewrite length_app.
  destruct (Nat.leb_spec (length pre + S (length b + length rest)) (length pre)); [lia|].
  destruct (Nat.ltb_spec (length pre + S (length b + length rest) - length pre) (S (length b))); [lia|].
  f_equal. rewrite (land_mask 6) by lia. change (2 ^ 6) with 64.
  pose proof (Z.mod_pos_bound (val c) 64 ltac:(lia)).
  assert (B : (val c mod 64 + 1) * 2 ^ (8 * Z.of_nat (S (length b) - 1)) <= 2 ^ 64).
  { assert (S (length b) - 1 <= 7)%nat.
    { assert (2 ^ (val c / 64) <= 2 ^ 3) by (apply Z.pow_le_mono_r; lia). lia. }
    assert (2 ^ (8 * Z.of_nat (S (length b) - 1)) <= 2 ^ 56) by (apply Z.pow_le_mono_r; lia).
    pose proof (Z.pow_pos_nonneg 2 (8 * Z.of_nat (S (length b) - 1))). nia. }
  rewrite varint_tail_value; [|lia|done|lia|].
  - f_equal. cbn [Nat.sub]. rewrite Nat.sub_0_r, substr_app_skip. apply substr_all.
  - rewrite !length_app. cbn [length]. rewrite length_app. lia.
Qed.

Lemma encode_varint_Ret v out :
  0 <= v -> encode_varint v = Ret out ->
  exists c b, out = c :: b /\ length b = (Z.to_nat (2 ^ (val c / 64)) - 1)%nat /\
              be_value (val c mod 64) b = v.
Proof.
  intros Hv. unfold encode_varint.
  assert (G : forall n tag, (1 <= n <= 7)%nat -> 0 <= tag <= 3 -> v < 64 * 2 ^ (8 * Z.of_nat n) ->
    Z.of_nat n = 2 ^ tag - 1 ->
    let c := u8 (Z.lor (tag * 64) (Z.land (v ≫ (8 * Z.of_nat n)) 0x3f)) in
    length (be_bytes n v) = (Z.to_nat (2 ^ (val c / 64)) - 1)%nat /\
    be_value (val c mod 64) (be_bytes n v) = v).
  { intros n tag Hn Ht Hb Hnt c.
    assert (P : 0 < 2 ^ (8 * Z.of_nat n)) by (apply Z.pow_pos_nonneg; lia).
    assert (D : 0 <= v / 2 ^ (8 * Z.of_nat n) < 64)
      by (split; [apply Z.div_pos|apply Z.div_lt_upper_bound]; lia).
    assert (E : val c = tag * 64 + v / 2 ^ (8 * Z.of_nat n)).
    { unfold c. rewrite Z.shiftr_div_pow2, (land_mask 6), Z.mod_small by lia.
      rewrite (lor_add 6) by lia. apply val_u8_small. lia. }
    rewrite E, (Z.add_comm (tag * 64)), Z.div_add, Z_mod_plus_full by lia.
    rewrite Z.div_small, Z.mod_small by lia. rewrite length_be_bytes, be_value_bytes.
    split; [rewrite Z.add_0_l; lia|]. pose proof (Z.div_mod v (2 ^ (8 * Z.of_nat n))). lia. }
  destruct (Z.leb_spec v 0x3f).
  { intros [= <-]. exists (u8 v), []. rewrite val_u8_small by lia.
    split; [done|]. rewrite Z.div_small, Z.mod_small by lia. done. }
  destruct (Z.leb_spec v 0x3fff).
  { intros [= <-]. eexists _, _. split; [done|]. apply (G 1%nat 1); cbn; lia. }
  destruct (Z.leb_spec v 0x3fffffff).
  { intros [= <-]. eexists _, _. split; [done|]. apply (G 3%nat 2); cbn; lia. }
  destruct (Z.leb_spec v 0x3fffffffffffffff); [|done].
  intros [= <-]. eexists _, _. split; [done|]. apply (G 7%nat 3); cbn; lia.
Qed.

(** A varint is read back from the place it was written to. *)
Lemma decode_encode_varint v out pre rest :
  0 <= v -> encode_varint v = Ret out ->
  decode_varint (pre ++ out ++ rest) (length pre) = mk_varint true false (length out) v EmptyString.
Proof.
  intros Hv (c & b & -> & L & E)%encode_varint_Ret; [|done].
  pose proof (val_range c). cbn [app].
  rewrite decode_varint_eq by assumption. by rewrite E.
Qed.

Lemma encode_varint_nonempty v out : 0 <= v -> encode_varint v = Ret out -> (1 <= length out)%nat.
Proof. intros Hv (c & b & -> & _)%encode_varint_Ret; [cbn; lia|done]. Qed.

(** Every 62-bit value has an encoding, and no other has. *)
Lemma encode_varint_total v : 0 <= v < 2 ^ 62 -> exists out, encode_varint v = Ret out.
Proof.
  intros. unfold encode_varint. repeat (case_match; [eexists; reflexivity|]).
  lia.
Qed.

(** What a successful read of a varint consumed. *)
Lemma decode_varint_ok b offset :
  vi_ok (decode_varint b offset) = true ->
  (1 <= vi_consumed (decode_varint b offset) <= 8)%nat /\
  (offset + vi_consumed (decode_varint b offset) <= length b)%nat /\
  0 <= vi_value (decode_varint b offset) < 2 ^ 62.
Proof.
  unfold decode_varint. destruct (Nat.leb_spec (length b) offset) as [|Ho]; [done|].
  set (c := byte_at b offset). set (len := Z.to_nat _).
  destruct (Nat.ltb_spec (length b - offset) len) as [|Hl]; [done|]. intros _. cbn.
  pose proof (val_range c).
  assert (Q : 0 <= val c / 64 <= 3) by (Z.div_mod_to_equations; lia).
  assert (L : Z.of_nat len = 2 ^ (val c / 64)).
  { unfold len. rewrite Z.shiftl_1_l, Z.shiftr_div_pow2 by lia. change (2 ^ 6) with 64.
    pose proof (Z.pow_pos_nonneg 2 (val c / 64)). lia. }
  assert (1 <= Z.of_nat len <= 8).
  { rewrite L. split.
    - pose proof (Z.pow_pos_nonneg 2 (val c / 64)). lia.
    - change 8 with (2 ^ 3). apply Z.pow_le_mono_r; lia. }
  split; [lia|]. split; [lia|].
  assert (2 ^ (8 * Z.of_nat (len - 1)) <= 2 ^ 56) by (apply Z.pow_le_mono_r; lia).
  pose proof (Z.pow_pos_nonneg 2 (8 * Z.of_nat (len - 1))).
  rewrite (land_mask 6) by lia. pose proof (Z.mod_pos_bound (val c) (2 ^ 6) ltac:(lia)).
  rewrite varint_tail_value; [|lia|nia|lia|lia].
  pose proof (be_value_bound (val c mod 2 ^ 6) (substr b (offset + 1) (len - 1)) ltac:(lia)) as B.
  rewrite length_substr in B.
  replace ((len - 1) `min` (length b - (offset + 1)))%nat with (len - 1)%nat in B by lia.
  nia.
Qed.

(** ** Frames *)

(** A parsed frame lies inside the buffer. *)
Lemma h3_parse_frame_ok b :
  ok (parse_frame b) = true ->
  (2 <= consumed (parse_frame b) <= length b)%nat /\
  (length (payload (frame (parse_frame b))) <= consumed (parse_frame b))%nat /\
  0 <= type (frame (parse_frame b)) < 2 ^ 62.
Proof.
  unfold parse_frame. destruct (vi_ok (decode_varint b 0)) eqn:T; [cbn [negb]|done].
  apply decode_varint_ok in T as (T1 & T2 & T3).
  destruct (vi_ok (decode_varint b _)) eqn:L; [cbn [negb]|done].
  apply decode_varint_ok in L as (L1 & L2 & L3).
  set (t := decode_varint b 0) in *. set (l := decode_varint b (vi_consumed t)) in *.
  destruct (Z.ltb_spec size_max (vi_value l)); [done|].
  destruct (Z.ltb_spec (size b - Z.of_nat (vi_consumed t + vi_consumed l)) (vi_value l)); [done|].
  intros _. cbn [orb consumed frame payload type]. rewrite length_substr. lia.
Qed.

(** ** SETTINGS *)

Definition wf_setting (s : Setting) : Prop := 0 <= identifier s /\ 0 <= value s.

Lemma serialize_settings_cons s l out :
  serialize_settings_payload (s :: l) = Ret out ->
  exists i v rest, encode_varint (identifier s) = Ret i /\ encode_varint (value s) = Ret v /\
  serialize_settings_payload l = Ret rest /\ out = i ++ v ++ rest.
Proof.
  intros (es & He & [= <-])%bind_Ret. apply mapO_Ret in He.
  inversion He as [|? e ? es' Hs Hes]; subst.
  apply bind_Ret in Hs as (i & Hi & Hs). apply bind_Ret in Hs as (v & Hv & [= <-]).
  exists i, v, (concat es'). split; [done|]. split; [done|].
  split; [|cbn; by rewrite <- app_assoc].
  apply bind_Ret. exists es'. split; [by apply mapO_Ret|done].
Qed.

Lemma parse_settings_loop_run fuel pre l out acc :
  Forall wf_setting l -> serialize_settings_payload l = Ret out -> (length out <= fuel)%nat ->
  parse_settings_loop fuel (pre ++ out) (length pre) acc = Ret (acc ++ l).
Proof.
  intros Hl. revert fuel pre out acc; induction Hl as [|s l [Hi Hv] _ IH]; intros fuel pre out acc.
  - intros [= <-] _. rewrite !app_nil_r. destruct fuel; cbn [parse_settings_loop]; by rewrite Nat.ltb_irrefl.
  - intros (i & v & rest & Ei & Ev & El & ->)%serialize_settings_cons Hf.
    pose proof (encode_varint_nonempty _ _ Hi Ei). pose proof (encode_varint_nonempty _ _ Hv Ev).
    rewrite !length_app in Hf. destruct fuel as [|fuel]; [lia|]. cbn [parse_settings_loop].
    rewrite decode_encode_varint with (v := identifier s) by done. cbn [vi_ok vi_consumed vi_value].
    rewrite <- length_app, (app_assoc pre i), decode_encode_varint with (v := value s) by done.
    cbn [vi_ok vi_consumed vi_value]. rewrite !length_app.
    destruct (Nat.ltb_spec (length pre) (length pre + length i + (length v + length rest))); [|lia].
    cbn. rewrite <- !length_app, (app_assoc _ v), IH by (done || lia).
    rewrite <- app_assoc. by destruct s.
Qed.

(** Each turn of the loop moves the offset by at least two bytes. *)
Lemma parse_settings_loop_total fuel payload offset acc :
  (length payload - offset <= fuel)%nat ->
  parse_settings_loop fuel payload offset acc <> Timeout /\
  forall l, parse_settings_loop fuel payload offset acc = Ret l ->
    (2 * length l <= 2 * length acc + (length payload - offset))%nat.
Proof.
  revert offset acc; induction fuel as [|fuel IH]; intros offset acc Hf; cbn [parse_settings_loop];
    destruct (Nat.ltb_spec offset (length payload)) as [Ho|Ho]; try lia;
    try (split; [done|]; intros l [= <-]; lia).
  destruct (vi_ok (decode_varint payload offset)) eqn:I; [|done].
  apply decode_varint_ok in I as (I1 & I2 & _). cbn [negb throw_if].
  set (o1 := (offset + _)%nat) in *.
  destruct (vi_ok (decode_varint payload o1)) eqn:V; [|done].
  apply decode_varint_ok in V as (V1 & V2 & _). cbn [negb throw_if mbind outcome_bind].
  edestruct (IH (o1 + vi_consumed (decode_varint payload o1))%nat) as [T L]; [lia|].
  split; [exact T|]. intros l H. apply L in H. rewrite length_app in H. cbn in H. lia.
Qed.

(** ** The properties of the layer *)

(** Every HTTP/3 frame that can be serialized is read back by
    [parse_frame] unchanged, whatever follows it, and exactly its bytes are
    consumed. *)
Theorem parse_serialize_h3_frame (f : Frame) (out rest : bytes) :
  0 <= type f -> serialize_frame f = Ret out ->
  parse_frame (out ++ rest) = mk_parse_result true false (length out) f EmptyString.
Proof.
  intros Ht (t & Et & (l & El & [= <-])%bind_Ret)%bind_Ret. unfold parse_frame.
  rewrite <- !app_assoc.
  pose proof (decode_encode_varint _ _ [] (l ++ payload f ++ rest) Ht Et) as D. cbn [app length] in D.
  rewrite D. cbn [vi_ok negb vi_consumed vi_value].
  rewrite decode_encode_varint with (v := size (payload f)) by (done || lia).
  cbn [vi_ok negb vi_consumed vi_value].
  assert (size (payload f) < 2 ^ 62).
  { unfold encode_varint in El. split_ifs; lia. }
  unfold size_max. destruct (Z.ltb_spec (2 ^ 64 - 1) (size (payload f))); [lia|].
  rewrite !length_app.
  destruct (Z.ltb_spec (Z.of_nat (length t + (length l + (length (payload f) + length rest)))
    - Z.of_nat (length t + length l)) (size (payload f))); [lia|]. cbn [orb].
  rewrite Nat2Z.id, <- length_app, app_assoc. f_equal; [rewrite !length_app; lia|].
  rewrite <- (Nat.add_0_r (length (t ++ l))), substr_app_skip, substr_all. by destruct f.
Qed.

Lemma parse_serialize_h3_frame_witness :
  exists out, serialize_frame (mk_frame 1073741824 (str "abc")) = Ret out /\
  parse_frame (out ++ str "next") = mk_parse_result true false 12 (mk_frame 1073741824 (str "abc")) EmptyString.
Proof.
  eexists. split; [vm_compute; reflexivity|].
  apply (parse_serialize_h3_frame (mk_frame 1073741824 (str "abc")));
    [cbn; lia | vm_compute; reflexivity].
Defined.

(** [parse_settings_payload] terminates on every payload - each turn of
    its loop moves the offset - and gives back every list of settings that
    [serialize_settings_payload] wrote. *)
Theorem h3_settings_loop (payload : bytes) :
  parse_settings_payload payload <> Timeout /\
  (forall l, parse_settings_payload payload = Ret l -> (2 * length l <= length payload)%nat) /\
  (forall l, Forall wf_setting l -> serialize_settings_payload l = Ret payload ->
     parse_settings_payload payload = Ret l).
Proof.
  unfold parse_settings_payload.
  edestruct (parse_settings_loop_total (length payload) payload 0 []) as [T L]; [lia|].
  split; [exact T|]. split.
  - intros l H. apply L in H. cbn in H. lia.
  - intros l Hl Hs. by apply (parse_settings_loop_run (length payload) [] l payload []).
Qed.
