(* ===== verification/Huffman.v ===== *)
(** * Huffman: the HPACK Huffman decoder

    Models the Huffman part of [src/src/protocol/http2_hpack.cpp]: the code
    table, the binary tree built from it (a vector of nodes linked by
    indices), and the bit-by-bit decoder.  The decoder is shown to be the
    exact inverse of the encoder of RFC 7541: it accepts the canonical
    encoding of every string, and nothing else. *)

From S2P Require Import Prelude Text.

(** [{ code, bits }] of every symbol; the last one is EOS. *)
Definition huffman_table : list (Z * Z) :=
  [
   (0x1ff8, 13); (0x7fffd8, 23); (0xfffffe2, 28); (0xfffffe3, 28);
   (0xfffffe4, 28); (0xfffffe5, 28); (0xfffffe6, 28); (0xfffffe7, 28);
   (0xfffffe8, 28); (0xffffea, 24); (0x3ffffffc, 30); (0xfffffe9, 28);
   (0xfffffea, 28); (0x3ffffffd, 30); (0xfffffeb, 28); (0xfffffec, 28);
   (0xfffffed, 28); (0xfffffee, 28); (0xfffffef, 28); (0xffffff0, 28);
   (0xffffff1, 28); (0xffffff2, 28); (0x3ffffffe, 30); (0xffffff3, 28);
   (0xffffff4, 28); (0xffffff5, 28); (0xffffff6, 28); (0xffffff7, 28);
   (0xffffff8, 28); (0xffffff9, 28); (0xffffffa, 28); (0xffffffb, 28);
   (0x14, 6); (0x3f8, 10); (0x3f9, 10); (0xffa, 12);
   (0x1ff9, 13); (0x15, 6); (0xf8, 8); (0x7fa, 11);
   (0x3fa, 10); (0x3fb, 10); (0xf9, 8); (0x7fb, 11);
   (0xfa, 8); (0x16, 6); (0x17, 6); (0x18, 6);
   (0x0, 5); (0x1, 5); (0x2, 5); (0x19, 6);
   (0x1a, 6); (0x1b, 6); (0x1c, 6); (0x1d, 6);
   (0x1e, 6); (0x1f, 6); (0x5c, 7); (0xfb, 8);
   (0x7ffc, 15); (0x20, 6); (0xffb, 12); (0x3fc, 10);
   (0x1ffa, 13); (0x21, 6); (0x5d, 7); (0x5e, 7);
   (0x5f, 7); (0x60, 7); (0x61, 7); (0x62, 7);
   (0x63, 7); (0x64, 7); (0x65, 7); (0x66, 7);
   (0x67, 7); (0x68, 7); (0x69, 7); (0x6a, 7);
   (0x6b, 7); (0x6c, 7); (0x6d, 7); (0x6e, 7);
   (0x6f, 7); (0x70, 7); (0x71, 7); (0x72, 7);
   (0xfc, 8); (0x73, 7); (0xfd, 8); (0x1ffb, 13);
   (0x7fff0, 19); (0x1ffc, 13); (0x3ffc, 14); (0x22, 6);
   (0x7ffd, 15); (0x3, 5); (0x23, 6); (0x4, 5);
   (0x24, 6); (0x5, 5); (0x25, 6); (0x26, 6);
   (0x27, 6); (0x6, 5); (0x74, 7); (0x75, 7);
   (0x28, 6); (0x29, 6); (0x2a, 6); (0x7, 5);
   (0x2b, 6); (0x76, 7); (0x2c, 6); (0x8, 5);
   (0x9, 5); (0x2d, 6); (0x77, 7); (0x78, 7);
   (0x79, 7); (0x7a, 7); (0x7b, 7); (0x7ffe, 15);
   (0x7fc, 11); (0x3ffd, 14); (0x1ffd, 13); (0xffffffc, 28);
   (0xfffe6, 20); (0x3fffd2, 22); (0xfffe7, 20); (0xfffe8, 20);
   (0x3fffd3, 22); (0x3fffd4, 22); (0x3fffd5, 22); (0x7fffd9, 23);
   (0x3fffd6, 22); (0x7fffda, 23); (0x7fffdb, 23); (0x7fffdc, 23);
   (0x7fffdd, 23); (0x7fffde, 23); (0xffffeb, 24); (0x7fffdf, 23);
   (0xffffec, 24); (0xffffed, 24); (0x3fffd7, 22); (0x7fffe0, 23);
   (0xffffee, 24); (0x7fffe1, 23); (0x7fffe2, 23); (0x7fffe3, 23);
   (0x7fffe4, 23); (0x1fffdc, 21); (0x3fffd8, 22); (0x7fffe5, 23);
   (0x3fffd9, 22); (0x7fffe6, 23); (0x7fffe7, 23); (0xffffef, 24);
   (0x3fffda, 22); (0x1fffdd, 21); (0xfffe9, 20); (0x3fffdb, 22);
   (0x3fffdc, 22); (0x7fffe8, 23); (0x7fffe9, 23); (0x1fffde, 21);
   (0x7fffea, 23); (0x3fffdd, 22); (0x3fffde, 22); (0xfffff0, 24);
   (0x1fffdf, 21); (0x3fffdf, 22); (0x7fffeb, 23); (0x7fffec, 23);
   (0x1fffe0, 21); (0x1fffe1, 21); (0x3fffe0, 22); (0x1fffe2, 21);
   (0x7fffed, 23); (0x3fffe1, 22); (0x7fffee, 23); (0x7fffef, 23);
   (0xfffea, 20); (0x3fffe2, 22); (0x3fffe3, 22); (0x3fffe4, 22);
   (0x7ffff0, 23); (0x3fffe5, 22); (0x3fffe6, 22); (0x7ffff1, 23);
   (0x3ffffe0, 26); (0x3ffffe1, 26); (0xfffeb, 20); (0x7fff1, 19);
   (0x3fffe7, 22); (0x7ffff2, 23); (0x3fffe8, 22); (0x1ffffec, 25);
   (0x3ffffe2, 26); (0x3ffffe3, 26); (0x3ffffe4, 26); (0x7ffffde, 27);
   (0x7ffffdf, 27); (0x3ffffe5, 26); (0xfffff1, 24); (0x1ffffed, 25);
   (0x7fff2, 19); (0x1fffe3, 21); (0x3ffffe6, 26); (0x7ffffe0, 27);
   (0x7ffffe1, 27); (0x3ffffe7, 26); (0x7ffffe2, 27); (0xfffff2, 24);
   (0x1fffe4, 21); (0x1fffe5, 21); (0x3ffffe8, 26); (0x3ffffe9, 26);
   (0xffffffd, 28); (0x7ffffe3, 27); (0x7ffffe4, 27); (0x7ffffe5, 27);
   (0xfffec, 20); (0xfffff3, 24); (0xfffed, 20); (0x1fffe6, 21);
   (0x3fffe9, 22); (0x1fffe7, 21); (0x1fffe8, 21); (0x7ffff3, 23);
   (0x3fffea, 22); (0x3fffeb, 22); (0x1ffffee, 25); (0x1ffffef, 25);
   (0xfffff4, 24); (0xfffff5, 24); (0x3ffffea, 26); (0x7ffff4, 23);
   (0x3ffffeb, 26); (0x7ffffe6, 27); (0x3ffffec, 26); (0x3ffffed, 26);
   (0x7ffffe7, 27); (0x7ffffe8, 27); (0x7ffffe9, 27); (0x7ffffea, 27);
   (0x7ffffeb, 27); (0xffffffe, 28); (0x7ffffec, 27); (0x7ffffed, 27);
   (0x7ffffee, 27); (0x7ffffef, 27); (0x7fffff0, 27); (0x3ffffee, 26);
   (0x3fffffff, 30)].

Record HuffmanNode : Type := mk_node {
  child0 : Z;
  child1 : Z;
  symbol : Z;
}.

Definition new_node : HuffmanNode := mk_node (-1) (-1) (-1).

(** [nodes[node].child[bit]] *)
Definition child (n : HuffmanNode) (bit : Z) : Z := if bit =? 0 then child0 n else child1 n.

Definition set_child (c bit : Z) (n : HuffmanNode) : HuffmanNode :=
  if bit =? 0 then mk_node c (child1 n) (symbol n) else mk_node (child0 n) c (symbol n).

Definition set_symbol (s : Z) (n : HuffmanNode) : HuffmanNode :=
  mk_node (child0 n) (child1 n) s.

Definition node_at (nodes : list HuffmanNode) (i : Z) : HuffmanNode :=
  default new_node (nodes !! Z.to_nat i).

(** The bits of a code, most significant first. *)
Definition code_bits (code bits : Z) : list Z :=
  (fun bit_index => Z.land (code ≫ (bits - bit_index - 1)) 1) <$> seqZ 0 bits.

(** The inner loop: follows the bits from [node], adding missing nodes. *)
Fixpoint add_path (nodes : list HuffmanNode) (node : Z) (bits : list Z)
    : list HuffmanNode * Z :=
  match bits with
  | [] => (nodes, node)
  | bit :: bits' =>
      let nodes' :=
        if child (node_at nodes node) bit <? 0
        then alter (set_child (size nodes) bit) (Z.to_nat node) nodes ++ [new_node]
        else nodes in
      add_path nodes' (child (node_at nodes' node) bit) bits'
  end.

Definition add_symbol (nodes : list HuffmanNode) (entry : nat * (Z * Z))
    : outcome (list HuffmanNode) :=
  let '(sym, (code, bits)) := entry in
  let '(nodes, node) := add_path nodes 0 (code_bits code bits) in
  _ ← throw_if (0 <=? symbol (node_at nodes node)) "duplicate HPACK Huffman code";
  mret (alter (set_symbol (Z.of_nat sym)) (Z.to_nat node) nodes).

Definition build_huffman_tree : outcome (list HuffmanNode) :=
  foldO add_symbol [new_node] (imap pair huffman_table).

(** ** The decoder *)

Record DecodeState : Type := mk_state {
  node : Z;
  pending_code : Z;
  pending_bits : Z;
  output : bytes;
}.

(** One turn of the inner loop. *)
Definition decode_bit (tree : list HuffmanNode) (st : DecodeState) (bit : Z)
    : outcome DecodeState :=
  let next := child (node_at tree (node st)) bit in
  _ ← throw_if (next <? 0) "invalid HPACK Huffman code";
  let sym := symbol (node_at tree next) in
  if 0 <=? sym then
    _ ← throw_if (sym =? 256) "HPACK Huffman EOS symbol is not allowed in string data";
    mret (mk_state 0 0 0 (output st ++ [u8 sym]))
  else
    mret (mk_state next (Z.lor (u32 (pending_code st ≪ 1)) bit)
                   (wrap 8 (pending_bits st + 1)) (output st)).

(** [(byte >> bit_index) & 1] for [bit_index] from 7 down to 0 *)
Definition byte_bits (c : byte) : list Z := code_bits (val c) 8.

Definition hpack_decode_huffman (encoded : bytes) : outcome bytes :=
  tree ← build_huffman_tree;
  st ← foldO (decode_bit tree) (mk_state 0 0 0 []) (encoded ≫= byte_bits);
  _ ← throw_if (negb (pending_bits st =? 0)
                && ((7 <? pending_bits st)
                    || negb (pending_code st =? (1 ≪ pending_bits st) - 1)))
        "invalid HPACK Huffman padding";
  mret (output st).

(** ** The encoder of RFC 7541, section 5.2 *)

Definition symbol_bits (c : byte) : list Z :=
  let '(code, bits) := default (0, 0) (huffman_table !! Z.to_nat (val c)) in code_bits code bits.

(** Eight bits to a byte. *)
Fixpoint pack (fuel : nat) (bits : list Z) : bytes :=
  match fuel, bits with
  | S fuel', _ :: _ =>
      u8 (fold_left (fun v b => v * 2 + b) (take 8 bits) 0) :: pack fuel' (drop 8 bits)
  | _, _ => []
  end.

(** The codes of the characters, padded to a byte boundary with the most
    significant bits of EOS, which are ones. *)
Definition padding (n : nat) : nat := ((8 - n mod 8) mod 8)%nat.

Definition huffman_bits (s : bytes) : list Z :=
  let codes := s ≫= symbol_bits in codes ++ replicate (padding (length codes)) 1.

Definition huffman_encode (s : bytes) : bytes :=
  pack (length (huffman_bits s)) (huffman_bits s).

(** ** The tree, computed *)

Definition tree : list HuffmanNode :=
  Eval vm_compute in match build_huffman_tree with Ret nodes => nodes | _ => [] end.

Lemma build_huffman_tree_eq : build_huffman_tree = Ret tree.
Proof. vm_compute. reflexivity. Qed.

(** The path from the root to every node, by depth-first search. *)
Fixpoint search (fuel : nat) (i : Z) (path : list Z) : list (Z * list Z) :=
  match fuel with
  | O => []
  | S fuel' =>
      (i, path) ::
      ([0; 1] ≫= fun bit =>
         let c := child (node_at tree i) bit in
         if c <? 0 then [] else search fuel' c (path ++ [bit]))
  end.

Definition node_paths : list (list Z) :=
  Eval vm_compute in
    (let found := search 40 0 [] in
     (fun i => default [] (snd <$> (List.find (fun e => fst e =? Z.of_nat i) found)))
       <$> seq 0 (length tree)).

Definition node_path (i : Z) : list Z := default [] (node_paths !! Z.to_nat i).

Definition path_ok (i : Z) : bool :=
  (length (node_path i) <=? 30)%nat
  && forallb (fun bit =>
       let c := child (node_at tree i) bit in
       (c <? 0) || ((c <? 513) && bool_decide (node_path c = node_path i ++ [bit]))) [0; 1]
  && (let s := symbol (node_at tree i) in
      (s <? 0) || (s =? 256) ||
      ((s <? 256) && bool_decide (symbol_bits (u8 s) = node_path i))).

Lemma path_ok_all i : 0 <= i < 513 -> path_ok i = true.
Proof.
  intros H. assert (C : forallb path_ok (seqZ 0 513) = true) by (vm_compute; reflexivity).
  rewrite forallb_forall in C. apply C, list_elem_of_In, elem_of_seqZ. lia.
Qed.

Lemma node_path_length i : 0 <= i < 513 -> (length (node_path i) <= 30)%nat.
Proof.
  intros P%path_ok_all. unfold path_ok in P.
  apply andb_true_iff in P as [[P%Nat.leb_le _]%andb_true_iff _]. done.
Qed.

Lemma node_path_child i bit :
  0 <= i < 513 -> bit = 0 \/ bit = 1 -> let c := child (node_at tree i) bit in
  0 <= c -> c < 513 /\ node_path c = node_path i ++ [bit].
Proof.
  intros P%path_ok_all Hb c Hc. unfold path_ok in P.
  apply andb_true_iff in P as [[_ P]%andb_true_iff _].
  rewrite forallb_forall in P. specialize (P bit). fold c in P.
  destruct (Z.ltb_spec c 0); [lia|]. rewrite orb_false_l, andb_true_iff, bool_decide_eq_true in P.
  destruct P as [? ?]; [destruct Hb as [-> | ->]; cbn; auto|]. split; [lia|done].
Qed.

Lemma node_path_symbol i :
  0 <= i < 513 -> let s := symbol (node_at tree i) in
  0 <= s -> s <> 256 -> s < 256 /\ symbol_bits (u8 s) = node_path i.
Proof.
  intros P%path_ok_all s Hs Hn. unfold path_ok in P. fold s in P.
  apply andb_true_iff in P as [_ P].
  destruct (Z.ltb_spec s 0); [lia|]. destruct (Z.eqb_spec s 256); [lia|].
  cbn in P. apply andb_true_iff in P as [? ?%bool_decide_eq_true]. split; [lia|done].
Qed.

(** ** Bits *)

Definition is_bit (b : Z) : Prop := b = 0 \/ b = 1.

Definition bits_value (acc : Z) (bits : list Z) : Z := fold_left (fun v b => v * 2 + b) bits acc.

Lemma bits_value_app acc a b : bits_value acc (a ++ b) = bits_value (bits_value acc a) b.
Proof. apply fold_left_app. Qed.

Lemma bits_value_acc acc bits :
  bits_value acc bits = acc * 2 ^ Z.of_nat (length bits) + bits_value 0 bits.
Proof.
  revert acc; induction bits as [|b bits IH]; intros acc; [cbn; lia|].
  change (bits_value acc (b :: bits)) with (bits_value (acc * 2 + b) bits).
  change (bits_value 0 (b :: bits)) with (bits_value (0 * 2 + b) bits).
  rewrite (IH (acc * 2 + b)), (IH (0 * 2 + b)). cbn [length].
  rewrite Nat2Z.inj_succ, Z.pow_succ_r by lia. lia.
Qed.

Lemma bits_value_range bits :
  Forall is_bit bits -> 0 <= bits_value 0 bits < 2 ^ Z.of_nat (length bits).
Proof.
  induction 1 as [|b bits Hb _ IH]; [cbn; lia|].
  change (bits_value 0 (b :: bits)) with (bits_value b bits).
  rewrite bits_value_acc. cbn [length]. rewrite Nat2Z.inj_succ, Z.pow_succ_r by lia.
  destruct Hb as [-> | ->]; lia.
Qed.

(** Only ones give the largest value. *)
Lemma bits_value_ones bits :
  Forall is_bit bits -> bits_value 0 bits = 2 ^ Z.of_nat (length bits) - 1 ->
  bits = replicate (length bits) 1.
Proof.
  induction 1 as [|b bits Hb Hbs IH]; [done|].
  change (bits_value 0 (b :: bits)) with (bits_value b bits).
  rewrite bits_value_acc. cbn [length replicate]. rewrite Nat2Z.inj_succ, Z.pow_succ_r by lia.
  pose proof (bits_value_range _ Hbs). intros E.
  destruct Hb as [-> | ->]; [lia|]. f_equal. apply IH. lia.
Qed.

Lemma code_bits_bit code bits : Forall is_bit (code_bits code bits).
Proof.
  unfold code_bits. apply Forall_fmap, Forall_true. intros i. cbn.
  unfold is_bit. rewrite (land_mask 1) by lia. Z.div_mod_to_equations. lia.
Qed.

Lemma symbol_bits_bit c : Forall is_bit (symbol_bits c).
Proof. unfold symbol_bits. destruct (default _ _). apply code_bits_bit. Qed.

Lemma Forall_bind_bits (f : byte -> list Z) s :
  (forall c, Forall is_bit (f c)) -> Forall is_bit (s ≫= f).
Proof.
  intros Hf. induction s as [|c s IH]; [constructor|].
  change ((c :: s) ≫= f) with (f c ++ (s ≫= f)). by apply Forall_app.
Qed.

Lemma length_byte_bits c : length (byte_bits c) = 8%nat.
Proof. done. Qed.

Lemma length_bytes_bits e : length (e ≫= byte_bits) = (8 * length e)%nat.
Proof.
  induction e as [|c e IH]; [done|].
  change ((c :: e) ≫= byte_bits) with (byte_bits c ++ (e ≫= byte_bits)).
  rewrite length_app, IH, length_byte_bits. cbn [length]. lia.
Qed.

Lemma byte_bits_value c : u8 (bits_value 0 (byte_bits c)) = c.
Proof. by_byte c. Qed.

(** Eight bits are the bits of their value. *)
Lemma byte_bits_pack bits :
  length bits = 8%nat -> Forall is_bit bits -> byte_bits (u8 (bits_value 0 bits)) = bits.
Proof.
  intros L F. do 8 (destruct bits as [|? bits]; [done|]). destruct bits; [|done].
  repeat match goal with H : Forall _ (_ :: _) |- _ => inversion H; clear H; subst end.
  unfold is_bit in *. repeat match goal with H : _ \/ _ |- _ => destruct H as [-> | ->] end;
    vm_compute; reflexivity.
Qed.

Lemma pack_bytes fuel e :
  (length (e ≫= byte_bits) <= fuel)%nat -> pack fuel (e ≫= byte_bits) = e.
Proof.
  revert fuel; induction e as [|c e IH]; intros fuel Hf; [by destruct fuel|].
  change ((c :: e) ≫= byte_bits) with (byte_bits c ++ (e ≫= byte_bits)) in *.
  rewrite length_app, length_byte_bits in Hf. destruct fuel as [|fuel]; [lia|].
  change (byte_bits c ++ (e ≫= byte_bits))
    with (Z.land (val c ≫ 7) 1 :: drop 1 (byte_bits c) ++ (e ≫= byte_bits)).
  cbn [pack].
  change (Z.land (val c ≫ 7) 1 :: drop 1 (byte_bits c) ++ (e ≫= byte_bits))
    with (byte_bits c ++ (e ≫= byte_bits)).
  rewrite <- (length_byte_bits c), take_app_length, drop_app_length.
  f_equal; [apply byte_bits_value|]. apply IH. lia.
Qed.

Lemma bytes_pack fuel bits :
  (length bits <= fuel)%nat -> (length bits mod 8 = 0)%nat -> Forall is_bit bits ->
  (pack fuel bits ≫= byte_bits) = bits.
Proof.
  revert bits; induction fuel as [|fuel IH]; intros bits Hf Hm Fb; [by destruct bits; [|cbn in Hf; lia]|].
  destruct bits as [|b bits]; [done|]. cbn [pack].
  set (l := b :: bits) in *.
  assert (8 <= length l)%nat.
  { destruct (decide (8 <= length l)%nat); [done|]. rewrite Nat.mod_small in Hm by lia. done. }
  change (u8 (fold_left (fun v b => v * 2 + b) (take 8 l) 0) :: pack fuel (drop 8 l))
    with ([u8 (bits_value 0 (take 8 l))] ++ pack fuel (drop 8 l)).
  rewrite bind_app. cbn [mbind list_bind]. rewrite app_nil_r.
  rewrite byte_bits_pack; [|rewrite length_take; lia|by apply Forall_take].
  rewrite IH; [apply take_drop| | |by apply Forall_drop]; rewrite length_drop; [lia|].
  rewrite <- (Nat.Div0.mod_add _ 1). replace (length l - 8 + 1 * 8)%nat with (length l) by lia. done.
Qed.

(** ** Decoding an encoded string *)

(** Bits only append to the output. *)
Definition prepend (o : bytes) (st : DecodeState) : DecodeState :=
  mk_state (node st) (pending_code st) (pending_bits st) (o ++ output st).

Lemma decode_bit_prepend o st bit :
  decode_bit tree (prepend o st) bit = prepend o <$> decode_bit tree st bit.
Proof.
  unfold decode_bit. cbn [node prepend]. set (c := child (node_at tree (node st)) bit).
  destruct (c <? 0); [done|]. destruct (0 <=? symbol (node_at tree c)); [|done].
  destruct (symbol (node_at tree c) =? 256); [done|].
  cbn. unfold prepend. cbn [node pending_code pending_bits output]. by rewrite app_assoc.
Qed.

Lemma decode_bits_prepend o st bits :
  foldO (decode_bit tree) (prepend o st) bits = prepend o <$> foldO (decode_bit tree) st bits.
Proof.
  revert st; induction bits as [|bit bits IH]; intros st; [done|]. cbn [foldO].
  rewrite decode_bit_prepend. destruct (decode_bit tree st bit); [apply IH|done..].
Qed.

Definition root (o : bytes) : DecodeState := mk_state 0 0 0 o.

Lemma root_prepend o : prepend o (root []) = root o.
Proof. unfold prepend, root. cbn. by rewrite app_nil_r. Qed.

Lemma decode_symbol_check c :
  match foldO (decode_bit tree) (root []) (symbol_bits c) with
  | Ret r => (node r =? 0) && (pending_code r =? 0) && (pending_bits r =? 0)
             && bool_decide (output r = [c])
  | _ => false
  end = true.
Proof. by_byte c. Qed.

Lemma decode_symbol c o :
  foldO (decode_bit tree) (root o) (symbol_bits c) = Ret (root (o ++ [c])).
Proof.
  pose proof (decode_symbol_check c) as C.
  rewrite <- (root_prepend o), decode_bits_prepend.
  destruct (foldO _ (root []) _) as [r| |]; [|done..]. cbn. unfold root, prepend.
  apply andb_true_iff in C as [[[C1 C2]%andb_true_iff C3]%andb_true_iff C4].
  rewrite Z.eqb_eq in C1, C2, C3. rewrite bool_decide_eq_true in C4. by rewrite C1, C2, C3, C4.
Qed.

Lemma decode_symbols s o :
  foldO (decode_bit tree) (root o) (s ≫= symbol_bits) = Ret (root (o ++ s)).
Proof.
  revert o; induction s as [|c s IH]; intros o; [by rewrite app_nil_r|].
  change ((c :: s) ≫= symbol_bits) with (symbol_bits c ++ (s ≫= symbol_bits)).
  rewrite foldO_app, decode_symbol. cbn [mbind outcome_bind]. rewrite IH, <- app_assoc. done.
Qed.

Definition padding_ok (st : DecodeState) : bool :=
  negb (negb (pending_bits st =? 0)
        && ((7 <? pending_bits st) || negb (pending_code st =? (1 ≪ pending_bits st) - 1))).

Lemma decode_padding_check k :
  (k < 8)%nat ->
  match foldO (decode_bit tree) (root []) (replicate k 1) with
  | Ret r => padding_ok r && bool_decide (output r = [])
  | _ => false
  end = true.
Proof. intros H. do 8 (destruct k as [|k]; [vm_compute; reflexivity|]). lia. Qed.

Lemma decode_padding k o :
  (k < 8)%nat -> exists r, foldO (decode_bit tree) (root o) (replicate k 1) = Ret r /\
  padding_ok r = true /\ output r = o.
Proof.
  intros C%decode_padding_check.
  rewrite <- (root_prepend o), decode_bits_prepend.
  destruct (foldO _ (root []) _) as [r| |]; [|done..]. cbn.
  apply andb_true_iff in C as [C1 C2%bool_decide_eq_true].
  eexists. split; [done|]. split; [exact C1|]. cbn. by rewrite C2, app_nil_r.
Qed.

Lemma padding_lt n : (padding n < 8)%nat.
Proof. apply Nat.mod_upper_bound. lia. Qed.

Lemma padding_unique n k : (k < 8)%nat -> ((n + k) mod 8 = 0)%nat -> padding n = k.
Proof.
  unfold padding. intros Hk E. pose proof (Nat.mod_upper_bound n 8 ltac:(lia)).
  rewrite Nat.Div0.add_mod, (Nat.mod_small k) in E by lia.
  destruct (decide (n mod 8 + k = 0)%nat) as [Z0|NZ].
  - replace (n mod 8)%nat with 0%nat by lia. replace k with 0%nat by lia. done.
  - assert (n mod 8 + k = 8)%nat.
    { destruct (decide (n mod 8 + k < 8)%nat); [rewrite Nat.mod_small in E; lia|].
      replace (n mod 8 + k)%nat with (n mod 8 + k - 8 + 1 * 8)%nat in E by lia.
      rewrite Nat.Div0.mod_add, Nat.mod_small in E by lia. lia. }
    rewrite Nat.mod_small; lia.
Qed.

Lemma padding_multiple n : ((n + padding n) mod 8 = 0)%nat.
Proof.
  unfold padding. pose proof (Nat.mod_upper_bound n 8 ltac:(lia)).
  rewrite Nat.Div0.add_mod, Nat.Div0.mod_mod.
  destruct (decide (n mod 8 = 0)%nat) as [-> |]; [done|].
  rewrite (Nat.mod_small (8 - n mod 8)) by lia.
  by replace (n mod 8 + (8 - n mod 8))%nat with 8%nat by lia.
Qed.

Lemma huffman_bits_bit s : Forall is_bit (huffman_bits s).
Proof.
  unfold huffman_bits. apply Forall_app. split; [apply Forall_bind_bits, symbol_bits_bit|].
  apply Forall_replicate. by right.
Qed.

Lemma huffman_encode_bits s : (huffman_encode s ≫= byte_bits) = huffman_bits s.
Proof.
  apply bytes_pack; [done| |apply huffman_bits_bit].
  unfold huffman_bits. rewrite length_app, length_replicate. apply padding_multiple.
Qed.

Lemma decode_huffman_eq e :
  hpack_decode_huffman e =
  (st ← foldO (decode_bit tree) (root []) (e ≫= byte_bits);
   if padding_ok st then Ret (output st) else Raise "invalid HPACK Huffman padding").
Proof.
  unfold hpack_decode_huffman. rewrite build_huffman_tree_eq. cbn [mbind outcome_bind].
  fold (root []). destruct (foldO _ _ _) as [st| |]; cbn [mbind outcome_bind]; [|done..].
  unfold padding_ok. by destruct (_ && _).
Qed.

Lemma hpack_decode_huffman_settles e : settles (hpack_decode_huffman e).
Proof.
  rewrite decode_huffman_eq. apply settles_bind; [|auto with settles].
  apply settles_foldO. unfold decode_bit. auto 10 with settles.
Qed.

Lemma decode_encode_huffman s : hpack_decode_huffman (huffman_encode s) = Ret s.
Proof.
  rewrite decode_huffman_eq, huffman_encode_bits. unfold huffman_bits.
  rewrite foldO_app, decode_symbols. cbn [mbind outcome_bind app].
  destruct (decode_padding (padding (length (s ≫= symbol_bits))) s) as (r & -> & P & O);
    [apply padding_lt|].
  cbn [mbind outcome_bind]. by rewrite P, O.
Qed.

(** ** What the decoder accepts *)

(** The bits read so far are the codes of the output followed by the path
    to the current node. *)
Record decoded (bits : list Z) (st : DecodeState) : Prop := {
  decoded_node : 0 <= node st < 513;
  decoded_bits : bits = (output st ≫= symbol_bits) ++ node_path (node st);
  decoded_pending : pending_bits st = Z.of_nat (length (node_path (node st)));
  decoded_code : pending_code st = bits_value 0 (node_path (node st));
  decoded_is_bits : Forall is_bit (node_path (node st));
}.

Lemma decode_bit_decoded bits st bit st' :
  decoded bits st -> is_bit bit -> decode_bit tree st bit = Ret st' -> decoded (bits ++ [bit]) st'.
Proof.
  intros [Hn Hb Hp Hc Hi] Hbit. unfold decode_bit. set (c := child (node_at tree (node st)) bit).
  destruct (Z.ltb_spec c 0) as [|H0]; [done|]. cbn [throw_if mbind outcome_bind].
  destruct (node_path_child _ _ Hn Hbit H0) as [H1 Hpath]. fold c in H1, Hpath.
  pose proof (node_path_length _ Hn) as Hlen.
  destruct (Z.leb_spec 0 (symbol (node_at tree c))) as [Hs|Hs].
  - destruct (Z.eqb_spec (symbol (node_at tree c)) 256) as [|Hne]; [done|]. intros [= <-].
    destruct (node_path_symbol c ltac:(lia) Hs Hne) as [_ Hcode].
    constructor; cbn; [lia| |done|done|constructor].
    rewrite app_nil_r, bind_app, Hb, <- app_assoc, <- Hpath, <- Hcode. cbn. by rewrite app_nil_r.
  - intros [= <-]. pose proof (bits_value_range _ Hi).
    assert (2 ^ Z.of_nat (length (node_path (node st))) <= 2 ^ 30) by (apply Z.pow_le_mono_r; lia).
    constructor; cbn [node output pending_bits pending_code]; rewrite ?Hpath; [lia| | | |].
    + by rewrite Hb, app_assoc.
    + rewrite Hp, wrap_small by lia. rewrite length_app. cbn. lia.
    + rewrite Hc, Z.shiftl_mul_pow2, wrap_small by lia.
      rewrite (lor_add 1) by (destruct Hbit; lia). rewrite bits_value_app. cbn. lia.
    + apply Forall_app. by split; [|apply Forall_singleton].
Qed.

Lemma decode_bits_decoded bits0 st bits st' :
  decoded bits0 st -> Forall is_bit bits -> foldO (decode_bit tree) st bits = Ret st' ->
  decoded (bits0 ++ bits) st'.
Proof.
  intros D F. revert bits0 st D; induction F as [|b bits Hb _ IH]; intros bits0 st D.
  - intros [= <-]. by rewrite app_nil_r.
  - cbn [foldO]. intros (st1 & E1 & E2)%bind_Ret.
    rewrite cons_middle, app_assoc. eapply IH; [|done]. by eapply decode_bit_decoded.
Qed.

(** C37. [hpack_decode_huffman] computes the inverse of the canonical HPACK
    Huffman code: it returns [s] on exactly the bytes that RFC 7541 assigns
    to [s] - the codes of its characters padded with at most seven one bits -
    and throws on everything else, so no string has two accepted encodings. *)
Theorem huffman_decode_spec (encoded s : bytes) :
  hpack_decode_huffman encoded = Ret s <-> encoded = huffman_encode s.
Proof.
  split; [|intros ->; apply decode_encode_huffman].
  rewrite decode_huffman_eq. intros (st & Hst & P)%bind_Ret.
  destruct (padding_ok st) eqn:Pk; [|done]. injection P as <-.
  assert (D : decoded (encoded ≫= byte_bits) st).
  { apply (decode_bits_decoded [] (root [])); [|apply Forall_bind_bits|done].
    - constructor; cbn; [lia|done|done|done|constructor].
    - intros c. apply code_bits_bit. }
  destruct D as [_ Hb Hp Hc Hi].
  assert (Hones : node_path (node st) = replicate (length (node_path (node st))) 1
                  /\ (length (node_path (node st)) < 8)%nat).
  { unfold padding_ok in Pk. destruct (Z.eqb_spec (pending_bits st) 0) as [E|E].
    - rewrite Hp in E. by destruct (node_path (node st)); [split; [|cbn; lia]|].
    - destruct (Z.ltb_spec 7 (pending_bits st)); [done|].
      destruct (Z.eqb_spec (pending_code st) ((1 ≪ pending_bits st) - 1)) as [E'|]; [|done].
      split; [|lia]. apply bits_value_ones; [done|].
      rewrite <- Hc, E', Z.shiftl_1_l, Hp. done. }
  destruct Hones as [Hones Hlt].
  assert (Hbits : huffman_bits (output st) = (encoded ≫= byte_bits)).
  { unfold huffman_bits. rewrite Hb, Hones at 1. f_equal. f_equal.
    apply padding_unique; [done|]. rewrite <- length_app, <- Hb, length_bytes_bits.
    by rewrite Nat.mul_comm, Nat.Div0.mod_mul. }
  unfold huffman_encode. rewrite Hbits. symmetry. by apply pack_bytes.
Qed.
