(* ===== verification/Hpack.v ===== *)
(** * Hpack: header compression

    Models [src/src/protocol/http2_hpack.cpp] apart from its Huffman part
    (file Huffman): prefixed integers, string literals, the header block
    encoder, and [HpackDecoder] with its dynamic table.  The decoder's state
    is returned also when it throws, because the session keeps it. *)

From S2P Require Import Prelude Text Huffman.

Record HeaderField : Type := mk_field {
  name : bytes;
  value : bytes;
}.

#[export] Instance HeaderField_eq_dec : EqDecision HeaderField.
Proof. solve_decision. Defined.

Abbreviation entry := mk_field.

Definition static_table : list HeaderField :=
  [entry (str ":authority") [];
   entry (str ":method") (str "GET");
   entry (str ":method") (str "POST");
   entry (str ":path") (str "/");
   entry (str ":path") (str "/index.html");
   entry (str ":scheme") (str "http");
   entry (str ":scheme") (str "https");
   entry (str ":status") (str "200");
   entry (str ":status") (str "204");
   entry (str ":status") (str "206");
   entry (str ":status") (str "304");
   entry (str ":status") (str "400");
   entry (str ":status") (str "404");
   entry (str ":status") (str "500");
   entry (str "accept-charset") [];
   entry (str "accept-encoding") (str "gzip, deflate");
   entry (str "accept-language") [];
   entry (str "accept-ranges") [];
   entry (str "accept") [];
   entry (str "access-control-allow-origin") [];
   entry (str "age") [];
   entry (str "allow") [];
   entry (str "authorization") [];
   entry (str "cache-control") [];
   entry (str "content-disposition") [];
   entry (str "content-encoding") [];
   entry (str "content-language") [];
   entry (str "content-length") [];
   entry (str "content-location") [];
   entry (str "content-range") [];
   entry (str "content-type") [];
   entry (str "cookie") [];
   entry (str "date") [];
   entry (str "etag") [];
   entry (str "expect") [];
   entry (str "expires") [];
   entry (str "from") [];
   entry (str "host") [];
   entry (str "if-match") [];
   entry (str "if-modified-since") [];
   entry (str "if-none-match") [];
   entry (str "if-range") [];
   entry (str "if-unmodified-since") [];
   entry (str "last-modified") [];
   entry (str "link") [];
   entry (str "location") [];
   entry (str "max-forwards") [];
   entry (str "proxy-authenticate") [];
   entry (str "proxy-authorization") [];
   entry (str "range") [];
   entry (str "referer") [];
   entry (str "refresh") [];
   entry (str "retry-after") [];
   entry (str "server") [];
   entry (str "set-cookie") [];
   entry (str "strict-transport-security") [];
   entry (str "transfer-encoding") [];
   entry (str "user-agent") [];
   entry (str "vary") [];
   entry (str "via") [];
   entry (str "www-authenticate") []].

Definition static_entry (index : Z) : outcome HeaderField :=
  if (index =? 0) || (size static_table <? index)
  then Raise "HPACK static table index is out of range"
  else mret (default (mk_field [] []) (static_table !! Z.to_nat (index - 1))).

(** [for (index = 0; ...) if (...) return index + 1; return 0;] *)
Fixpoint find_index (p : HeaderField -> bool) (l : list HeaderField) (index : Z) : Z :=
  match l with
  | [] => 0
  | e :: l' => if p e then index + 1 else find_index p l' (index + 1)
  end.

Definition find_exact_static_index (header : HeaderField) : Z :=
  find_index (fun e => bool_decide (name e = name header) && bool_decide (value e = value header))
    static_table 0.

Definition find_name_static_index (n : bytes) : Z :=
  find_index (fun e => bool_decide (name e = n)) static_table 0.

Definition entry_size (header : HeaderField) : Z :=
  u64 (size (name header) + size (value header) + 32).

(** ** Integers *)

(** [while (value >= 128)]; a 32-bit value has at most five digits. *)
Fixpoint encode_continuation (fuel : nat) (value : Z) : bytes :=
  match fuel with
  | O => []
  | S fuel' =>
      if 128 <=? value
      then u8 (value mod 128 + 128) :: encode_continuation fuel' (value / 128)
      else [u8 value]
  end.

Definition hpack_encode_integer (value prefix_bits prefix_mask : Z) : outcome bytes :=
  _ ← throw_if ((prefix_bits =? 0) || (8 <? prefix_bits)) "invalid HPACK integer prefix width";
  let max_prefix := (1 ≪ prefix_bits) - 1 in
  if value <? max_prefix then mret [u8 (Z.lor prefix_mask (wrap 8 value))]
  else mret (u8 (Z.lor prefix_mask (wrap 8 max_prefix))
             :: encode_continuation 5 (value - max_prefix)).

(** [while (true)] over the bytes from [offset] on. *)
Fixpoint decode_continuation (rest : bytes) (offset : nat) (value multiplier : Z)
    : outcome (Z * nat) :=
  match rest with
  | [] => Raise "incomplete HPACK integer continuation"
  | byte :: rest' =>
      let byte := val byte in
      _ ← throw_if ((28 <=? multiplier) && negb (Z.land byte 0x7f =? 0)) "HPACK integer overflow";
      let value := u32 (value + u32 (Z.land byte 0x7f ≪ multiplier)) in
      if Z.land byte 0x80 =? 0 then mret (value, S offset)
      else decode_continuation rest' (S offset) value (multiplier + 7)
  end.

(** The decoded value and the offset after it. *)
Definition hpack_decode_integer (b : bytes) (offset : nat) (prefix_bits : Z) : outcome (Z * nat) :=
  _ ← throw_if (length b <=? offset)%nat "incomplete HPACK integer";
  _ ← throw_if ((prefix_bits =? 0) || (8 <? prefix_bits)) "invalid HPACK integer prefix width";
  let max_prefix := (1 ≪ prefix_bits) - 1 in
  let value := Z.land (nth_val b offset) max_prefix in
  if value <? max_prefix then mret (value, S offset)
  else decode_continuation (drop (S offset) b) (S offset) value 0.

(** ** Strings *)

Definition hpack_encode_string (value : bytes) : outcome bytes :=
  _ ← throw_if (2 ^ 32 - 1 <? size value) "HPACK string is too large";
  len ← hpack_encode_integer (size value) 7 0x00;
  mret (len ++ value).

Definition hpack_decode_string (b : bytes) (offset : nat) : outcome (bytes * nat) :=
  _ ← throw_if (length b <=? offset)%nat "incomplete HPACK string";
  let huffman := negb (Z.land (nth_val b offset) 0x80 =? 0) in
  '(len, offset) ← hpack_decode_integer b offset 7;
  _ ← throw_if (size b - Z.of_nat offset <? len) "incomplete HPACK string data";
  let encoded := substr b offset (Z.to_nat len) in
  value ← (if huffman then hpack_decode_huffman encoded else mret encoded);
  mret (value, (offset + Z.to_nat len)%nat).

(** ** The header block encoder *)

Definition encode_field (header : HeaderField) : outcome bytes :=
  _ ← throw_if (bool_decide (name header = [])) "HPACK header name cannot be empty";
  let exact_index := find_exact_static_index header in
  if negb (exact_index =? 0) then hpack_encode_integer exact_index 7 0x80
  else
    let name_index := find_name_static_index (name header) in
    i ← hpack_encode_integer name_index 4 0x00;
    n ← (if name_index =? 0 then hpack_encode_string (name header) else mret []);
    v ← hpack_encode_string (value header);
    mret (i ++ n ++ v).

Definition hpack_encode_header_block (headers : list HeaderField) : outcome bytes :=
  fields ← mapO encode_field headers; mret (concat fields).

(** ** HpackDecoder *)

Record HpackDecoder : Type := mk_decoder {
  max_table_size : Z;
  table_size : Z;
  dynamic_table : list HeaderField;
}.

Definition new_decoder : HpackDecoder := mk_decoder 4096 0 [].

Definition reset (d : HpackDecoder) : HpackDecoder := mk_decoder (max_table_size d) 0 [].

(** [while (table_size_ > max_table_size_ && !dynamic_table_.empty())]:
    every turn removes an entry, [fuel] is their number. *)
Fixpoint evict_loop (fuel : nat) (d : HpackDecoder) : HpackDecoder :=
  match fuel with
  | O => d
  | S fuel' =>
      if (max_table_size d <? table_size d) then
        match last (dynamic_table d) with
        | Some back =>
            evict_loop fuel'
              (mk_decoder (max_table_size d) (u64 (table_size d - entry_size back))
                 (take (length (dynamic_table d) - 1) (dynamic_table d)))
        | None => d
        end
      else d
  end.

Definition evict_dynamic (d : HpackDecoder) : HpackDecoder :=
  let d := evict_loop (length (dynamic_table d)) d in
  if max_table_size d =? 0 then reset d else d.

Definition set_max_table_size (b : Z) (d : HpackDecoder) : HpackDecoder :=
  evict_dynamic (mk_decoder b (table_size d) (dynamic_table d)).

Definition add_dynamic (header : HeaderField) (d : HpackDecoder) : HpackDecoder :=
  let sz := entry_size header in
  if max_table_size d <? sz then reset d
  else evict_dynamic (mk_decoder (max_table_size d) (u64 (table_size d + sz))
                                 (header :: dynamic_table d)).

Definition indexed_header (d : HpackDecoder) (index : Z) : outcome HeaderField :=
  _ ← throw_if (index =? 0) "HPACK index 0 is invalid";
  if index <=? size static_table then static_entry index
  else
    let dynamic_index := index - size static_table - 1 in
    match dynamic_table d !! Z.to_nat dynamic_index with
    | Some header => mret header
    | None => Raise "HPACK dynamic table index is out of range"
    end.

Definition indexed_name (d : HpackDecoder) (index : Z) : outcome bytes :=
  name <$> indexed_header d index.

(** The two literal representations: index or name, then the value. *)
Definition decode_literal (d : HpackDecoder) (block : bytes) (offset : nat) (prefix_bits : Z)
    : outcome (HeaderField * nat) :=
  '(name_index, offset) ← hpack_decode_integer block offset prefix_bits;
  '(n, offset) ← (if name_index =? 0 then hpack_decode_string block offset
                  else n ← indexed_name d name_index; mret (n, offset));
  '(v, offset) ← hpack_decode_string block offset;
  mret (mk_field n v, offset).

(** One turn of the loop: the new decoder, the header read if any, and the
    next offset.  Nothing throws after the decoder was changed. *)
Definition decode_representation (d : HpackDecoder) (block : bytes) (offset : nat)
    (regular_header_seen : bool) : outcome (HpackDecoder * option HeaderField * nat) :=
  let byte := nth_val block offset in
  if negb (Z.land byte 0x80 =? 0) then
    '(index, offset) ← hpack_decode_integer block offset 7;
    header ← indexed_header d index;
    mret (d, Some header, offset)
  else if Z.land byte 0xe0 =? 0x20 then
    _ ← throw_if regular_header_seen
          "HPACK dynamic table size update must precede header fields";
    '(new_size, offset) ← hpack_decode_integer block offset 5;
    mret (set_max_table_size new_size d, None, offset)
  else if negb (Z.land byte 0x40 =? 0) then
    '(header, offset) ← decode_literal d block offset 6;
    mret (add_dynamic header d, Some header, offset)
  else
    '(header, offset) ← decode_literal d block offset 4;
    mret (d, Some header, offset).

(** [while (offset < block.size())] *)
Fixpoint decode_loop (fuel : nat) (d : HpackDecoder) (block : bytes) (offset : nat)
    (headers : list HeaderField) (regular_header_seen : bool)
    : HpackDecoder * outcome (list HeaderField) :=
  if (length block <=? offset)%nat then (d, Ret headers)
  else
    match fuel with
    | O => (d, Timeout)
    | S fuel' =>
        match decode_representation d block offset regular_header_seen with
        | Ret (d', Some header, offset') =>
            decode_loop fuel' d' block offset' (headers ++ [header]) true
        | Ret (d', None, offset') =>
            decode_loop fuel' d' block offset' headers regular_header_seen
        | Raise e => (d, Raise e)
        | Timeout => (d, Timeout)
        end
    end.

Definition decode_header_block (d : HpackDecoder) (block : bytes)
    : HpackDecoder * outcome (list HeaderField) :=
  decode_loop (length block) d block 0 [] false.

Definition hpack_decode_header_block (block : bytes) : outcome (list HeaderField) :=
  snd (decode_header_block new_decoder block).

(** ** Integers round trip, up to 28 bits beyond the prefix *)

Lemma byte_flags_check c :
  (if val c <? 128
   then (Z.land (val c) 0x7f =? val c) && (Z.land (val c) 0x80 =? 0)
   else (Z.land (val c) 0x7f =? val c - 128) && negb (Z.land (val c) 0x80 =? 0)) = true.
Proof. by_byte c. Qed.

Lemma byte_digit v : 0 <= v < 128 ->
  Z.land (val (u8 v)) 0x7f = v /\ Z.land (val (u8 v)) 0x80 = 0.
Proof.
  intros. pose proof (byte_flags_check (u8 v)) as C. rewrite val_u8_small in * by lia.
  destruct (Z.ltb_spec v 128); lia.
Qed.

Lemma byte_more v :
  Z.land (val (u8 (v mod 128 + 128))) 0x7f = v mod 128 /\
  Z.land (val (u8 (v mod 128 + 128))) 0x80 <> 0.
Proof.
  pose proof (Z.mod_pos_bound v 128 ltac:(lia)).
  pose proof (byte_flags_check (u8 (v mod 128 + 128))) as C. rewrite val_u8_small in * by lia.
  destruct (Z.ltb_spec (v mod 128 + 128) 128); lia.
Qed.

(** The digits written by the encoder, read from bit [35 - 7 * fuel] on. *)
Lemma decode_encode_continuation fuel v acc offset rest :
  (1 <= fuel <= 5)%nat -> let m := 35 - 7 * Z.of_nat fuel in
  0 <= v < 2 ^ (32 - m) -> 0 <= acc -> acc + v * 2 ^ m < 2 ^ 32 ->
  decode_continuation (encode_continuation fuel v ++ rest) offset acc m
  = if v * 2 ^ m <? 2 ^ 28
    then Ret (acc + v * 2 ^ m, (offset + length (encode_continuation fuel v))%nat)
    else Raise "HPACK integer overflow".
Proof.
  revert v acc offset; induction fuel as [|fuel IH]; intros v acc offset Hf m Hv Ha Hs; [lia|].
  assert (Hm : 0 <= m <= 28) by lia. assert (P : 0 < 2 ^ m) by (apply Z.pow_pos_nonneg; lia).
  assert (PM : 2 ^ m <= 2 ^ 28) by (apply Z.pow_le_mono_r; lia).
  cbn [encode_continuation]. destruct (Z.leb_spec 128 v) as [L|L].
  - destruct fuel as [|fuel'].
    { assert (m = 28) by lia. replace (32 - m) with 4 in Hv by lia. lia. }
    cbn [app decode_continuation length]. destruct (byte_more v) as [-> N].
    destruct (Z.leb_spec 28 m); [lia|]. cbn [andb throw_if mbind outcome_bind].
    rewrite (proj2 (Z.eqb_neq _ _) N).
    assert (D : v = 128 * (v / 128) + v mod 128) by (apply Z.div_mod; lia).
    pose proof (Z.mod_pos_bound v 128 ltac:(lia)). pose proof (Z.div_pos v 128 ltac:(lia) ltac:(lia)).
    assert (E7 : 2 ^ (m + 7) = 2 ^ m * 128) by (rewrite Z.pow_add_r by lia; done).
    assert (S1 : 0 <= v mod 128 * 2 ^ m <= v * 2 ^ m) by nia.
    rewrite Z.shiftl_mul_pow2, (wrap_small 32 (_ * _)), wrap_small by lia.
    replace (m + 7) with (35 - 7 * Z.of_nat (S fuel')) by lia.
    rewrite IH; replace (35 - 7 * Z.of_nat (S fuel')) with (m + 7) by lia; rewrite ?E7;
      [|lia| |nia|nia].
    + replace (v / 128 * (2 ^ m * 128) <? 2 ^ 28) with (v * 2 ^ m <? 2 ^ 28).
      { destruct (v * 2 ^ m <? 2 ^ 28); [|done]. f_equal. f_equal; [nia|lia]. }
      assert (E28 : 2 ^ 28 = 2 ^ m * 128 * 2 ^ (21 - m)).
      { rewrite <- E7, <- Z.pow_add_r by lia. f_equal. lia. }
      assert (v < 128 * 2 ^ (21 - m) <-> v / 128 < 2 ^ (21 - m)).
      { split; [apply Z.div_lt_upper_bound; lia|lia]. }
      rewrite E28. apply eq_bool_prop_intro. rewrite !Is_true_true, !Z.ltb_lt. split; nia.
    + split; [lia|]. apply Z.div_lt_upper_bound; [lia|].
      replace (32 - m) with (7 + (32 - (m + 7))) in Hv by lia. rewrite Z.pow_add_r in Hv by lia. lia.
  - cbn [app decode_continuation length]. destruct (byte_digit v ltac:(lia)) as [-> ->].
    rewrite Z.eqb_refl. rewrite Z.shiftl_mul_pow2, (wrap_small 32 (_ * _)), wrap_small by nia.
    rewrite Nat.add_1_r.
    destruct (Z.ltb_spec (v * 2 ^ m) (2 ^ 28)) as [L28|L28].
    + destruct (Z.leb_spec 28 m); [|done]. replace m with 28 in L28 |- * by lia.
      destruct (Z.eqb_spec v 0); [by subst|lia].
    + destruct (Z.leb_spec 28 m).
      * destruct (Z.eqb_spec v 0); [lia|done].
      * exfalso. assert (2 ^ m * 128 <= 2 ^ 28); [|nia].
        change 128 with (2 ^ 7). rewrite <- Z.pow_add_r by lia. apply Z.pow_le_mono_r; lia.
Qed.

(** A prefix mask leaves the [n] low bits of the first byte free. *)
Definition prefix_mask_ok (n mask : Z) : Prop := 0 <= mask < 256 /\ mask mod 2 ^ n = 0.

Lemma first_byte n mask w :
  1 <= n <= 8 -> prefix_mask_ok n mask -> 0 <= w < 2 ^ n ->
  val (u8 (Z.lor mask (wrap 8 w))) = mask + w /\
  Z.land (val (u8 (Z.lor mask (wrap 8 w)))) ((1 ≪ n) - 1) = w.
Proof.
  intros Hn [Hm Hz] Hw. assert (P : 0 < 2 ^ n) by (apply Z.pow_pos_nonneg; lia).
  assert (D : 256 = 2 ^ (8 - n) * 2 ^ n) by (rewrite <- Z.pow_add_r by lia; by replace (8 - n + n) with 8 by lia).
  assert (0 < 2 ^ (8 - n)) by (apply Z.pow_pos_nonneg; lia).
  pose proof (Z.div_mod mask (2 ^ n) ltac:(lia)) as M. rewrite Hz, Z.add_0_r, Z.mul_comm in M.
  assert (mask / 2 ^ n < 2 ^ (8 - n)) by nia.
  assert (L : Z.lor mask w = mask + w) by (rewrite M; apply lor_add; lia).
  assert (V : val (u8 (Z.lor mask (wrap 8 w))) = mask + w).
  { rewrite wrap_small by (change (2 ^ 8) with 256; nia). rewrite L. apply val_u8_small. nia. }
  split; [done|]. rewrite V, Z.shiftl_1_l, land_mask by lia.
  rewrite M, Z.add_comm, Z_mod_plus_full. by apply Z.mod_small.
Qed.

Lemma byte_at_app pre c rest : byte_at (pre ++ c :: rest) (length pre) = c.
Proof. unfold byte_at. rewrite lookup_app_r by lia. by rewrite Nat.sub_diag. Qed.

Lemma drop_app_S {A} (pre : list A) c rest : drop (S (length pre)) (pre ++ c :: rest) = rest.
Proof. rewrite (cons_middle c pre rest), app_assoc. apply drop_app_length'. rewrite length_app. cbn. lia. Qed.

Lemma pow2_minus_1 n : 1 <= n <= 8 -> 1 <= (1 ≪ n) - 1 < 2 ^ n /\ (1 ≪ n) - 1 <= 255.
Proof.
  intros. rewrite Z.shiftl_1_l.
  assert (2 ^ 1 <= 2 ^ n) by (apply Z.pow_le_mono_r; lia).
  assert (2 ^ n <= 2 ^ 8) by (apply Z.pow_le_mono_r; lia). lia.
Qed.

Lemma decode_integer_at pre c rest n :
  1 <= n <= 8 ->
  hpack_decode_integer (pre ++ c :: rest) (length pre) n
  = let value := Z.land (val c) ((1 ≪ n) - 1) in
    if value <? (1 ≪ n) - 1 then Ret (value, S (length pre))
    else decode_continuation rest (S (length pre)) value 0.
Proof.
  intros Hn. unfold hpack_decode_integer. rewrite byte_at_app, drop_app_S, length_app. cbn [length].
  destruct (Nat.leb_spec (length pre + S (length rest)) (length pre)); [lia|].
  replace ((n =? 0) || (8 <? n)) with false by lia. done.
Qed.

(** The integer at [offset] of a block that contains its encoding there. *)
Lemma decode_encode_integer v n mask pre rest out :
  1 <= n <= 8 -> prefix_mask_ok n mask -> 0 <= v < 2 ^ 32 ->
  hpack_encode_integer v n mask = Ret out ->
  hpack_decode_integer (pre ++ out ++ rest) (length pre) n
  = if v - ((1 ≪ n) - 1) <? 2 ^ 28 then Ret (v, (length pre + length out)%nat)
    else Raise "HPACK integer overflow".
Proof.
  intros Hn Hm Hv. destruct (pow2_minus_1 n Hn) as [Hmax Hmax'].
  unfold hpack_encode_integer. replace ((n =? 0) || (8 <? n)) with false by lia.
  set (mx := (1 ≪ n) - 1) in *. cbn [throw_if mbind outcome_bind].
  set (enc := encode_continuation 5 (v - mx)).
  destruct (Z.ltb_spec v mx) as [L|L]; intros [= <-]; cbn [app]; rewrite decode_integer_at by done;
    fold mx.
  - destruct (first_byte n mask v Hn Hm ltac:(lia)) as [_ E]. fold mx in E. rewrite E. cbn zeta.
    destruct (Z.ltb_spec v mx); [|lia]. destruct (Z.ltb_spec (v - mx) (2 ^ 28)); [|lia].
    cbn [length]. by rewrite Nat.add_1_r.
  - destruct (first_byte n mask mx Hn Hm ltac:(lia)) as [_ E]. fold mx in E. rewrite E. cbn zeta.
    rewrite Z.ltb_irrefl.
    pose proof (decode_encode_continuation 5 (v - mx) mx (S (length pre)) rest ltac:(lia)) as D.
    change (35 - 7 * Z.of_nat 5) with 0 in D. cbn zeta in D. change (2 ^ 0) with 1 in D.
    rewrite Z.mul_1_r in D. unfold enc. rewrite D by (change (32 - 0) with 32; lia).
    replace (mx + (v - mx)) with v by lia. cbn [length].
    by rewrite Nat.add_succ_comm.
Qed.

Lemma hpack_encode_integer_total v n mask :
  1 <= n <= 8 -> exists c b, hpack_encode_integer v n mask = Ret (c :: b) /\
  (v < (1 ≪ n) - 1 -> b = [] /\ c = u8 (Z.lor mask (wrap 8 v))) .
Proof.
  intros Hn. unfold hpack_encode_integer. replace ((n =? 0) || (8 <? n)) with false by lia.
  cbn [throw_if mbind outcome_bind]. destruct (Z.ltb_spec v ((1 ≪ n) - 1)); repeat eexists; lia.
Qed.

(** ** Strings round trip *)

Lemma encode_string_Ret s out :
  hpack_encode_string s = Ret out -> exists len, hpack_encode_integer (size s) 7 0 = Ret len /\
  out = len ++ s /\ size s < 2 ^ 32.
Proof.
  unfold hpack_encode_string. intros (u & T & (len & E & [= <-])%bind_Ret)%bind_Ret.
  apply throw_if_Ret in T. exists len. split; [done|]. split; [done|]. lia.
Qed.

Lemma first_byte_plain v :
  0 <= v < 2 ^ 32 -> forall c b, hpack_encode_integer v 7 0 = Ret (c :: b) -> Z.land (val c) 0x80 = 0.
Proof.
  intros Hv c b. unfold hpack_encode_integer. cbn [Z.eqb Z.ltb Z.compare orb throw_if mbind outcome_bind].
  change ((1 ≪ 7) - 1) with 127.
  destruct (Z.ltb_spec v 127); intros [= <- _]; rewrite Z.lor_0_l.
  - rewrite wrap_small by lia. by apply byte_digit; lia.
  - done.
Qed.

Lemma decode_encode_string s out pre rest :
  hpack_encode_string s = Ret out -> size s < 2 ^ 28 ->
  hpack_decode_string (pre ++ out ++ rest) (length pre) = Ret (s, (length pre + length out)%nat).
Proof.
  intros (len & E & -> & Hs)%encode_string_Ret H28. unfold hpack_decode_string.
  assert (H32 : 0 <= size s < 2 ^ 32) by lia.
  pose proof (first_byte_plain _ H32) as F.
  rewrite <- (app_assoc len). pose proof (decode_encode_integer (size s) 7 0 pre (s ++ rest) len
    ltac:(lia) ltac:(done) H32 E) as D.
  change ((1 ≪ 7) - 1) with 127 in D. destruct (Z.ltb_spec (size s - 127) (2 ^ 28)); [|lia].
  destruct (hpack_encode_integer_total (size s) 7 0 ltac:(lia)) as (c & b & E' & _).
  rewrite E in E'. injection E' as ->. rewrite D. cbn [app]. rewrite byte_at_app, (F c b E), !length_app.
  cbn [length]. destruct (Nat.leb_spec (length pre + S (length (b ++ s ++ rest))) (length pre)); [lia|].
  cbn [throw_if mbind outcome_bind Z.eqb negb].
  rewrite !length_app.
  destruct (Z.ltb_spec (Z.of_nat (length pre + S (length b + (length s + length rest)))
    - Z.of_nat (length pre + S (length b))) (size s)); [lia|].
  cbn [throw_if mbind outcome_bind mret outcome_ret]. rewrite Nat2Z.id.
  f_equal. f_equal; [|lia].
  replace (length pre + S (length b))%nat with (length (pre ++ c :: b) + 0)%nat
    by (rewrite length_app; cbn; lia).
  rewrite app_comm_cons, app_assoc, substr_app_skip. apply substr_all.
Qed.

(** ** Header blocks round trip *)

Lemma find_index_spec p l i :
  0 <= i ->
  (find_index p l i = 0 /\ Forall (fun e => p e = false) l) \/
  (exists k e, find_index p l i = i + Z.of_nat k + 1 /\ l !! k = Some e /\ p e = true).
Proof.
  revert i; induction l as [|x l IH]; intros i Hi; cbn [find_index]; [by left|].
  destruct (p x) eqn:P; [right; exists 0%nat, x; split; [lia|done]|].
  destruct (IH (i + 1) ltac:(lia)) as [[E F]|(k & e & E & L & Pe)].
  - left. by split; [|constructor].
  - right. exists (S k), e. split; [lia|done].
Qed.

Lemma find_exact_spec h :
  find_exact_static_index h = 0 \/
  (1 <= find_exact_static_index h <= 61 /\
   static_table !! Z.to_nat (find_exact_static_index h - 1) = Some h).
Proof.
  unfold find_exact_static_index.
  destruct (find_index_spec (fun e => bool_decide (name e = name h) && bool_decide (value e = value h))
              static_table 0) as [[E _]|(k & e & E & L & P)]; [done|by left|].
  right. pose proof (lookup_lt_Some _ _ _ L) as B. change (length static_table) with 61%nat in B.
  rewrite E. split; [lia|]. replace (Z.to_nat (0 + Z.of_nat k + 1 - 1)) with k by lia.
  apply andb_true_iff in P as [P1%bool_decide_eq_true P2%bool_decide_eq_true].
  rewrite L. f_equal. destruct e, h; cbn in *; congruence.
Qed.

Lemma find_name_spec n :
  find_name_static_index n = 0 \/
  (1 <= find_name_static_index n <= 61 /\
   exists e, static_table !! Z.to_nat (find_name_static_index n - 1) = Some e /\ name e = n).
Proof.
  unfold find_name_static_index.
  destruct (find_index_spec (fun e => bool_decide (name e = n)) static_table 0)
    as [[E _]|(k & e & E & L & P%bool_decide_eq_true)]; [done|by left|].
  right. pose proof (lookup_lt_Some _ _ _ L) as B. change (length static_table) with 61%nat in B.
  rewrite E. split; [lia|]. exists e. by replace (Z.to_nat (0 + Z.of_nat k + 1 - 1)) with k by lia.
Qed.

Lemma indexed_header_static d i e :
  1 <= i <= 61 -> static_table !! Z.to_nat (i - 1) = Some e -> indexed_header d i = Ret e.
Proof.
  intros Hi L. unfold indexed_header, static_entry. change (size static_table) with 61.
  destruct (Z.eqb_spec i 0); [lia|]. cbn [throw_if mbind outcome_bind orb].
  destruct (Z.leb_spec i 61); [|lia]. destruct (Z.ltb_spec 61 i); [lia|]. by rewrite L.
Qed.

(** The flag bits that select a representation. *)
Lemma representation_check c :
  implb (val c <? 16)
    ((Z.land (val c) 0x80 =? 0) && negb (Z.land (val c) 0xe0 =? 0x20) && (Z.land (val c) 0x40 =? 0))
  && implb (128 <=? val c) (negb (Z.land (val c) 0x80 =? 0)) = true.
Proof. by_byte c. Qed.

Definition wf_field (h : HeaderField) : Prop := size (name h) < 2 ^ 28 /\ size (value h) < 2 ^ 28.

Lemma encode_field_decode d h out pre rest seen :
  wf_field h -> encode_field h = Ret out ->
  (1 <= length out)%nat /\
  decode_representation d (pre ++ out ++ rest) (length pre) seen
  = Ret (d, Some h, (length pre + length out)%nat).
Proof.
  intros [Hn Hv]. unfold encode_field. intros (_ & _ & H)%bind_Ret.
  destruct (find_exact_spec h) as [E|[B L]].
  - rewrite E in H. cbn [Z.eqb negb] in H.
    apply bind_Ret in H as (i & Hi & (n & Hnm & (v & Hvl & [= <-])%bind_Ret)%bind_Ret).
    pose proof (find_name_spec (name h)) as NS. set (k := find_name_static_index (name h)) in *.
    assert (K : 0 <= k <= 61) by lia.
    destruct (hpack_encode_integer_total k 4 0 ltac:(lia)) as (c & b & Ei & _).
    rewrite Hi in Ei. injection Ei as ->. split; [cbn; lia|].
    assert (C : val c < 16).
    { revert Hi. unfold hpack_encode_integer. cbn [Z.eqb Z.ltb Z.compare orb throw_if mbind outcome_bind].
      change ((1 ≪ 4) - 1) with 15. destruct (Z.ltb_spec k 15); intros [= <- _]; rewrite Z.lor_0_l.
      - rewrite wrap_small, val_u8_small by lia. lia.
      - done. }
    pose proof (representation_check c) as R. apply andb_true_iff in R as [R _].
    destruct (Z.ltb_spec (val c) 16); [|lia]. cbn [implb] in R.
    apply andb_true_iff in R as [[R1 R2]%andb_true_iff R3].
    unfold decode_representation. rewrite <- !app_assoc.
    change ((c :: b) ++ n ++ v ++ rest) with (c :: b ++ n ++ v ++ rest).
    rewrite byte_at_app, R1. cbn [negb].
    apply negb_true_iff in R2. rewrite R2, R3. cbn [negb].
    unfold decode_literal. change (c :: b ++ n ++ v ++ rest) with ((c :: b) ++ n ++ v ++ rest).
    rewrite (decode_encode_integer k 4 0) by (done || lia).
    change ((1 ≪ 4) - 1) with 15. destruct (Z.ltb_spec (k - 15) (2 ^ 28)); [|lia].
    cbn [mbind outcome_bind]. set (i := c :: b) in *. rewrite <- length_app, (app_assoc pre i).
    destruct (Z.eqb_spec k 0) as [K0|K0].
    + rewrite (decode_encode_string (name h)) by done. cbn [mbind outcome_bind].
      rewrite <- length_app, (app_assoc _ n), (decode_encode_string (value h)) by done.
      cbn [mbind outcome_bind mret outcome_ret]. f_equal. f_equal; [f_equal; by destruct h|].
      rewrite !length_app. lia.
    + destruct NS as [?|[Bk (e & Le & En)]]; [done|].
      injection Hnm as <-. cbn [app].
      unfold indexed_name. rewrite (indexed_header_static d k e) by done.
      cbn [fmap outcome_fmap mbind outcome_bind mret outcome_ret].
      rewrite (decode_encode_string (value h)) by done.
      cbn [mbind outcome_bind mret outcome_ret]. f_equal.
      f_equal; [f_equal; rewrite En; by destruct h|]. rewrite !length_app. lia.
  - set (k := find_exact_static_index h) in *.
    destruct (Z.eqb_spec k 0); [lia|]. cbn [negb] in H.
    destruct (hpack_encode_integer_total k 7 0x80 ltac:(lia)) as (c & b & Ei & F).
    rewrite H in Ei. injection Ei as ->.
    destruct (F ltac:(change ((1 ≪ 7) - 1) with 127; lia)) as [-> Ec]. split; [cbn; lia|].
    destruct (first_byte 7 0x80 k ltac:(lia) ltac:(done) ltac:(lia)) as [Vc _]. rewrite <- Ec in Vc.
    pose proof (representation_check c) as R. apply andb_true_iff in R as [_ R].
    destruct (Z.leb_spec 128 (val c)); [|lia]. cbn [implb] in R.
    unfold decode_representation. change ([c] ++ rest) with (c :: rest). rewrite byte_at_app, R.
    change (c :: rest) with ([c] ++ rest). rewrite (decode_encode_integer k 7 0x80) by (done || lia).
    change ((1 ≪ 7) - 1) with 127. destruct (Z.ltb_spec (k - 127) (2 ^ 28)); [|lia].
    cbn [mbind outcome_bind]. by rewrite (indexed_header_static d k h).
Qed.

Lemma decode_loop_encoded fuel d pre l out acc seen :
  Forall wf_field l -> hpack_encode_header_block l = Ret out -> (length out <= fuel)%nat ->
  decode_loop fuel d (pre ++ out) (length pre) acc seen = (d, Ret (acc ++ l)).
Proof.
  unfold hpack_encode_header_block. intros F (fs & M%mapO_Ret & [= <-])%bind_Ret.
  revert fuel pre acc seen. induction M as [|h f l fs Hf _ IH]; intros fuel pre acc seen Hfuel.
  - cbn [concat]. rewrite !app_nil_r. by destruct fuel; cbn [decode_loop]; rewrite Nat.leb_refl.
  - inversion F as [|? ? Wh Wl]; subst. cbn [concat] in *.
    destruct (encode_field_decode d h f pre (concat fs) seen Wh Hf) as [L D].
    rewrite length_app in Hfuel. destruct fuel as [|fuel]; [lia|]. cbn [decode_loop].
    destruct (Nat.leb_spec (length (pre ++ f ++ concat fs)) (length pre)) as [C|_];
      [rewrite !length_app in C; lia|].
    rewrite D, <- length_app, app_assoc, IH by (done || lia). by rewrite <- app_assoc.
Qed.

(** ** The dynamic table against its specification *)

Fixpoint sum_sizes (l : list HeaderField) : Z :=
  match l with
  | [] => 0
  | h :: l' => entry_size h + sum_sizes l'
  end.

Arguments entry_size : simpl never.

(** The table of RFC 7541, section 4: the newest entries that fit. *)
Fixpoint fitting (budget : Z) (l : list HeaderField) : list HeaderField :=
  match l with
  | [] => []
  | h :: l' => if entry_size h <=? budget then h :: fitting (budget - entry_size h) l' else []
  end.

Lemma entry_size_range h : 0 <= entry_size h < 2 ^ 64.
Proof. apply wrap_range. lia. Qed.

Lemma sum_sizes_app a b : sum_sizes (a ++ b) = sum_sizes a + sum_sizes b.
Proof. induction a as [|h a IH]; [done|]. cbn. lia. Qed.

Lemma sum_sizes_nonneg l : 0 <= sum_sizes l.
Proof. induction l as [|h l IH]; cbn; [lia|]. pose proof (entry_size_range h). lia. Qed.

Lemma fitting_all b l : sum_sizes l <= b -> fitting b l = l.
Proof.
  revert b; induction l as [|h l IH]; intros b H; [done|]. cbn in *.
  pose proof (sum_sizes_nonneg l). destruct (Z.leb_spec (entry_size h) b); [|lia].
  by rewrite IH by lia.
Qed.

Lemma fitting_snoc b l x : b < sum_sizes (l ++ [x]) -> fitting b (l ++ [x]) = fitting b l.
Proof.
  revert b; induction l as [|h l IH]; intros b H; cbn in *.
  - destruct (Z.leb_spec (entry_size x) b); [lia|done].
  - destruct (Z.leb_spec (entry_size h) b); [|done]. by rewrite IH by lia.
Qed.

Lemma fitting_sum b l : 0 <= b -> sum_sizes (fitting b l) <= b.
Proof.
  revert b; induction l as [|h l IH]; intros b Hb; cbn; [lia|].
  destruct (Z.leb_spec (entry_size h) b); cbn; [|lia]. specialize (IH (b - entry_size h)). lia.
Qed.

Lemma evict_loop_spec b l :
  0 <= b -> sum_sizes l < 2 ^ 64 ->
  evict_loop (length l) (mk_decoder b (sum_sizes l) l)
  = mk_decoder b (sum_sizes (fitting b l)) (fitting b l).
Proof.
  intros Hb. induction l as [|x l IH] using rev_ind; intros Hs; [done|].
  rewrite length_app, Nat.add_1_r. cbn [evict_loop max_table_size table_size dynamic_table].
  destruct (Z.ltb_spec b (sum_sizes (l ++ [x]))).
  - rewrite last_snoc, length_app, Nat.add_sub, take_app_length, fitting_snoc by done.
    rewrite sum_sizes_app in Hs |- *. cbn in Hs |- *. pose proof (entry_size_range x).
    pose proof (sum_sizes_nonneg l).
    replace (sum_sizes l + (entry_size x + 0) - entry_size x) with (sum_sizes l) by lia.
    rewrite wrap_small by lia. apply IH. lia.
  - by rewrite fitting_all.
Qed.

(** The abstract table: its limit and its entries, newest first. *)
Record Table : Type := mk_table {
  limit : Z;
  entries : list HeaderField;
}.

Definition table_resize (b : Z) (t : Table) : Table :=
  mk_table b (if b =? 0 then [] else fitting b (entries t)).
Definition table_add (h : HeaderField) (t : Table) : Table :=
  mk_table (limit t) (if limit t =? 0 then [] else fitting (limit t) (h :: entries t)).
Definition table_clear (t : Table) : Table := mk_table (limit t) [].

(** The decoder implements the abstract table: it holds its entries and the
    sum of their sizes, which respects the limit. *)
Record implements (d : HpackDecoder) (t : Table) : Prop := {
  impl_limit : max_table_size d = limit t;
  impl_entries : dynamic_table d = entries t;
  impl_size : table_size d = sum_sizes (entries t);
  impl_fits : sum_sizes (entries t) <= limit t;
  impl_range : 0 <= limit t < 2 ^ 32;
}.

Lemma new_decoder_implements : implements new_decoder (mk_table 4096 []).
Proof. by constructor. Qed.

Lemma reset_implements d t : implements d t -> implements (reset d) (table_clear t).
Proof. intros []. constructor; cbn; (done || lia). Qed.

Lemma evict_implements b l :
  0 <= b < 2 ^ 32 -> sum_sizes l < 2 ^ 64 ->
  implements (evict_dynamic (mk_decoder b (sum_sizes l) l))
             (mk_table b (if b =? 0 then [] else fitting b l)).
Proof.
  intros Hb Hs. unfold evict_dynamic. cbn [dynamic_table]. rewrite evict_loop_spec by lia.
  cbn [max_table_size]. destruct (Z.eqb_spec b 0) as [-> |].
  - by constructor.
  - pose proof (fitting_sum b l ltac:(lia)). by constructor.
Qed.

Lemma set_max_implements d t b :
  0 <= b < 2 ^ 32 -> implements d t -> implements (set_max_table_size b d) (table_resize b t).
Proof.
  intros Hb [E1 E2 E3 E4 E5]. unfold set_max_table_size. rewrite E2, E3.
  apply evict_implements; lia.
Qed.

Lemma add_implements d t h : implements d t -> implements (add_dynamic h d) (table_add h t).
Proof.
  intros I. pose proof I as [E1 E2 E3 E4 E5]. unfold add_dynamic, table_add. rewrite E1.
  pose proof (entry_size_range h). pose proof (sum_sizes_nonneg (entries t)). cbn zeta.
  destruct (Z.ltb_spec (limit t) (entry_size h)) as [L|L].
  - cbn [fitting]. destruct (Z.leb_spec (entry_size h) (limit t)); [lia|].
    destruct (limit t =? 0); by apply reset_implements.
  - rewrite E2, E3, wrap_small by lia.
    replace (sum_sizes (entries t) + entry_size h) with (sum_sizes (h :: entries t)) by (cbn; lia).
    apply evict_implements; [lia|]. cbn. lia.
Qed.

(** ** The decoding loop *)

Lemma decode_continuation_ok rest offset v m v' o' :
  0 <= v < 2 ^ 32 -> decode_continuation rest offset v m = Ret (v', o') ->
  0 <= v' < 2 ^ 32 /\ (offset < o' <= offset + length rest)%nat.
Proof.
  revert offset v m; induction rest as [|c rest IH]; intros offset v m Hv; cbn [decode_continuation];
    [done|]. destruct (_ && _); [done|]. cbn [throw_if mbind outcome_bind length].
  pose proof (wrap_range 32 (v + u32 (Z.land (val c) 0x7f ≪ m)) ltac:(lia)).
  destruct (_ =? 0); [intros [= <- <-]; split; [done|lia]|].
  intros D. apply IH in D; [|done]. split; [lia|lia].
Qed.

Lemma decode_integer_ok b offset n v o :
  1 <= n <= 8 -> hpack_decode_integer b offset n = Ret (v, o) ->
  0 <= v < 2 ^ 32 /\ (offset < o <= length b)%nat.
Proof.
  intros Hn. unfold hpack_decode_integer.
  destruct (Nat.leb_spec (length b) offset); [done|].
  replace ((n =? 0) || (8 <? n)) with false by lia. cbn [throw_if mbind outcome_bind].
  pose proof (pow2_minus_1 n Hn).
  assert (R : 0 <= Z.land (nth_val b offset) ((1 ≪ n) - 1) < 256).
  { rewrite Z.shiftl_1_l, land_mask in * by lia.
    pose proof (Z.mod_pos_bound (nth_val b offset) (2 ^ n)). lia. }
  destruct (_ <? _); [intros [= <- <-]; split; lia|].
  intros D. apply decode_continuation_ok in D; [|lia]. rewrite length_drop in D. split; lia.
Qed.

Lemma decode_string_ok b offset s o :
  hpack_decode_string b offset = Ret (s, o) -> (offset < o <= length b)%nat.
Proof.
  unfold hpack_decode_string. destruct (Nat.leb_spec (length b) offset); [done|].
  cbn [throw_if mbind outcome_bind]. intros ([len o1] & D & K)%bind_Ret.
  apply decode_integer_ok in D as [Hl Ho]; [|lia].
  apply bind_Ret in K as (_ & T%throw_if_Ret & (w & _ & [= <- <-])%bind_Ret). lia.
Qed.

Lemma decode_literal_ok d b offset n h o :
  1 <= n <= 8 -> decode_literal d b offset n = Ret (h, o) -> (offset < o <= length b)%nat.
Proof.
  intros Hn. unfold decode_literal. intros ([i o1] & D & ([m o2] & N & ([v o3] & V & [= <- <-])%bind_Ret)%bind_Ret)%bind_Ret.
  apply decode_integer_ok in D as [_ D]; [|done]. apply decode_string_ok in V.
  destruct (i =? 0).
  - apply decode_string_ok in N. lia.
  - apply bind_Ret in N as (? & _ & [= <- <-]). lia.
Qed.

(** Every representation moves the offset and keeps the table within its
    specification. *)
Lemma decode_representation_ok d t b offset seen d' h o :
  implements d t -> decode_representation d b offset seen = Ret (d', h, o) ->
  (offset < o <= length b)%nat /\ exists t', implements d' t'.
Proof.
  intros I. unfold decode_representation. split_ifs.
  - intros ([i o1] & D & (e & _ & [= <- <- <-])%bind_Ret)%bind_Ret.
    apply decode_integer_ok in D as [_ D]; [|lia]. eauto.
  - intros (_ & _ & ([s o1] & D & [= <- <- <-])%bind_Ret)%bind_Ret.
    apply decode_integer_ok in D as [R D]; [|lia]. split; [done|].
    eexists. by apply set_max_implements.
  - intros ([e o1] & D & [= <- <- <-])%bind_Ret.
    apply decode_literal_ok in D; [|lia]. split; [done|]. eexists. by apply add_implements.
  - intros ([e o1] & D & [= <- <- <-])%bind_Ret.
    apply decode_literal_ok in D; [|lia]. eauto.
Qed.

#[export] Hint Resolve hpack_decode_huffman_settles : settles.

Lemma decode_continuation_settles rest offset v m : settles (decode_continuation rest offset v m).
Proof.
  revert offset v m; induction rest as [|c rest IH]; intros; cbn [decode_continuation];
    auto with settles.
Qed.
#[export] Hint Resolve decode_continuation_settles : settles.

Lemma decode_integer_settles b o n : settles (hpack_decode_integer b o n).
Proof. unfold hpack_decode_integer. auto 10 with settles. Qed.
#[export] Hint Resolve decode_integer_settles : settles.

Lemma decode_string_settles b o : settles (hpack_decode_string b o).
Proof. unfold hpack_decode_string. auto 10 with settles. Qed.
#[export] Hint Resolve decode_string_settles : settles.

Lemma indexed_header_settles d i : settles (indexed_header d i).
Proof. unfold indexed_header, static_entry. auto 10 with settles. Qed.
#[export] Hint Resolve indexed_header_settles : settles.

Lemma decode_representation_settles d b o seen : settles (decode_representation d b o seen).
Proof. unfold decode_representation, decode_literal, indexed_name. auto 20 with settles. Qed.

Lemma decode_loop_ok fuel d t b offset acc seen :
  implements d t -> (length b - offset <= fuel)%nat ->
  (exists t', implements (fst (decode_loop fuel d b offset acc seen)) t') /\
  snd (decode_loop fuel d b offset acc seen) <> Timeout.
Proof.
  revert d t offset acc seen; induction fuel as [|fuel IH]; intros d t offset acc seen I Hf;
    cbn [decode_loop]; destruct (Nat.leb_spec (length b) offset); try (split; [eauto|done]); [lia|].
  destruct (decode_representation d b offset seen) as [[[d' h] o]| |] eqn:R.
  - destruct (decode_representation_ok _ _ _ _ _ _ _ _ I R) as [Ho [t' I']].
    destruct h; (eapply IH; [done|lia]).
  - split; [eauto|done].
  - by apply decode_representation_settles in R.
Qed.

(** ** The properties of the component *)

Inductive table_op : Type :=
| Add (header : HeaderField)
| Resize (b : Z)
| Clear.

Definition wf_op (op : table_op) : Prop :=
  match op with Resize b => 0 <= b < 2 ^ 32 | _ => True end.

Definition run_op (d : HpackDecoder) (op : table_op) : HpackDecoder :=
  match op with
  | Add header => add_dynamic header d
  | Resize b => set_max_table_size b d
  | Clear => reset d
  end.

Definition spec_op (t : Table) (op : table_op) : Table :=
  match op with
  | Add header => table_add header t
  | Resize b => table_resize b t
  | Clear => table_clear t
  end.

(** C35. The dynamic table refines RFC 7541: after any sequence of insertions,
    size updates and resets, [HpackDecoder] holds exactly the newest entries
    that fit the current limit, newest first, its size counter is the sum of
    their sizes, and it never exceeds the limit. *)
Theorem hpack_table_refines (ops : list table_op) :
  Forall wf_op ops ->
  implements (fold_left run_op ops new_decoder) (fold_left spec_op ops (mk_table 4096 [])).
Proof.
  intros F. pose proof new_decoder_implements as I. revert F I.
  generalize new_decoder (mk_table 4096 []). induction ops as [|op ops IH]; intros d t F I; [done|].
  inversion F; subst. cbn [fold_left]. apply IH; [done|]. destruct op; cbn [run_op spec_op].
  - by apply add_implements.
  - by apply set_max_implements.
  - by apply reset_implements.
Qed.

Lemma hpack_table_refines_witness :
  let ops := [Add (mk_field (str "a") (str "1")); Add (mk_field (str "b") (str "2")); Resize 40] in
  Forall wf_op ops /\
  implements (fold_left run_op ops new_decoder) (fold_left spec_op ops (mk_table 4096 [])).
Proof.
  cbn zeta. assert (F : Forall wf_op [Add (mk_field (str "a") (str "1"));
    Add (mk_field (str "b") (str "2")); Resize 40]) by (repeat constructor; cbn; lia).
  split; [exact F|]. exact (hpack_table_refines _ F).
Defined.

(** Decoding any block with any decoder state reachable by the
    operations above terminates - it returns or throws, each representation
    consuming input - and leaves the dynamic table within its specification,
    also when the block is rejected half way. *)
Theorem hpack_decode_safe (d : HpackDecoder) (t : Table) (block : bytes) :
  implements d t ->
  snd (decode_header_block d block) <> Timeout /\
  exists t', implements (fst (decode_header_block d block)) t'.
Proof.
  intros I. unfold decode_header_block.
  destruct (decode_loop_ok (length block) d t block 0 [] false I) as [H1 H2]; [lia|].
  by split.
Qed.

Lemma hpack_decode_safe_witness :
  snd (decode_header_block new_decoder (str "?")) <> Timeout /\
  exists t', implements (fst (decode_header_block new_decoder (str "?"))) t'.
Proof. apply (hpack_decode_safe new_decoder (mk_table 4096 [])). constructor; cbn; (reflexivity || lia). Defined.

(** Header lists survive compression: a block written by
    [hpack_encode_header_block] decodes, with any decoder, to the same fields
    in the same order, and leaves the decoder unchanged. *)
Theorem hpack_block_roundtrip (l : list HeaderField) (block : bytes) (d : HpackDecoder) :
  Forall wf_field l -> hpack_encode_header_block l = Ret block ->
  decode_header_block d block = (d, Ret l).
Proof. intros F E. exact (decode_loop_encoded _ d [] l block [] false F E (le_n _)). Qed.

Lemma hpack_block_roundtrip_witness :
  let l := [mk_field (str ":status") (str "200"); mk_field (str "content-length") (str "42");
            mk_field (str "x-request-id") (str "r-7")] in
  exists block, hpack_encode_header_block l = Ret block /\
  decode_header_block new_decoder block = (new_decoder, Ret l).
Proof.
  eexists. split; [vm_compute; reflexivity|].
  apply (hpack_block_roundtrip [mk_field (str ":status") (str "200");
    mk_field (str "content-length") (str "42"); mk_field (str "x-request-id") (str "r-7")]);
    [repeat constructor; vm_compute; reflexivity | vm_compute; reflexivity].
Defined.

(** Prefixed integers: what [hpack_encode_integer] writes for a 32-bit
    value, [hpack_decode_integer] reads back, at any place in a block, exactly
    when the value is less than [2^28] above the prefix; larger values, which
    the encoder accepts, are rejected by the decoder as an overflow. *)
Theorem hpack_integer_roundtrip (v n mask : Z) (pre rest out : bytes) :
  1 <= n <= 8 -> prefix_mask_ok n mask -> 0 <= v < 2 ^ 32 ->
  hpack_encode_integer v n mask = Ret out ->
  hpack_decode_integer (pre ++ out ++ rest) (length pre) n
  = if v <? 2 ^ n - 1 + 2 ^ 28 then Ret (v, (length pre + length out)%nat)
    else Raise "HPACK integer overflow".
Proof.
  intros Hn Hm Hv E. rewrite (decode_encode_integer v n mask) by done.
  rewrite Z.shiftl_1_l.
  destruct (Z.ltb_spec (v - (2 ^ n - 1)) (2 ^ 28)), (Z.ltb_spec v (2 ^ n - 1 + 2 ^ 28));
    (done || lia).
Qed.

Lemma hpack_integer_roundtrip_witness :
  exists out, hpack_encode_integer (2 ^ 28 + 127) 7 0x80 = Ret out /\
  hpack_decode_integer (str "pre" ++ out ++ str "rest") 3 7 = Raise "HPACK integer overflow".
Proof.
  eexists. split; [vm_compute; reflexivity|].
  apply (hpack_integer_roundtrip (2 ^ 28 + 127) 7 0x80 (str "pre"));
    [lia | split; [lia | reflexivity] | lia | vm_compute; reflexivity].
Defined.
