(* ===== verification/Request.v ===== *)
(** * Request: the HTTP/1 request parser and the request object

    Models [src/src/http/parser.cpp] with [include/rimau/http/request.hpp]:
    [parse_request], [parse_target], header and query lookup, and the body
    reader that serves bodies kept in memory or spooled to a file. *)

From S2P Require Import Prelude Text Numbers.

Abbreviation Headers := (gmap bytes bytes).
Abbreviation QueryParams := (gmap bytes (list bytes)).

(** ** The iteration order of an unordered map

    It is unspecified, so code that iterates is proved against this interface. *)

Class MapOrder (A : Type) : Type := {
  order : gmap bytes A -> list (bytes * A);
  order_perm : forall m, order m ≡ₚ map_to_list m;
}.

(** One possible order. *)
#[export] Instance map_order A : MapOrder A :=
  {| order := map_to_list; order_perm m := Permutation_refl _ |}.

Lemma order_lookup `{MapOrder A} (m : gmap bytes A) n v : (n, v) ∈ order m <-> m !! n = Some v.
Proof. by rewrite order_perm, elem_of_map_to_list. Qed.

Lemma order_NoDup `{MapOrder A} (m : gmap bytes A) : NoDup (order m).*1.
Proof. rewrite order_perm. apply NoDup_fst_map_to_list. Qed.

(** [body_file] is the path of the spool file, if the body is in one. *)
Record Request : Type := mk_request {
  method : bytes;
  target : bytes;
  path : bytes;
  query_string : bytes;
  version : bytes;
  headers : Headers;
  query_params : QueryParams;
  body : bytes;
  body_size_bytes : Z;
  body_file : option bytes;
}.

Definition empty_request : Request := mk_request [] [] [] [] [] ∅ ∅ [] 0 None.

Inductive ParseError : Type :=
| none | empty_request_error | malformed_request_line | malformed_header
| malformed_body | unsupported_http_version.

(** [ParseResult]: the request, or the error and its message. *)
Inductive ParseResult : Type :=
| Parsed (request : Request)
| Rejected (error : ParseError) (message : string).

(** ** The request target *)

(** [std::min(query_start or size, fragment_start or size)] *)
Definition path_end (t : bytes) : nat :=
  Nat.min (default (length t) (find_byte (chr "?") t)) (default (length t) (find_byte (chr "#") t)).

(** One turn of the loop over the pairs: [name=value], or just a name. *)
Definition add_query_pair (params : QueryParams) (pair : bytes) : QueryParams :=
  match pair with
  | [] => params
  | _ =>
      let '(raw_name, raw_value) :=
        match find_byte (chr "=") pair with
        | Some equals => (take equals pair, drop (S equals) pair)
        | None => (pair, [])
        end in
      let key := percent_decode raw_name true in
      <[key := default [] (params !! key) ++ [percent_decode raw_value true]]> params
  end.

Definition parse_target (r : Request) : Request :=
  let t := target r in
  let p := percent_decode (take (path_end t) t) false in
  let with_query q params :=
    mk_request (method r) t p q (version r) (headers r) params (body r) (body_size_bytes r)
               (body_file r) in
  match find_byte (chr "?") t, find_byte (chr "#") t with
  | None, _ => with_query [] (query_params r)
  | Some query_start, fragment =>
      if bool_decide (is_Some fragment) && (default 0 fragment <? query_start)%nat
      then with_query [] (query_params r)
      else
        let query_end := default (length t) fragment in
        let q := substr t (query_start + 1) (query_end - query_start - 1) in
        with_query q (fold_left add_query_pair (split_byte (chr "&") q) (query_params r))
  end.

(** ** [parse_request] *)

(** [while (std::getline(input, line))] over the header lines: the headers
    and the unread input, or the error. *)
Fixpoint parse_header_lines (lines : list (bytes * bytes)) (h : Headers)
    : Headers * bytes + ParseError * string :=
  match lines with
  | [] => inl (h, [])
  | (line, rest) :: lines' =>
      let line := strip_cr line in
      match line with
      | [] => inl (h, rest)
      | _ =>
          match find_byte (chr ":") line with
          | None => inr (malformed_header, "header is missing ':'"%string)
          | Some separator =>
              let name := lowercase (trim (take separator line)) in
              let value := trim (drop (S separator) line) in
              match name with
              | [] => inr (malformed_header, "header name is empty"%string)
              | _ => parse_header_lines lines' (<[name := value]> h)
              end
          end
      end
  end.

Definition supported_version (v : bytes) : bool :=
  bool_decide (v = str "HTTP/1.1") || bool_decide (v = str "HTTP/1.0").

Definition parse_request (raw_request : bytes) : ParseResult :=
  match raw_request with
  | [] => Rejected empty_request_error "request is empty"
  | _ =>
      match stream_lines LF raw_request with
      | [] => Rejected empty_request_error "request line is empty"
      | (line, _) :: lines =>
          match words (strip_cr line) with
          | [method; target; version] =>
              if negb (supported_version version)
              then Rejected unsupported_http_version
                     "only HTTP/1.0 and HTTP/1.1 parsing is implemented"
              else
                match parse_header_lines lines ∅ with
                | inr (e, message) => Rejected e message
                | inl (h, b) =>
                    Parsed (parse_target
                      (mk_request method target [] [] version h ∅ b (size b) None))
                end
          | _ => Rejected malformed_request_line
                   "request line must be: METHOD TARGET HTTP/VERSION"
          end
      end
  end.

(** ** The request object *)

Definition header (r : Request) (name : bytes) : option bytes := headers r !! lowercase name.

Definition query (r : Request) (name : bytes) : option bytes :=
  match query_params r !! name with
  | Some (v :: _) => Some v
  | _ => None
  end.

Definition content_type_contains (r : Request) (token : bytes) : bool :=
  match header r (str "content-type") with
  | None => false
  | Some value => contains (lowercase value) (lowercase token)
  end.

Definition is_json (r : Request) : bool :=
  content_type_contains r (str "application/json") || content_type_contains r (str "+json").

Definition body_spooled_to_file (r : Request) : bool := bool_decide (is_Some (body_file r)).

Definition body_size (r : Request) : Z :=
  if (body_size_bytes r =? 0) && negb (body_spooled_to_file r) then size (body r)
  else body_size_bytes r.

(** ** The body reader *)

Section body.
(** The content of the files that can be opened. *)
Context (files : bytes -> option bytes).

Record RequestBodyReader : Type := mk_reader {
  request_ : Request;
  file_ : option bytes;
  offset_ : nat;
  exhausted_ : bool;
}.

Definition open_body_reader (r : Request) : RequestBodyReader :=
  mk_reader r (p ← body_file r; files p) 0 false.

Definition eof (rd : RequestBodyReader) : bool :=
  exhausted_ rd ||
  (if negb (body_spooled_to_file (request_ rd)) then (length (body (request_ rd)) <=? offset_ rd)%nat
   else negb (bool_decide (is_Some (file_ rd)))
        || (body_size (request_ rd) <=? Z.of_nat (offset_ rd))).

Definition read_chunk (rd : RequestBodyReader) (max_bytes : nat) : bytes * RequestBodyReader :=
  if (max_bytes =? 0)%nat || eof rd then ([], rd)
  else
    let r := request_ rd in
    if negb (body_spooled_to_file r) then
      let remaining := (length (body r) - offset_ rd)%nat in
      let chunk := substr (body r) (offset_ rd) (Nat.min max_bytes remaining) in
      let offset := (offset_ rd + length chunk)%nat in
      (chunk, mk_reader r (file_ rd) offset (length (body r) <=? offset)%nat)
    else
      let chunk := substr (default [] (file_ rd)) (offset_ rd) max_bytes in
      let offset := (offset_ rd + length chunk)%nat in
      (chunk, mk_reader r (file_ rd) offset
                (bool_decide (chunk = []) || (body_size r <=? Z.of_nat offset))).

(** [while (output.size() < bytes_to_read && !reader.eof())] *)
Fixpoint body_text_loop (fuel : nat) (bytes_to_read : nat) (rd : RequestBodyReader)
    (output : bytes) : outcome bytes :=
  if (length output <? bytes_to_read)%nat && negb (eof rd) then
    match fuel with
    | O => Timeout
    | S fuel' =>
        let '(chunk, rd') := read_chunk rd (Nat.min (Z.to_nat 8192) (bytes_to_read - length output)) in
        match chunk with
        | [] => Ret output
        | _ => body_text_loop fuel' bytes_to_read rd' (output ++ chunk)
        end
    end
  else Ret output.

(** [max_bytes == 0 ? body_size() : std::min(max_bytes, body_size())] *)
Definition bytes_to_read (r : Request) (max_bytes : Z) : nat :=
  Z.to_nat (if max_bytes =? 0 then body_size r else Z.min max_bytes (body_size r)).

Definition body_text (r : Request) (max_bytes : Z) : outcome bytes :=
  body_text_loop (bytes_to_read r max_bytes) (bytes_to_read r max_bytes) (open_body_reader r) [].
End body.

(** ** Printing a request, and reading it back *)

Definition print_header (h : bytes * bytes) : bytes := h.1 ++ str ": " ++ h.2 ++ CRLF.

Definition print_request (m t v : bytes) (hs : list (bytes * bytes)) (b : bytes) : bytes :=
  m ++ [SP] ++ t ++ [SP] ++ v ++ CRLF ++ (hs ≫= print_header) ++ CRLF ++ b.

Definition wf_word (w : bytes) : Prop := w <> [] /\ no_space w.

Record wf_header (h : bytes * bytes) : Prop := {
  wf_name : h.1 <> [] /\ trimmed h.1;
  wf_name_chars : chr ":" ∉ h.1 /\ LF ∉ h.1;
  wf_value : trimmed h.2 /\ LF ∉ h.2;
}.

Definition set_header (h : Headers) (nv : bytes * bytes) : Headers :=
  <[lowercase nv.1 := nv.2]> h.

(** A header that can be sent on a line of its own; the parser trims it. *)
Record line_header (h : bytes * bytes) : Prop := {
  line_name : h.1 <> [] /\ trimmed h.1;
  line_name_chars : chr ":" ∉ h.1 /\ LF ∉ h.1;
  line_value_chars : LF ∉ h.2;
}.

Definition set_trimmed (h : Headers) (nv : bytes * bytes) : Headers :=
  <[lowercase nv.1 := trim nv.2]> h.

Lemma wf_header_line nv : wf_header nv -> line_header nv.
Proof. intros [? ? [? ?]]. by constructor. Qed.

(** A header line, as [getline] returns it, is read back as the header. *)
Lemma parse_header_line nv rest lines h :
  line_header nv ->
  parse_header_lines ((nv.1 ++ str ": " ++ nv.2 ++ [CR], rest) :: lines) h
  = parse_header_lines lines (set_trimmed h nv).
Proof.
  destruct nv as [n v]. intros [[N1 N2] [N3 N4] V2]. cbn [fst snd] in *. cbn [parse_header_lines].
  assert (E : strip_cr (n ++ str ": " ++ v ++ [CR]) = n ++ chr ":" :: SP :: v).
  { change (str ": ") with [chr ":"; SP]. cbn [app].
    rewrite (app_comm_cons v), app_comm_cons, app_assoc. apply strip_cr_app. }
  rewrite E, find_byte_app by done.
  destruct n as [|c n]; [done|]. cbn [app].
  change (c :: n ++ chr ":" :: SP :: v) with ((c :: n) ++ chr ":" :: SP :: v).
  rewrite take_app_length, (trimmed_trim (c :: n)) by done.
  cbn [lowercase fmap list_fmap].
  replace (drop (S (length (c :: n))) ((c :: n) ++ chr ":" :: SP :: v)) with (SP :: v); [done|].
  rewrite (cons_middle (chr ":")), app_assoc. symmetry. apply drop_app_length'.
  rewrite length_app. cbn [length]. lia.
Qed.

Lemma parse_header_block hs b h :
  Forall line_header hs ->
  parse_header_lines (stream_lines LF ((hs ≫= print_header) ++ CRLF ++ b)) h
  = inl (fold_left set_trimmed hs h, b).
Proof.
  intros F. revert h; induction F as [|nv hs W _ IH]; intros h.
  - cbn [mbind list_bind app]. change (CR :: LF :: b) with ([CR] ++ LF :: b).
    by rewrite stream_lines_app by set_solver.
  - change ((nv :: hs) ≫= print_header) with (print_header nv ++ (hs ≫= print_header)).
    unfold print_header at 1.
    replace (((nv.1 ++ str ": " ++ nv.2 ++ CRLF) ++ (hs ≫= print_header)) ++ CRLF ++ b)
      with ((nv.1 ++ str ": " ++ nv.2 ++ [CR]) ++ LF :: ((hs ≫= print_header) ++ CRLF ++ b))
      by (rewrite <- !app_assoc; done).
    pose proof W as [_ [_ N] V].
    rewrite stream_lines_app, parse_header_line, IH; [done|done|].
    rewrite !elem_of_app. intros [?|[H|[?|H]]]; [done| |done|]; revert H; vm_compute; set_solver.
Qed.

(** A request line, a block of header lines and a body, as they are parsed. *)
Lemma parse_request_lines line hs b :
  LF ∉ line -> Forall line_header hs ->
  parse_request (line ++ CRLF ++ (hs ≫= print_header) ++ CRLF ++ b)
  = match words line with
    | [m; t; v] =>
        if negb (supported_version v)
        then Rejected unsupported_http_version "only HTTP/1.0 and HTTP/1.1 parsing is implemented"
        else Parsed (parse_target
               (mk_request m t [] [] v (fold_left set_trimmed hs ∅) ∅ b (size b) None))
    | _ => Rejected malformed_request_line "request line must be: METHOD TARGET HTTP/VERSION"
    end.
Proof.
  intros Hl F. set (r := (hs ≫= print_header) ++ CRLF ++ b).
  replace (line ++ CRLF ++ r) with ((line ++ [CR]) ++ LF :: r) by (rewrite <- app_assoc; done).
  unfold parse_request. assert (NL : LF ∉ line ++ [CR]) by (rewrite not_elem_of_app; split; [done|set_solver]).
  rewrite stream_lines_app by done.
  destruct ((line ++ [CR]) ++ LF :: r) eqn:E; [by destruct line|].
  rewrite strip_cr_app. unfold r. by rewrite parse_header_block.
Qed.

Lemma set_trimmed_wf hs h : Forall wf_header hs -> fold_left set_trimmed hs h = fold_left set_header hs h.
Proof.
  intros F. revert h; induction F as [|nv hs [_ _ [T _]] _ IH]; intros h; [done|]. cbn [fold_left].
  rewrite IH. unfold set_trimmed, set_header. by rewrite trimmed_trim.
Qed.

Lemma no_space_not_elem w c : no_space w -> isspace c = true -> c ∉ w.
Proof. intros H Hc Hin. unfold no_space in H. rewrite Forall_forall in H. apply H in Hin. congruence. Qed.

Lemma words_three m t v :
  wf_word m -> wf_word t -> wf_word v -> words (m ++ [SP] ++ t ++ [SP] ++ v) = [m; t; v].
Proof.
  intros [? ?] [? ?] [? ?]. cbn [app]. rewrite words_cons, words_cons, words_last by done. done.
Qed.

Lemma parse_printed m t v hs b :
  wf_word m -> wf_word t -> supported_version v = true -> Forall wf_header hs ->
  parse_request (print_request m t v hs b)
  = Parsed (parse_target (mk_request m t [] [] v (fold_left set_header hs ∅) ∅ b (size b) None)).
Proof.
  intros Hm Ht Sv F.
  assert (Hv : wf_word v).
  { unfold supported_version in Sv. apply orb_true_iff in Sv.
    rewrite !bool_decide_eq_true in Sv. destruct Sv as [-> | ->];
      split; [done|by repeat constructor|done|by repeat constructor]. }
  unfold print_request.
  replace (m ++ [SP] ++ t ++ [SP] ++ v ++ CRLF ++ (hs ≫= print_header) ++ CRLF ++ b)
    with ((m ++ [SP] ++ t ++ [SP] ++ v) ++ CRLF ++ (hs ≫= print_header) ++ CRLF ++ b)
    by (rewrite <- !app_assoc; done).
  rewrite parse_request_lines.
  - rewrite words_three, Sv by done. cbn [negb]. by rewrite set_trimmed_wf.
  - rewrite !not_elem_of_app. destruct Hm, Ht, Hv.
    repeat split; try (apply no_space_not_elem; done); by set_solver.
  - eapply Forall_impl; [exact F|]. apply wf_header_line.
Qed.

(** ** What an accepted request looks like *)

Lemma isspace_tolower c : isspace (tolower c) = isspace c.
Proof. by_byte c. Qed.

Lemma trimmed_lowercase s : trimmed s -> trimmed (lowercase s).
Proof.
  unfold lowercase. intros [H1 H2]. split; intros c.
  - destruct s as [|d s]; [done|]. intros [= <-]. rewrite isspace_tolower. by apply H1.
  - rewrite fmap_last. intros (d & Hd & ->)%fmap_Some. rewrite isspace_tolower. by apply H2.
Qed.

Lemma tolower_eq c d : isalpha d = false -> tolower c = d -> c = d.
Proof.
  intros Hd E. assert (C : forall c, (bool_decide (tolower c = c) || isalpha (tolower c)) = true)
    by (intros x; by_byte x).
  specialize (C c). apply orb_true_iff in C as [C%bool_decide_eq_true|C]; congruence.
Qed.

Lemma lowercase_not_elem s d : isalpha d = false -> d ∉ s -> d ∉ lowercase s.
Proof.
  intros Hd H (c & Hc & Hin)%list_elem_of_fmap. symmetry in Hc. apply tolower_eq in Hc; [|done].
  by subst.
Qed.

(** A header as [parse_request] stores it. *)
Record stored_header (k v : bytes) : Prop := {
  key_nonempty : k <> [];
  key_lower : lowercase k = k;
  key_trimmed : trimmed k;
  key_chars : chr ":" ∉ k /\ LF ∉ k;
  value_trimmed : trimmed v;
  value_chars : LF ∉ v;
}.

Lemma take_find_byte c s i : find_byte c s = Some i -> c ∉ take i s.
Proof. by intros [_ ?]%find_byte_Some. Qed.

Lemma drop_elem_of {A} (x : A) n l : x ∈ drop n l -> x ∈ l.
Proof. intros H. rewrite <- (take_drop n l). set_solver. Qed.

Lemma take_elem_of {A} (x : A) n l : x ∈ take n l -> x ∈ l.
Proof. intros H. rewrite <- (take_drop n l). set_solver. Qed.

Lemma parse_header_lines_inv lines h h' b :
  (forall l r, (l, r) ∈ lines -> LF ∉ l) ->
  map_Forall stored_header h -> parse_header_lines lines h = inl (h', b) ->
  map_Forall stored_header h' /\ (b = [] \/ exists l, (l, b) ∈ lines).
Proof.
  revert h; induction lines as [|[l r] lines IH]; intros h Hl Hh; cbn [parse_header_lines].
  { intros [= <- <-]. auto. }
  assert (NL : LF ∉ strip_cr l).
  { intros ?%strip_cr_elem_of. by apply (Hl l r); [left|]. }
  destruct (strip_cr l) as [|c s]; [intros [= <- <-]; split; [done|]; right; exists l; left|].
  destruct (find_byte (chr ":") (c :: s)) as [i|] eqn:Fi; [|done].
  apply take_find_byte in Fi.
  destruct (lowercase (trim (take i (c :: s)))) as [|n ns] eqn:En; [done|]. rewrite <- En.
  intros P. apply IH in P as [P1 P2].
  - split; [done|]. destruct P2 as [?|[l' ?]]; [by left|right; exists l'; by right].
  - intros l' r' ?. apply (Hl l' r'). by right.
  - apply map_Forall_insert_2; [|done]. constructor.
    + congruence.
    + apply lowercase_idem.
    + apply trimmed_lowercase, trim_trimmed.
    + split; apply lowercase_not_elem; try done; intros ?%trim_elem_of; [done|].
      by apply NL, (take_elem_of _ i).
    + apply trim_trimmed.
    + intros ?%trim_elem_of. by apply NL, (drop_elem_of _ (S i)).
Qed.

Lemma stream_lines_no_delim d s l r : (l, r) ∈ stream_lines d s -> d ∉ l.
Proof.
  intros H. apply (getlines_no_delim d s). rewrite <- stream_lines_fst.
  apply list_elem_of_fmap. by exists (l, r).
Qed.

Lemma parse_target_fields r :
  method (parse_target r) = method r /\ target (parse_target r) = target r /\
  version (parse_target r) = version r /\ headers (parse_target r) = headers r /\
  body (parse_target r) = body r /\ body_size_bytes (parse_target r) = body_size_bytes r /\
  body_file (parse_target r) = body_file r /\
  path (parse_target r) = percent_decode (take (path_end (target r)) (target r)) false.
Proof. unfold parse_target. destruct (find_byte (chr "?") (target r)); [|done]. by destruct (_ && _). Qed.

Lemma parse_request_stored raw r : parse_request raw = Parsed r -> map_Forall stored_header (headers r).
Proof.
  unfold parse_request. destruct raw as [|x raw']; [done|]. set (raw := x :: raw').
  pose proof (stream_lines_no_delim LF raw) as ND.
  destruct (stream_lines LF raw) as [|[line rest] lines]; [done|].
  destruct (words (strip_cr line)) as [|m [|t [|v [|? ?]]]]; try done.
  destruct (supported_version v); [cbn [negb]|done].
  destruct (parse_header_lines lines ∅) as [[h b]|[]] eqn:Ph; [|done].
  intros [= <-]. set (r := mk_request m t [] [] v h ∅ b (size b) None).
  destruct (parse_target_fields r) as (_ & _ & _ & -> & _). cbn [headers r].
  apply parse_header_lines_inv in Ph as [Ph _]; [done| |by intros ? ? ?%lookup_empty_Some].
  intros l r' Hl. apply (ND l r'). by right.
Qed.

(** A request that [parse_request] accepts is well formed: its method,
    target and version are non-empty words, the version is one of the two
    supported, every stored header has a non-empty lower-case name and a
    trimmed value without line feeds, the path is the decoded part of the
    target before the query and fragment, and the body is a suffix of the
    input whose size was recorded. *)
Theorem parse_request_wf (raw : bytes) (r : Request) :
  parse_request raw = Parsed r ->
  wf_word (method r) /\ wf_word (target r) /\ wf_word (version r) /\
  supported_version (version r) = true /\
  map_Forall stored_header (headers r) /\
  path r = percent_decode (take (path_end (target r)) (target r)) false /\
  body r `suffix_of` raw /\ body_size_bytes r = size (body r) /\ body_file r = None.
Proof.
  intros Hp. pose proof (parse_request_stored _ _ Hp) as St. revert Hp St.
  unfold parse_request. destruct raw as [|x raw']; [done|]. set (raw := x :: raw').
  pose proof (stream_lines_no_delim LF raw) as ND. pose proof (stream_lines_suffix LF raw) as SU.
  destruct (stream_lines LF raw) as [|[line rest] lines]; [done|].
  pose proof (words_spec (strip_cr line)) as W.
  destruct (words (strip_cr line)) as [|m [|t [|v [|? ?]]]]; try done.
  destruct (supported_version v) eqn:Sv; [|done]. cbn [negb].
  destruct (parse_header_lines lines ∅) as [[h b]|[]] eqn:Ph; [|done].
  intros [= <-] St. set (r := mk_request m t [] [] v h ∅ b (size b) None).
  fold r in St. destruct (parse_target_fields r) as (-> & -> & -> & _ & -> & -> & -> & ->).
  cbn [method target version headers body body_size_bytes body_file r].
  repeat match goal with H : Forall _ (_ :: _) |- _ => inversion H; clear H; subst end.
  apply parse_header_lines_inv in Ph as [Ph1 Ph2]; [| |by intros ? ? ?%lookup_empty_Some].
  - split_and!; try done. destruct Ph2 as [-> |[l Hl]]; [by exists raw; rewrite app_nil_r|].
    apply (SU l). by right.
  - intros l r' Hl. apply (ND l r'). by right.
Qed.

Lemma parse_request_wf_witness :
  exists r, parse_request (str "POST /a?b HTTP/1.1" ++ CRLF ++ str "Host: x" ++ CRLF2 ++ str "hi")
            = Parsed r /\ wf_word (method r) /\ body_size_bytes r = size (body r).
Proof.
  destruct (parse_request _) as [r|e m] eqn:E; [|vm_compute in E; discriminate E].
  exists r. split; [reflexivity|].
  destruct (parse_request_wf _ _ E) as (W & _ & _ & _ & _ & _ & _ & B & _). exact (conj W B).
Defined.

(** C25. Printing and parsing are inverse: for a method and a target that are
    words, a supported version, any list of well-formed headers and any body
    bytes, [parse_request] reads the printed request back; the headers are
    stored in order under their lower-case names (the last value of a repeated
    name wins), and the body is everything after the blank line. *)
Theorem parse_print_request (m t v : bytes) (hs : list (bytes * bytes)) (b : bytes) :
  wf_word m -> wf_word t -> supported_version v = true -> Forall wf_header hs ->
  exists r, parse_request (print_request m t v hs b) = Parsed r /\
  method r = m /\ target r = t /\ version r = v /\ body r = b /\ body_size r = size b /\
  headers r = fold_left set_header hs ∅.
Proof.
  intros Hm Ht Hv Hhs. eexists. split; [by apply parse_printed|].
  set (r := mk_request m t [] [] v (fold_left set_header hs ∅) ∅ b (size b) None).
  destruct (parse_target_fields r) as (-> & -> & -> & -> & -> & Hsz & Hf & _).
  split_and!; try done. unfold body_size, body_spooled_to_file. rewrite Hsz, Hf. cbn.
  destruct (Z.eqb_spec (size b) 0); [|done]. by destruct (parse_target_fields r) as (_ & _ & _ & _ & -> & _).
Qed.

Lemma parse_print_request_witness :
  let hs := [(str "Host", str "example.org"); (str "X-A", str "1"); (str "x-a", str "2")] in
  exists r, parse_request (print_request (str "GET") (str "/") (str "HTTP/1.1") hs (str "body"))
            = Parsed r /\ method r = str "GET" /\ headers r = fold_left set_header hs ∅.
Proof.
  cbn zeta.
  destruct (parse_print_request (str "GET") (str "/") (str "HTTP/1.1")
    [(str "Host", str "example.org"); (str "X-A", str "1"); (str "x-a", str "2")] (str "body"))
    as (r & E & M & _ & _ & _ & _ & H).
  - split; [done|by repeat constructor].
  - split; [done|by repeat constructor].
  - reflexivity.
  - repeat constructor; cbn; try done; try (intros ? [= <-]; reflexivity); vm_compute; set_solver.
  - exists r. exact (conj E (conj M H)).
Defined.

(** ** Query parameters *)

Definition percent_encode (s : bytes) : bytes := s ≫= percent_escape.

Definition print_pair (nv : bytes * bytes) : bytes :=
  percent_encode nv.1 ++ [chr "="] ++ percent_encode nv.2.

Fixpoint print_query (ps : list (bytes * bytes)) : bytes :=
  match ps with
  | [] => []
  | [p] => print_pair p
  | p :: ps' => print_pair p ++ [chr "&"] ++ print_query ps'
  end.

Lemma percent_decode_encode s plus : percent_decode (percent_encode s) plus = s.
Proof.
  induction s as [|c s IH]; [done|].
  change (percent_encode (c :: s)) with (percent_escape c ++ percent_encode s).
  by rewrite percent_decode_escape, IH.
Qed.

Lemma percent_encode_chars s c :
  c ∈ percent_encode s -> c = chr "%" \/ isalnum c = true.
Proof.
  unfold percent_encode. intros (x & H & _)%list_elem_of_bind. unfold percent_escape in H.
  pose proof (val_range x).
  assert (0 <= val x / 16 < 16) by (split; [apply Z.div_pos|apply Z.div_lt_upper_bound]; lia).
  pose proof (Z.mod_pos_bound (val x) 16 ltac:(lia)).
  rewrite !elem_of_cons in H. destruct H as [-> |[-> |[-> |H]]]; [by left| | |set_solver];
    right; by apply digit_char_alnum.
Qed.

(** The delimiters of a query are not produced by the encoding. *)
Lemma percent_encode_not s c : c <> chr "%" -> isalnum c = false -> c ∉ percent_encode s.
Proof. intros H1 H2 [?|?]%percent_encode_chars; congruence. Qed.

Lemma print_pair_not nv c :
  c <> chr "%" -> isalnum c = false -> c <> chr "=" -> c ∉ print_pair nv.
Proof.
  intros H1 H2 H3. unfold print_pair. rewrite !not_elem_of_app.
  split; [by apply percent_encode_not|]. split; [|by apply percent_encode_not].
  by intros ->%list_elem_of_singleton.
Qed.

Lemma print_query_not ps c :
  c <> chr "%" -> isalnum c = false -> c <> chr "=" -> c <> chr "&" -> c ∉ print_query ps.
Proof.
  intros H1 H2 H3 H4. induction ps as [|p ps IH]; [apply not_elem_of_nil|].
  destruct ps as [|q ps]; [by apply print_pair_not|].
  change (print_query (p :: q :: ps)) with (print_pair p ++ [chr "&"] ++ print_query (q :: ps)).
  rewrite !not_elem_of_app. split; [by apply print_pair_not|]. split; [|done].
  by intros ->%list_elem_of_singleton.
Qed.

Definition add_value (m : QueryParams) (nv : bytes * bytes) : QueryParams :=
  <[nv.1 := default [] (m !! nv.1) ++ [nv.2]]> m.

Lemma add_query_print_pair m nv : add_query_pair m (print_pair nv) = add_value m nv.
Proof.
  unfold add_query_pair.
  assert (F : find_byte (chr "=") (print_pair nv) = Some (length (percent_encode nv.1))).
  { unfold print_pair. cbn [app]. apply find_byte_app. by apply percent_encode_not. }
  destruct (print_pair nv) as [|c s] eqn:E; [by apply (f_equal length) in E; unfold print_pair in E; lens|].
  rewrite F, <- E. unfold print_pair. rewrite take_app_length, percent_decode_encode.
  rewrite app_assoc, (drop_app_length' (percent_encode nv.1 ++ [chr "="])) by (rewrite length_app; cbn; lia).
  by rewrite percent_decode_encode.
Qed.

Lemma split_print_query ps m :
  fold_left add_query_pair (split_byte (chr "&") (print_query ps)) m = fold_left add_value ps m.
Proof.
  revert m; induction ps as [|p ps IH]; intros m; [done|].
  assert (N : chr "&" ∉ print_pair p) by by apply print_pair_not.
  destruct ps as [|q ps].
  - cbn [print_query]. rewrite split_byte_last by done. cbn [fold_left]. apply add_query_print_pair.
  - change (print_query (p :: q :: ps)) with (print_pair p ++ chr "&" :: print_query (q :: ps)).
    rewrite split_byte_app by done. cbn [fold_left]. rewrite add_query_print_pair, IH. done.
Qed.

Lemma add_values_lookup ps m n :
  default [] (fold_left add_value ps m !! n)
  = default [] (m !! n) ++ (snd <$> filter (fun nv => nv.1 = n) ps).
Proof.
  revert m; induction ps as [|[k v] ps IH]; intros m; cbn [fold_left]; [by rewrite app_nil_r|].
  rewrite IH, filter_cons. unfold add_value. cbn [fst snd].
  destruct (decide (k = n)) as [-> |Hk].
  - rewrite lookup_insert_eq. cbn [default from_option id]. by rewrite <- app_assoc.
  - by rewrite lookup_insert_ne.
Qed.


(** A fragment, or nothing. *)
Definition fragment_of (s : option bytes) : bytes :=
  match s with Some f => chr "#" :: f | None => [] end.

Lemma find_byte_fragment c (a : bytes) fr :
  c ∉ a -> c = chr "#" ->
  find_byte c (a ++ fragment_of fr) = match fr with Some _ => Some (length a) | None => None end.
Proof.
  intros H ->. destruct fr; cbn [fragment_of]; [by apply find_byte_app|].
  rewrite app_nil_r. by apply find_byte_None.
Qed.

(** Query strings: for a target made of a path, a query that lists
    percent-encoded pairs and an optional fragment, [parse_target] recovers
    the path and every pair: the values stored under a name are the values of
    that name, decoded and in order, and [query] returns the first of them. *)
Theorem parse_target_query (r : Request) (p : bytes) (ps : list (bytes * bytes)) (fr : option bytes) :
  chr "?" ∉ p -> chr "#" ∉ p -> chr "%" ∉ p ->
  target r = p ++ chr "?" :: print_query ps ++ fragment_of fr -> query_params r = ∅ ->
  let r' := parse_target r in
  path r' = p /\ query_string r' = print_query ps /\
  forall n, let values := snd <$> filter (fun nv => nv.1 = n) ps in
    default [] (query_params r' !! n) = values /\ query r' n = head values.
Proof.
  intros Hp1 Hp2 Hp3 Ht Hq r'.
  assert (F1 : find_byte (chr "?") (target r) = Some (length p)) by (rewrite Ht; by apply find_byte_app).
  set (q := print_query ps) in *. set (hq := p ++ chr "?" :: q).
  assert (Ht' : target r = hq ++ fragment_of fr) by (unfold hq; rewrite Ht, <- app_assoc; done).
  assert (F2 : find_byte (chr "#") (target r)
               = match fr with Some _ => Some (length hq) | None => None end).
  { rewrite Ht'. apply find_byte_fragment; [|done]. unfold hq. rewrite not_elem_of_app, not_elem_of_cons.
    split; [done|]. split; [done|]. by apply print_query_not. }
  assert (Lq : length hq = (length p + 1 + length q)%nat) by (unfold hq; rewrite length_app; cbn; lia).
  assert (Lt : (length (target r) = length hq + length (fragment_of fr))%nat) by (by rewrite Ht', length_app).
  assert (Pe : path_end (target r) = length p) by (unfold path_end; rewrite F1, F2; destruct fr; cbn; lia).
  assert (Qe : default (length (target r)) (find_byte (chr "#") (target r)) = length hq).
  { rewrite F2. destruct fr; cbn [default from_option]; [done|]. rewrite Lt. cbn. lia. }
  assert (Sq : substr (target r) (length p + 1) (length hq - length p - 1) = q).
  { rewrite Ht', Lq. replace (length p + 1 + length q - length p - 1)%nat with (length q) by lia.
    unfold hq. rewrite (cons_middle _ p q), app_assoc, <- app_assoc.
    replace (length p + 1)%nat with (length (p ++ [chr "?"])) by (rewrite length_app; done).
    apply substr_middle. }
  assert (R : path r' = p /\ query_string r' = q /\ query_params r' = fold_left add_value ps ∅).
  { subst r'. unfold parse_target. rewrite Pe, F1, Qe, Sq, Hq.
    replace (bool_decide _ && _) with false.
    2: { rewrite F2. destruct fr; cbn; [|done]. symmetry. apply Nat.ltb_ge. lia. }
    cbn [path query_string query_params]. rewrite Ht, take_app_length, percent_decode_id by done.
    split_and!; [done|done|]. apply split_print_query. }
  destruct R as (-> & -> & R). split_and!; try done. intros n values.
  pose proof (add_values_lookup ps ∅ n) as V. rewrite lookup_empty in V. cbn [default app] in V.
  unfold query. rewrite R. rewrite V. split; [done|]. fold values in V. rewrite <- V.
  by destruct (_ !! n) as [[|]|].
Qed.

Lemma parse_target_query_witness :
  let ps := [(str "a b", str "1&2"); (str "c", []); (str "a b", str "=")] in
  let r := mk_request (str "GET") (str "/x" ++ chr "?" :: print_query ps ++ fragment_of (Some (str "top")))
             [] [] [] ∅ ∅ [] 0 None in
  path (parse_target r) = str "/x" /\ query (parse_target r) (str "a b") = Some (str "1&2").
Proof.
  cbn zeta. set (ps := [(str "a b", str "1&2"); (str "c", []); (str "a b", str "=")]).
  destruct (parse_target_query (mk_request (str "GET") (str "/x" ++ chr "?" :: print_query ps
    ++ fragment_of (Some (str "top"))) [] [] [] ∅ ∅ [] 0 None) (str "/x") ps (Some (str "top")))
    as (P & _ & Q); [vm_compute; set_solver|vm_compute; set_solver|vm_compute; set_solver|reflexivity|reflexivity|].
  destruct (Q (str "a b")) as [_ Q2]. exact (conj P Q2).
Defined.

(** ** Reading the body *)

(** Every chunk a reader returns before the end makes progress, so the loop
    ends for any body, readable or not. *)
Lemma body_text_loop_returns n fuel rd out :
  (n - length out <= fuel)%nat -> exists b, body_text_loop fuel n rd out = Ret b.
Proof.
  revert rd out; induction fuel as [|fuel IH]; intros rd out Hf; cbn [body_text_loop].
  - destruct (Nat.ltb_spec (length out) n); [lia|]. eauto.
  - destruct (_ && _); [|eauto]. destruct (read_chunk rd _) as [[|x c] rd']; [eauto|].
    apply IH. rewrite length_app. cbn. lia.
Qed.

Section body_text.
Context (files : bytes -> option bytes).

(** Where the content of a request body is. *)
Definition stored_body (r : Request) (content : bytes) : Prop :=
  match body_file r with
  | None => body r = content /\ (body_size_bytes r = 0 \/ body_size_bytes r = size content)
  | Some p => files p = Some content /\ body_size_bytes r = size content
  end.

(** A reader that has delivered the first [off] bytes. *)
Record reading (content : bytes) (off : nat) (rd : RequestBodyReader) : Prop := {
  reading_offset : offset_ rd = off /\ (off <= length content)%nat;
  reading_size : body_size (request_ rd) = size content;
  reading_source : if body_spooled_to_file (request_ rd) then file_ rd = Some content
                   else body (request_ rd) = content;
  reading_exhausted : exhausted_ rd = true -> off = length content;
}.

Lemma stored_body_size r content : stored_body r content -> body_size r = size content.
Proof using.
  unfold stored_body, body_size, body_spooled_to_file.
  destruct (body_file r); [intros [_ ->]; by rewrite bool_decide_true, andb_false_r|].
  intros [-> [-> | ->]]; [done|]. destruct (Z.eqb_spec (size content) 0); [done|done].
Qed.

Lemma open_reading r content :
  stored_body r content -> reading content 0 (open_body_reader files r).
Proof using.
  intros S. pose proof (stored_body_size _ _ S) as B. unfold stored_body in S.
  constructor; cbn [open_body_reader offset_ request_ file_ exhausted_]; [split; [done|lia]|done| |done].
  unfold body_spooled_to_file. destruct (body_file r); cbn; [by destruct S|by destruct S].
Qed.

Lemma reading_eof content off rd :
  reading content off rd -> eof rd = (length content <=? off)%nat.
Proof using.
  intros [[Ho Hl] Hs Hsrc He]. unfold eof. rewrite Hs, Ho.
  assert (S : (size content <=? Z.of_nat off) = (length content <=? off)%nat)
    by (destruct (Nat.leb_spec (length content) off); lia).
  destruct (exhausted_ rd) eqn:X.
  - cbn. symmetry. apply Nat.leb_le. specialize (He eq_refl). lia.
  - destruct (body_spooled_to_file (request_ rd)); cbn [negb orb].
    + rewrite Hsrc, bool_decide_true by done. exact S.
    + by rewrite Hsrc.
Qed.

(** A chunk is the next part of the content. *)
Lemma read_chunk_spec content off rd n :
  reading content off rd -> (0 < n)%nat -> (off < length content)%nat ->
  let c := substr content off n in
  (read_chunk rd n).1 = c /\ c <> [] /\ reading content (off + length c) (read_chunk rd n).2.
Proof using.
  intros R Hn Ho c. pose proof (reading_eof _ _ _ R) as E. destruct R as [[R1 R2] R3 R4 R5].
  assert (Lc : length c = Nat.min n (length content - off)) by apply length_substr.
  unfold read_chunk. rewrite E.
  destruct (Nat.eqb_spec n 0); [lia|]. destruct (Nat.leb_spec (length content) off); [lia|].
  cbn [orb]. destruct (body_spooled_to_file (request_ rd)) eqn:Sp; cbn [negb].
  - rewrite R4, R1, R3. cbn [default from_option id]. fold c. cbn [fst snd].
    split_and!; [done|intros C; rewrite C in Lc; cbn in Lc; lia|].
    constructor; cbn [offset_ request_ file_ exhausted_]; [split; [done|lia]|done|by rewrite Sp|].
    rewrite bool_decide_false by (intros C; rewrite C in Lc; cbn in Lc; lia).
    cbn [orb]. intros Hx%Z.leb_le. lia.
  - rewrite R4, R1. cbn [fst snd].
    assert (Ec : substr content off (Nat.min n (length content - off)) = c).
    { unfold c, substr. destruct (decide (n <= length content - off)%nat).
      - by rewrite Nat.min_l.
      - rewrite Nat.min_r, !take_ge; rewrite ?length_drop; (done || lia). }
    rewrite Ec. split_and!; [done|intros C; rewrite C in Lc; cbn in Lc; lia|].
    constructor; cbn [offset_ request_ file_ exhausted_]; [split; [done|lia]|done|by rewrite Sp|].
    intros Hx%Nat.leb_le. lia.
Qed.

Lemma take_substr (s : bytes) a b : take a s ++ substr s a b = take (a + b) s.
Proof using. unfold substr. apply take_take_drop. Qed.

Lemma body_text_loop_spec content fuel n rd off :
  reading content off rd -> (off <= n)%nat -> (n - off <= fuel)%nat ->
  body_text_loop fuel n rd (take off content) = Ret (take n content).
Proof using.
  revert rd off; induction fuel as [|fuel IH]; intros rd off R Ho Hf; cbn [body_text_loop];
    pose proof (proj2 (reading_offset _ _ _ R)) as Hl;
    rewrite length_take, Nat.min_l, (reading_eof _ _ _ R) by lia.
  - destruct (Nat.ltb_spec off n); [lia|]. cbn. do 2 f_equal. lia.
  - destruct (Nat.ltb_spec off n); [|cbn; do 2 f_equal; lia].
    destruct (Nat.leb_spec (length content) off); cbn [negb andb]; [by rewrite !take_ge by lia|].
    destruct (read_chunk_spec content off rd (Nat.min (Z.to_nat 8192) (n - off)) R ltac:(lia) ltac:(lia))
      as (E1 & E2 & E3).
    pose proof (length_substr content off (Nat.min (Z.to_nat 8192) (n - off))) as L.
    destruct (read_chunk rd _) as [c rd']. cbn [fst snd] in *. subst c.
    set (c := substr content off (Nat.min (Z.to_nat 8192) (n - off))) in *.
    assert (T : take off content ++ c = take (off + length c) content).
    { unfold c. rewrite take_substr.
      destruct (decide (off + Nat.min (Z.to_nat 8192) (n - off) <= length content)%nat).
      - f_equal. fold c. lia.
      - rewrite !take_ge; [done| |]; fold c; lia. }
    destruct c as [|x c]; [done|]. rewrite T. apply IH; [done|lia|cbn in *; lia].
Qed.

(** [body_text] returns the request body, whole or up to the given number
    of bytes, wherever the body is kept: its chunked reading loop terminates
    and delivers the same bytes from memory and from the spool file. *)
Theorem body_text_spec (r : Request) (content : bytes) (max_bytes : Z) :
  stored_body r content -> 0 <= max_bytes ->
  body_text files r max_bytes
  = Ret (if max_bytes =? 0 then content else take (Z.to_nat max_bytes) content).
Proof using.
  intros S Hm. unfold body_text. pose proof (stored_body_size _ _ S) as B.
  assert (N : (bytes_to_read r max_bytes <= length content)%nat)
    by (unfold bytes_to_read; rewrite B; destruct (max_bytes =? 0); lia).
  rewrite <- (take_0 content) at 1.
  rewrite (body_text_loop_spec content _ (bytes_to_read r max_bytes)) by (by apply open_reading || lia).
  f_equal. unfold bytes_to_read. rewrite B. destruct (Z.eqb_spec max_bytes 0); [by rewrite take_ge by lia|].
  destruct (decide (max_bytes <= size content)).
  - by rewrite Z.min_l.
  - rewrite Z.min_r, !take_ge by lia. done.
Qed.
End body_text.

Lemma body_text_spec_witness :
  let files p := if decide (p = str "/tmp/spool") then Some (str "spooled body") else None in
  let r := mk_request (str "POST") (str "/") (str "/") [] (str "HTTP/1.1") ∅ ∅ [] 12 (Some (str "/tmp/spool")) in
  body_text files r 7 = Ret (str "spooled").
Proof.
  cbn zeta. apply (body_text_spec (fun p => if decide (p = str "/tmp/spool") then Some (str "spooled body") else None)
    (mk_request (str "POST") (str "/") (str "/") [] (str "HTTP/1.1") ∅ ∅ [] 12 (Some (str "/tmp/spool")))
    (str "spooled body") 7); [split; reflexivity | lia].
Defined.
