(* ===== verification/Http1Frame.v ===== *)
(** * Http1Frame: cutting HTTP/1 requests out of a connection's buffer

    Models [src/src/http/http1_session.cpp]: the validation of the header
    block, the decoder of chunked bodies, and [next_http1_request_frame],
    which finds the first request of a buffer.  [std::size_t] sums keep their
    64-bit wrap-around, which matters for chunk sizes. *)

From S2P Require Import Prelude Text Numbers Request.

(** ** The header block *)

Record HeaderFrameAnalysis : Type := mk_analysis {
  ok : bool;
  chunked : bool;
  content_length : option Z;
  status : Z;
  message : bytes;
}.

Definition bad_request : bytes := str "Bad Request" ++ [LF].

Definition bad_header_frame (status : Z) (message : bytes) : HeaderFrameAnalysis :=
  mk_analysis false false None status message.

(** The loop over the characters: [previous] is [raw_header[index - 1]]. *)
Fixpoint header_chars_ok (previous : option byte) (s : bytes) : bool :=
  match s with
  | [] => true
  | ch :: s' =>
      negb (bool_decide (ch = LF) && negb (bool_decide (previous = Some CR)))
      && negb (bool_decide (ch = CR) && negb (bool_decide (head s' = Some LF)))
      && (bool_decide (ch ∈ [CR; LF; TAB]) || negb (is_control ch))
      && header_chars_ok (Some ch) s'
  end.

(** What one header line contributes: its lower-case name and its value. *)
Definition analyze_header_line (line : bytes) : option (bytes * bytes) :=
  match line with
  | [] => None
  | front :: _ =>
      if bool_decide (front = SP) || bool_decide (front = TAB) then None
      else
        match find_byte (chr ":") line with
        | None => None
        | Some separator =>
            let raw_name := take separator line in
            if negb (valid_header_name raw_name) then None
            else
              let value := trim (drop (S separator) line) in
              if header_value_has_invalid_control value then None
              else Some (lowercase raw_name, value)
        end
  end.

(** The loop over the lines after the request line: the values of
    Content-Length and Transfer-Encoding, or [None] for a bad frame.
    [tail] is what follows the last CRLF. *)
Fixpoint analyze_header_lines (lines : list bytes) (tail : bytes)
    (content_lengths transfer_encodings : list bytes) : option (list bytes * list bytes) :=
  match lines with
  | [] => if bool_decide (tail = []) then Some (content_lengths, transfer_encodings) else None
  | [] :: _ => Some (content_lengths, transfer_encodings)
  | line :: lines' =>
      match analyze_header_line line with
      | None => None
      | Some (name, value) =>
          if decide (name = str "content-length") then
            analyze_header_lines lines' tail (content_lengths ++ [value]) transfer_encodings
          else if decide (name = str "transfer-encoding") then
            analyze_header_lines lines' tail content_lengths (transfer_encodings ++ [value])
          else analyze_header_lines lines' tail content_lengths transfer_encodings
      end
  end.

(** The first line is skipped, unless it is empty. *)
Definition analyze_lines (raw_header : bytes) : option (list bytes * list bytes) :=
  match crlf_lines raw_header with
  | ([], tail) => if bool_decide (tail = []) then Some ([], []) else None
  | ([] :: _, _) => Some ([], [])
  | (_ :: lines, tail) => analyze_header_lines lines tail [] []
  end.

(** The decision about the framing of the body. *)
Definition analyze_framing (content_lengths transfer_encodings : list bytes)
    : HeaderFrameAnalysis :=
  let bad := bad_header_frame 400 bad_request in
  if (1 <? length content_lengths)%nat then bad
  else
    match (match content_lengths with
           | [] => Some None
           | front :: _ => Some <$> parse_decimal_size (trim front)
           end) with
    | None => bad
    | Some content_length =>
        if (1 <? length transfer_encodings)%nat then bad
        else
          match transfer_encodings with
          | [] => mk_analysis true false content_length 400 bad_request
          | front :: _ =>
              match split_csv front with
              | [encoding] =>
                  if negb (bool_decide (lowercase encoding = str "chunked")) then bad
                  else if bool_decide (is_Some content_length) then bad
                  else mk_analysis true true None 400 bad_request
              | _ => bad
              end
          end
    end.

Definition analyze_header_frame (raw_header : bytes) : HeaderFrameAnalysis :=
  if negb (header_chars_ok None raw_header) then bad_header_frame 400 bad_request
  else
    match analyze_lines raw_header with
    | None => bad_header_frame 400 bad_request
    | Some (content_lengths, transfer_encodings) =>
        analyze_framing content_lengths transfer_encodings
    end.

(** ** Chunked bodies *)

Inductive ChunkedDecodeState : Type :=
| chunk_incomplete | chunk_complete | chunk_malformed.

Record ChunkedDecodeResult : Type := mk_chunked {
  chunk_state : ChunkedDecodeState;
  chunk_body : bytes;
  chunk_consumed : Z;
}.

(** [encoded.find("\r\n", cursor)] for a cursor of 64 bits *)
Definition find_crlf (encoded : bytes) (cursor : Z) : option Z :=
  if cursor <=? size encoded
  then Z.of_nat <$> find_from CRLF encoded (Z.to_nat cursor)
  else None.

(** [encoded.substr(cursor, n)] throws past the end. *)
Definition substr_checked (encoded : bytes) (cursor n : Z) : outcome bytes :=
  if size encoded <? cursor then Raise out_of_range
  else Ret (take (Z.to_nat (Z.min n (size encoded - cursor))) (drop (Z.to_nat cursor) encoded)).

(** The inner [while (true)] over the trailer lines. *)
Fixpoint trailer_loop (fuel : nat) (encoded : bytes) (cursor : Z) (b : bytes)
    : outcome ChunkedDecodeResult :=
  match fuel with
  | O => Timeout
  | S fuel' =>
      match find_crlf encoded cursor with
      | None => Ret (mk_chunked chunk_incomplete b 0)
      | Some trailer_end =>
          if trailer_end =? cursor then Ret (mk_chunked chunk_complete b (u64 (trailer_end + 2)))
          else trailer_loop fuel' encoded (u64 (trailer_end + 2)) b
      end
  end.

(** [size_line]: the chunk size, without its extensions *)
Definition chunk_size_of (line : bytes) : option Z :=
  let size_line := match find_byte (chr ";") line with
                   | Some extension => take extension line
                   | None => line
                   end in
  parse_hex_size (trim size_line).

(** The outer [while (true)] over the chunks. *)
Fixpoint chunk_loop (fuel : nat) (encoded : bytes) (cursor : Z) (b : bytes)
    : outcome ChunkedDecodeResult :=
  match fuel with
  | O => Timeout
  | S fuel' =>
      match find_crlf encoded cursor with
      | None => Ret (mk_chunked chunk_incomplete b 0)
      | Some line_end =>
          line ← substr_checked encoded cursor (line_end - cursor);
          match chunk_size_of line with
          | None => Ret (mk_chunked chunk_malformed b 0)
          | Some chunk_size =>
              let cursor := u64 (line_end + 2) in
              if chunk_size =? 0 then trailer_loop (S (length encoded)) encoded cursor b
              else if size encoded <? u64 (cursor + chunk_size + 2)
              then Ret (mk_chunked chunk_incomplete b 0)
              else
                chunk ← substr_checked encoded cursor chunk_size;
                let cursor := u64 (cursor + chunk_size) in
                ending ← substr_checked encoded cursor 2;
                if negb (bool_decide (ending = CRLF))
                then Ret (mk_chunked chunk_malformed (b ++ chunk) 0)
                else chunk_loop fuel' encoded (u64 (cursor + 2)) (b ++ chunk)
          end
      end
  end.

Definition decode_chunked_body (encoded : bytes) : outcome ChunkedDecodeResult :=
  chunk_loop (S (length encoded)) encoded 0 [].

(** ** The next request of a buffer *)

Inductive Http1FrameState : Type :=
| incomplete | header_complete | complete | error.

Record Http1FrameResult : Type := mk_frame_result {
  state : Http1FrameState;
  request : option Request;
  frame_content_length : option Z;
  raw_request : bytes;
  consumed : Z;
  waiting_for_body : bool;
  frame_chunked : bool;
  discard_buffer : bool;
  error_status : Z;
  error_message : bytes;
}.

Definition incomplete_frame (waiting_for_body : bool) : Http1FrameResult :=
  mk_frame_result incomplete None None [] 0 waiting_for_body false false 400 bad_request.

Definition error_frame (status : Z) (message : bytes) (consumed : Z) (discard : bool)
    : Http1FrameResult :=
  mk_frame_result error None None [] consumed false false discard status message.

Definition header_fields_too_large : bytes := str "Request Header Fields Too Large" ++ [LF].
Definition content_too_large : bytes := str "Content Too Large" ++ [LF].

(** The branch for a chunked body. *)
Definition chunked_frame (buffered : bytes) (max_request_bytes : Z) (body_start : Z)
    (req : Request) : outcome Http1FrameResult :=
  decoded ← decode_chunked_body (drop (Z.to_nat body_start) buffered);
  match chunk_state decoded with
  | chunk_incomplete =>
      if max_request_bytes <? size buffered
      then mret (error_frame 413 content_too_large 0 true)
      else mret (mk_frame_result header_complete (Some req) None [] body_start true true false
                   400 bad_request)
  | st =>
      let chunked_too_large := (max_request_bytes <? chunk_consumed decoded)
                               || (max_request_bytes - chunk_consumed decoded <? body_start) in
      if (match st with chunk_malformed => true | _ => false end) || chunked_too_large then
        let consumed := if chunked_too_large then size buffered
                        else Z.min (size buffered) (body_start + chunk_consumed decoded) in
        mret (error_frame 400 bad_request consumed false)
      else
        mret (mk_frame_result complete (Some req) None
                (take (Z.to_nat body_start) buffered ++ chunk_body decoded)
                (body_start + chunk_consumed decoded) false true false 400 bad_request)
  end.

(** The branch for a Content-Length body, or none. *)
Definition sized_frame (buffered : bytes) (max_request_bytes : Z) (body_start body_size : Z)
    (req : Request) : Http1FrameResult :=
  if (max_request_bytes <? body_size) || (max_request_bytes - body_size <? body_start)
  then error_frame 413 content_too_large 0 true
  else
    let total_size := body_start + body_size in
    if size buffered <? total_size then
      mk_frame_result header_complete (Some req) (Some body_size) [] body_start (0 <? body_size)
        false false 400 bad_request
    else
      mk_frame_result complete (Some req) (Some body_size)
        (take (Z.to_nat total_size) buffered) total_size false false false 400 bad_request.

Definition next_http1_request_frame (buffered : bytes) (max_request_bytes : Z)
    : outcome Http1FrameResult :=
  match find CRLF2 buffered with
  | None =>
      if max_request_bytes <? size buffered
      then mret (error_frame 431 header_fields_too_large 0 false)
      else mret (incomplete_frame false)
  | Some header_end =>
      let body_start := (header_end + 4)%nat in
      let raw_header := take body_start buffered in
      let frame_analysis := analyze_header_frame raw_header in
      if negb (ok frame_analysis)
      then mret (error_frame (status frame_analysis) (message frame_analysis)
                   (Z.of_nat body_start) false)
      else if max_request_bytes <? Z.of_nat body_start
      then mret (error_frame 431 header_fields_too_large (Z.of_nat body_start) false)
      else
        match parse_request raw_header with
        | Rejected _ _ => mret (error_frame 400 bad_request (Z.of_nat body_start) false)
        | Parsed req =>
            if chunked frame_analysis
            then chunked_frame buffered max_request_bytes (Z.of_nat body_start) req
            else mret (sized_frame buffered max_request_bytes (Z.of_nat body_start)
                         (default 0 (content_length frame_analysis)) req)
        end
  end.

(** ** Chunked bodies: the decoder without wrap-around

    [no_wrap encoded]: no part of the input is a chunk-size line so large that
    the sum [cursor + chunk_size + 2] exceeds 64 bits. *)

Definition no_wrap (encoded : bytes) : Prop :=
  size encoded < 2 ^ 63 /\
  forall a s b n, encoded = a ++ s ++ b -> chunk_size_of s = Some n -> n + size encoded + 2 < 2 ^ 64.

Lemma chunk_size_range line n : chunk_size_of line = Some n -> 0 <= n <= size_max.
Proof. unfold chunk_size_of. apply parse_hex_size_range. Qed.

Lemma no_wrap_size e pos k n :
  no_wrap e -> chunk_size_of (substr e pos k) = Some n -> 0 <= n /\ n + size e + 2 < 2 ^ 64.
Proof.
  intros [_ H] C. destruct (substr_infix e pos k) as (a & b & E).
  split; [apply chunk_size_range in C; lia|]. by eapply H.
Qed.

Lemma find_crlf_nat e c : find_crlf e (Z.of_nat c) = Z.of_nat <$> find_from CRLF e c.
Proof.
  unfold find_crlf. rewrite Nat2Z.id. destruct (Z.leb_spec (Z.of_nat c) (size e)); [done|].
  unfold find_from. by destruct (Nat.leb_spec c (length e)); [lia|].
Qed.

Lemma substr_checked_nat e c n :
  (c <= length e)%nat -> 0 <= n -> substr_checked e (Z.of_nat c) n = Ret (substr e c (Z.to_nat n)).
Proof.
  intros Hc Hn. unfold substr_checked. destruct (Z.ltb_spec (size e) (Z.of_nat c)); [lia|].
  rewrite Nat2Z.id. unfold substr. f_equal.
  destruct (decide (n <= size e - Z.of_nat c)).
  - by rewrite Z.min_l.
  - rewrite Z.min_r, !take_ge; rewrite ?length_drop; (done || lia).
Qed.

(** One turn of each loop, on positions inside the input. *)
Lemma trailer_loop_step fuel e c b :
  size e < 2 ^ 63 ->
  trailer_loop (S fuel) e (Z.of_nat c) b =
  match find_from CRLF e c with
  | None => Ret (mk_chunked chunk_incomplete b 0)
  | Some t => if (t =? c)%nat then Ret (mk_chunked chunk_complete b (Z.of_nat (t + 2)))
              else trailer_loop fuel e (Z.of_nat (t + 2)) b
  end.
Proof.
  intros He. cbn [trailer_loop]. rewrite find_crlf_nat.
  destruct (find_from CRLF e c) as [t|] eqn:F; [|done]. cbn [fmap option_fmap option_map].
  apply find_from_Some in F as (_ & L & _). cbn [length] in L.
  rewrite wrap_small by lia. replace (Z.of_nat t + 2) with (Z.of_nat (t + 2)) by lia.
  destruct (Z.eqb_spec (Z.of_nat t) (Z.of_nat c)), (Nat.eqb_spec t c); (done || lia).
Qed.

(** The chunk-size line at [c], if complete, does not make the sum wrap. *)
Definition line_ok (e : bytes) (c : nat) : Prop :=
  size e < 2 ^ 63 /\
  forall l n, find_from CRLF e c = Some l -> chunk_size_of (substr e c (l - c)) = Some n ->
  n + size e + 2 < 2 ^ 64.

Lemma line_ok_intro e c l n :
  size e < 2 ^ 63 -> find_from CRLF e c = Some l -> chunk_size_of (substr e c (l - c)) = Some n ->
  n + size e + 2 < 2 ^ 64 -> line_ok e c.
Proof. intros Hs F C Hn. split; [done|]. intros l' n' F' C'. rewrite F in F'. injection F' as <-. congruence. Qed.

Lemma no_wrap_line_ok e c : no_wrap e -> line_ok e c.
Proof. intros NW. split; [apply NW|]. intros l n _ C. by apply (no_wrap_size e c (l - c)). Qed.

Lemma chunk_loop_step fuel e c b :
  line_ok e c ->
  chunk_loop (S fuel) e (Z.of_nat c) b =
  match find_from CRLF e c with
  | None => Ret (mk_chunked chunk_incomplete b 0)
  | Some l =>
      match chunk_size_of (substr e c (l - c)) with
      | None => Ret (mk_chunked chunk_malformed b 0)
      | Some n =>
          if n =? 0 then trailer_loop (S (length e)) e (Z.of_nat (l + 2)) b
          else if (size e <? Z.of_nat (l + 2) + n + 2)
          then Ret (mk_chunked chunk_incomplete b 0)
          else
            let k := Z.to_nat n in
            if bool_decide (substr e (l + 2 + k) 2 = CRLF)
            then chunk_loop fuel e (Z.of_nat (l + 2 + k + 2)) (b ++ substr e (l + 2) k)
            else Ret (mk_chunked chunk_malformed (b ++ substr e (l + 2) k) 0)
      end
  end.
Proof.
  intros [Hs Hl]. cbn [chunk_loop]. rewrite find_crlf_nat.
  destruct (find_from CRLF e c) as [l|] eqn:F; [|done]. cbn [fmap option_fmap option_map].
  pose proof F as (L1 & L2 & _)%find_from_Some. cbn [length] in L2.
  rewrite substr_checked_nat by lia. cbn [mbind outcome_bind].
  replace (Z.to_nat (Z.of_nat l - Z.of_nat c)) with (l - c)%nat by lia.
  destruct (chunk_size_of (substr e c (l - c))) as [n|] eqn:C; [|done].
  pose proof (Hl l n eq_refl C) as N2. pose proof (chunk_size_range _ _ C) as [N1 _].
  rewrite (wrap_small 64 (Z.of_nat l + 2)) by lia.
  replace (Z.of_nat l + 2) with (Z.of_nat (l + 2)) by lia.
  destruct (n =? 0); [done|]. rewrite wrap_small by lia.
  destruct (Z.ltb_spec (size e) (Z.of_nat (l + 2) + n + 2)); [done|].
  rewrite substr_checked_nat by lia. cbn [mbind outcome_bind].
  rewrite (wrap_small 64 (Z.of_nat (l + 2) + n)) by lia.
  replace (Z.of_nat (l + 2) + n) with (Z.of_nat (l + 2 + Z.to_nat n)) by lia.
  rewrite substr_checked_nat by lia. cbn [mbind outcome_bind]. rewrite wrap_small by lia.
  replace (Z.of_nat (l + 2 + Z.to_nat n) + 2) with (Z.of_nat (l + 2 + Z.to_nat n + 2)) by lia.
  change (Z.to_nat 2) with 2%nat. by destruct (bool_decide _).
Qed.

(** Both loops move the cursor, so the fuel suffices and nothing throws. *)
Lemma trailer_loop_total fuel e c b :
  size e < 2 ^ 63 -> (c <= length e)%nat -> (length e - c < fuel)%nat ->
  exists r, trailer_loop fuel e (Z.of_nat c) b = Ret r /\ 0 <= chunk_consumed r <= size e /\
  chunk_body r = b.
Proof.
  intros He. revert c; induction fuel as [|fuel IH]; intros c Hc Hf; [lia|].
  rewrite trailer_loop_step by done.
  destruct (find_from CRLF e c) as [t|] eqn:F; [|eexists; split; [done|]; cbn; split; [lia|done]].
  apply find_from_Some in F as (F1 & F2 & _). cbn [length] in F2.
  destruct (t =? c)%nat; [eexists; split; [done|]; cbn; split; [lia|done]|]. apply IH; lia.
Qed.

Lemma length_substr_CRLF e p : substr e p 2 = CRLF -> (p + 2 <= length e)%nat.
Proof. intros H. apply (f_equal length) in H. rewrite length_substr in H. cbn [length] in H. lia. Qed.

Lemma chunk_loop_total fuel e c b :
  no_wrap e -> (c <= length e)%nat -> (length e - c < fuel)%nat ->
  exists r, chunk_loop fuel e (Z.of_nat c) b = Ret r /\ 0 <= chunk_consumed r <= size e /\
  (length (chunk_body r) <= length b + (length e - c))%nat.
Proof.
  intros NW. revert c b; induction fuel as [|fuel IH]; intros c b Hc Hf; [lia|].
  rewrite chunk_loop_step by (by apply no_wrap_line_ok).
  destruct (find_from CRLF e c) as [l|] eqn:F; [|eexists; split; [done|]; cbn; lia].
  apply find_from_Some in F as (F1 & F2 & _). cbn [length] in F2.
  destruct (chunk_size_of _) as [n|] eqn:C; [|eexists; split; [done|]; cbn; lia].
  destruct (no_wrap_size _ _ _ _ NW C) as [N1 N2].
  destruct (n =? 0).
  { destruct (trailer_loop_total (S (length e)) e (l + 2) b) as (r & E & R & B); [by destruct NW|lia|lia|].
    exists r. rewrite B. split; [done|]. split; [done|lia]. }
  destruct (Z.ltb_spec (size e) (Z.of_nat (l + 2) + n + 2)); [eexists; split; [done|]; cbn; lia|].
  cbn zeta. case_bool_decide as CR2.
  - destruct (IH (l + 2 + Z.to_nat n + 2)%nat (b ++ substr e (l + 2) (Z.to_nat n))) as (r & E & R & B);
      [lia|lia|]. exists r. split; [done|]. split; [done|].
    rewrite length_app, length_substr in B. lia.
  - eexists. split; [done|]. cbn. rewrite length_app, length_substr. lia.
Qed.

(** More bytes do not change a complete body, and more fuel nothing. *)
Lemma trailer_loop_app fuel fuel' e more c b r :
  size e < 2 ^ 63 -> size (e ++ more) < 2 ^ 63 -> (fuel <= fuel')%nat ->
  trailer_loop fuel e (Z.of_nat c) b = Ret r -> chunk_state r = chunk_complete ->
  trailer_loop fuel' (e ++ more) (Z.of_nat c) b = Ret r.
Proof.
  intros He He'. revert c fuel'; induction fuel as [|fuel IH]; intros c fuel' Hf; [done|].
  destruct fuel' as [|fuel']; [lia|]. rewrite !trailer_loop_step by done.
  destruct (find_from CRLF e c) as [t|] eqn:F; [|by intros [= <-]].
  rewrite (find_from_app_Some _ _ more _ _ F).
  destruct (t =? c)%nat; [done|]. apply IH. lia.
Qed.

Lemma chunk_loop_app fuel fuel' e more c b r :
  no_wrap e -> no_wrap (e ++ more) -> (fuel <= fuel')%nat ->
  chunk_loop fuel e (Z.of_nat c) b = Ret r -> chunk_state r = chunk_complete ->
  chunk_loop fuel' (e ++ more) (Z.of_nat c) b = Ret r.
Proof.
  intros NW NW'. revert c b fuel'; induction fuel as [|fuel IH]; intros c b fuel' Hf; [done|].
  destruct fuel' as [|fuel']; [lia|]. rewrite !chunk_loop_step by (by apply no_wrap_line_ok).
  destruct (find_from CRLF e c) as [l|] eqn:F; [|by intros [= <-]].
  rewrite (find_from_app_Some _ _ more _ _ F).
  apply find_from_Some in F as (F1 & F2 & _). cbn [length] in F2.
  rewrite substr_app_le by lia.
  destruct (chunk_size_of _) as [n|] eqn:C; [|by intros [= <-]].
  destruct (no_wrap_size _ _ _ _ NW C) as [N1 N2].
  destruct (n =? 0).
  { apply trailer_loop_app; [apply NW|apply NW'|]. rewrite length_app. lia. }
  rewrite length_app.
  destruct (Z.ltb_spec (size e) (Z.of_nat (l + 2) + n + 2)); [by intros [= <-]|].
  destruct (Z.ltb_spec (Z.of_nat (length e + length more)) (Z.of_nat (l + 2) + n + 2)); [lia|].
  cbn zeta. rewrite !substr_app_le by lia.
  case_bool_decide; [|by intros [= <-]]. apply IH. lia.
Qed.

(** ** Encoding a chunked body *)

(** A chunk: its extension (empty, or from a semicolon on) and its data. *)
Definition wf_chunk (c : bytes * bytes) : Prop :=
  c.2 <> [] /\ CR ∉ c.1 /\ (c.1 = [] \/ head c.1 = Some (chr ";")).

Definition encode_chunk (c : bytes * bytes) : bytes :=
  (to_hex (size c.2) ++ c.1) ++ CRLF ++ c.2 ++ CRLF.

Definition wf_trailer (t : bytes) : Prop := t <> [] /\ CR ∉ t.

Definition encode_chunked (chunks : list (bytes * bytes)) (trailers : list bytes) : bytes :=
  (chunks ≫= encode_chunk) ++ str "0" ++ CRLF ++ (trailers ≫= fun t => t ++ CRLF) ++ CRLF.

Lemma alnum_not_elem s c : Forall (fun c => isalnum c = true) s -> isalnum c = false -> c ∉ s.
Proof. intros F N H. rewrite Forall_forall in F. apply F in H. congruence. Qed.

Lemma chunk_size_of_hex n ext :
  0 <= n <= size_max -> (ext = [] \/ head ext = Some (chr ";")) ->
  chunk_size_of (to_hex n ++ ext) = Some n.
Proof.
  intros Hn He. unfold chunk_size_of. pose proof (to_hex_alnum n) as A.
  assert (E : match find_byte (chr ";") (to_hex n ++ ext) with
              | Some i => take i (to_hex n ++ ext) | None => to_hex n ++ ext end = to_hex n).
  { destruct He as [-> |He].
    - rewrite app_nil_r. rewrite (proj2 (find_byte_None _ _)); [done|]. by apply alnum_not_elem.
    - destruct ext as [|c ext]; [done|]. injection He as ->.
      rewrite find_byte_app by (by apply alnum_not_elem). by rewrite take_app_length. }
  rewrite E, trimmed_trim by (by apply all_alnum_trimmed). by apply parse_hex_to_hex.
Qed.

Lemma trailer_loop_encoded fuel pre ts rest b :
  Forall wf_trailer ts ->
  let e := pre ++ (ts ≫= fun t => t ++ CRLF) ++ CRLF ++ rest in
  size e < 2 ^ 63 -> (length ts < fuel)%nat ->
  trailer_loop fuel e (Z.of_nat (length pre)) b
  = Ret (mk_chunked chunk_complete b (Z.of_nat (length pre + length (ts ≫= fun t => t ++ CRLF) + 2))).
Proof.
  intros F. revert pre fuel; induction F as [|t ts [Ht Hc] _ IH]; intros pre fuel e He Hf;
    (destruct fuel as [|fuel]; [cbn in Hf; lia|]); rewrite trailer_loop_step by done; unfold e.
  - cbn [mbind list_bind app]. change (pre ++ CR :: LF :: rest) with (pre ++ [] ++ CRLF ++ rest).
    rewrite find_from_CRLF by set_solver. cbn [length].
    destruct (Nat.eqb_spec (length pre + 0) (length pre)); [|lia]. done.
  - set (tl := ts ≫= fun t => t ++ CRLF) in *.
    change ((t :: ts) ≫= fun t => t ++ CRLF) with ((t ++ CRLF) ++ tl) in *.
    replace (pre ++ ((t ++ CRLF) ++ tl) ++ CRLF ++ rest)
      with (pre ++ t ++ CRLF ++ (tl ++ CRLF ++ rest)) by (rewrite <- !app_assoc; done).
    rewrite find_from_CRLF by done.
    destruct (Nat.eqb_spec (length pre + length t) (length pre)); [by destruct t; [|cbn in *; lia]|].
    specialize (IH (pre ++ t ++ CRLF) fuel). cbn zeta in IH.
    replace ((pre ++ t ++ CRLF) ++ tl ++ CRLF ++ rest)
      with (pre ++ t ++ CRLF ++ (tl ++ CRLF ++ rest)) in IH by (rewrite <- !app_assoc; done).
    replace (length (pre ++ t ++ CRLF)) with (length pre + length t + 2)%nat in IH
      by (rewrite !length_app; cbn [length]; lia).
    rewrite IH.
    + do 2 f_equal. rewrite !length_app. cbn [length]. lia.
    + unfold e in He. rewrite !length_app in He |- *. cbn [length] in *. lia.
    + cbn in Hf. lia.
Qed.

Lemma trailers_length ts : (length ts <= length (ts ≫= fun t => t ++ CRLF))%nat.
Proof.
  induction ts as [|t ts IH]; [done|].
  change ((t :: ts) ≫= fun t => t ++ CRLF) with ((t ++ CRLF) ++ (ts ≫= fun t => t ++ CRLF)).
  rewrite !length_app. cbn [length]. lia.
Qed.

Lemma chunk_loop_encoded fuel pre cs ts rest b :
  Forall wf_chunk cs -> Forall wf_trailer ts ->
  let e := pre ++ encode_chunked cs ts ++ rest in
  size e < 2 ^ 63 -> (length e < fuel + length pre)%nat ->
  chunk_loop fuel e (Z.of_nat (length pre)) b
  = Ret (mk_chunked chunk_complete (b ++ (cs ≫= snd))
           (Z.of_nat (length pre + length (encode_chunked cs ts)))).
Proof.
  intros F Fts. revert pre fuel b; induction F as [|[ext d] cs [Hd [Hx Hext]] _ IH];
    intros pre fuel b e Hs63 Hf; (destruct fuel as [|fuel]; [exfalso; revert Hf; subst e;
      rewrite !length_app; lia|]).
  - set (tr := ts ≫= fun t => t ++ CRLF).
    assert (E : e = pre ++ str "0" ++ CRLF ++ (tr ++ CRLF ++ rest))
      by (unfold e, encode_chunked; fold tr; rewrite <- !app_assoc; done).
    assert (F1 : find_from CRLF e (length pre) = Some (length pre + length (str "0"))%nat)
      by (rewrite E; apply find_from_CRLF; vm_compute; set_solver).
    assert (C : chunk_size_of (substr e (length pre) (length pre + length (str "0") - length pre)) = Some 0).
    { replace (length pre + length (str "0") - length pre)%nat with (length (str "0")) by lia.
      rewrite E, substr_middle. reflexivity. }
    rewrite chunk_loop_step, F1, C by (eapply line_ok_intro; [done|exact F1|exact C|lia]).
    cbn [Z.eqb].
    assert (E' : e = (pre ++ str "0" ++ CRLF) ++ tr ++ CRLF ++ rest) by (rewrite E, <- !app_assoc; done).
    assert (L : length (pre ++ str "0" ++ CRLF) = (length pre + length (str "0") + 2)%nat)
      by (rewrite !length_app; cbn [length]; lia).
    pose proof (trailer_loop_encoded (S (length e)) (pre ++ str "0" ++ CRLF) ts rest b Fts) as T.
    fold tr in T. cbn zeta in T. rewrite <- E', L in T. rewrite T.
    + change ([] ≫= snd) with (@nil byte). rewrite app_nil_r. do 2 f_equal.
      change (encode_chunked [] ts) with (str "0" ++ CRLF ++ tr ++ CRLF).
      rewrite !length_app. cbn [length]. lia.
    + done.
    + rewrite E', !length_app. pose proof (trailers_length ts). fold tr in H. lia.
  - cbn [fst snd] in *. set (hx := to_hex (size d) ++ ext).
    set (tl := encode_chunked cs ts ++ rest).
    assert (E : e = pre ++ hx ++ CRLF ++ (d ++ CRLF ++ tl)).
    { unfold e, encode_chunked. change (((ext, d) :: cs) ≫= encode_chunk)
        with ((hx ++ CRLF ++ d ++ CRLF) ++ (cs ≫= encode_chunk)).
      unfold tl, encode_chunked. by rewrite <- !app_assoc. }
    assert (Hs : size d + 4 <= size e) by (rewrite E, !length_app; cbn [length]; lia).
    assert (Ls : 0 < size d) by (destruct d; [done|cbn; lia]).
    assert (F1 : find_from CRLF e (length pre) = Some (length pre + length hx)%nat).
    { rewrite E. apply find_from_CRLF. unfold hx. apply not_elem_of_app. split; [|done].
      by apply (alnum_not_elem _ CR (to_hex_alnum _)). }
    assert (C : chunk_size_of (substr e (length pre) (length pre + length hx - length pre))
                = Some (size d)).
    { replace (length pre + length hx - length pre)%nat with (length hx) by lia.
      rewrite E, substr_middle. apply chunk_size_of_hex; [unfold size_max; lia|done]. }
    rewrite chunk_loop_step, F1, C by (eapply line_ok_intro; [done|exact F1|exact C|lia]).
    destruct (Z.eqb_spec (size d) 0); [lia|].
    destruct (Z.ltb_spec (size e) (Z.of_nat (length pre + length hx + 2) + size d + 2)) as [C'|_].
    { rewrite E, !length_app in C'. cbn [length] in C'. lia. }
    cbn zeta. rewrite Nat2Z.id.
    assert (E1 : e = (pre ++ hx ++ CRLF) ++ d ++ (CRLF ++ tl)) by (rewrite E, <- !app_assoc; done).
    assert (E2 : e = (pre ++ hx ++ CRLF ++ d) ++ CRLF ++ tl) by (rewrite E, <- !app_assoc; done).
    assert (E3 : e = (pre ++ hx ++ CRLF ++ d ++ CRLF) ++ tl) by (rewrite E, <- !app_assoc; done).
    assert (L1 : length (pre ++ hx ++ CRLF) = (length pre + length hx + 2)%nat)
      by (rewrite !length_app; cbn [length]; lia).
    assert (L2 : length (pre ++ hx ++ CRLF ++ d) = (length pre + length hx + 2 + length d)%nat)
      by (rewrite !length_app; cbn [length]; lia).
    assert (L3 : length (pre ++ hx ++ CRLF ++ d ++ CRLF) = (length pre + length hx + 2 + length d + 2)%nat)
      by (rewrite !length_app; cbn [length]; lia).
    assert (S1 : substr e (length pre + length hx + 2 + length d) 2 = CRLF)
      by (rewrite E2, <- L2; exact (substr_middle _ CRLF tl)).
    assert (S2 : substr e (length pre + length hx + 2) (length d) = d)
      by (rewrite E1, <- L1; apply substr_middle).
    rewrite bool_decide_true, S2 by exact S1.
    specialize (IH (pre ++ hx ++ CRLF ++ d ++ CRLF) fuel (b ++ d)). cbn zeta in IH.
    change ((pre ++ hx ++ CRLF ++ d ++ CRLF) ++ encode_chunked cs ts ++ rest)
      with ((pre ++ hx ++ CRLF ++ d ++ CRLF) ++ tl) in IH.
    rewrite <- E3, L3 in IH. rewrite IH; [|done|lia].
    change (((ext, d) :: cs) ≫= snd) with (d ++ (cs ≫= snd)). rewrite <- app_assoc.
    do 2 f_equal. unfold encode_chunked.
    change (((ext, d) :: cs) ≫= encode_chunk) with ((hx ++ CRLF ++ d ++ CRLF) ++ (cs ≫= encode_chunk)).
    rewrite !length_app. cbn [length]. lia.
Qed.

(** ** The properties of chunked decoding *)

(** C26. A chunked body written the RFC 9112 way - any non-empty chunks with any
    extensions, then any trailer fields - is decoded to the concatenation of
    the chunk data, and exactly the bytes of the encoding are consumed, also
    when a pipelined request follows. *)
Theorem chunked_roundtrip (chunks : list (bytes * bytes)) (trailers : list bytes) (rest : bytes) :
  Forall wf_chunk chunks -> Forall wf_trailer trailers ->
  size (encode_chunked chunks trailers ++ rest) < 2 ^ 63 ->
  decode_chunked_body (encode_chunked chunks trailers ++ rest)
  = Ret (mk_chunked chunk_complete (chunks ≫= snd) (size (encode_chunked chunks trailers))).
Proof.
  intros Fc Ft Hs. unfold decode_chunked_body.
  pose proof (chunk_loop_encoded (S (length (encode_chunked chunks trailers ++ rest))) [] chunks
    trailers rest [] Fc Ft) as C. cbn zeta in C. cbn [app length] in C. apply C; [done|lia].
Qed.

Lemma chunked_roundtrip_witness :
  let cs := [(str ";name=x", str "hello "); ([], str "world")] in
  decode_chunked_body (encode_chunked cs [str "X-T: 1"] ++ str "GET / HTTP/1.1")
  = Ret (mk_chunked chunk_complete (str "hello world") (size (encode_chunked cs [str "X-T: 1"]))).
Proof.
  apply (chunked_roundtrip [(str ";name=x", str "hello "); ([], str "world")] [str "X-T: 1"]
           (str "GET / HTTP/1.1")).
  - repeat constructor; try (vm_compute; set_solver); try done; by right.
  - repeat constructor; [done | vm_compute; set_solver].
  - vm_compute. reflexivity.
Defined.

(** Without wrap-around the decoder is total on arbitrary input: both its
    loops end, nothing throws, it consumes no more than the input and the
    body it returns is no longer than the input. *)
Theorem chunked_decode_total (encoded : bytes) :
  no_wrap encoded ->
  exists r, decode_chunked_body encoded = Ret r /\
  0 <= chunk_consumed r <= size encoded /\ (length (chunk_body r) <= length encoded)%nat.
Proof.
  intros NW. destruct (chunk_loop_total (S (length encoded)) encoded 0 [] NW) as (r & E & R & B);
    [lia|lia|]. exists r. split; [exact E|]. split; [done|]. cbn in B. lia.
Qed.

(** A numeral of [k] hexadecimal digits is below [16 ^ k]. *)
Lemma numeral_hex_bound acc s n :
  0 <= acc -> numeral hex_digit 16 acc s = Some n -> n < (acc + 1) * 16 ^ size s.
Proof.
  revert acc; induction s as [|c s IH]; intros acc Ha; cbn [numeral length].
  - intros [= <-]. cbn. lia.
  - destruct (hex_digit c) as [d|] eqn:D; [|done]. apply hex_digit_range in D. cbn.
    intros H. apply IH in H; [|lia]. rewrite Nat2Z.inj_succ, Z.pow_succ_r by lia.
    assert (0 < 16 ^ size s) by (apply Z.pow_pos_nonneg; lia). nia.
Qed.

Lemma no_wrap_short e : (length e <= 15)%nat -> no_wrap e.
Proof.
  intros L. split; [lia|]. intros a s b n -> C. unfold chunk_size_of in C.
  set (t := match find_byte (chr ";") s with Some i => take i s | None => s end) in C.
  assert (Lt : (length (trim t) <= 15)%nat).
  { destruct (trim_infix t) as (u & v & E). apply (f_equal length) in E.
    rewrite !length_app in E, L. assert (length t <= length s)%nat; [|lia].
    unfold t. destruct (find_byte _ s); [rewrite length_take|]; lia. }
  apply parse_hex_size_spec in C as (_ & N & _). apply numeral_hex_bound in N; [|lia].
  assert (16 ^ size (trim t) <= 16 ^ 15) by (apply Z.pow_le_mono_r; lia). lia.
Qed.

Lemma chunked_decode_total_witness :
  exists r, decode_chunked_body (str "5;" ++ CRLF ++ str "helloX") = Ret r /\
  0 <= chunk_consumed r <= 10 /\ (length (chunk_body r) <= 10)%nat.
Proof. apply chunked_decode_total. apply no_wrap_short. vm_compute. repeat constructor. Defined.

(** Three inputs whose chunk size makes [cursor + chunk_size + 2] wrap. *)
Definition wrapping_body : bytes := str "fffffffffffffffe" ++ CRLF ++ str "0" ++ CRLF2.
Definition looping_body : bytes :=
  str "1" ++ CRLF ++ str "A" ++ CRLF ++ str "ffffffffffffffec" ++ CRLF.
Definition throwing_body : bytes := str "ffffffffffffffed" ++ CRLF ++ str "X" ++ CRLF.

(** The data and the next cursor of a turn of the loop that reads a chunk. *)
Definition chunk_turn (encoded : bytes) (cursor : Z) : option (bytes * Z) :=
  line_end ← find_crlf encoded cursor;
  match substr_checked encoded cursor (line_end - cursor) with
  | Ret line =>
      n ← chunk_size_of line;
      let cursor := u64 (line_end + 2) in
      if (n =? 0) || (size encoded <? u64 (cursor + n + 2)) then None
      else match substr_checked encoded cursor n, substr_checked encoded (u64 (cursor + n)) 2 with
           | Ret chunk, Ret ending =>
               if bool_decide (ending = CRLF) then Some (chunk, u64 (u64 (cursor + n) + 2)) else None
           | _, _ => None
           end
  | _ => None
  end.

Lemma chunk_turn_loop fuel e c b d c' :
  chunk_turn e c = Some (d, c') -> chunk_loop (S fuel) e c b = chunk_loop fuel e c' (b ++ d).
Proof.
  unfold chunk_turn. cbn [chunk_loop].
  destruct (find_crlf e c) as [l|]; [|done]. cbn [mbind option_bind].
  destruct (substr_checked e c (l - c)) as [line| |]; [|done..]. cbn [mbind outcome_bind].
  destruct (chunk_size_of line) as [n|]; [|done]. cbn [mbind option_bind].
  destruct (n =? 0); [done|]. cbn [orb]. destruct (size e <? _); [done|].
  destruct (substr_checked e _ n) as [chunk| |]; [|done..]. cbn [mbind outcome_bind].
  destruct (substr_checked e _ 2) as [ending| |]; [|done..]. cbn [mbind outcome_bind].
  destruct (bool_decide _); [|done]. by intros [= <- <-].
Qed.

Lemma looping_body_diverges fuel b : chunk_loop fuel looping_body 6 b = Timeout.
Proof.
  revert b; induction fuel as [|fuel IH]; intros b; [done|].
  rewrite (chunk_turn_loop fuel _ _ _ [] 6) by (vm_compute; reflexivity). apply IH.
Qed.

(** The bound check of [decode_chunked_body] wraps around for chunk sizes
    near [2^64]: one request body is accepted with chunk data that includes
    the terminating chunk itself, one makes the decoder loop for ever (it
    runs out of any amount of fuel), and one makes [substr] throw. *)
Theorem chunked_wrap_around :
  decode_chunked_body wrapping_body
    = Ret (mk_chunked chunk_complete (str "0" ++ CRLF2) (size wrapping_body)) /\
  (forall fuel, chunk_loop fuel looping_body 0 [] = Timeout) /\
  decode_chunked_body throwing_body = Raise out_of_range.
Proof.
  split; [vm_compute; reflexivity|]. split; [|vm_compute; reflexivity].
  intros [|fuel]; [done|].
  rewrite (chunk_turn_loop fuel _ _ _ (str "A") 6) by (vm_compute; reflexivity).
  apply looping_body_diverges.
Qed.

(** ** The two readings of a header block agree *)

Definition line_list (tail : bytes) : list bytes := match tail with [] => [] | _ => [tail] end.

(** In a block without stray CR or LF, the lines of the request parser are the
    lines of the frame analysis with their CR. *)
Lemma header_lines_agree s : forall prev cur,
  prev <> Some CR -> header_chars_ok prev s = true ->
  fst <$> stream_lines_from LF cur s
  = ((fun l => l ++ [CR]) <$> (crlf_lines_from cur s).1) ++ line_list (crlf_lines_from cur s).2.
Proof.
  remember (length s) as n eqn:E. assert (L : (length s <= n)%nat) by lia. clear E.
  revert s L; induction n as [|n IH]; intros s L prev cur Hp Hok.
  { destruct s; [|cbn in L; lia]. by destruct cur. }
  destruct s as [|x s]; [by destruct cur|]. cbn [header_chars_ok] in Hok.
  apply andb_true_iff in Hok as [[[H1 H2]%andb_true_iff _]%andb_true_iff Hs].
  rewrite (bool_decide_false (prev = _)) in H1 by done. cbn [negb] in H1. rewrite andb_true_r in H1.
  apply negb_true_iff, bool_decide_eq_false in H1.
  destruct (decide (x = CR)) as [-> |Hx].
  - rewrite bool_decide_true in H2 by done. cbn [andb] in H2. rewrite negb_involutive in H2.
    apply bool_decide_eq_true in H2. destruct s as [|y s]; [done|]. injection H2 as ->.
    cbn [header_chars_ok] in Hs.
    apply andb_true_iff in Hs as [_ Hs]. specialize (IH s ltac:(cbn in L; lia) (Some LF) [] ltac:(done) Hs).
    cbn [stream_lines_from crlf_lines_from].
    rewrite decide_False by done. rewrite !decide_True by done.
    cbn [fmap list_fmap fst]. change (list_fmap _ _ fst ?l) with (fst <$> l). rewrite IH.
    by destruct (crlf_lines_from [] s).
  - specialize (IH s ltac:(cbn in L; lia) (Some x) (cur ++ [x]) ltac:(congruence) Hs).
    assert (C : crlf_lines_from cur (x :: s) = crlf_lines_from (cur ++ [x]) s).
    { destruct s as [|y s]; [done|]. cbn [crlf_lines_from]. by rewrite decide_False by naive_solver. }
    rewrite C, <- IH. cbn [stream_lines_from]. by rewrite decide_False.
Qed.

Lemma token_trimmed n : valid_header_name n = true -> n <> [] /\ trimmed n.
Proof.
  unfold valid_header_name. destruct n as [|c n]; [done|]. intros F. split; [done|].
  rewrite forallb_forall in F.
  assert (T : forall c, implb (token_char c) (negb (isspace c)) = true) by (intros x; by_byte x).
  split; intros x Hx; specialize (T x).
  - apply head_Some_elem_of in Hx. apply list_elem_of_In in Hx. rewrite F in T by done.
    by destruct (isspace x).
  - apply last_Some_elem_of in Hx. apply list_elem_of_In in Hx. rewrite F in T by done.
    by destruct (isspace x).
Qed.

(** A line the analysis accepts is stored by the parser as the same header. *)
Lemma header_line_agree l rest lines h nv :
  analyze_header_line l = Some nv ->
  parse_header_lines ((l ++ [CR], rest) :: lines) h = parse_header_lines lines (<[nv.1 := nv.2]> h).
Proof.
  unfold analyze_header_line. destruct l as [|c l]; [done|].
  destruct (_ || _); [done|]. destruct (find_byte (chr ":") (c :: l)) as [i|] eqn:F; [|done].
  destruct (valid_header_name (take i (c :: l))) eqn:V; [cbn [negb]|done].
  destruct (header_value_has_invalid_control _); [done|]. intros [= <-].
  apply token_trimmed in V as [V1 V2]. cbn [parse_header_lines fst snd].
  rewrite strip_cr_app, F, trimmed_trim by done.
  by destruct (take i (c :: l)).
Qed.

(** The framing headers seen by the analysis are those of the parser. *)
Definition framing_inv (cls tes : list bytes) (h : Headers) : Prop :=
  h !! str "content-length" = last cls /\ h !! str "transfer-encoding" = last tes.

Lemma header_block_agree ls tail lines cls tes h cls' tes' h' b :
  fst <$> lines = ((fun l => l ++ [CR]) <$> ls) ++ line_list tail ->
  framing_inv cls tes h ->
  analyze_header_lines ls tail cls tes = Some (cls', tes') ->
  parse_header_lines lines h = inl (h', b) ->
  framing_inv cls' tes' h'.
Proof.
  revert lines cls tes h; induction ls as [|l ls IH]; intros lines cls tes h El I.
  - cbn [analyze_header_lines]. case_bool_decide as T; [|done]. subst tail. intros [= <- <-].
    destruct lines; [|done]. by intros [= <- <-].
  - destruct lines as [|[l' rest] lines]; [done|]. cbn [fmap list_fmap fst app] in El.
    injection El as -> El. destruct l as [|c l].
    { cbn [analyze_header_lines]. intros [= <- <-]. cbn [parse_header_lines app].
      change (strip_cr [CR]) with (@nil byte). by intros [= <- <-]. }
    cbn [analyze_header_lines]. destruct (analyze_header_line (c :: l)) as [[n v]|] eqn:A; [|done].
    rewrite (header_line_agree _ _ _ _ _ A). cbn [fst snd]. destruct I as [I1 I2].
    destruct (decide (n = str "content-length")) as [-> |N1];
      [|destruct (decide (n = str "transfer-encoding")) as [-> |N2]]; apply IH; try done.
    + split; [by rewrite lookup_insert_eq, last_snoc|by rewrite lookup_insert_ne].
    + split; [by rewrite lookup_insert_ne|by rewrite lookup_insert_eq, last_snoc].
    + by split; rewrite lookup_insert_ne.
Qed.

Lemma analyze_frame_agree raw cls tes r :
  header_chars_ok None raw = true -> analyze_lines raw = Some (cls, tes) ->
  parse_request raw = Parsed r -> framing_inv cls tes (headers r).
Proof.
  intros Hok A. unfold parse_request. destruct raw as [|x raw']; [done|]. set (raw := x :: raw') in *.
  assert (Hn : None <> Some CR) by done.
  pose proof (header_lines_agree raw None [] Hn Hok) as E.
  unfold stream_lines. unfold analyze_lines, crlf_lines in A.
  destruct (stream_lines_from LF [] raw) as [|[l rest] lines]; [done|].
  destruct (words (strip_cr l)) as [|m [|t [|v [|? ?]]]] eqn:W; try done.
  destruct (supported_version v); [cbn [negb]|done].
  destruct (crlf_lines_from [] raw) as [[|l0 ls] tail]; cbn [fst snd fmap list_fmap app] in E.
  { destruct tail; [done|]. by rewrite bool_decide_false in A. }
  injection E as -> E. destruct l0 as [|c0 l0]; [by cbn in W|].
  destruct (parse_header_lines lines ∅) as [[h b]|[]] eqn:P; [|done]. intros [= <-].
  destruct (parse_target_fields (mk_request m t [] [] v h ∅ b (size b) None)) as (_ & _ & _ & -> & _).
  cbn [headers]. eapply (header_block_agree ls tail lines [] [] ∅); [done| |done|done].
  split; apply lookup_empty.
Qed.

Lemma analyze_framing_ok cls tes :
  let a := analyze_framing cls tes in
  ok a = true ->
  (length cls <= 1)%nat /\ (length tes <= 1)%nat /\
  (cls = [] -> content_length a = None) /\
  (forall v, last cls = Some v -> exists n, parse_decimal_size (trim v) = Some n /\ content_length a = Some n) /\
  (tes = [] -> chunked a = false) /\
  (forall v, last tes = Some v -> chunked a = true /\ cls = [] /\
     exists e, split_csv v = [e] /\ lowercase e = str "chunked").
Proof.
  unfold analyze_framing. destruct (Nat.ltb_spec 1 (length cls)); [done|].
  destruct cls as [|v0 [|? ?]]; [| |cbn in *; lia]; cbn [last].
  - destruct (Nat.ltb_spec 1 (length tes)); [done|].
    destruct tes as [|t0 [|? ?]]; [| |cbn in *; lia]; cbn [last].
    + intros _. cbn. split_and!; (done || lia).
    + destruct (split_csv t0) as [|e [|? ?]] eqn:S; [done| |done].
      case_bool_decide as C; [cbn [negb]|done]. rewrite bool_decide_false by (by intros []).
      intros _. cbn. split_and!; try (done || lia). intros v [= <-]. eauto.
  - destruct (parse_decimal_size (trim v0)) as [n|] eqn:D; [cbn [fmap option_fmap option_map]|done].
    destruct (Nat.ltb_spec 1 (length tes)); [done|].
    destruct tes as [|t0 [|? ?]]; [| |cbn in *; lia]; cbn [last].
    + intros _. cbn. split_and!; try (done || lia). intros v [= <-]. eauto.
    + destruct (split_csv t0) as [|e [|? ?]] eqn:S; [done| |done].
      case_bool_decide as C; [cbn [negb]|done]. by rewrite bool_decide_true by eauto.
Qed.

(** C1. No request smuggling between the two readers of a header block: when
    the frame analysis accepts a block that [parse_request] also accepts, the
    body framing it chose is the one the parsed request declares. The body is
    chunked exactly when the request has a Transfer-Encoding, which is then
    the single coding "chunked" and excludes a Content-Length; otherwise the
    length is the decimal value of the request's only Content-Length. *)
Theorem framing_agrees (raw : bytes) (r : Request) :
  let a := analyze_header_frame raw in
  ok a = true -> parse_request raw = Parsed r ->
  match header r (str "transfer-encoding") with
  | None => chunked a = false
  | Some v => chunked a = true /\ header r (str "content-length") = None /\
              exists e, split_csv v = [e] /\ lowercase e = str "chunked"
  end /\
  match header r (str "content-length") with
  | None => content_length a = None
  | Some v => exists n, parse_decimal_size v = Some n /\ content_length a = Some n
  end.
Proof.
  intros a Ha Hp. pose proof (parse_request_stored _ _ Hp) as St. subst a.
  unfold analyze_header_frame in *.
  destruct (header_chars_ok None raw) eqn:Hc; [cbn [negb] in *|done].
  destruct (analyze_lines raw) as [[cls tes]|] eqn:Hl; [|done].
  destruct (analyze_frame_agree raw cls tes r Hc Hl Hp) as [I1 I2].
  destruct (analyze_framing_ok cls tes Ha) as (L1 & L2 & C1 & C2 & T1 & T2).
  unfold header. change (lowercase (str "content-length")) with (str "content-length").
  change (lowercase (str "transfer-encoding")) with (str "transfer-encoding").
  rewrite I1, I2. split.
  - destruct (last tes) as [v|] eqn:E.
    + destruct (T2 v eq_refl) as (? & -> & ?). done.
    + apply last_None in E. auto.
  - destruct (last cls) as [v|] eqn:E.
    + destruct (C2 v eq_refl) as (n & D & ?). exists n.
      destruct (St _ _ I1) as [_ _ _ _ Tv _]. by rewrite trimmed_trim in D.
    + apply last_None in E. auto.
Qed.

Lemma framing_agrees_witness :
  let raw := str "POST / HTTP/1.1" ++ CRLF ++ str "Content-Length: 12" ++ CRLF2 in
  ok (analyze_header_frame raw) = true /\
  exists r, parse_request raw = Parsed r /\
  match header r (str "content-length") with
  | None => content_length (analyze_header_frame raw) = None
  | Some v => exists n, parse_decimal_size v = Some n /\ content_length (analyze_header_frame raw) = Some n
  end.
Proof.
  cbn zeta. assert (O : ok (analyze_header_frame (str "POST / HTTP/1.1" ++ CRLF ++ str "Content-Length: 12" ++ CRLF2)) = true)
    by (vm_compute; reflexivity).
  split; [exact O|]. destruct (parse_request _) as [r|e m] eqn:E; [|vm_compute in E; discriminate E].
  exists r. split; [reflexivity|]. exact (proj2 (framing_agrees _ _ O E)).
Defined.

(** ** The next frame of a buffer *)

Lemma no_wrap_infix a s b : no_wrap (a ++ s ++ b) -> no_wrap s.
Proof.
  intros [H1 H2]. rewrite !length_app in *. split; [lia|]. intros a' s' b' n -> C.
  specialize (H2 (a ++ a') s' (b' ++ b) n). rewrite !length_app in *.
  rewrite <- !app_assoc in H2. specialize (H2 eq_refl C). lia.
Qed.

Lemma no_wrap_drop k e : no_wrap e -> no_wrap (drop k e).
Proof. intros H. apply (no_wrap_infix (take k e) _ []). by rewrite app_nil_r, take_drop. Qed.

Lemma no_wrap_app_l e more : no_wrap (e ++ more) -> no_wrap e.
Proof. apply (no_wrap_infix []). Qed.

Lemma analyze_content_length raw n : content_length (analyze_header_frame raw) = Some n -> 0 <= n.
Proof.
  unfold analyze_header_frame. destruct (negb _); [done|].
  destruct (analyze_lines raw) as [[cls tes]|]; [|done]. unfold analyze_framing.
  destruct (_ <? _)%nat; [done|]. destruct cls as [|v cls]; cbn [fmap].
  - destruct (_ <? _)%nat; [done|]. destruct tes as [|t tes]; [done|].
    destruct (split_csv t) as [|? [|? ?]]; [done| |done]. by repeat case_match.
  - destruct (parse_decimal_size (trim v)) as [m|] eqn:D; [|done].
    apply parse_decimal_size_range in D.
    destruct (_ <? _)%nat; [done|]. destruct tes as [|t tes]; [cbn; intros [= <-]; lia|].
    destruct (split_csv t) as [|? [|? ?]]; [done| |done]. by repeat case_match.
Qed.

(** What a frame consumes lies inside the buffer, and a complete request is
    within the configured limit. *)
Definition frame_ok (buffered : bytes) (max : Z) (r : Http1FrameResult) : Prop :=
  0 <= consumed r <= size buffered /\
  (state r = complete -> 0 < consumed r <= max /\ is_Some (request r)) /\
  (state r = header_complete -> 0 < consumed r /\ is_Some (request r)).

Lemma next_frame_ok buffered max :
  no_wrap buffered -> exists r, next_http1_request_frame buffered max = Ret r /\ frame_ok buffered max r.
Proof.
  intros NW. unfold next_http1_request_frame.
  destruct (find CRLF2 buffered) as [h|] eqn:F.
  2: { destruct (_ <? _); eexists; (split; [done|]); split; cbn; (lia || done). }
  apply find_length in F. cbn [length] in F. set (bs := (h + 4)%nat) in *.
  assert (E : forall st m, exists r, Ret (error_frame st m (Z.of_nat bs) false) = Ret r /\ frame_ok buffered max r)
    by (intros; eexists; split; [done|]; split; cbn; (lia || done)).
  destruct (ok _); [cbn [negb]|apply E].
  destruct (Z.ltb_spec max (Z.of_nat bs)); [apply E|].
  destruct (parse_request _) as [req|]; [|apply E].
  destruct (chunked _).
  - unfold chunked_frame. rewrite Nat2Z.id.
    destruct (chunk_loop_total (S (length (drop bs buffered))) (drop bs buffered) 0 []) as (r & D & R & _);
      [by apply no_wrap_drop|lia|lia|].
    unfold decode_chunked_body. change 0 with (Z.of_nat 0). rewrite D. cbn [mbind outcome_bind].
    rewrite length_drop in R.
    destruct (chunk_state r); [destruct (max <? size buffered)|destruct (_ || _) eqn:TL|];
      try (eexists; split; [done|]; split; cbn; [lia|]; split; intros; done || split; (lia || eauto)).
    eexists. split; [done|]. split; [|by split]. cbn [consumed error_frame]. destruct (_ || _); lia.
  - unfold sized_frame. set (n := default 0 _).
    assert (Hn : 0 <= n).
    { unfold n. destruct (content_length (analyze_header_frame (take bs buffered))) as [c|] eqn:Cl; [cbn|done].
      by apply analyze_content_length in Cl. }
    destruct (Z.ltb_spec max n); [eexists; split; [done|]; split; cbn; (lia || done)|].
    destruct (Z.ltb_spec (max - n) (Z.of_nat bs)); [eexists; split; [done|]; split; cbn; (lia || done)|].
    cbn [orb]. destruct (Z.ltb_spec (size buffered) (Z.of_nat bs + n));
      (eexists; split; [done|]; split; cbn; [lia|]; split; intros; done || split; (lia || eauto)).
Qed.

Lemma decode_chunked_app e more r :
  no_wrap (e ++ more) -> decode_chunked_body e = Ret r -> chunk_state r = chunk_complete ->
  decode_chunked_body (e ++ more) = Ret r.
Proof.
  intros NW. unfold decode_chunked_body. change 0 with (Z.of_nat 0). intros D C.
  eapply chunk_loop_app; [by eapply no_wrap_app_l|done| |done|done]. rewrite length_app. lia.
Qed.

Lemma next_frame_app buffered more max r :
  no_wrap (buffered ++ more) ->
  next_http1_request_frame buffered max = Ret r -> state r = complete ->
  next_http1_request_frame (buffered ++ more) max = Ret r.
Proof.
  intros NW. unfold next_http1_request_frame.
  destruct (find CRLF2 buffered) as [h|] eqn:F; [|by case_match; intros [= <-]].
  rewrite (find_app_Some _ _ more _ F). apply find_length in F. cbn [length] in F.
  set (bs := (h + 4)%nat). rewrite (take_app_le buffered more bs) by lia.
  destruct (negb (ok _)); [by intros [= <-]|].
  destruct (max <? Z.of_nat bs); [by intros [= <-]|].
  destruct (parse_request _) as [req|]; [|by intros [= <-]].
  destruct (chunked _).
  - unfold chunked_frame. rewrite !Nat2Z.id, drop_app_le by lia.
    intros (d & D & E)%bind_Ret C.
    assert (NWd : no_wrap (drop bs buffered ++ more)).
    { apply (no_wrap_infix (take bs buffered) _ []). by rewrite app_nil_r, app_assoc, take_drop. }
    destruct (chunk_state d) eqn:St.
    + by case_match; injection E as <-.
    + rewrite (decode_chunked_app _ _ _ NWd D St). cbn [mbind outcome_bind]. rewrite St.
      cbn [orb] in E |- *. destruct (_ || _); [by injection E as <-|].
      by rewrite take_app_le by lia.
    + by injection E as <-.
  - unfold sized_frame. set (n := default 0 _). rewrite length_app.
    destruct (_ || _); [by intros [= <-]|].
    destruct (Z.ltb_spec (size buffered) (Z.of_nat bs + n)); [by intros [= <-]|].
    destruct (Z.ltb_spec (Z.of_nat (length buffered + length more)) (Z.of_nat bs + n)); [lia|].
    intros [= <-] _. by rewrite take_app_le by lia.
Qed.

(** [next_http1_request_frame] never diverges or throws on input whose
    chunk sizes do not wrap; what it consumes lies inside the buffer, a
    complete request fits [max_request_bytes] and consumes at least a byte;
    and pipelining is transparent: bytes that arrive after a complete request
    do not change the request that is cut out of the buffer. *)
Theorem next_frame_safe (buffered more : bytes) (max : Z) :
  no_wrap (buffered ++ more) ->
  exists r, next_http1_request_frame buffered max = Ret r /\ frame_ok buffered max r /\
  (state r = complete -> next_http1_request_frame (buffered ++ more) max = Ret r).
Proof.
  intros NW. destruct (next_frame_ok buffered max) as (r & E & O); [by eapply no_wrap_app_l|].
  exists r. split; [done|]. split; [done|]. by apply next_frame_app.
Qed.

(** Every part of a text without 15 adjacent hexadecimal digits is harmless. *)
Fixpoint hex_run_free (k : nat) (limit : nat) (s : bytes) : bool :=
  match s with
  | [] => true
  | c :: s' =>
      if bool_decide (is_Some (hex_digit c))
      then (S k <? limit)%nat && hex_run_free (S k) limit s'
      else hex_run_free 0 limit s'
  end.

Lemma hex_run_infix limit a s b k :
  hex_run_free k limit (a ++ s ++ b) = true -> Forall (fun c => is_Some (hex_digit c)) s ->
  s = [] \/ (length s < limit)%nat.
Proof.
  intros H F. assert (G : exists k', hex_run_free k' limit (s ++ b) = true).
  { revert k H; induction a as [|c a IH]; intros k H; [by exists k|]. cbn [app hex_run_free] in H.
    case_bool_decide; [apply andb_true_iff in H as [_ H]|]; by apply IH in H. }
  clear H a k. destruct G as [k H]. cut (s = [] \/ (k + length s < limit)%nat); [intros [? | ?]; [by left|right; lia]|].
  revert k H; induction F as [|c s Hc _ IH]; intros k H; [by left|right].
  cbn [app hex_run_free] in H. rewrite bool_decide_true in H by done.
  apply andb_true_iff in H as [H1%Nat.ltb_lt H2]. destruct (IH _ H2) as [-> | ?]; cbn; lia.
Qed.

Lemma numeral_all_digits (digit : byte -> option Z) base acc s n :
  numeral digit base acc s = Some n -> Forall (fun c => is_Some (digit c)) s.
Proof.
  revert acc; induction s as [|c s IH]; intros acc; cbn [numeral]; [by constructor|].
  destruct (digit c) as [d|] eqn:D; [|done]. cbn. intros H. constructor; [by rewrite D|by eapply IH].
Qed.

Lemma no_wrap_hex_runs e : size e < 2 ^ 62 -> hex_run_free 0 15 e = true -> no_wrap e.
Proof.
  intros Hs H. split; [lia|]. intros a s b n -> C. unfold chunk_size_of in C.
  set (t := match find_byte (chr ";") s with Some i => take i s | None => s end) in C.
  assert (It : exists u v, s = u ++ trim t ++ v).
  { destruct (trim_infix t) as (u & v & E). unfold t in E |- *. destruct (find_byte _ s) as [i|].
    - exists u, (v ++ drop i s). rewrite (app_assoc (trim _)), (app_assoc u), <- E. by rewrite take_drop.
    - by exists u, v. }
  destruct It as (u & v & Es). apply parse_hex_size_spec in C as (Hn & N & _).
  pose proof (numeral_all_digits _ _ _ _ _ N) as F.
  rewrite Es in H. replace (a ++ (u ++ trim t ++ v) ++ b) with ((a ++ u) ++ trim t ++ (v ++ b)) in H
    by (by rewrite <- !app_assoc).
  apply hex_run_infix in H as [?|L]; [done| |done].
  apply numeral_hex_bound in N; [|lia].
  assert (16 ^ size (trim t) <= 16 ^ 15) by (apply Z.pow_le_mono_r; lia). lia.
Qed.

Lemma next_frame_safe_witness :
  let b := str "GET /a HTTP/1.1" ++ CRLF2 in
  exists r, next_http1_request_frame b 65536 = Ret r /\ state r = complete /\ consumed r = size b /\
  next_http1_request_frame (b ++ str "GET /b HTTP/1.1") 65536 = Ret r.
Proof.
  cbn zeta. destruct (next_frame_safe (str "GET /a HTTP/1.1" ++ CRLF2) (str "GET /b HTTP/1.1") 65536)
    as (r & E & _ & P); [apply no_wrap_hex_runs; vm_compute; reflexivity|].
  exists r. assert (E' := E).
  assert (S : match next_http1_request_frame (str "GET /a HTTP/1.1" ++ CRLF2) 65536 with
    | Ret r => (match state r with complete => true | _ => false end) && (consumed r =? 19)
    | _ => false end = true) by (vm_compute; reflexivity).
  rewrite E in S. apply andb_true_iff in S as [S1 S2%Z.eqb_eq].
  assert (C : state r = complete) by (destruct (state r); (reflexivity || discriminate S1)).
  exact (conj E (conj C (conj S2 (P C)))).
Defined.
