(* ===== verification/Response.v ===== *)
(** * Response: building and serializing HTTP/1 responses

    Models the response half of [src/src/http/response.cpp]: reason phrases,
    the two serializers with their default, framing and server headers, the
    chunked encoder, and JSON escaping.  Files and ranges are in
    StaticFiles.  The iteration order of [std::unordered_map] is unspecified,
    so the serializers are proved against the interface [MapOrder]. *)

From S2P Require Import Prelude Text Numbers Request Http1Frame.

(** ** Responses *)

Record Response : Type := mk_response {
  status : Z;
  reason : bytes;
  headers : Headers;
  body : bytes;
}.

Record SerializationOptions : Type := mk_options {
  server_header_enabled : bool;
  server_name : bytes;
  default_headers : Headers;
}.

Definition default_options : SerializationOptions := mk_options true (str "Rimau Web Server") ∅.

Definition reason_phrase (status : Z) : bytes :=
  str match status with
      | 101 => "Switching Protocols"
      | 200 => "OK"
      | 204 => "No Content"
      | 206 => "Partial Content"
      | 400 => "Bad Request"
      | 403 => "Forbidden"
      | 404 => "Not Found"
      | 405 => "Method Not Allowed"
      | 408 => "Request Timeout"
      | 414 => "URI Too Long"
      | 416 => "Range Not Satisfiable"
      | 429 => "Too Many Requests"
      | 431 => "Request Header Fields Too Large"
      | 413 => "Content Too Large"
      | 500 => "Internal Server Error"
      | 501 => "Not Implemented"
      | 503 => "Service Unavailable"
      | _ => "Unknown"
      end%string.

Definition is_valid_header_name (name : bytes) : bool := valid_header_name name.

(** Line ends become spaces, other control characters but TAB disappear. *)
Definition sanitize_char (ch : byte) : bytes :=
  if bool_decide (ch = CR) || bool_decide (ch = LF) then [SP]
  else if bool_decide (ch = TAB) || (32 <=? val ch) then [ch]
  else [].

Definition sanitize_header_value (value : bytes) : bytes := value ≫= sanitize_char.

Section serialize.
Context `{MapOrder bytes}.

Definition add_default (h : Headers) (nv : bytes * bytes) : Headers :=
  if bool_decide (is_Some (h !! nv.1)) then h else <[nv.1 := nv.2]> h.

(** The headers that are sent. *)
Definition final_headers (r : Response) (options : SerializationOptions) : Headers :=
  let h := if negb (status r =? 101)
           then fold_left add_default (order (default_headers options)) (headers r)
           else headers r in
  let h := if negb (status r =? 101) && negb (status r =? 204)
              && negb (bool_decide (is_Some (h !! str "transfer-encoding")))
           then <[str "content-length" := to_string (size (body r))]> h else h in
  let h := if negb (bool_decide (is_Some (h !! str "connection")))
           then <[str "connection" := str "close"]> h else h in
  if server_header_enabled options
  then <[str "server" := if bool_decide (server_name options = []) then str "Rimau Web Server"
                         else server_name options]> h
  else delete (str "server") h.

Definition header_line (nv : bytes * bytes) : bytes :=
  nv.1 ++ str ": " ++ sanitize_header_value nv.2.

Definition status_line (r : Response) : bytes :=
  str "HTTP/1.1 " ++ to_string (status r) ++ str " " ++ reason r.

(** The loop over the headers skips invalid names. *)
Definition print_headers (h : Headers) : bytes :=
  order h ≫= fun nv => if is_valid_header_name nv.1 then header_line nv ++ CRLF else [].

Definition to_http_string (r : Response) (include_body : bool) (options : SerializationOptions)
    : bytes :=
  status_line r ++ CRLF ++ print_headers (final_headers r options) ++ CRLF
  ++ (if include_body then body r else []).

Definition encode_chunk_data (chunk : bytes) : bytes :=
  match chunk with
  | [] => []
  | _ => to_hex (size chunk) ++ CRLF ++ chunk ++ CRLF
  end.

Definition encode_chunked_body (chunks : list bytes) : bytes :=
  (chunks ≫= encode_chunk_data) ++ str "0" ++ CRLF2.

Definition to_http_chunked_string (r : Response) (chunks : list bytes) (include_body : bool)
    (options : SerializationOptions) : bytes :=
  if include_body && (200 <=? status r) && negb (status r =? 204) && negb (status r =? 304)
     && negb (status r =? 101)
  then
    to_http_string
      (mk_response (status r) (reason r)
         (<[str "transfer-encoding" := str "chunked"]> (delete (str "content-length") (headers r)))
         (encode_chunked_body chunks)) true options
  else
    to_http_string
      (mk_response (status r) (reason r) (delete (str "transfer-encoding") (headers r)) [])
      false options.
End serialize.

Definition text_response (status : Z) (body content_type : bytes) : Response :=
  mk_response status (reason_phrase status) {[str "content-type" := content_type]} body.

Definition text_plain : bytes := str "text/plain; charset=utf-8".

Definition json_response (status : Z) (json_body : bytes) : Response :=
  text_response status json_body (str "application/json; charset=utf-8").

(** ** JSON *)

Definition quote : byte := Byte.x22.
Definition backslash : byte := Byte.x5c.

Definition json_escape_char (ch : byte) : bytes :=
  if decide (ch = quote) then [backslash; quote]
  else if decide (ch = backslash) then [backslash; backslash]
  else if decide (ch = Byte.x08) then [backslash; chr "b"]
  else if decide (ch = Byte.x0c) then [backslash; chr "f"]
  else if decide (ch = LF) then [backslash; chr "n"]
  else if decide (ch = CR) then [backslash; chr "r"]
  else if decide (ch = TAB) then [backslash; chr "t"]
  else if val ch <? 32 then
    [backslash; chr "u"; chr "0"; chr "0";
     digit_char (Z.land (val ch ≫ 4) 0x0f); digit_char (Z.land (val ch) 0x0f)]
  else [ch].

Definition json_escape (value : bytes) : bytes := value ≫= json_escape_char.

(** ** The headers that are sent *)

Section headers.
Context `{MapOrder bytes}.

Lemma add_defaults_lookup l h n :
  NoDup l.*1 -> fold_left add_default l h !! n = match h !! n with
                                                  | Some v => Some v
                                                  | None => (list_to_map l : Headers) !! n
                                                  end.
Proof.
  revert h; induction l as [|[k v] l IH]; intros h ND; cbn [fold_left].
  { rewrite list_to_map_nil, lookup_empty. by destruct (h !! n). }
  apply NoDup_cons in ND as [N ND]. rewrite IH by done. unfold add_default. cbn [fst snd].
  case_bool_decide as S.
  - destruct (h !! n) eqn:E; [done|]. rewrite list_to_map_cons, lookup_insert_ne; [done|].
    intros ->. rewrite E in S. by destruct S.
  - rewrite list_to_map_cons. destruct (decide (k = n)) as [-> |Hne].
    + rewrite !lookup_insert_eq. destruct (h !! n) eqn:E; [|done]. by destruct S.
    + by rewrite !lookup_insert_ne.
Qed.

(** The order in which the defaults are added does not matter. *)
Lemma add_defaults_union d h : fold_left add_default (order d) h = h ∪ d.
Proof.
  apply map_eq. intros n. rewrite add_defaults_lookup by apply order_NoDup.
  rewrite lookup_union, (list_to_map_proper (M := gmap bytes) (order d) (map_to_list d))
    by (apply order_NoDup || apply order_perm).
  rewrite list_to_map_to_list. by destruct (h !! n), (d !! n).
Qed.

Definition own_and_default (r : Response) (o : SerializationOptions) : Headers :=
  if status r =? 101 then headers r else headers r ∪ default_headers o.

Lemma final_headers_lookup (r : Response) (o : SerializationOptions) (n : bytes) :
  let h := own_and_default r o in
  final_headers r o !! n =
  if decide (n = str "server") then
    (if server_header_enabled o
     then Some (if bool_decide (server_name o = []) then str "Rimau Web Server" else server_name o)
     else None)
  else if decide (n = str "connection") then Some (default (str "close") (h !! n))
  else if decide (n = str "content-length" /\ status r <> 101 /\ status r <> 204
                  /\ h !! str "transfer-encoding" = None)
  then Some (to_string (size (body r)))
  else h !! n.
Proof.
  intros h. unfold final_headers. rewrite add_defaults_union.
  replace (if negb (status r =? 101) then headers r ∪ default_headers o else headers r) with h
    by (unfold h, own_and_default; by destruct (status r =? 101)).
  set (h1 := if _ && _ then _ else h).
  assert (E1 : forall n, h1 !! n = if decide (n = str "content-length" /\ status r <> 101 /\ status r <> 204
                  /\ h !! str "transfer-encoding" = None) then Some (to_string (size (body r))) else h !! n).
  { intros m. unfold h1. destruct (Z.eqb_spec (status r) 101), (Z.eqb_spec (status r) 204); cbn [negb andb];
      try (rewrite decide_False by naive_solver; done).
    case_bool_decide as T; cbn [negb].
    - rewrite decide_False; [done|]. intros (_ & _ & _ & E). rewrite E in T. by destruct T.
    - destruct (decide (m = str "content-length")) as [-> |].
      + rewrite lookup_insert_eq, decide_True; [done|]. split_and!; try done.
        destruct (h !! str "transfer-encoding") eqn:E; [|done]. by destruct T.
      + rewrite lookup_insert_ne, decide_False by naive_solver. done. }
  clearbody h1. set (h2 := if negb _ then _ else h1).
  assert (E2 : forall n, h2 !! n = if decide (n = str "connection") then Some (default (str "close") (h1 !! n))
                                   else h1 !! n).
  { intros m. unfold h2. case_bool_decide as T; cbn [negb];
      destruct (decide (m = str "connection")) as [-> |D]; try done.
    - destruct T as [v ->]. done.
    - rewrite lookup_insert_eq. destruct (h1 !! str "connection"); [by destruct T|done].
    - by rewrite lookup_insert_ne. }
  clearbody h2. destruct (decide (n = str "server")) as [-> |Hs].
  - destruct (server_header_enabled o); [apply lookup_insert_eq|apply lookup_delete_eq].
  - destruct (server_header_enabled o); [rewrite lookup_insert_ne by done|rewrite lookup_delete_ne by done];
      rewrite E2, E1; (destruct (decide (n = str "connection")) as [-> |]; [|done]);
      rewrite decide_False by (by intros [? _]); done.
Qed.

(** The headers that a response is sent with: its own headers take
    precedence over the configured defaults, which are dropped for 101; the
    length of the body is announced exactly when the status allows a body and
    no transfer coding is set, whatever length the response carried before;
    the connection is closed unless the response says otherwise; and the
    server header follows the configuration. *)
Theorem final_headers_spec (r : Response) (o : SerializationOptions) (n : bytes) :
  let h := own_and_default r o in
  final_headers r o !! n =
  if decide (n = str "server") then
    (if server_header_enabled o
     then Some (if bool_decide (server_name o = []) then str "Rimau Web Server" else server_name o)
     else None)
  else if decide (n = str "connection") then Some (default (str "close") (h !! n))
  else if decide (n = str "content-length" /\ status r <> 101 /\ status r <> 204
                  /\ h !! str "transfer-encoding" = None)
  then Some (to_string (size (body r)))
  else h !! n.
Proof. apply final_headers_lookup. Qed.

(** ** The header block *)

Lemma sanitize_not_CR v : CR ∉ sanitize_header_value v.
Proof.
  unfold sanitize_header_value. intros (c & Hc & _)%list_elem_of_bind. revert Hc. apply (bool_decide_unpack (CR ∉ _)).
  assert (C : forall c, bool_decide (CR ∉ sanitize_char c) = true) by (intros x; by_byte x).
  rewrite C. done.
Qed.

Lemma token_not_CR n : valid_header_name n = true -> CR ∉ n.
Proof.
  unfold valid_header_name. destruct n as [|c n]; [done|]. rewrite forallb_forall.
  intros F Hin%list_elem_of_In%F. done.
Qed.

Lemma to_string_not_CR z : CR ∉ to_string z.
Proof.
  unfold to_string. assert (P : forall n, 0 <= n -> CR ∉ print_base 10 n).
  { intros n Hn H1. pose proof (to_string_alnum n Hn) as A. unfold to_string in A.
    destruct (Z.ltb_spec n 0); [lia|]. rewrite Forall_forall in A. by apply A in H1. }
  destruct (Z.ltb_spec z 0); [|apply P; lia]. intros [?|H1]%elem_of_cons; [done|]. revert H1. apply P. lia.
Qed.

Lemma print_headers_unlines h :
  print_headers h = unlines (header_line <$> filter (fun nv => is_valid_header_name nv.1 = true) (order h)).
Proof.
  unfold print_headers. induction (order h) as [|nv l IH]; [done|].
  rewrite filter_cons. cbn [mbind list_bind].
  destruct (is_valid_header_name nv.1); [rewrite decide_True by done|rewrite decide_False by done].
  - cbn [fmap list_fmap]. rewrite unlines_cons, <- IH, <- app_assoc. done.
  - exact IH.
Qed.

Lemma header_line_ok nv :
  is_valid_header_name nv.1 = true -> CR ∉ header_line nv /\ header_line nv <> [].
Proof.
  intros V. unfold header_line. split.
  - rewrite !not_elem_of_app. split; [by apply token_not_CR|]. split; [|apply sanitize_not_CR].
    vm_compute. set_solver.
  - destruct nv as [[|] ?]; done.
Qed.

(** C24. Header injection is impossible: for any headers, names and values
    included, a client that looks for the blank line finds exactly one line
    per header with a valid name - with line breaks in its value turned into
    spaces - after the status line, and the body is what follows. *)
Theorem response_header_block (r : Response) (include_body : bool) (o : SerializationOptions) :
  CR ∉ reason r ->
  let out := to_http_string r include_body o in
  let sent := filter (fun nv => is_valid_header_name nv.1 = true) (order (final_headers r o)) in
  exists i, find CRLF2 out = Some i /\
  crlf_lines (take (i + 2) out) = (status_line r :: (header_line <$> sent), []) /\
  drop (i + 4) out = if include_body then body r else [].
Proof.
  intros Hr out sent. set (b := if include_body then body r else []).
  set (ls := status_line r :: (header_line <$> sent)).
  assert (F : Forall (fun l => CR ∉ l /\ l <> []) ls).
  { constructor.
    - unfold status_line. rewrite !not_elem_of_app. split; [|done].
      split; [vm_compute; set_solver|]. split; [apply to_string_not_CR|]. split; [vm_compute; set_solver|done].
    - apply Forall_fmap, Forall_forall. intros nv [V _]%list_elem_of_filter. by apply header_line_ok. }
  assert (O : out = unlines ls ++ CRLF ++ b).
  { unfold out, to_http_string. rewrite print_headers_unlines. fold sent. unfold ls.
    by rewrite unlines_cons, <- !app_assoc. }
  destruct (exists_last (l := ls)) as (ls' & l & E); [done|].
  assert (U : unlines ls = (unlines ls' ++ l) ++ CRLF).
  { rewrite E, unlines_app, unlines_cons. cbn [unlines mbind list_bind]. by rewrite app_nil_r, app_assoc. }
  assert (O2 : out = unlines ls' ++ l ++ CRLF2 ++ b) by (rewrite O, U, <- !app_assoc; done).
  exists (length (unlines ls' ++ l)). split; [|split].
  - rewrite O2. apply find_CRLF2_unlines. by rewrite <- E.
  - assert (L : (length (unlines ls' ++ l) + 2)%nat = length (unlines ls)) by (rewrite U, (length_app _ CRLF); done).
    rewrite L, O, take_app_length. rewrite <- (app_nil_r (unlines ls)), crlf_lines_unlines.
    + cbn. by rewrite app_nil_r.
    + eapply Forall_impl; [exact F|]. by intros ? [? _].
  - rewrite O2. replace (length (unlines ls' ++ l) + 4)%nat with (length ((unlines ls' ++ l) ++ CRLF2))
      by (rewrite (length_app _ CRLF2); done).
    rewrite (app_assoc (unlines ls')), (app_assoc _ CRLF2). apply drop_app_length.
Qed.
End headers.

Lemma response_header_block_witness :
  let r := mk_response 200 (str "OK") {[str "x-a" := str "1" ++ CRLF ++ str "x-evil: 2"]} (str "body") in
  exists i, find CRLF2 (to_http_string r true default_options) = Some i /\
  drop (i + 4) (to_http_string r true default_options) = str "body".
Proof.
  cbn zeta. destruct (response_header_block
    (mk_response 200 (str "OK") {[str "x-a" := str "1" ++ CRLF ++ str "x-evil: 2"]} (str "body"))
    true default_options) as (i & F & _ & D); [vm_compute; set_solver|].
  exists i. exact (conj F D).
Defined.

(** ** Chunked responses *)

(** The server's encoder writes the plain form of the encoding. *)
Lemma encode_chunked_body_eq chunks :
  encode_chunked_body chunks = encode_chunked (pair [] <$> filter (fun c => c <> []) chunks) [].
Proof.
  unfold encode_chunked_body, encode_chunked. cbn [mbind list_bind app]. f_equal.
  induction chunks as [|c chunks IH]; [done|]. rewrite filter_cons.
  cbn [mbind list_bind]. destruct c as [|x c].
  - rewrite decide_False by (by intros []). exact IH.
  - rewrite decide_True by done. cbn [fmap list_fmap mbind list_bind]. f_equal; [|exact IH].
    unfold encode_chunk. cbn [fst snd]. by rewrite app_nil_r.
Qed.

Lemma concat_nonempty (chunks : list bytes) :
  ((pair (@nil byte) <$> filter (fun c => c <> []) chunks) ≫= snd) = concat chunks.
Proof.
  induction chunks as [|c chunks IH]; [done|]. rewrite filter_cons. destruct c as [|x c].
  - rewrite decide_False by (by intros []). exact IH.
  - rewrite decide_True by done. cbn [fmap list_fmap mbind list_bind concat snd]. by f_equal.
Qed.

Lemma decode_encode_chunked_body chunks rest :
  size (encode_chunked_body chunks ++ rest) < 2 ^ 63 ->
  decode_chunked_body (encode_chunked_body chunks ++ rest)
  = Ret (mk_chunked chunk_complete (concat chunks) (size (encode_chunked_body chunks))).
Proof.
  rewrite encode_chunked_body_eq, <- concat_nonempty. intros Hs.
  set (cs := pair [] <$> filter (fun c => c <> []) chunks) in *.
  assert (F : Forall wf_chunk cs).
  { apply Forall_fmap, Forall_forall. intros c [Hc _]%list_elem_of_filter.
    split; [done|]. split; [apply not_elem_of_nil|by left]. }
  unfold decode_chunked_body.
  pose proof (chunk_loop_encoded (S (length (encode_chunked cs [] ++ rest))) [] cs [] rest [] F
    (List.Forall_nil _)) as C. cbn zeta in C. cbn [app length] in C. apply C; [done|lia].
Qed.

(** A chunked response decodes to what the handler produced: when the
    status allows a body, what follows the header block is the chunked coding
    of the chunks - read back to their concatenation by the decoder of the
    server itself - and the headers announce the coding and no length. *)
Theorem chunked_response_roundtrip `{MapOrder bytes} (r : Response) (chunks : list bytes)
    (o : SerializationOptions) :
  CR ∉ reason r -> 200 <= status r -> status r <> 204 -> status r <> 304 ->
  default_headers o !! str "content-length" = None ->
  size (encode_chunked_body chunks) < 2 ^ 63 ->
  let out := to_http_chunked_string r chunks true o in
  exists i sent, find CRLF2 out = Some i /\
  crlf_lines (take (i + 2) out) = (status_line r :: (header_line <$> sent), []) /\
  (str "transfer-encoding", str "chunked") ∈ sent /\ str "content-length" ∉ sent.*1 /\
  decode_chunked_body (drop (i + 4) out)
  = Ret (mk_chunked chunk_complete (concat chunks) (size (encode_chunked_body chunks))).
Proof.
  intros Hr Hs H204 H304 Hd Hsz out.
  set (r' := mk_response (status r) (reason r)
    (<[str "transfer-encoding" := str "chunked"]> (delete (str "content-length") (headers r)))
    (encode_chunked_body chunks)).
  assert (O : out = to_http_string r' true o).
  { unfold out, to_http_chunked_string.
    replace (200 <=? status r) with true by lia. replace (status r =? 204) with false by lia.
    replace (status r =? 304) with false by lia. by replace (status r =? 101) with false by lia. }
  set (sent := filter (fun nv => is_valid_header_name nv.1 = true) (order (final_headers r' o))).
  assert (B : exists i, find CRLF2 out = Some i /\
    crlf_lines (take (i + 2) out) = (status_line r' :: (header_line <$> sent), []) /\
    drop (i + 4) out = encode_chunked_body chunks) by (rewrite O; by apply (response_header_block r' true o)).
  destruct B as (i & Fi & Ci & Di). exists i, sent. split; [done|]. split; [exact Ci|].
  assert (Te : own_and_default r' o !! str "transfer-encoding" = Some (str "chunked")).
  { unfold own_and_default, r'. cbn [status headers]. replace (status r =? 101) with false by lia.
    by apply lookup_union_Some_l, lookup_insert_eq. }
  assert (Cl : own_and_default r' o !! str "content-length" = None).
  { unfold own_and_default, r'. cbn [status headers]. replace (status r =? 101) with false by lia.
    rewrite lookup_union, Hd, lookup_insert_ne, lookup_delete_eq by done. done. }
  pose proof (fun n => final_headers_lookup r' o n) as FS. split; [|split].
  - apply list_elem_of_filter. split; [by vm_compute|]. apply order_lookup.
    rewrite FS, !decide_False; [done|by intros [? _]|done|done].
  - intros ((n & v) & E & [_ I]%list_elem_of_filter)%list_elem_of_fmap. cbn in E. subst n.
    apply order_lookup in I. rewrite FS, !decide_False in I; [congruence| |done|done].
    intros (_ & _ & _ & T). congruence.
  - rewrite Di, <- (app_nil_r (encode_chunked_body chunks)). rewrite decode_encode_chunked_body.
    + by rewrite app_nil_r.
    + by rewrite app_nil_r.
Qed.

Lemma chunked_response_roundtrip_witness :
  let out := to_http_chunked_string (text_response 200 [] text_plain) [str "hello"; []; str "world"] true
               default_options in
  exists i sent, find CRLF2 out = Some i /\
  crlf_lines (take (i + 2) out)
    = (status_line (text_response 200 [] text_plain) :: (header_line <$> sent), []) /\
  (str "transfer-encoding", str "chunked") ∈ sent /\ str "content-length" ∉ sent.*1 /\
  decode_chunked_body (drop (i + 4) out)
  = Ret (mk_chunked chunk_complete (str "helloworld") 25).
Proof.
  apply (chunked_response_roundtrip (text_response 200 [] text_plain) [str "hello"; []; str "world"]
    default_options); [vm_compute; set_solver|vm_compute; discriminate|discriminate|discriminate
    |reflexivity|vm_compute; reflexivity].
Defined.

(** ** JSON strings *)

(** A reader of the rest of a JSON string: the characters up to the closing
    quote, and what follows it. *)
Fixpoint json_string (s : bytes) : option (bytes * bytes) :=
  match s with
  | [] => None
  | c :: s1 =>
      if decide (c = quote) then Some ([], s1)
      else if decide (c = backslash) then
        match s1 with
        | e :: s2 =>
            if decide (e = chr "u") then
              match s2 with
              | h1 :: h2 :: h3 :: h4 :: s3 =>
                  match hex_digit h1, hex_digit h2, hex_digit h3, hex_digit h4 with
                  | Some 0, Some 0, Some a, Some b =>
                      '(v, rest) ← json_string s3; mret (u8 (a * 16 + b) :: v, rest)
                  | _, _, _, _ => None
                  end
              | _ => None
              end
            else
              '(v, rest) ← json_string s2;
              if decide (e = quote) then mret (quote :: v, rest)
              else if decide (e = backslash) then mret (backslash :: v, rest)
              else if decide (e = chr "b") then mret (Byte.x08 :: v, rest)
              else if decide (e = chr "f") then mret (Byte.x0c :: v, rest)
              else if decide (e = chr "n") then mret (LF :: v, rest)
              else if decide (e = chr "r") then mret (CR :: v, rest)
              else if decide (e = chr "t") then mret (TAB :: v, rest)
              else None
        | [] => None
        end
      else if val c <? 32 then None
      else '(v, rest) ← json_string s1; mret (c :: v, rest)
  end.

Lemma json_escape_char_read c s v rest :
  json_string s = Some (v, rest) -> json_string (json_escape_char c ++ s) = Some (c :: v, rest).
Proof.
  intros E. unfold json_escape_char.
  destruct (decide (c = quote)) as [-> |N1]; [cbn; by rewrite E|].
  destruct (decide (c = backslash)) as [-> |N2]; [cbn; by rewrite E|].
  destruct (decide (c = Byte.x08)) as [-> |]; [cbn; by rewrite E|].
  destruct (decide (c = Byte.x0c)) as [-> |]; [cbn; by rewrite E|].
  destruct (decide (c = LF)) as [-> |]; [cbn; by rewrite E|].
  destruct (decide (c = CR)) as [-> |]; [cbn; by rewrite E|].
  destruct (decide (c = TAB)) as [-> |]; [cbn; by rewrite E|].
  destruct (Z.ltb_spec (val c) 32).
  - pose proof (val_range c). rewrite Z.shiftr_div_pow2, !(land_mask 4) by lia.
    change (2 ^ 4) with 16. pose proof (Z.mod_pos_bound (val c / 16) 16 ltac:(lia)).
    pose proof (Z.mod_pos_bound (val c) 16 ltac:(lia)).
    cbn [app json_string]. rewrite decide_False, decide_True by done.
    rewrite decide_True by done. rewrite !hex_digit_print by lia. change (hex_digit (chr "0")) with (Some 0).
    cbn match. rewrite E. cbn. do 3 f_equal.
    rewrite <- (u8_val c) at 3. f_equal. rewrite Z.mod_small.
    + pose proof (Z.div_mod (val c) 16). lia.
    + split; [apply Z.div_pos; lia|]. apply Z.div_lt_upper_bound; lia.
  - cbn [app json_string]. rewrite !decide_False by done.
    destruct (Z.ltb_spec (val c) 32); [lia|]. by rewrite E.
Qed.

Lemma json_string_escape (value rest : bytes) :
  json_string (json_escape value ++ quote :: rest) = Some (value, rest).
Proof.
  induction value as [|c value IH]; [done|].
  change (json_escape (c :: value)) with (json_escape_char c ++ json_escape value).
  rewrite <- app_assoc. by apply json_escape_char_read.
Qed.

(** JSON escaping is safe and loses nothing: inside quotes, the escaped
    value is one JSON string - no byte of it closes the string early or is a
    raw control character - and a JSON reader gets the original bytes back. *)
Theorem json_escape_roundtrip (value rest : bytes) :
  json_string (json_escape value ++ quote :: rest) = Some (value, rest).
Proof. apply json_string_escape. Qed.
