(* ===== verification/StaticFiles.v ===== *)
(** * StaticFiles: serving files, ranges and error pages

    Models the file half of [src/src/http/response.cpp]: media types, the
    Range header, entity tags, multipart bodies, custom error pages and
    [file_response].  The file system, the formatting of dates and zlib are
    parameters; [std::filesystem::path] is modelled by its elements. *)

From S2P Require Import Prelude Text Numbers Request Http1Frame Response.

(** ** Paths

    The elements a path iterates over, the root directory aside; a trailing
    separator is an empty last element. *)

Record path : Type := mk_path {
  absolute : bool;
  elements : list bytes;
}.

#[export] Instance path_eq_dec : EqDecision path.
Proof. solve_decision. Defined.

Definition slash : byte := chr "/".
Definition dot : bytes := str ".".
Definition dot_dot : bytes := str "..".

Definition path_of (s : bytes) : path :=
  let names := filter (fun e => e <> []) (split_byte slash s) in
  mk_path (bool_decide (head s = Some slash))
    (names ++ (if bool_decide (last s = Some slash) && negb (bool_decide (names = [])) then [[]] else [])).

Definition path_empty (p : path) : bool := negb (absolute p) && bool_decide (elements p = []).

(** [begin() .. end()] *)
Definition iterate (p : path) : list bytes :=
  (if absolute p then [[slash]] else []) ++ elements p.

Definition drop_trailing (l : list bytes) : list bytes :=
  match reverse l with
  | [] :: l' => reverse l'
  | _ => l
  end.

(** [a / b] *)
Definition path_append (a b : path) : path :=
  if absolute b then b
  else mk_path (absolute a)
         (drop_trailing (elements a)
          ++ match elements b, elements a with
             | [], [] => []
             | [], _ => [[]]
             | l, _ => l
             end).

(** [lexically_normal]: [stack] holds the normalized elements, last first. *)
Fixpoint normalize (abs : bool) (stack l : list bytes) : list bytes :=
  let trailing := match stack with
                  | [] => []
                  | top :: _ => if decide (top = dot_dot) then [] else [[]]
                  end in
  match l with
  | [] => reverse stack
  | e :: l' =>
      if decide (e = []) then reverse stack ++ trailing
      else if decide (e = dot) then
        match l' with [] => reverse stack ++ trailing | _ => normalize abs stack l' end
      else if decide (e = dot_dot) then
        match stack with
        | top :: below =>
            if decide (top = dot_dot) then normalize abs (e :: stack) l'
            else match l', below with
                 | [], second :: _ =>
                     reverse below ++ (if decide (second = dot_dot) then [] else [[]])
                 | _, _ => normalize abs below l'
                 end
        | [] => if abs then normalize abs [] l' else normalize abs [e] l'
        end
      else normalize abs (e :: stack) l'
  end.

Definition lexically_normal (p : path) : path :=
  if path_empty p then p
  else
    match absolute p, normalize (absolute p) [] (elements p) with
    | false, [] => mk_path false [dot]
    | a, l => mk_path a l
    end.

(** [extension()]: from the last dot of the file name, unless it starts it. *)
Definition path_extension (p : path) : bytes :=
  match last (elements p) with
  | None => []
  | Some name =>
      if decide (name = dot \/ name = dot_dot) then []
      else match rfind_byte (chr ".") name with
           | None | Some 0%nat => []
           | Some i => drop i name
           end
  end.

Definition starts_with_path (child parent : path) : bool :=
  bool_decide (take (length (iterate parent)) (iterate child) = iterate parent).

(** ** Media types *)

Definition media_types : list (list string * string) :=
  [([".html"; ".htm"], "text/html; charset=utf-8");
   ([".css"], "text/css; charset=utf-8");
   ([".js"], "application/javascript; charset=utf-8");
   ([".json"], "application/json; charset=utf-8");
   ([".txt"], "text/plain; charset=utf-8");
   ([".xml"], "application/xml; charset=utf-8");
   ([".wasm"], "application/wasm");
   ([".png"], "image/png");
   ([".jpg"; ".jpeg"], "image/jpeg");
   ([".svg"], "image/svg+xml");
   ([".gif"], "image/gif");
   ([".webp"], "image/webp");
   ([".ico"], "image/x-icon");
   ([".mp4"; ".m4v"], "video/mp4");
   ([".webm"], "video/webm");
   ([".mov"], "video/quicktime");
   ([".pdf"], "application/pdf")]%string.

Definition mime_type (p : path) : bytes :=
  let extension := lowercase (path_extension p) in
  match List.find (fun e => existsb (fun x => bool_decide (extension = str x)) (fst e)) media_types with
  | Some (_, t) => str t
  | None => str "application/octet-stream"
  end.

Definition header_has_token (r : Request) (header_name token : bytes) : bool :=
  match header r header_name with
  | None => false
  | Some h =>
      existsb (fun item => bool_decide (lowercase (trim item) = lowercase token))
        (getlines (chr ",") h)
  end.

Definition is_compressible (content_type : bytes) : bool :=
  starts_with content_type (str "text/")
  || contains content_type (str "json") || contains content_type (str "javascript")
  || contains content_type (str "xml") || contains content_type (str "wasm").

(** ** Ranges *)

Record ByteRange : Type := mk_range {
  start : Z;
  range_end : Z;
}.

Record RangeSelection : Type := mk_selection {
  requested : bool;
  malformed : bool;
  ranges : list ByteRange;
}.

(** [None] is [false]. *)
Definition parse_uint (value : bytes) : option Z := parse_decimal_size value.

(** The bounds a range asks for, before they are cut to the file. *)
Definition range_bounds (spec : bytes) (dash : nat) (file_size : Z) : option (Z * Z) :=
  let first := take dash spec in
  let last := drop (S dash) spec in
  match first with
  | [] =>
      suffix_length ← parse_uint last;
      if suffix_length =? 0 then None
      else Some (if file_size <=? suffix_length then 0 else file_size - suffix_length,
                 u64 (file_size - 1))
  | _ =>
      s ← parse_uint first;
      match last with
      | [] => Some (s, u64 (file_size - 1))
      | _ => e ← parse_uint last; Some (s, e)
      end
  end.

Definition parse_range_spec (spec : bytes) (file_size : Z) : option ByteRange :=
  dash ← find_byte (chr "-") spec;
  '(s, e) ← range_bounds spec dash file_size;
  if (file_size <=? s) || (e <? s) then Some (mk_range 1 0)
  else Some (mk_range s (if file_size <=? e then u64 (file_size - 1) else e)).

Definition max_ranges : nat := 16.

(** The loop over the comma-separated items. *)
Fixpoint parse_range_items (items : list bytes) (file_size : Z) (rs : list ByteRange)
    : RangeSelection :=
  match items with
  | [] => mk_selection true false rs
  | item :: items' =>
      let item := trim item in
      if bool_decide (item = []) || (max_ranges <=? length rs)%nat then mk_selection true true rs
      else
        match parse_range_spec item file_size with
        | None => mk_selection true true rs
        | Some parsed =>
            parse_range_items items' file_size
              (if start parsed <=? range_end parsed then rs ++ [parsed] else rs)
        end
  end.

Definition parse_range (r : Request) (file_size : Z) : RangeSelection :=
  match header r (str "range") with
  | None => mk_selection false false []
  | Some range =>
      match find_byte (chr "=") range with
      | None => mk_selection true true []
      | Some equals =>
          if negb (bool_decide (lowercase (trim (take equals range)) = str "bytes"))
             || (file_size =? 0)
          then mk_selection true true []
          else parse_range_items (split_byte (chr ",") (drop (S equals) range)) file_size []
      end
  end.

Definition entity_tag (file_size file_time : Z) : bytes :=
  [quote] ++ to_hex file_size ++ str "-" ++ to_hex file_time ++ [quote].

Definition if_range_allows_range (r : Request) (etag last_modified : bytes) : bool :=
  match header r (str "if-range") with
  | None => true
  | Some if_range =>
      let value := trim if_range in
      if bool_decide (value = []) || starts_with value (str "W/") then false
      else if bool_decide (head value = Some quote) then bool_decide (value = etag)
      else bool_decide (value = last_modified)
  end.

Definition multipart_boundary (file_size file_time : Z) : bytes :=
  str "rimau-" ++ to_hex file_size ++ str "-" ++ to_hex file_time.

Definition valid_directory_index (value : bytes) : bool :=
  negb (bool_decide (value = [])) && negb (bool_decide (value = dot))
  && negb (bool_decide (value = dot_dot)) && negb (bool_decide (slash ∈ value))
  && negb (bool_decide (backslash ∈ value)) && negb (contains_control_character value).

(** ** The file system *)

(** The calls of [std::filesystem] and [std::ifstream]; [None] is an error. *)
Record FileSystem : Type := mk_fs {
  weakly_canonical : path -> option path;
  is_directory : path -> bool;
  fs_exists : path -> bool;
  is_regular_file : path -> bool;
  fs_file_size : path -> option Z;
  last_write_time : path -> option Z;
  content : path -> option bytes;
}.

Record StaticFileOptions : Type := mk_static_options {
  directory_index : bytes;
  error_page : bytes;
}.

Section files.
Context (fs : FileSystem) (http_date : Z -> bytes) (gzip_compress : bytes -> bytes).

Definition read_file_range (p : path) (from len : Z) : bytes :=
  match content fs p with
  | None => []
  | Some c => take (Z.to_nat (Z.min len (size c))) (drop (Z.to_nat (Z.min from (size c))) c)
  end.

Definition multipart_part (p : path) (file_size : Z) (content_type boundary : bytes)
    (r : ByteRange) : bytes :=
  str "--" ++ boundary ++ CRLF ++ str "Content-Type: " ++ content_type ++ CRLF
  ++ str "Content-Range: bytes " ++ to_string (start r) ++ str "-" ++ to_string (range_end r)
  ++ str "/" ++ to_string file_size ++ CRLF ++ CRLF
  ++ read_file_range p (start r) (range_end r - start r + 1) ++ CRLF.

Definition multipart_range_body (p : path) (rs : list ByteRange) (file_size : Z)
    (content_type boundary : bytes) : bytes :=
  (rs ≫= multipart_part p file_size content_type boundary) ++ str "--" ++ boundary ++ str "--" ++ CRLF.

Definition apply_custom_error_page (response : Response) (root : path)
    (options : StaticFileOptions) : Response :=
  let error_page := path_of (error_page options) in
  if (status response <? 400) || path_empty error_page then response
  else
    let raw_page := if absolute error_page then error_page else path_append root error_page in
    let page := default (lexically_normal raw_page) (weakly_canonical fs raw_page) in
    if negb (starts_with_path page root) || negb (is_regular_file fs page) then response
    else
      match fs_file_size fs page with
      | None => response
      | Some page_size =>
          mk_response (status response) (reason response)
            (delete (str "vary") (delete (str "content-range") (delete (str "content-encoding")
              (<[str "content-type" := mime_type page]> (headers response)))))
            (read_file_range page 0 page_size)
      end.

(** The response once the file is known. *)
Definition serve_file (r : Request) (candidate : path) (file_size : Z) : Response :=
  let modified_time := last_write_time fs candidate in
  let last_modified := match modified_time with Some t => http_date t | None => [] end in
  let etag := match modified_time with Some t => entity_tag file_size t | None => [] end in
  let content_type := mime_type candidate in
  let h : Headers := <[str "accept-ranges" := str "bytes"]> {[str "content-type" := content_type]} in
  let h := if bool_decide (etag = []) then h else <[str "etag" := etag]> h in
  let h := if bool_decide (last_modified = []) then h
           else <[str "last-modified" := last_modified]> h in
  let range := parse_range r file_size in
  let honor_range := requested range && negb (bool_decide (etag = []))
                     && if_range_allows_range r etag last_modified in
  if honor_range && (malformed range || bool_decide (ranges range = [])) then
    mk_response 416 (reason_phrase 416)
      (<[str "content-range" := str "bytes */" ++ to_string file_size]> h)
      (str "Range Not Satisfiable" ++ [LF])
  else
    match honor_range, ranges range with
    | true, [selected] =>
        mk_response 206 (reason_phrase 206)
          (<[str "content-range" := str "bytes " ++ to_string (start selected) ++ str "-"
               ++ to_string (range_end selected) ++ str "/" ++ to_string file_size]> h)
          (read_file_range candidate (start selected) (range_end selected - start selected + 1))
    | true, rs =>
        let boundary := multipart_boundary file_size (default 0 modified_time) in
        mk_response 206 (reason_phrase 206)
          (<[str "content-type" := str "multipart/byteranges; boundary=" ++ boundary]> h)
          (multipart_range_body candidate rs file_size content_type boundary)
    | false, _ =>
        let b := read_file_range candidate 0 file_size in
        let compressed := gzip_compress b in
        if (256 <? size b) && header_has_token r (str "accept-encoding") (str "gzip")
           && is_compressible content_type
           && negb (bool_decide (compressed = [])) && (size compressed <? size b)
        then mk_response 200 (reason_phrase 200)
               (<[str "vary" := str "Accept-Encoding"]> (<[str "content-encoding" := str "gzip"]> h))
               compressed
        else mk_response 200 (reason_phrase 200) h b
    end.

Definition line_body (s : string) : bytes := str s ++ [LF].

(** The target path, decoded a first time by the parser. *)
Definition percent_decode_path (value : bytes) : bytes := percent_decode value false.

(** [target.erase(target.find_first_of("?#"))] *)
Definition strip_query (t : bytes) : bytes := take (path_end t) t.

Definition request_target (r : Request) : bytes :=
  if bool_decide (Request.path r = []) then percent_decode_path (strip_query (target r))
  else Request.path r.

(** The file a target names, or the response that refuses it. *)
Definition resolve_file (t : bytes) (root : path) (options : StaticFileOptions)
    : path + Response :=
  let index := path_of (directory_index options) in
  let relative := lexically_normal (path_of (drop 1 t)) in
  let relative := if path_empty relative || bool_decide (relative = mk_path false [dot])
                  then index else relative in
  let joined := path_append root relative in
  let candidate := default (lexically_normal joined) (weakly_canonical fs joined) in
  let forbidden := text_response 403 (line_body "Forbidden") text_plain in
  if negb (starts_with_path candidate root) then inr forbidden
  else
    let checked :=
      if is_directory fs candidate then
        let c := path_append candidate index in
        let c := default (lexically_normal (mk_path false [])) (weakly_canonical fs c) in
        if negb (starts_with_path c root) then inr forbidden else inl c
      else inl candidate in
    match checked with
    | inr response => inr response
    | inl candidate =>
        if negb (fs_exists fs candidate) then
          inr (apply_custom_error_page (text_response 404 (line_body "Not Found") text_plain) root options)
        else if negb (is_regular_file fs candidate) then
          inr (apply_custom_error_page forbidden root options)
        else inl candidate
    end.

Definition file_response (r : Request) (document_root : path) (options : StaticFileOptions)
    : Response :=
  if negb (bool_decide (method r = str "GET")) && negb (bool_decide (method r = str "HEAD")) then
    let response := text_response 405 (line_body "Method Not Allowed") text_plain in
    mk_response (status response) (reason response)
      (<[str "allow" := str "GET, HEAD"]> (headers response)) (body response)
  else
    let t := request_target r in
    if bool_decide (t = []) || negb (bool_decide (head t = Some slash))
       || bool_decide (Byte.x00 ∈ t)
    then text_response 400 (line_body "Bad Request") text_plain
    else if 4096 <? size t then text_response 414 (line_body "URI Too Long") text_plain
    else
      match weakly_canonical fs document_root with
      | None => text_response 500 (line_body "Document root is not available") text_plain
      | Some root =>
          if negb (valid_directory_index (directory_index options)) then
            apply_custom_error_page
              (text_response 500 (line_body "Directory index config is invalid") text_plain) root options
          else
            match resolve_file t root options with
            | inr response => response
            | inl candidate =>
                match fs_file_size fs candidate with
                | None => apply_custom_error_page
                            (text_response 403 (line_body "Forbidden") text_plain) root options
                | Some file_size => serve_file r candidate file_size
                end
            end
      end.
End files.

(** ** Ranges are inside the file *)

Definition range_ok (file_size : Z) (r : ByteRange) : Prop :=
  0 <= start r <= range_end r /\ range_end r < file_size.

Lemma parse_uint_range v n : parse_uint v = Some n -> 0 <= n <= size_max.
Proof. apply parse_decimal_size_range. Qed.

Lemma range_bounds_start spec dash file_size s e :
  0 < file_size <= size_max -> range_bounds spec dash file_size = Some (s, e) -> 0 <= s.
Proof.
  intros Hf. unfold range_bounds. destruct (take dash spec) as [|c f].
  - destruct (parse_uint _) as [n|] eqn:P; [|done]. apply parse_uint_range in P. cbn.
    destruct (n =? 0); [done|]. intros [= <- _]. destruct (Z.leb_spec file_size n); lia.
  - destruct (parse_uint (c :: f)) as [n|] eqn:P; [|done]. apply parse_uint_range in P. cbn.
    destruct (drop _ _); [intros [= <- _]; lia|]. destruct (parse_uint _); [|done]. intros [= <- _]; lia.
Qed.

Lemma parse_range_spec_ok spec file_size r :
  0 < file_size <= size_max -> parse_range_spec spec file_size = Some r ->
  r = mk_range 1 0 \/ range_ok file_size r.
Proof.
  intros Hf. unfold parse_range_spec. destruct (find_byte (chr "-") spec) as [dash|]; [|done]. cbn.
  destruct (range_bounds spec dash file_size) as [[s e]|] eqn:B; [|done]. cbn.
  apply range_bounds_start in B; [|done].
  destruct (Z.leb_spec file_size s); [by intros [= <-]; left|].
  destruct (Z.ltb_spec e s); [by intros [= <-]; left|]. cbn [orb]. intros [= <-]. right.
  unfold range_ok. cbn. unfold size_max in Hf. rewrite wrap_small by lia.
  destruct (Z.leb_spec file_size e); lia.
Qed.

Lemma parse_range_items_ok items file_size rs :
  0 < file_size <= size_max -> Forall (range_ok file_size) rs -> (length rs <= max_ranges)%nat ->
  Forall (range_ok file_size) (ranges (parse_range_items items file_size rs)) /\
  (length (ranges (parse_range_items items file_size rs)) <= max_ranges)%nat.
Proof.
  intros Hf. revert rs; induction items as [|item items IH]; intros rs Hr Hl; cbn [parse_range_items];
    [done|].
  case_bool_decide; [done|]. cbn [orb]. destruct (Nat.leb_spec max_ranges (length rs)); [done|].
  destruct (parse_range_spec (trim item) file_size) as [p|] eqn:P; [|done].
  apply parse_range_spec_ok in P; [|done]. apply IH.
  - destruct (Z.leb_spec (start p) (range_end p)); [|done]. apply Forall_app. split; [done|].
    apply Forall_singleton. destruct P as [-> |?]; [cbn in *; lia|done].
  - destruct (start p <=? range_end p); [|lia]. rewrite length_app. cbn. lia.
Qed.

Lemma parse_range_inside_lemma (r : Request) (file_size : Z) :
  0 <= file_size <= size_max ->
  let sel := parse_range r file_size in
  Forall (range_ok file_size) (ranges sel) /\ (length (ranges sel) <= max_ranges)%nat.
Proof.
  intros Hf sel. subst sel. unfold parse_range.
  assert (N : Forall (range_ok file_size) [] /\ (length (@nil ByteRange) <= max_ranges)%nat)
    by (split; [constructor|cbn; lia]).
  destruct (header r (str "range")) as [h|]; [|done].
  destruct (find_byte (chr "=") h) as [i|]; [|done]. destruct (negb _); [done|].
  destruct (Z.eqb_spec file_size 0); [done|]. apply parse_range_items_ok; [lia|apply N|apply N].
Qed.

(** The Range header can only select bytes of the file: whatever it says,
    [parse_range] returns at most sixteen ranges, and every one satisfies
    [start <= end < file_size], so that no read goes outside the file and no
    length [end - start + 1] wraps. *)
Theorem parse_range_inside (r : Request) (file_size : Z) :
  0 <= file_size <= size_max ->
  let sel := parse_range r file_size in
  Forall (range_ok file_size) (ranges sel) /\ (length (ranges sel) <= max_ranges)%nat.
Proof. apply parse_range_inside_lemma. Qed.

Definition range_request (h : string) : Request :=
  mk_request (str "GET") (str "/f") (str "/f") [] (str "HTTP/1.1") {[str "range" := str h]} ∅ [] 0 None.

Lemma parse_range_inside_witness :
  let sel := parse_range (range_request "bytes=0-1, -5, 900-") 1000 in
  ranges sel = [mk_range 0 1; mk_range 995 999; mk_range 900 999] /\
  Forall (range_ok 1000) (ranges sel) /\ (length (ranges sel) <= max_ranges)%nat.
Proof.
  split; [vm_compute; reflexivity|].
  apply (parse_range_inside (range_request "bytes=0-1, -5, 900-") 1000).
  unfold size_max. split; [lia|vm_compute; discriminate].
Defined.

(** ** Which bytes a range names *)

(** The three forms of a byte range. *)
Inductive range_form : Type :=
| FromTo (a b : Z)
| From (a : Z)
| Suffix (n : Z).

Definition print_range (f : range_form) : bytes :=
  match f with
  | FromTo a b => to_string a ++ str "-" ++ to_string b
  | From a => to_string a ++ str "-"
  | Suffix n => str "-" ++ to_string n
  end.

Definition wf_form (f : range_form) : Prop :=
  match f with
  | FromTo a b => 0 <= a <= b /\ b <= size_max
  | From a => 0 <= a <= size_max
  | Suffix n => 0 < n <= size_max
  end.

(** The bytes of the file that RFC 9110 selects, [None] if there are none. *)
Definition selected (f : range_form) (file_size : Z) : option (Z * Z) :=
  match f with
  | FromTo a b => if a <? file_size then Some (a, Z.min b (file_size - 1)) else None
  | From a => if a <? file_size then Some (a, file_size - 1) else None
  | Suffix n => Some (Z.max 0 (file_size - n), file_size - 1)
  end.

Lemma to_string_no_dash n : 0 <= n -> chr "-" ∉ to_string n.
Proof. intros H. by apply (alnum_not_elem _ (chr "-") (to_string_alnum n H)). Qed.

Lemma print_range_dash f :
  wf_form f -> find_byte (chr "-") (print_range f)
  = Some (match f with FromTo a _ | From a => length (to_string a) | Suffix _ => 0%nat end).
Proof.
  destruct f as [a b|a|n]; cbn [wf_form print_range]; intros H.
  - apply find_byte_app, to_string_no_dash. lia.
  - apply find_byte_app, to_string_no_dash. lia.
  - done.
Qed.

(** A single range is cut as RFC 9110 says: a printed [a-b], [a-] or [-n]
    selects the bytes from [a] to [b], from [a] on, or the last [n], cut to
    the file, and is dropped as unsatisfiable (the empty range 1..0) exactly
    when it names no byte of the file. *)
Theorem parse_range_spec_correct (f : range_form) (file_size : Z) :
  wf_form f -> 0 < file_size <= size_max ->
  parse_range_spec (print_range f) file_size
  = Some (match selected f file_size with
          | Some (s, e) => mk_range s e
          | None => mk_range 1 0
          end).
Proof.
  intros W Hf. unfold parse_range_spec. rewrite print_range_dash by done. cbn [mbind option_bind].
  assert (P : forall n, 0 <= n <= size_max -> parse_uint (to_string n) = Some n)
    by apply parse_decimal_to_string.
  assert (U : u64 (file_size - 1) = file_size - 1) by (apply wrap_small; unfold size_max in *; lia).
  unfold range_bounds. destruct f as [a b|a|n]; cbn [wf_form print_range selected] in *.
  - change (str "-" ++ to_string b) with (chr "-" :: to_string b).
    rewrite take_app_length, drop_app_cons.
    destruct (to_string a) as [|c s] eqn:Ea; [by apply to_string_nonempty in Ea|]. rewrite <- Ea, (P a) by lia.
    cbn [mbind option_bind].
    destruct (to_string b) as [|c' s'] eqn:Eb; [by apply to_string_nonempty in Eb|]. rewrite <- Eb, (P b) by lia.
    cbn [mbind option_bind]. rewrite U.
    destruct (Z.leb_spec file_size a), (Z.ltb_spec a file_size), (Z.ltb_spec b a); try lia; [done|].
    cbn [orb]. do 2 f_equal. destruct (Z.leb_spec file_size b); lia.
  - change (str "-") with [chr "-"]. rewrite take_app_length, drop_app_cons.
    destruct (to_string a) as [|c s] eqn:Ea; [by apply to_string_nonempty in Ea|]. rewrite <- Ea, (P a) by lia.
    cbn [mbind option_bind]. rewrite U.
    destruct (Z.leb_spec file_size a), (Z.ltb_spec a file_size); try lia; [done|].
    destruct (Z.ltb_spec (file_size - 1) a); [lia|].
    cbn [orb]. do 2 f_equal. destruct (Z.leb_spec file_size (file_size - 1)); lia.
  - change (str "-" ++ to_string n) with (chr "-" :: to_string n). cbn [take drop]. rewrite drop_0, (P n) by lia. cbn [mbind option_bind]. destruct (Z.eqb_spec n 0); [lia|]. rewrite U.
    cbn [mbind option_bind].
    replace (if file_size <=? n then 0 else file_size - n) with (Z.max 0 (file_size - n))
      by (destruct (Z.leb_spec file_size n); lia).
    destruct (Z.leb_spec file_size (Z.max 0 (file_size - n))); [lia|].
    destruct (Z.ltb_spec (file_size - 1) (Z.max 0 (file_size - n))); [lia|]. cbn [orb]. do 2 f_equal.
    destruct (Z.leb_spec file_size (file_size - 1)); lia.
Qed.

Lemma parse_range_spec_correct_witness :
  parse_range_spec (print_range (FromTo 5 100000)) 1000 = Some (mk_range 5 999).
Proof.
  apply (parse_range_spec_correct (FromTo 5 100000) 1000); unfold size_max; cbn; repeat split;
    (lia || (vm_compute; discriminate)).
Defined.

(** ** Only files under the document root are served *)

(** Two file systems with the same names and links that agree on what is
    under [root], and may differ arbitrarily outside it. *)
Record agree_under (root : path) (a b : FileSystem) : Prop := {
  agree_names : forall p, weakly_canonical a p = weakly_canonical b p;
  agree_inside : forall p, starts_with_path p root = true ->
    is_directory a p = is_directory b p /\ fs_exists a p = fs_exists b p /\
    is_regular_file a p = is_regular_file b p /\ fs_file_size a p = fs_file_size b p /\
    last_write_time a p = last_write_time b p /\ content a p = content b p;
}.

Section confinement.
Context (http_date : Z -> bytes) (gzip_compress : bytes -> bytes).

Lemma read_file_agree root a b p from len :
  agree_under root a b -> starts_with_path p root = true ->
  read_file_range a p from len = read_file_range b p from len.
Proof using.
  intros [_ H] Hp. unfold read_file_range. destruct (H p Hp) as (_ & _ & _ & _ & _ & ->). done.
Qed.

Lemma error_page_agree root a b r options :
  agree_under root a b ->
  apply_custom_error_page a r root options = apply_custom_error_page b r root options.
Proof using.
  intros H. pose proof H as [Hn Hi]. unfold apply_custom_error_page.
  destruct (_ || _); [done|]. rewrite Hn. set (page := default _ _).
  destruct (starts_with_path page root) eqn:S; cbn [negb orb]; [|done].
  destruct (Hi page S) as (_ & _ & -> & -> & _). destruct (negb _); [done|].
  destruct (fs_file_size b page); [|done]. by rewrite (read_file_agree root a b).
Qed.

Lemma resolve_file_agree root a b t options :
  agree_under root a b -> resolve_file a t root options = resolve_file b t root options.
Proof using.
  intros H. pose proof H as [Hn Hi]. unfold resolve_file. rewrite !Hn.
  set (candidate := default _ _).
  destruct (starts_with_path candidate root) eqn:S; cbn [negb]; [|done].
  destruct (Hi candidate S) as (-> & E1 & E2 & _). destruct (is_directory b candidate).
  - set (c := default _ _).
    destruct (starts_with_path c root) eqn:Sc; cbn [negb]; [|done].
    destruct (Hi c Sc) as (_ & -> & -> & _). rewrite !(error_page_agree root a b) by done. done.
  - rewrite E1, E2, !(error_page_agree root a b) by done. done.
Qed.

(** The file that is served is under the root. *)
Lemma resolve_file_inside a t root options candidate :
  resolve_file a t root options = inl candidate ->
  starts_with_path candidate root = true /\ is_regular_file a candidate = true.
Proof using.
  unfold resolve_file. set (c1 := default _ _).
  destruct (starts_with_path c1 root) eqn:S; cbn [negb]; [|done].
  destruct (is_directory a c1).
  - set (c2 := default _ _). destruct (starts_with_path c2 root) eqn:S2; cbn [negb]; [|done].
    destruct (fs_exists a c2); [|done]. cbn [negb].
    destruct (is_regular_file a c2) eqn:R; [|done]. cbn [negb]. by intros [= <-].
  - destruct (fs_exists a c1); [|done]. cbn [negb].
    destruct (is_regular_file a c1) eqn:R; [|done]. cbn [negb]. by intros [= <-].
Qed.

Lemma serve_file_agree root a b r p n :
  agree_under root a b -> starts_with_path p root = true ->
  serve_file a http_date gzip_compress r p n = serve_file b http_date gzip_compress r p n.
Proof using.
  intros H Hp. pose proof H as [_ Hi]. destruct (Hi p Hp) as (_ & _ & _ & _ & T & C).
  unfold serve_file, multipart_range_body, multipart_part. rewrite T.
  assert (R : read_file_range a p = read_file_range b p) by (unfold read_file_range; by rewrite C).
  by rewrite R.
Qed.

(** C21. Confinement to the document root: the response to a request depends on
    nothing outside the canonical root. However the target is encoded -
    dot segments, percent escapes, absolute names, links - two file systems
    that agree on the files under the root, on how names resolve, and differ
    arbitrarily elsewhere give byte-identical responses, error pages
    included. *)
Theorem file_response_confined (a b : FileSystem) (r : Request) (document_root root : path)
    (options : StaticFileOptions) :
  weakly_canonical a document_root = Some root -> agree_under root a b ->
  file_response a http_date gzip_compress r document_root options
  = file_response b http_date gzip_compress r document_root options.
Proof using.
  intros Hr H. unfold file_response. destruct (_ && _); [done|]. destruct (_ || _); [done|].
  destruct (4096 <? _); [done|]. rewrite <- (agree_names root a b H), Hr.
  destruct (negb _); [by apply error_page_agree|].
  rewrite (resolve_file_agree root a b) by done.
  destruct (resolve_file b _ root options) as [c|resp] eqn:R; [|done].
  apply resolve_file_inside in R as [S _].
  pose proof (agree_inside root a b H c S) as (_ & _ & _ & -> & _).
  destruct (fs_file_size b c); [by apply (serve_file_agree root)|by apply error_page_agree].
Qed.
End confinement.

(** A file system that holds one file under /srv, and a secret elsewhere. *)
Definition example_fs (secret : bytes) : FileSystem :=
  let root := path_of (str "/srv") in
  let file := path_of (str "/srv/index.html") in
  let other := path_of (str "/etc/passwd") in
  mk_fs (fun p => Some (lexically_normal p))
        (fun p => bool_decide (p = root))
        (fun p => bool_decide (p = root \/ p = file \/ p = other))
        (fun p => bool_decide (p = file \/ p = other))
        (fun p => if decide (p = file) then Some 5 else if decide (p = other) then Some (size secret) else None)
        (fun p => Some 77)
        (fun p => if decide (p = file) then Some (str "hello") else if decide (p = other) then Some secret else None).

Lemma example_fs_agree s1 s2 : agree_under (path_of (str "/srv")) (example_fs s1) (example_fs s2).
Proof.
  split; [done|]. intros p Hp.
  assert (N : p <> path_of (str "/etc/passwd")) by (intros ->; vm_compute in Hp; discriminate).
  cbn. rewrite !(decide_False (P := p = path_of (str "/etc/passwd"))) by done. done.
Qed.

Lemma file_response_confined_witness :
  let r := mk_request (str "GET") [] (str "/a/../../etc/passwd") [] (str "HTTP/1.1") ∅ ∅ [] 0 None in
  let o := mk_static_options (str "index.html") [] in
  file_response (example_fs (str "root")) (fun _ => str "date") (fun b => b) r (path_of (str "/srv")) o
  = file_response (example_fs (str "other secret")) (fun _ => str "date") (fun b => b) r
      (path_of (str "/srv")) o.
Proof.
  apply (file_response_confined (fun _ => str "date") (fun b => b) (example_fs (str "root"))
    (example_fs (str "other secret")) _ _ (path_of (str "/srv"))); [reflexivity|].
  apply example_fs_agree.
Defined.

(** Sanity: what this file system serves. *)
Definition example_get (target : string) (range : Headers) : Response :=
  file_response (example_fs (str "secret")) (fun _ => str "date") (fun b => b)
    (mk_request (str "GET") [] (str target) [] (str "HTTP/1.1") range ∅ [] 0 None)
    (path_of (str "/srv")) (mk_static_options (str "index.html") []).

Example example_index : status (example_get "/" ∅) = 200 /\ body (example_get "/" ∅) = str "hello".
Proof. vm_compute. done. Qed.

Example example_traversal : status (example_get "/../etc/passwd" ∅) = 403.
Proof. vm_compute. done. Qed.

Example example_range :
  let r := example_get "/index.html" {[str "range" := str "bytes=1-3"]} in
  status r = 206 /\ body r = str "ell".
Proof. vm_compute. done. Qed.

(** ** What is served *)

Section serving.
Context (fs : FileSystem) (http_date : Z -> bytes) (gzip_compress : bytes -> bytes).

Lemma read_file_range_content p c from len :
  content fs p = Some c -> 0 <= from -> 0 <= len -> from + len <= size c ->
  read_file_range fs p from len = substr c (Z.to_nat from) (Z.to_nat len) /\
  size (read_file_range fs p from len) = len.
Proof using.
  intros C H1 H2 H3. unfold read_file_range. rewrite C, !Z.min_l by lia. fold (substr c (Z.to_nat from) (Z.to_nat len)).
  split; [done|]. rewrite length_substr. lia.
Qed.

(** The body matches the status: a file of content [c] is answered with
    200 and [c] itself, or its gzip coding labelled as such; with 206 and, for
    a single range, exactly the bytes the Content-Range header announces,
    [end - start + 1] of them; with 206 and the multipart form of at least two
    ranges; or with 416 and no byte of the file. *)
Theorem serve_file_correct (r : Request) (p : path) (c : bytes) :
  content fs p = Some c -> size c <= size_max ->
  let n := size c in
  let resp := serve_file fs http_date gzip_compress r p n in
  let sel := ranges (parse_range r n) in
  (status resp = 200 /\
     (body resp = c \/ (body resp = gzip_compress c /\
                        headers resp !! str "content-encoding" = Some (str "gzip")))) \/
  (status resp = 206 /\ exists s e, sel = [mk_range s e] /\ 0 <= s <= e /\ e < n /\
     body resp = substr c (Z.to_nat s) (Z.to_nat (e - s + 1)) /\ size (body resp) = e - s + 1 /\
     headers resp !! str "content-range"
     = Some (str "bytes " ++ to_string s ++ str "-" ++ to_string e ++ str "/" ++ to_string n)) \/
  (status resp = 206 /\ (2 <= length sel)%nat /\ Forall (range_ok n) sel /\
     exists boundary, body resp = multipart_range_body fs p sel n (mime_type p) boundary) \/
  (status resp = 416 /\ body resp = line_body "Range Not Satisfiable").
Proof using.
  intros C Hc n resp sel.
  destruct (parse_range_inside_lemma r n ltac:(lia)) as [F _]. fold sel in F.
  assert (W : read_file_range fs p 0 n = c).
  { destruct (read_file_range_content p c 0 n C) as [-> _]; [lia|lia|lia|].
    unfold substr, n. rewrite Nat2Z.id. apply take_ge. done. }
  subst resp. unfold serve_file. rewrite W.
  set (honor := requested _ && _ && _). clearbody honor. fold sel.
  destruct honor; cbn [andb].
  - destruct (malformed (parse_range r n) || bool_decide (sel = [])) eqn:M; [by repeat right|].
    apply orb_false_iff in M as [_ M%bool_decide_eq_false].
    destruct sel as [|[s e] [|r2 rs]] eqn:E; [done| |].
    + right; left. apply Forall_cons_1 in F as [[F1 F2] _]. cbn [start range_end] in *.
      destruct (read_file_range_content p c s (e - s + 1) C) as [B1 B2]; [lia|lia|unfold n in *; lia|].
      cbn [status body headers]. split; [done|]. exists s, e. rewrite B2, <- B1.
      split_and!; try (done || lia). by rewrite lookup_insert_eq.
    + right; right; left. cbn [status body]. split_and!; [done|cbn; lia|done|]. by eexists.
  - left. match goal with |- context [if ?b then _ else _] => destruct b end.
    + cbn [status body headers]. split; [done|]. right. split; [done|].
      by rewrite lookup_insert_ne, lookup_insert_eq.
    + cbn [status body]. split; [done|]. by left.
Qed.
End serving.

Lemma serve_file_correct_witness :
  let resp := serve_file (example_fs []) (fun _ => str "date") (fun b => b) (range_request "bytes=1-3")
                (path_of (str "/srv/index.html")) 5 in
  status resp = 206 /\ size (body resp) = 3.
Proof.
  cbn zeta.
  destruct (serve_file_correct (example_fs []) (fun _ => str "date") (fun b => b)
    (range_request "bytes=1-3") (path_of (str "/srv/index.html")) (str "hello") eq_refl)
    as [[S _]|[(S & s & e & Es & _ & _ & _ & Sz & _)|[(S & L & _)|[S _]]]].
  - unfold size_max. vm_compute. discriminate.
  - exfalso. vm_compute in S. discriminate S.
  - split; [exact S|].
    assert (R : ranges (parse_range (range_request "bytes=1-3") 5) = [mk_range 1 3]) by (vm_compute; reflexivity).
    change (size (str "hello")) with 5 in Es. rewrite R in Es. injection Es as <- <-. exact Sz.
  - exfalso. vm_compute in L. lia.
  - exfalso. vm_compute in S. discriminate S.
Defined.
