(* ===== verification/Handler.v ===== *)
(** * Handler: sinks, builders, transactions and the static handler

    Models [src/src/http/response_sink.cpp], [response_builder.cpp],
    [transaction.cpp], [static_file_handler.cpp] and the
    [BufferedResponseSink] of [src/src/core/server.cpp].  [ResponseSink] is an
    interface with laws: transactions are proved against it, and the buffered
    sink of the server discharges it. *)

From S2P Require Import Prelude Text Numbers Request Http1Frame Response StaticFiles.

Inductive BodyMode : Type := include | headers_only.

#[export] Instance BodyMode_eq_dec : EqDecision BodyMode.
Proof. solve_decision. Defined.

(** ** The sink interface

    A sink answers once: the first response wins. *)

Class ResponseSink (S : Type) : Type := {
  send : S -> Response -> BodyMode -> S;
  send_chunked : S -> Response -> list bytes -> BodyMode -> S;
  sent : S -> bool;
  send_sent : forall s r m, sent (send s r m) = true;
  send_chunked_sent : forall s r c m, sent (send_chunked s r c m) = true;
  send_once : forall s r m, sent s = true -> send s r m = s;
  send_chunked_once : forall s r c m, sent s = true -> send_chunked s r c m = s;
}.

(** [ResponseSink::send_chunked], for sinks that do not stream. *)
Definition default_send_chunked {S} (send : S -> Response -> BodyMode -> S)
    (s : S) (r : Response) (chunks : list bytes) (m : BodyMode) : S :=
  send s (mk_response (status r) (reason r) (headers r) (fold_left app chunks (body r))) m.

(** ** The buffered sink of a connection *)

Record BufferedResponseSink : Type := mk_buffered {
  sent_ : bool;
  last_status_ : Z;
  response_ : Response;
  chunked_ : bool;
  chunks_ : list bytes;
  body_mode_ : BodyMode;
}.

Definition new_response : Response := mk_response 200 (str "OK") ∅ [].

Definition new_sink : BufferedResponseSink :=
  mk_buffered false 500 new_response false [] include.

Definition buffered_send (s : BufferedResponseSink) (r : Response) (m : BodyMode)
    : BufferedResponseSink :=
  if sent_ s then s else mk_buffered true (status r) r false [] m.

Definition buffered_send_chunked (s : BufferedResponseSink) (r : Response) (chunks : list bytes)
    (m : BodyMode) : BufferedResponseSink :=
  if sent_ s then s
  else mk_buffered true (status r)
         (mk_response (status r) (reason r) (headers r) (fold_left app chunks [])) true chunks m.

#[export] Program Instance buffered_sink : ResponseSink BufferedResponseSink := {|
  send := buffered_send;
  send_chunked := buffered_send_chunked;
  sent := sent_;
|}.
Next Obligation. intros s r m. unfold buffered_send. by destruct (sent_ s) eqn:E. Qed.
Next Obligation. intros s r c m. unfold buffered_send_chunked. by destruct (sent_ s) eqn:E. Qed.
Next Obligation. intros s r m E. unfold buffered_send. by rewrite E. Qed.
Next Obligation. intros s r c m E. unfold buffered_send_chunked. by rewrite E. Qed.

(** The headers [response_serialization_options] adds, in its order. *)
Record SecurityHeaders : Type := mk_security_headers {
  security_headers_enabled : bool;
  tls_enabled : bool;
  x_content_type_options : bytes;
  x_frame_options : bytes;
  referrer_policy : bytes;
  cross_origin_opener_policy : bytes;
  content_security_policy : bytes;
  strict_transport_security : bytes;
  config_server_header_enabled : bool;
  config_server_name : bytes;
}.

Definition add_security_header (h : Headers) (name value : bytes) : Headers :=
  if bool_decide (value = []) then h else <[name := value]> h.

Definition response_serialization_options (c : SecurityHeaders) : SerializationOptions :=
  mk_options (config_server_header_enabled c) (config_server_name c)
    (if security_headers_enabled c then
       let h := add_security_header ∅ (str "x-content-type-options") (x_content_type_options c) in
       let h := add_security_header h (str "x-frame-options") (x_frame_options c) in
       let h := add_security_header h (str "referrer-policy") (referrer_policy c) in
       let h := add_security_header h (str "cross-origin-opener-policy")
                  (cross_origin_opener_policy c) in
       let h := add_security_header h (str "content-security-policy") (content_security_policy c) in
       if tls_enabled c
       then add_security_header h (str "strict-transport-security") (strict_transport_security c)
       else h
     else ∅).

Definition payload_headers (h : Headers) (keep_alive : bool) (timeout_seconds remaining_requests : Z)
    : Headers :=
  if keep_alive then
    <[str "keep-alive" := str "timeout=" ++ to_string timeout_seconds ++ str ", max="
                          ++ to_string remaining_requests]>
      (<[str "connection" := str "keep-alive"]> h)
  else delete (str "keep-alive") (<[str "connection" := str "close"]> h).

Definition payload `{MapOrder bytes} (s : BufferedResponseSink) (c : SecurityHeaders)
    (keep_alive : bool) (timeout_seconds remaining_requests : Z) : bytes :=
  let r := response_ s in
  let response := mk_response (status r) (reason r)
    (payload_headers (headers r) keep_alive timeout_seconds remaining_requests) (body r) in
  let include_body := bool_decide (body_mode_ s = include) in
  if chunked_ s
  then to_http_chunked_string response (chunks_ s) include_body (response_serialization_options c)
  else to_http_string response include_body (response_serialization_options c).

(** ** Handlers and transactions

    A handler may throw: a [std::exception] with its message, or anything
    else.  What it sent before it threw stays sent. *)

Inductive attempt (A : Type) : Type :=
| Value (a : A)
| Threw (what : option bytes).
Arguments Value {A} a.
Arguments Threw {A} what.

Inductive TransactionState : Type := idle | handling | complete | failed.

(** ** ResponseBuilder *)

Section builder.
Context {S : Type} `{ResponseSink S}.

Definition build_status (status : Z) (r : Response) : Response :=
  mk_response status (reason_phrase status) (headers r) (body r).
Definition build_status_reason (status : Z) (reason : bytes) (r : Response) : Response :=
  mk_response status reason (headers r) (body r).
Definition build_header (name value : bytes) (r : Response) : Response :=
  mk_response (status r) (reason r) (<[name := value]> (headers r)) (body r).
Definition build_body (b : bytes) (r : Response) : Response :=
  mk_response (status r) (reason r) (headers r) b.
Definition build_content_type (value : bytes) (r : Response) : Response :=
  build_header (str "content-type") value r.
Definition builder_send (s : S) (r : Response) : S := send s r include.
Definition builder_send_without_body (s : S) (r : Response) : S := send s r headers_only.
Definition builder_send_chunked (s : S) (r : Response) (chunks : list bytes) : S :=
  send_chunked s r chunks include.

(** [.status(500).content_type("text/plain; charset=utf-8").body(text).send()] *)
Definition send_error (s : S) (text : bytes) : S :=
  builder_send s (build_body text (build_content_type text_plain (build_status 500 new_response))).

Record RequestHandler : Type := mk_handler {
  on_request : Request -> S -> S * attempt unit;
  on_complete : attempt unit;
  on_error : bytes -> S -> S * attempt unit;
}.

(** [RequestHandler::on_error], unless overridden. *)
Definition default_on_error (message : bytes) (s : S) : S * attempt unit :=
  (send_error s (message ++ [LF]), Value tt).

Definition catch_message (what : option bytes) : bytes :=
  match what with
  | Some w => str "Request handler failed: " ++ w ++ [LF]
  | None => line_body "Request handler failed with an unknown error"
  end.

Definition no_response_message : bytes :=
  str "Request handler completed without sending a response".

Definition dispatch (factory : Request -> attempt (option RequestHandler)) (request : Request) (s : S)
    : TransactionState * S :=
  let catch what s := (failed, send_error s (catch_message what)) in
  match factory request with
  | Threw what => catch what s
  | Value None => (failed, send_error s (line_body "No request handler available"))
  | Value (Some handler) =>
      match on_request handler request s with
      | (s1, Threw what) => catch what s1
      | (s1, Value _) =>
          match on_complete handler with
          | Threw what => catch what s1
          | Value _ =>
              if negb (sent s1) then
                match on_error handler no_response_message s1 with
                | (s2, Threw what) => catch what s2
                | (s2, Value _) => (failed, s2)
                end
              else (complete, s1)
          end
      end
  end.

Lemma send_error_sent s text : sent (send_error s text) = true.
Proof using. apply send_sent. Qed.

(** C20. Every transaction is answered: whatever the factory and the handler do
    - refuse, throw anything, at any point, or return without a response -
    after [dispatch] the sink holds a response, provided the handler keeps
    the default [on_error]. The transaction is complete exactly when the
    handler itself answered without throwing, and the first response a
    handler sends is never replaced by an error page. *)
Theorem dispatch_answers (factory : Request -> attempt (option RequestHandler)) (request : Request) (s : S) :
  (forall h, factory request = Value (Some h) -> on_error h = default_on_error) ->
  let result := dispatch factory request s in
  sent result.2 = true /\
  (result.1 = complete <->
     exists h s1, factory request = Value (Some h) /\ on_request h request s = (s1, Value tt) /\
                  on_complete h = Value tt /\ sent s1 = true) /\
  (forall h, factory request = Value (Some h) -> sent (on_request h request s).1 = true ->
     result.2 = (on_request h request s).1).
Proof using.
  intros Hd. unfold dispatch. destruct (factory request) as [[h|]|w] eqn:F.
  2, 3: (cbn; split; [apply send_error_sent|]; split; [|by intros ? [=]]; split; [done|]; by intros (? & ? & [=] & _)).
  specialize (Hd h eq_refl).
  destruct (on_request h request s) as [s1 [[]|w]] eqn:R.
  2: { cbn. split; [apply send_error_sent|]. split.
       - split; [done|]. intros (? & ? & [= <-] & E & _). congruence.
       - intros ? [= <-]. rewrite R. cbn. apply send_once. }
  destruct (on_complete h) as [[]|w] eqn:C.
  2: { cbn. split; [apply send_error_sent|]. split.
       - split; [done|]. intros (? & ? & [= <-] & _ & E & _). congruence.
       - intros ? [= <-]. rewrite R. cbn. apply send_once. }
  destruct (sent s1) eqn:St; cbn [negb].
  - cbn. split; [done|]. split; [split; [eauto 10|done]|]. intros ? [= <-]. by rewrite R.
  - rewrite Hd. cbn. split; [apply send_error_sent|]. split.
    + split; [done|]. intros (? & ? & [= <-] & E & _ & E2). rewrite R in E. injection E as <-. congruence.
    + intros ? [= <-]. rewrite R. cbn. congruence.
Qed.
End builder.

(** A handler that sends its answer and throws afterwards. *)
Definition late_thrower : RequestHandler (S := BufferedResponseSink) :=
  mk_handler (fun _ s => (send s (text_response 200 (str "done") text_plain) include, Threw (Some (str "late"))))
             (Value tt) default_on_error.

Lemma dispatch_answers_witness :
  let result := dispatch (fun _ => Value (Some late_thrower)) empty_request new_sink in
  sent result.2 = true /\ result.1 = failed /\ last_status_ result.2 = 200.
Proof.
  destruct (dispatch_answers (fun _ => Value (Some late_thrower)) empty_request new_sink) as (A & _ & B).
  - intros h [= <-]. reflexivity.
  - split; [exact A|]. split; [reflexivity|]. cbn zeta. rewrite (B late_thrower eq_refl eq_refl). reflexivity.
Defined.

(** ** The static file handler *)

Definition allowed_methods : bytes := str "GET, HEAD, POST, PUT, PATCH, DELETE, OPTIONS".

Definition is_supported_method (method : bytes) : bool :=
  bool_decide (method ∈ str <$> ["GET"; "HEAD"; "POST"; "PUT"; "PATCH"; "DELETE"; "OPTIONS"]%string).

Definition quoted (value : bytes) : bytes := quote :: json_escape value ++ [quote].

(** The items of a loop that prints a comma before all but the first. *)
Fixpoint comma_separated (items : list bytes) : bytes :=
  match items with
  | [] => []
  | [x] => x
  | x :: rest => x ++ str "," ++ comma_separated rest
  end.

Definition query_param_json (nv : bytes * list bytes) : bytes :=
  quoted nv.1 ++ str ":[" ++ comma_separated (quoted <$> nv.2) ++ str "]".

Definition query_params_json `{MapOrder (list bytes)} (r : Request) : bytes :=
  str "{" ++ comma_separated (query_param_json <$> order (query_params r)) ++ str "}".

Definition json_bool (b : bool) : bytes := str (if b then "true" else "false").

(** [quoted] with the key of a field: ["key":"value"]. *)
Definition quoted_field (key : string) (value : bytes) : bytes :=
  quoted (str key) ++ str ":" ++ quoted value.
Definition plain_field (key : string) (value : bytes) : bytes := quoted (str key) ++ str ":" ++ value.

Definition echo_limit : nat := Z.to_nat (64 * 1024).

Definition method_json `{MapOrder (list bytes)} (r : Request) (body : bytes) : bytes :=
  str "{" ++ quoted_field "method" (method r) ++ str ","
  ++ quoted_field "target" (target r) ++ str ","
  ++ quoted_field "path" (Request.path r) ++ str ","
  ++ plain_field "query" (query_params_json r) ++ str ","
  ++ plain_field "body_size" (to_string (body_size r)) ++ str ","
  ++ plain_field "json_request" (json_bool (is_json r)) ++ str ","
  ++ quoted_field "body" body ++ str ","
  ++ plain_field "body_truncated" (json_bool (size body <? body_size r)) ++ str ","
  ++ plain_field "body_spooled" (json_bool (body_spooled_to_file r)) ++ str "}" ++ [LF].

Definition with_header (name value : bytes) (r : Response) : Response := build_header name value r.

(** The reading loop is the one of [body_text], with its own bound. *)
Definition method_json_response `{MapOrder (list bytes)} (files : bytes -> option bytes) (r : Request)
    : outcome Response :=
  body ← body_text_loop echo_limit echo_limit (open_body_reader files r) [];
  mret (with_header (str "allow") allowed_methods (json_response 200 (method_json r body))).

Section static.
Context `{MapOrder (list bytes)} {S : Type} `{ResponseSink S}.
Context (files : bytes -> option bytes) (fs : FileSystem) (http_date : Z -> bytes)
  (gzip_compress : bytes -> bytes).

Definition options_response : Response :=
  with_header (str "access-control-allow-headers")
    (str "Content-Type, Range, Upgrade, Connection, Sec-WebSocket-Key, Sec-WebSocket-Version")
  (with_header (str "access-control-allow-methods") allowed_methods
  (with_header (str "allow") allowed_methods
    (mk_response 204 (reason_phrase 204) ∅ []))).

Definition static_on_request (document_root : path) (options : StaticFileOptions) (request : Request)
    (downstream : S) : S * attempt unit :=
  if negb (is_supported_method (method request)) then
    (send downstream (with_header (str "allow") allowed_methods
       (text_response 405 (line_body "Method Not Allowed") text_plain)) include, Value tt)
  else if bool_decide (method request = str "OPTIONS") then
    (send downstream options_response headers_only, Value tt)
  else if bool_decide (method request = str "GET") || bool_decide (method request = str "HEAD") then
    let body_mode := if bool_decide (method request = str "HEAD") then headers_only else include in
    (send downstream (file_response fs http_date gzip_compress request document_root options) body_mode,
     Value tt)
  else
    match method_json_response files request with
    | Ret response => (send downstream response include, Value tt)
    | Raise what => (downstream, Threw (Some (str what)))
    | Timeout => (downstream, Threw None)
    end.

Definition StaticFileHandler (document_root : path) (options : StaticFileOptions) : RequestHandler :=
  mk_handler (static_on_request document_root options) (Value tt) default_on_error.

Definition StaticFileHandlerFactory (document_root : path) (options : StaticFileOptions) (_ : Request)
    : attempt (option RequestHandler) :=
  Value (Some (StaticFileHandler document_root options)).
End static.

Lemma method_json_returns `{MapOrder (list bytes)} files r :
  exists b, method_json_response files r
            = Ret (with_header (str "allow") allowed_methods (json_response 200 (method_json r b))).
Proof.
  unfold method_json_response.
  destruct (body_text_loop_returns echo_limit echo_limit (open_body_reader files r) []) as [b ->];
    [lia|by exists b].
Qed.

Definition with_method (m : bytes) (r : Request) : Request :=
  mk_request m (target r) (Request.path r) (query_string r) (version r) (Request.headers r)
    (query_params r) (Request.body r) (body_size_bytes r) (body_file r).

Section static_lemmas.
Context (fs : FileSystem) (options : StaticFileOptions).

Lemma error_page_status r root : status (apply_custom_error_page fs r root options) = status r.
Proof. unfold apply_custom_error_page. repeat case_match; done. Qed.

Lemma resolve_file_status t root r :
  resolve_file fs t root options = inr r -> status r ∈ [403; 404].
Proof.
  unfold resolve_file.
  destruct (negb _); [intros [= <-]; cbn; set_solver|].
  destruct (is_directory _ _); [destruct (negb _); [intros [= <-]; cbn; set_solver|]|].
  all: destruct (negb _); [intros [= <-]; rewrite error_page_status; cbn; set_solver|].
  all: destruct (negb _); [intros [= <-]; rewrite error_page_status; cbn; set_solver|done].
Qed.

Context (http_date : Z -> bytes) (gzip_compress : bytes -> bytes) (document_root : StaticFiles.path).

Lemma serve_file_status r p n :
  status (serve_file fs http_date gzip_compress r p n) ∈ [200; 206; 416].
Proof.
  unfold serve_file. set (honor := requested _ && _ && _). clearbody honor.
  destruct honor; cbn [andb]; [destruct (malformed _ || _)|].
  - cbn. set_solver.
  - destruct (ranges _) as [|? [|]]; cbn; set_solver.
  - match goal with |- context [if ?b then _ else _] => destruct b end; cbn; set_solver.
Qed.

Lemma file_response_status r :
  method r = str "GET" \/ method r = str "HEAD" ->
  status (file_response fs http_date gzip_compress r document_root options)
  ∈ [200; 206; 400; 403; 404; 414; 416; 500].
Proof.
  intros M. unfold file_response.
  assert (N : negb (bool_decide (method r = str "GET")) && negb (bool_decide (method r = str "HEAD")) = false)
    by (destruct M as [-> | ->]; by vm_compute).
  rewrite N. destruct (_ || _); [cbn; set_solver|]. destruct (_ <? _); [cbn; set_solver|].
  destruct (weakly_canonical _ _) as [root|]; [|cbn; set_solver].
  destruct (negb (valid_directory_index _)); [rewrite error_page_status; cbn; set_solver|].
  destruct (resolve_file _ _ _ _) as [c|resp] eqn:R.
  - destruct (fs_file_size _ _).
    + pose proof (serve_file_status r c z). set_solver.
    + rewrite error_page_status. cbn. set_solver.
  - apply resolve_file_status in R. set_solver.
Qed.
End static_lemmas.

(** The static site answers every request exactly once. Whatever the
    request and the file system, dispatching it to the static handler
    completes and fills the connection's sink; the answer is 405 exactly for
    the methods that are not supported; and HEAD is answered with the very
    response of GET, sent without its body. *)
Theorem static_site_answers `{MapOrder (list bytes)} (files : bytes -> option bytes) (fs : FileSystem)
    (http_date : Z -> bytes) (gzip_compress : bytes -> bytes) (document_root : StaticFiles.path)
    (options : StaticFileOptions) (r : Request) :
  let run r := dispatch (StaticFileHandlerFactory files fs http_date gzip_compress document_root options)
                 r new_sink in
  (run r).1 = complete /\ sent_ (run r).2 = true /\
  (status (response_ (run r).2) = 405 <-> is_supported_method (method r) = false) /\
  response_ (run (with_method (str "HEAD") r)).2 = response_ (run (with_method (str "GET") r)).2 /\
  body_mode_ (run (with_method (str "HEAD") r)).2 = headers_only /\
  body_mode_ (run (with_method (str "GET") r)).2 = include.
Proof.
  set (factory := StaticFileHandlerFactory files fs http_date gzip_compress document_root options).
  assert (D : forall r, exists resp m,
    dispatch factory r new_sink = (complete, mk_buffered true (status resp) resp false [] m) /\
    static_on_request files fs http_date gzip_compress document_root options r new_sink
      = (mk_buffered true (status resp) resp false [] m, Value tt) /\
    (status resp = 405 <-> is_supported_method (method r) = false)).
  { intros q. unfold dispatch, factory, StaticFileHandlerFactory. cbn [StaticFileHandler on_request on_complete].
    unfold static_on_request. destruct (is_supported_method (method q)) eqn:Sm; cbn [negb].
    2: { eexists _, _. split_and!; [reflexivity|reflexivity|done]. }
    case_bool_decide as O; [eexists _, _; split_and!; [reflexivity|reflexivity|done]|].
    destruct (_ || _) eqn:G.
    - eexists _, _. split_and!; [reflexivity|reflexivity|]. split; [|done]. intros E.
      pose proof (file_response_status fs options http_date gzip_compress document_root q) as St.
      rewrite E in St. apply orb_true_iff in G as [G%bool_decide_eq_true|G%bool_decide_eq_true];
        specialize (St ltac:(auto)); set_solver.
    - destruct (method_json_returns files q) as [b ->]. eexists _, _. split_and!; [reflexivity|reflexivity|done]. }
  cbn zeta. destruct (D r) as (resp & m & E & _ & S). rewrite E. cbn [fst snd sent_ response_].
  split_and!; [done|done|done| | |].
  all: unfold dispatch, factory, StaticFileHandlerFactory; cbn [StaticFileHandler on_request on_complete];
    unfold static_on_request; cbn [with_method method].
  all: by replace (is_supported_method _) with true by (by vm_compute).
Qed.

(** ** Reading the JSON answer back *)

Definition expect (literal s : bytes) : option bytes :=
  if starts_with s literal then Some (drop (length literal) s) else None.

Definition json_quoted (s : bytes) : option (bytes * bytes) := s1 ← expect [quote] s; json_string s1.

Fixpoint json_more {A} (item : bytes -> option (A * bytes)) (close : bytes) (fuel : nat) (s : bytes)
    : option (list A * bytes) :=
  match fuel with
  | O => None
  | S fuel' =>
      '(x, s1) ← item s;
      match expect (str ",") s1 with
      | Some s2 => '(xs, s3) ← json_more item close fuel' s2; mret (x :: xs, s3)
      | None => s2 ← expect close s1; mret ([x], s2)
      end
  end.

(** The items up to the closing character, of an array or an object. *)
Definition json_items {A} (item : bytes -> option (A * bytes)) (close s : bytes)
    : option (list A * bytes) :=
  match expect close s with
  | Some s1 => Some ([], s1)
  | None => json_more item close (length s) s
  end.

Definition json_member (s : bytes) : option ((bytes * list bytes) * bytes) :=
  '(name, s1) ← json_quoted s;
  s2 ← expect (str ":[") s1;
  '(values, s3) ← json_items json_quoted (str "]") s2;
  mret ((name, values), s3).

(** A number or a literal. *)
Fixpoint json_word (s : bytes) : bytes * bytes :=
  match s with
  | c :: s1 => if isalnum c then let '(w, rest) := json_word s1 in (c :: w, rest) else ([], s)
  | [] => ([], [])
  end.

Lemma expect_app p s : expect p (p ++ s) = Some s.
Proof. unfold expect. by rewrite starts_with_app, drop_app_length. Qed.

Lemma expect_cons c s : expect [c] (c :: s) = Some s.
Proof. apply (expect_app [c]). Qed.

Lemma expect_head c d p s : c <> d -> expect (c :: p) (d :: s) = None.
Proof.
  intros N. unfold expect. destruct (starts_with (d :: s) (c :: p)) eqn:E; [|done].
  apply starts_with_spec in E as [r E]. cbn in E. congruence.
Qed.

Lemma quoted_cons v s : quoted v ++ s = quote :: json_escape v ++ quote :: s.
Proof. unfold quoted. cbn [app]. by rewrite <- app_assoc. Qed.

Lemma json_quoted_app v s : json_quoted (quoted v ++ s) = Some (v, s).
Proof.
  unfold json_quoted. rewrite quoted_cons, expect_cons. apply json_string_escape.
Qed.

Lemma json_word_app w s :
  Forall (fun c => isalnum c = true) w -> (forall c, head s = Some c -> isalnum c = false) ->
  json_word (w ++ s) = (w, s).
Proof.
  intros W Hs. induction W as [|c w Hc W IH]; cbn.
  - destruct s as [|c s]; [done|]. cbn. by rewrite Hs.
  - by rewrite Hc, IH.
Qed.

Section items.
Context {A} (item : bytes -> option (A * bytes)) (print : A -> bytes) (close : byte).
Context (item_print : forall x s, item (print x ++ s) = Some (x, s)).
Context (print_quote : forall x, exists s, print x = quote :: s).
Context (close_quote : close <> quote) (close_comma : close <> chr ",").

Lemma json_more_print xs x s fuel :
  (length xs < fuel)%nat ->
  json_more item [close] fuel (comma_separated (print <$> x :: xs) ++ close :: s) = Some (x :: xs, s).
Proof using item_print close_comma.
  revert x fuel; induction xs as [|y xs IH]; intros x fuel Hf; (destruct fuel as [|fuel]; [lia|]);
    cbn [json_more fmap list_fmap comma_separated].
  - rewrite item_print. cbn [mbind option_bind]. change (str ",") with [chr ","]. rewrite expect_head by (intros ?; congruence).
    by rewrite expect_cons.
  - rewrite <- !app_assoc, item_print. cbn [mbind option_bind]. rewrite expect_app.
    cbn in Hf. cbn [fmap list_fmap] in IH. rewrite (IH y) by lia. done.
Qed.

Lemma comma_separated_length (l : list bytes) :
  Forall (fun x => x <> []) l -> (length l <= length (comma_separated l))%nat.
Proof using.
  induction 1 as [|x l Hx _ IH]; [done|]. destruct x as [|c x]; [done|].
  destruct l as [|y l]; cbn [comma_separated] in *; rewrite ?length_app; change (length (str ",")) with 1%nat; cbn [length app] in *; lia.
Qed.

Lemma json_items_print xs s :
  json_items item [close] (comma_separated (print <$> xs) ++ close :: s) = Some (xs, s).
Proof using item_print print_quote close_quote close_comma.
  unfold json_items. destruct xs as [|x xs].
  - cbn [fmap list_fmap comma_separated app]. by rewrite expect_cons.
  - assert (E : expect [close] (comma_separated (print <$> x :: xs) ++ close :: s) = None).
    { destruct (print_quote x) as [u Hu]. cbn [fmap list_fmap comma_separated].
      destruct (print <$> xs); rewrite Hu; cbn [app]; by apply expect_head. }
    rewrite E. apply json_more_print. rewrite length_app. cbn [length].
    pose proof (comma_separated_length (print <$> x :: xs)) as L. rewrite length_fmap in L. cbn [length] in L.
    apply Nat.lt_le_trans with (S (length xs)); [lia|]. etransitivity; [apply L|lia].
    apply Forall_fmap, Forall_forall. intros y _. destruct (print_quote y) as [u Hu]. cbn. by rewrite Hu.
Qed.
End items.

Lemma json_member_print nv s : json_member (query_param_json nv ++ s) = Some (nv, s).
Proof.
  destruct nv as [n vs]. unfold json_member, query_param_json. cbn [fst snd].
  rewrite <- !app_assoc, json_quoted_app. cbn [mbind option_bind].
  rewrite expect_app. cbn [mbind option_bind]. change (str "]") with [chr "]"]. cbn [app].
  rewrite (json_items_print json_quoted quoted (chr "]")); [done| | |done|done].
  - apply json_quoted_app.
  - intros v. by eexists.
Qed.

(** The answer as read back. *)
Record Echo : Type := mk_echo {
  echo_method : bytes;
  echo_target : bytes;
  echo_path : bytes;
  echo_query : list (bytes * list bytes);
  echo_body_size : option Z;
  echo_is_json : bool;
  echo_body : bytes;
  echo_truncated : bool;
  echo_spooled : bool;
}.

(** The value of the field [key], after a comma or the opening brace. *)
Definition json_field {A} (key : string) (value : bytes -> option (A * bytes)) (s : bytes)
    : option (A * bytes) :=
  '(name, s1) ← json_quoted s;
  if decide (name = str key) then s2 ← expect (str ":") s1; value s2 else None.

Definition json_flag (s : bytes) : option (bool * bytes) :=
  let '(w, rest) := json_word s in
  if decide (w = str "true") then Some (true, rest)
  else if decide (w = str "false") then Some (false, rest) else None.

Definition json_members (s : bytes) : option (list (bytes * list bytes) * bytes) :=
  s1 ← expect (str "{") s; json_items json_member (str "}") s1.

Definition read_echo (s : bytes) : option Echo :=
  s ← expect (str "{") s;
  '(m, s) ← json_field "method" json_quoted s; s ← expect (str ",") s;
  '(t, s) ← json_field "target" json_quoted s; s ← expect (str ",") s;
  '(p, s) ← json_field "path" json_quoted s; s ← expect (str ",") s;
  '(q, s) ← json_field "query" json_members s; s ← expect (str ",") s;
  '(n, s) ← json_field "body_size" (fun s => Some (json_word s)) s; s ← expect (str ",") s;
  '(j, s) ← json_field "json_request" json_flag s; s ← expect (str ",") s;
  '(b, s) ← json_field "body" json_quoted s; s ← expect (str ",") s;
  '(tr, s) ← json_field "body_truncated" json_flag s; s ← expect (str ",") s;
  '(sp, s) ← json_field "body_spooled" json_flag s;
  if decide (s = str "}" ++ [LF])
  then mret (mk_echo m t p q (parse_decimal_size n) j b tr sp) else None.

Lemma json_field_print {A} key (value : bytes -> option (A * bytes)) v x s :
  value (v ++ s) = Some (x, s) -> json_field key value (plain_field key v ++ s) = Some (x, s).
Proof.
  intros E. unfold json_field, plain_field. rewrite <- !app_assoc, json_quoted_app. cbn [mbind option_bind].
  rewrite decide_True by done. rewrite expect_app. exact E.
Qed.

Lemma json_field_quoted key v s : json_field key json_quoted (quoted_field key v ++ s) = Some (v, s).
Proof. apply (json_field_print key json_quoted (quoted v)), json_quoted_app. Qed.

Lemma json_flag_print b s :
  (forall c, head s = Some c -> isalnum c = false) -> json_flag (json_bool b ++ s) = Some (b, s).
Proof.
  intros Hs. unfold json_flag. rewrite json_word_app.
  - by destruct b.
  - destruct b; repeat (apply Forall_cons; split; [done|]); apply Forall_nil; done.
  - exact Hs.
Qed.

Lemma json_members_print `{MapOrder (list bytes)} r s :
  json_members (query_params_json r ++ s) = Some (order (query_params r), s).
Proof.
  unfold json_members, query_params_json. rewrite <- !app_assoc, expect_app. cbn [mbind option_bind].
  apply (json_items_print json_member query_param_json (chr "}")); [apply json_member_print| |done|done].
  intros nv. unfold query_param_json. rewrite quoted_cons. by eexists.
Qed.

Lemma comma_not_alnum s c : head (str "," ++ s) = Some c -> isalnum c = false.
Proof. change (str ",") with [chr ","]. by intros [= <-]. Qed.

Lemma brace_not_alnum s c : head (str "}" ++ s) = Some c -> isalnum c = false.
Proof. change (str "}") with [chr "}"]. by intros [= <-]. Qed.

Lemma read_echo_method_json `{MapOrder (list bytes)} r b :
  0 <= body_size r <= size_max ->
  read_echo (method_json r b)
  = Some (mk_echo (method r) (target r) (Request.path r) (order (query_params r)) (Some (body_size r))
            (is_json r) b (size b <? body_size r) (body_spooled_to_file r)).
Proof.
  intros Hb. unfold read_echo, method_json. rewrite expect_app. cbn [mbind option_bind].
  do 3 (rewrite json_field_quoted; cbn [mbind option_bind]; rewrite expect_app; cbn [mbind option_bind]).
  rewrite (json_field_print _ json_members _ (order (query_params r)))
    by apply json_members_print.
  cbn [mbind option_bind]. rewrite expect_app. cbn [mbind option_bind].
  rewrite (json_field_print _ (fun s => Some (json_word s)) _ (to_string (body_size r))).
  2: { rewrite json_word_app; [done|apply to_string_alnum; lia|apply comma_not_alnum]. }
  cbn [mbind option_bind]. rewrite expect_app. cbn [mbind option_bind].
  rewrite (json_field_print _ json_flag _ (is_json r)) by apply json_flag_print, comma_not_alnum.
  cbn [mbind option_bind]. rewrite expect_app. cbn [mbind option_bind].
  rewrite json_field_quoted. cbn [mbind option_bind]. rewrite expect_app. cbn [mbind option_bind].
  rewrite (json_field_print _ json_flag _ (size b <? body_size r))
    by apply json_flag_print, comma_not_alnum.
  cbn [mbind option_bind]. rewrite expect_app. cbn [mbind option_bind].
  rewrite (json_field_print _ json_flag _ (body_spooled_to_file r))
    by apply json_flag_print, brace_not_alnum.
  cbn [mbind option_bind]. rewrite decide_True by done. by rewrite parse_decimal_to_string.
Qed.

(** The JSON answer to POST, PUT, PATCH and DELETE cannot be forged by the
    request: for any method, target, path, parameter names and values and
    body - quotes, backslashes and control characters included - a JSON
    reader recovers each of them exactly, in its own field, with the first
    64 KiB of the body from wherever it is stored and a truthful
    [body_truncated]. *)
Theorem method_json_echo `{MapOrder (list bytes)} (files : bytes -> option bytes) (r : Request)
    (content : bytes) :
  stored_body files r content -> size content <= size_max ->
  exists resp, method_json_response files r = Ret resp /\ status resp = 200 /\
    read_echo (body resp)
    = Some (mk_echo (method r) (target r) (Request.path r) (order (query_params r)) (Some (size content))
              (is_json r) (take echo_limit content) (Z.of_nat echo_limit <? size content)
              (body_spooled_to_file r)).
Proof.
  intros St Hc. pose proof (stored_body_size _ _ _ St) as B.
  assert (L : body_text_loop echo_limit echo_limit (open_body_reader files r) [] = Ret (take echo_limit content)).
  { rewrite <- (take_0 content) at 1.
    apply (body_text_loop_spec content); [by apply open_reading|lia|lia]. }
  unfold method_json_response. rewrite L. cbn [mbind outcome_bind]. eexists. split; [done|]. split; [done|].
  cbn [with_header build_header json_response text_response body].
  rewrite read_echo_method_json by lia. rewrite B. do 2 f_equal. rewrite length_take.
  generalize echo_limit; intros n. destruct (Z.ltb_spec (Z.of_nat n) (size content)),
    (Z.ltb_spec (Z.of_nat (n `min` length content)) (size content)); lia.
Qed.

Definition echo_request : Request :=
  mk_request (str "POST") (str "/a?x=1") (str "/a") (str "x=1") (str "HTTP/1.1") ∅
    {[str "x" := [str "1"; [quote; LF]]]} (quote :: str "}") 0 None.

Lemma method_json_echo_witness :
  exists resp, method_json_response (fun _ => None) echo_request = Ret resp /\ status resp = 200 /\
    echo_body <$> read_echo (body resp) = Some (quote :: str "}").
Proof.
  destruct (method_json_echo (fun _ => None) echo_request (quote :: str "}")) as (resp & E & S & R).
  - split; [reflexivity|by left].
  - vm_compute. discriminate.
  - exists resp. split; [exact E|]. split; [exact S|]. rewrite R. reflexivity.
Defined.
