(* ===== verification/BodyStream.v ===== *)
(** * BodyStream: request bodies that arrive in pieces

    Models [RequestBodyAccumulator], [Http1BodyStreamState] and the two body
    streams of [ClientConnection] in [src/src/core/server.cpp].  The spool
    file is its content; [spool_error] tells whether the file system accepts a
    content.  Both streams are shown to be insensitive to how the network cut
    the body. *)

From S2P Require Import Prelude Text Numbers Request Http1Frame.

(** ** RequestBodyAccumulator *)

Record RequestBodyAccumulator : Type := mk_accumulator {
  memory_limit_ : Z;
  size_ : Z;
  memory_ : bytes;
  spool_file : option bytes;
}.

Definition new_accumulator (memory_limit : Z) : RequestBodyAccumulator :=
  mk_accumulator memory_limit 0 [] None.

Section accumulator.
(** The error of creating the file or writing it, given its new content; and
    the path that [mkstemp] chose. *)
Context (spool_error : bytes -> option string) (spool_path : bytes).

Definition write_spool (content data : bytes) : outcome bytes :=
  match spool_error (content ++ data) with
  | Some e => Raise e
  | None => Ret (content ++ data)
  end.

Definition ensure_spool_file (a : RequestBodyAccumulator) : outcome bytes :=
  match spool_file a with
  | Some content => Ret content
  | None => match memory_ a with [] => Ret [] | m => write_spool [] m end
  end.

Definition append (data : bytes) (a : RequestBodyAccumulator) : outcome RequestBodyAccumulator :=
  match data with
  | [] => Ret a
  | _ =>
      if negb (bool_decide (is_Some (spool_file a))) && (size (memory_ a) + size data <=? memory_limit_ a)
      then Ret (mk_accumulator (memory_limit_ a) (size_ a + size data) (memory_ a ++ data) None)
      else
        content ← ensure_spool_file a;
        content ← write_spool content data;
        Ret (mk_accumulator (memory_limit_ a) (size_ a + size data) [] (Some content))
  end.

Definition finish (request : Request) (a : RequestBodyAccumulator) : Request :=
  let with_body b f :=
    mk_request (method request) (target request) (path request) (query_string request) (version request)
      (headers request) (query_params request) b (size_ a) f in
  match spool_file a with
  | Some _ => with_body [] (Some spool_path)
  | None => with_body (memory_ a) (body_file request)
  end.

(** ** Streams *)

Inductive ChunkedStreamPhase : Type := size_line | data | data_crlf | trailer_line.

#[export] Instance ChunkedStreamPhase_eq_dec : EqDecision ChunkedStreamPhase.
Proof. solve_decision. Defined.

Record Http1BodyStreamState : Type := mk_body_stream {
  stream_request : Request;
  accumulator : RequestBodyAccumulator;
  stream_chunked : bool;
  header_bytes : Z;
  max_body_bytes : Z;
  stream_content_length : Z;
  received : Z;
  chunked_phase : ChunkedStreamPhase;
  line_buffer : bytes;
  chunk_remaining : Z;
  crlf_seen : Z;
}.

Definition memory_body_limit : Z := 16 * 1024.

(** [start_http1_body_stream], apart from the fields of the connection. *)
Definition start_body_stream (request : Request) (frame : Http1FrameResult) (max_request_bytes : Z)
    : Http1BodyStreamState :=
  mk_body_stream request (new_accumulator memory_body_limit) (frame_chunked frame) (consumed frame)
    (if consumed frame <? max_request_bytes then max_request_bytes - consumed frame else 0)
    (default 0 (frame_content_length frame)) 0 size_line [] 0 0.

Definition set_accumulator (a : RequestBodyAccumulator) (s : Http1BodyStreamState) : Http1BodyStreamState :=
  mk_body_stream (stream_request s) a (stream_chunked s) (header_bytes s) (max_body_bytes s)
    (stream_content_length s) (received s) (chunked_phase s) (line_buffer s) (chunk_remaining s) (crlf_seen s).
Definition set_received (n : Z) (s : Http1BodyStreamState) : Http1BodyStreamState :=
  mk_body_stream (stream_request s) (accumulator s) (stream_chunked s) (header_bytes s) (max_body_bytes s)
    (stream_content_length s) n (chunked_phase s) (line_buffer s) (chunk_remaining s) (crlf_seen s).
Definition set_phase (p : ChunkedStreamPhase) (s : Http1BodyStreamState) : Http1BodyStreamState :=
  mk_body_stream (stream_request s) (accumulator s) (stream_chunked s) (header_bytes s) (max_body_bytes s)
    (stream_content_length s) (received s) p (line_buffer s) (chunk_remaining s) (crlf_seen s).
Definition set_line (l : bytes) (s : Http1BodyStreamState) : Http1BodyStreamState :=
  mk_body_stream (stream_request s) (accumulator s) (stream_chunked s) (header_bytes s) (max_body_bytes s)
    (stream_content_length s) (received s) (chunked_phase s) l (chunk_remaining s) (crlf_seen s).
Definition set_remaining (n : Z) (s : Http1BodyStreamState) : Http1BodyStreamState :=
  mk_body_stream (stream_request s) (accumulator s) (stream_chunked s) (header_bytes s) (max_body_bytes s)
    (stream_content_length s) (received s) (chunked_phase s) (line_buffer s) n (crlf_seen s).
Definition set_crlf_seen (n : Z) (s : Http1BodyStreamState) : Http1BodyStreamState :=
  mk_body_stream (stream_request s) (accumulator s) (stream_chunked s) (header_bytes s) (max_body_bytes s)
    (stream_content_length s) (received s) (chunked_phase s) (line_buffer s) (chunk_remaining s) n.

(** What a pass over the request buffer leaves: the stream waits for more
    bytes, with the rest of the buffer; or it fails with a status and a
    message; or the body is complete and the rest follows it. *)
Inductive StreamResult : Type :=
| Waiting (s : Http1BodyStreamState) (rest : bytes)
| Failed (status : Z) (message : bytes)
| Finished (s : Http1BodyStreamState) (rest : bytes).

Definition bad_body : StreamResult := Failed 400 bad_request.

(** [while (!request_buffer_.empty() && stream.received < stream.content_length)]:
    every turn takes at least one byte. *)
Fixpoint content_length_loop (fuel : nat) (s : Http1BodyStreamState) (buffer : bytes)
    : outcome (Http1BodyStreamState * bytes) :=
  if negb (bool_decide (buffer = [])) && (received s <? stream_content_length s) then
    match fuel with
    | O => Timeout
    | S fuel' =>
        let n := Z.min (stream_content_length s - received s) (size buffer) in
        a ← append (take (Z.to_nat n) buffer) (accumulator s);
        content_length_loop fuel' (set_received (received s + n) (set_accumulator a s))
          (drop (Z.to_nat n) buffer)
    end
  else Ret (s, buffer).

Definition process_content_length_http1_body_stream (s : Http1BodyStreamState) (buffer : bytes)
    : outcome StreamResult :=
  '(s, rest) ← content_length_loop (length buffer) s buffer;
  mret (if received s =? stream_content_length s then Finished s rest else Waiting s rest).

(** A complete line, its newline included: [None] ends the body. *)
Definition stream_line (lb : bytes) (s : Http1BodyStreamState) : option Http1BodyStreamState + StreamResult :=
  if (size lb <? 2) || negb (bool_decide (lb !! (length lb - 2)%nat = Some CR)) then inr bad_body
  else
    let line := take (length lb - 2) lb in
    let s := set_line [] s in
    if bool_decide (chunked_phase s = trailer_line) then
      match line with
      | [] => inl None
      | _ => if 8192 <? size line then inr bad_body else inl (Some s)
      end
    else
      match chunk_size_of line with
      | None => inr bad_body
      | Some chunk_size =>
          if chunk_size =? 0 then inl (Some (set_phase trailer_line s))
          else inl (Some (set_phase data (set_remaining chunk_size s)))
      end.

(** [while (!request_buffer_.empty())]: every turn takes at least one byte, or
    leaves the data of a chunk. *)
Fixpoint chunked_stream_loop (fuel : nat) (s : Http1BodyStreamState) (buffer : bytes)
    : outcome StreamResult :=
  match buffer with
  | [] => Ret (Waiting s [])
  | front :: _ =>
      match fuel with
      | O => Timeout
      | S fuel' =>
          match chunked_phase s with
          | size_line | trailer_line =>
              match find_byte LF buffer with
              | None =>
                  let lb := line_buffer s ++ buffer in
                  if 8192 <? size lb then Ret bad_body else Ret (Waiting (set_line lb s) [])
              | Some line_end =>
                  let rest := drop (S line_end) buffer in
                  match stream_line (line_buffer s ++ take (S line_end) buffer) s with
                  | inr failed => Ret failed
                  | inl None => Ret (Finished (set_line [] s) rest)
                  | inl (Some s) => chunked_stream_loop fuel' s rest
                  end
              end
          | data =>
              let n := Z.min (chunk_remaining s) (size buffer) in
              if max_body_bytes s <? size_ (accumulator s) + n
              then Ret (Failed 413 content_too_large)
              else
                a ← append (take (Z.to_nat n) buffer) (accumulator s);
                let s := set_remaining (chunk_remaining s - n) (set_accumulator a s) in
                let s := if chunk_remaining s =? 0 then set_crlf_seen 0 (set_phase data_crlf s) else s in
                chunked_stream_loop fuel' s (drop (Z.to_nat n) buffer)
          | data_crlf =>
              let expected := if crlf_seen s =? 0 then CR else LF in
              if negb (bool_decide (front = expected)) then Ret bad_body
              else
                let s := set_crlf_seen (crlf_seen s + 1) s in
                let s := if crlf_seen s =? 2 then set_phase size_line s else s in
                chunked_stream_loop fuel' s (drop 1 buffer)
          end
      end
  end.

Definition process_chunked_http1_body_stream (s : Http1BodyStreamState) (buffer : bytes)
    : outcome StreamResult := chunked_stream_loop (S (2 * length buffer)) s buffer.

Definition process_http1_body_stream (s : Http1BodyStreamState) (buffer : bytes) : outcome StreamResult :=
  if stream_chunked s then process_chunked_http1_body_stream s buffer
  else process_content_length_http1_body_stream s buffer.

(** The body arrives in segments, each appended to what the request buffer
    still holds. *)
Fixpoint feed_segments (s : Http1BodyStreamState) (buffer : bytes) (segments : list bytes)
    : outcome StreamResult :=
  match segments with
  | [] => mret (Waiting s buffer)
  | segment :: segments' =>
      r ← process_http1_body_stream s (buffer ++ segment);
      match r with
      | Waiting s' rest => feed_segments s' rest segments'
      | Failed status message => mret (Failed status message)
      | Finished s' rest => mret (Finished s' (rest ++ concat segments'))
      end
  end.
End accumulator.

(** ** The accumulator holds what was appended

    In memory up to the limit, in the spool file from then on. *)

Definition holding (limit : Z) (content : bytes) : RequestBodyAccumulator :=
  if size content <=? limit then mk_accumulator limit (size content) content None
  else mk_accumulator limit (size content) [] (Some content).

Definition no_spool_error (spool_error : bytes -> option string) : Prop := forall c, spool_error c = None.

Lemma holding_size l c : size_ (holding l c) = size c.
Proof. unfold holding. by destruct (_ <=? _). Qed.

Section lemmas.
Context (spool_error : bytes -> option string) (no_error : no_spool_error spool_error).

Lemma write_spool_ok c d : write_spool spool_error c d = Ret (c ++ d).
Proof using no_error. unfold write_spool. by rewrite no_error. Qed.

Lemma append_holding l c d : 0 <= l -> append spool_error d (holding l c) = Ret (holding l (c ++ d)).
Proof using no_error.
  intros Hl. destruct d as [|x d]; [by rewrite app_nil_r|]. set (d' := x :: d).
  unfold append. change (match d' with [] => _ | _ => ?y end) with y.
  assert (L : size (c ++ d') = size c + size d') by (rewrite length_app; lia).
  unfold holding. destruct (Z.leb_spec (size c) l) as [H1|H1]; cbn [spool_file memory_ memory_limit_ size_].
  - rewrite bool_decide_false by (by intros []). cbn [negb andb]. rewrite L.
    destruct (Z.leb_spec (size c + size d') l); [done|].
    unfold ensure_spool_file. cbn [spool_file memory_].
    destruct c as [|y c]; rewrite ?write_spool_ok; cbn [mbind outcome_bind]; by rewrite write_spool_ok.
  - rewrite bool_decide_true by done. cbn [negb andb]. rewrite L.
    destruct (Z.leb_spec (size c + size d') l); [lia|].
    unfold ensure_spool_file. cbn [spool_file mbind outcome_bind]. by rewrite write_spool_ok.
Qed.

(** ** A body of known length *)

Lemma content_length_loop_spec fuel s buffer c :
  (length buffer <= fuel)%nat -> 0 <= memory_limit_ (accumulator s) ->
  accumulator s = holding (memory_limit_ (accumulator s)) c -> received s = size c ->
  size c <= stream_content_length s ->
  let n := Z.to_nat (Z.min (stream_content_length s - received s) (size buffer)) in
  content_length_loop spool_error fuel s buffer
  = Ret (set_received (size (c ++ take n buffer))
           (set_accumulator (holding (memory_limit_ (accumulator s)) (c ++ take n buffer)) s), drop n buffer).
Proof using no_error.
  intros Hf Hl Ha Hr Hc. cbn zeta. set (l := memory_limit_ (accumulator s)) in *.
  assert (Id : set_received (size c) (set_accumulator (holding l c) s) = s)
    by (rewrite <- Ha, <- Hr; by destruct s).
  assert (Stop : forall b : bytes, negb (bool_decide (b = [])) && (received s <? stream_content_length s) = false ->
    Z.to_nat (Z.min (stream_content_length s - received s) (size b)) = 0%nat).
  { intros b. case_bool_decide as B; cbn [negb andb]; [intros _; subst; cbn [length]; lia|].
    rewrite Z.ltb_ge. lia. }
  destruct (negb (bool_decide (buffer = [])) && (received s <? stream_content_length s)) eqn:C.
  - apply andb_true_iff in C as [C1 C2]. pose proof C1 as C1'. pose proof C2 as C2'.
    apply negb_true_iff, bool_decide_eq_false in C1. apply Z.ltb_lt in C2.
    assert (L : (0 < length buffer)%nat) by (destruct buffer; [done|cbn; lia]).
    destruct fuel as [|fuel]; [lia|]. cbn [content_length_loop]. rewrite C1', C2'. cbn [andb].
    set (k := Z.min _ _). rewrite Ha, append_holding by done. cbn [mbind outcome_bind].
    set (s' := set_received _ _).
    assert (Done : forall g b, negb (bool_decide (b = [])) && (received s' <? stream_content_length s') = false ->
      content_length_loop spool_error g s' b = Ret (s', b)) by (intros [|g] b Hb; cbn [content_length_loop]; by rewrite Hb).
    rewrite Done.
    + f_equal. f_equal. unfold s'. f_equal. rewrite length_app, length_take. lia.
    + unfold s'. cbn [received stream_content_length set_received set_accumulator].
      destruct (Z.le_gt_cases (stream_content_length s - received s) (size buffer)).
      * rewrite (proj2 (Z.ltb_ge _ _)) by lia. apply andb_false_r.
      * rewrite bool_decide_true; [done|]. apply nil_length_inv. rewrite length_drop. lia.
  - rewrite (Stop buffer C). cbn [take drop]. rewrite app_nil_r, Id.
    destruct fuel; cbn [content_length_loop]; by rewrite C.
Qed.

Definition sized_state (l : Z) (c : bytes) (s : Http1BodyStreamState) : Http1BodyStreamState :=
  set_received (size c) (set_accumulator (holding l c) s).

Lemma feed_sized l n c s segments :
  0 <= l -> stream_chunked s = false -> stream_content_length s = n -> size c < n ->
  feed_segments spool_error (sized_state l c s) [] segments
  = let arrived := c ++ concat segments in
    Ret (if n <=? size arrived
         then Finished (sized_state l (take (Z.to_nat n) arrived) s) (drop (Z.to_nat n) arrived)
         else Waiting (sized_state l arrived s) []).
Proof using no_error.
  intros Hl Hk Hn. revert c; induction segments as [|g segments IH]; intros c Hc; cbn zeta.
  { cbn [concat feed_segments]. rewrite app_nil_r. by rewrite (proj2 (Z.leb_gt _ _)) by done. }
  cbn [feed_segments concat app]. unfold process_http1_body_stream. cbn [stream_chunked sized_state].
  change (stream_chunked (sized_state l c s)) with (stream_chunked s). rewrite Hk.
  unfold process_content_length_http1_body_stream.
  rewrite (content_length_loop_spec _ _ g c).
  2: lia. 2: { change (memory_limit_ (accumulator (sized_state l c s))) with (memory_limit_ (holding l c)).
               unfold holding. destruct (_ <=? _); done. }
  2: { change (accumulator (sized_state l c s)) with (holding l c).
       assert (E : memory_limit_ (holding l c) = l) by (unfold holding; by destruct (_ <=? _)). by rewrite E. }
  2: done. 2: { change (stream_content_length (sized_state l c s)) with (stream_content_length s). lia. }
  change (accumulator (sized_state l c s)) with (holding l c).
  assert (E : memory_limit_ (holding l c) = l) by (unfold holding; by destruct (_ <=? _)). rewrite E. clear E.
  change (stream_content_length (sized_state l c s)) with (stream_content_length s).
  change (received (sized_state l c s)) with (size c). rewrite Hn.
  set (k := Z.to_nat (Z.min (n - size c) (size g))). cbn [mbind outcome_bind mret outcome_ret received set_received].
  change (set_received (size (c ++ take k g)) (set_accumulator (holding l (c ++ take k g)) (sized_state l c s)))
    with (sized_state l (c ++ take k g) s).
  change (stream_content_length (sized_state l (c ++ take k g) s)) with (stream_content_length s). rewrite Hn.
  change (received (sized_state l (c ++ take k g) s)) with (size (c ++ take k g)).
  assert (Lk : size (c ++ take k g) = size c + Z.of_nat k) by (rewrite length_app, length_take; lia).
  rewrite Lk, app_assoc. set (all := (c ++ g) ++ concat segments).
  destruct (Z.le_gt_cases (n - size c) (size g)) as [L|L].
  - rewrite (proj2 (Z.eqb_eq _ _)) by lia.
    assert (La : n <= size all) by (unfold all; rewrite !length_app; lia).
    rewrite (proj2 (Z.leb_le _ _) La).
    assert (T : take (Z.to_nat n) all = c ++ take k g).
    { unfold all. rewrite <- app_assoc, take_app_ge by lia.
      rewrite take_app_le by lia. f_equal. f_equal. lia. }
    assert (D : drop (Z.to_nat n) all = drop k g ++ concat segments).
    { unfold all. rewrite <- app_assoc, drop_app_ge by lia. rewrite drop_app_le by lia. f_equal. f_equal. lia. }
    by rewrite T, D.
  - rewrite (proj2 (Z.eqb_neq _ _)) by lia.
    assert (Ek : k = length g) by lia. rewrite Ek, take_ge, drop_all by lia.
    rewrite IH by (rewrite length_app; lia). done.
Qed.

(** ** A chunked body, byte by byte *)

(** The turn of the loop for one byte, the bound on lines included. *)
Definition byte_step (s : Http1BodyStreamState) (c : byte)
    : outcome (option Http1BodyStreamState + StreamResult) :=
  match chunked_phase s with
  | size_line | trailer_line =>
      if decide (c = LF) then Ret (stream_line (line_buffer s ++ [c]) s)
      else if 8192 <? size (line_buffer s ++ [c]) then Ret (inr bad_body)
      else Ret (inl (Some (set_line (line_buffer s ++ [c]) s)))
  | data =>
      if max_body_bytes s <? size_ (accumulator s) + 1 then Ret (inr (Failed 413 content_too_large))
      else
        a ← append spool_error [c] (accumulator s);
        let s := set_remaining (chunk_remaining s - 1) (set_accumulator a s) in
        Ret (inl (Some (if chunk_remaining s =? 0 then set_crlf_seen 0 (set_phase data_crlf s) else s)))
  | data_crlf =>
      if negb (bool_decide (c = if crlf_seen s =? 0 then CR else LF)) then Ret (inr bad_body)
      else
        let s := set_crlf_seen (crlf_seen s + 1) s in
        Ret (inl (Some (if crlf_seen s =? 2 then set_phase size_line s else s)))
  end.

Fixpoint byte_run (s : Http1BodyStreamState) (b : bytes) : outcome StreamResult :=
  match b with
  | [] => Ret (Waiting s [])
  | c :: b' =>
      r ← byte_step s c;
      match r with
      | inr failed => Ret failed
      | inl None => Ret (Finished (set_line [] s) b')
      | inl (Some s') => byte_run s' b'
      end
  end.

Lemma concat_bytes (b : bytes) : concat ((fun c => [c]) <$> b) = b.
Proof using Type. induction b as [|x b IH]; [done|]. cbn. by rewrite IH. Qed.

Lemma byte_run_app s a b :
  byte_run s (a ++ b) = (r ← byte_run s a;
    match r with
    | Waiting s' _ => byte_run s' b
    | Failed st m => Ret (Failed st m)
    | Finished s' rest => Ret (Finished s' (rest ++ b))
    end).
Proof using Type.
  revert s; induction a as [|c a IH]; intros s; [done|]. cbn [app byte_run].
  destruct (byte_step s c) as [[[s'|]|f]| |] eqn:E; cbn [mbind outcome_bind]; try done.
  - destruct f as [s' r|st m|s' r]; try done; exfalso; revert E; unfold byte_step, stream_line, bad_body;
      intros E; split_ifs; try done; by destruct (append spool_error [c] (accumulator s)).
Qed.

Definition line_phase (p : ChunkedStreamPhase) : Prop := p = size_line \/ p = trailer_line.

Lemma run_line s a b r :
  line_phase (chunked_phase s) -> LF ∉ a -> byte_run s (a ++ b) = Ret r -> r <> bad_body ->
  byte_run (set_line (line_buffer s ++ a) s) b = Ret r /\ (a <> [] -> size (line_buffer s ++ a) <= 8192).
Proof using Type.
  revert s; induction a as [|c a IH]; intros s Hp Hn E Hr.
  { rewrite app_nil_r. split; [|done]. replace (set_line (line_buffer s) s) with s by (by destruct s). exact E. }
  apply not_elem_of_cons in Hn as [Hc Hn]. cbn [app byte_run] in E.
  assert (S : byte_step s c = if 8192 <? size (line_buffer s ++ [c]) then Ret (inr bad_body)
                              else Ret (inl (Some (set_line (line_buffer s ++ [c]) s)))).
  { unfold byte_step. destruct Hp as [-> | ->]; by rewrite decide_False. }
  rewrite S in E. destruct (Z.ltb_spec 8192 (size (line_buffer s ++ [c]))) as [L|L]; cbn [mbind outcome_bind] in E.
  { injection E as <-. by destruct Hr. }
  destruct (IH (set_line (line_buffer s ++ [c]) s) Hp Hn E Hr) as [I1 I2]. cbn [line_buffer set_line] in I1, I2.
  rewrite <- app_assoc in I1, I2. split; [exact I1|]. intros _.
  destruct a as [|d a]; [done|]. by apply I2.
Qed.

Lemma run_data n l s c b :
  0 <= l -> chunked_phase s = data -> accumulator s = holding l c ->
  (1 <= n <= length b)%nat -> Z.of_nat n <= chunk_remaining s ->
  byte_run s b =
  if max_body_bytes s <? size c + Z.of_nat n then Ret (Failed 413 content_too_large)
  else
    let s := set_remaining (chunk_remaining s - Z.of_nat n) (set_accumulator (holding l (c ++ take n b)) s) in
    byte_run (if chunk_remaining s =? 0 then set_crlf_seen 0 (set_phase data_crlf s) else s) (drop n b).
Proof using no_error.
  intros Hl. revert s c b; induction n as [|n IH]; intros s c b Hp Ha Hn Hrem; [lia|].
  destruct b as [|x b]; [cbn in Hn; lia|]. cbn [byte_run]. unfold byte_step. rewrite Hp, Ha, holding_size.
  destruct (Z.ltb_spec (max_body_bytes s) (size c + 1)) as [M|M].
  { cbn [mbind outcome_bind]. by rewrite (proj2 (Z.ltb_lt _ _)) by lia. }
  rewrite append_holding by done. cbn [mbind outcome_bind].
  destruct (decide (n = 0%nat)) as [-> |Hn0].
  { by rewrite (proj2 (Z.ltb_ge _ _)) by lia. }
  assert (R : chunk_remaining (set_remaining (chunk_remaining s - 1)
                (set_accumulator (holding l (c ++ [x])) s)) =? 0 = false).
  { apply Z.eqb_neq. cbn. lia. }
  rewrite R. set (s1 := set_remaining _ _) in *.
  cbn [length] in Hn. rewrite (IH s1 (c ++ [x]) b) by (done || lia || (cbn; lia)).
  change (max_body_bytes s1) with (max_body_bytes s). change (chunk_remaining s1) with (chunk_remaining s - 1).
  rewrite length_app. cbn [length].
  replace (Z.of_nat (length c + 1) + Z.of_nat n) with (size c + Z.of_nat (S n)) by lia.
  rewrite <- app_assoc. cbn [app]. cbn zeta.
  by replace (chunk_remaining s - 1 - Z.of_nat n) with (chunk_remaining s - Z.of_nat (S n)) by lia.
Qed.

Record stream_wf (l : Z) (s : Http1BodyStreamState) : Prop := {
  wf_holding : exists c, accumulator s = holding l c;
  wf_remaining : chunked_phase s = data -> 0 < chunk_remaining s;
}.

Lemma chunk_size_nonneg line n : chunk_size_of line = Some n -> 0 <= n.
Proof using Type. unfold chunk_size_of. intros H%parse_hex_size_range. lia. Qed.

Lemma stream_line_wf l lb s s' :
  stream_wf l s -> line_phase (chunked_phase s) -> stream_line lb s = inl (Some s') -> stream_wf l s'.
Proof using Type.
  intros [Hc _] Hp. unfold stream_line. destruct (_ || _); [done|]. case_bool_decide as T.
  - destruct (take _ lb); [done|]. destruct (_ <? _); [done|]. intros [= <-]. constructor; [exact Hc|].
    cbn. destruct Hp as [-> | ->]; done.
  - destruct (chunk_size_of _) as [n|] eqn:N; [|done]. apply chunk_size_nonneg in N.
    destruct (Z.eqb_spec n 0); intros [= <-]; (constructor; [exact Hc|cbn; try done; lia]).
Qed.

Lemma stream_line_chunked lb s s' :
  stream_line lb s = inl (Some s') -> stream_chunked s' = stream_chunked s.
Proof using Type.
  unfold stream_line. destruct (_ || _); [done|]. case_bool_decide.
  - destruct (take _ lb); [done|]. destruct (_ <? _); [done|]. by intros [= <-].
  - destruct (chunk_size_of _) as [n|]; [|done]. by destruct (n =? 0); intros [= <-].
Qed.

Lemma stream_line_set lb x s : stream_line lb (set_line x s) = stream_line lb s.
Proof using Type. done. Qed.

(** The turn of the loop in each phase. *)
Lemma loop_line fuel s b :
  line_phase (chunked_phase s) -> b <> [] ->
  chunked_stream_loop spool_error (S fuel) s b =
  match find_byte LF b with
  | None => if 8192 <? size (line_buffer s ++ b) then Ret bad_body
            else Ret (Waiting (set_line (line_buffer s ++ b) s) [])
  | Some line_end =>
      match stream_line (line_buffer s ++ take (S line_end) b) s with
      | inr failed => Ret failed
      | inl None => Ret (Finished (set_line [] s) (drop (S line_end) b))
      | inl (Some s) => chunked_stream_loop spool_error fuel s (drop (S line_end) b)
      end
  end.
Proof using Type. intros Hp Hb. destruct b; [done|]. cbn [chunked_stream_loop]. by destruct Hp as [-> | ->]. Qed.

Lemma loop_data fuel s b :
  chunked_phase s = data -> b <> [] ->
  chunked_stream_loop spool_error (S fuel) s b =
  let n := Z.min (chunk_remaining s) (size b) in
  if max_body_bytes s <? size_ (accumulator s) + n then Ret (Failed 413 content_too_large)
  else
    a ← append spool_error (take (Z.to_nat n) b) (accumulator s);
    let s := set_remaining (chunk_remaining s - n) (set_accumulator a s) in
    let s := if chunk_remaining s =? 0 then set_crlf_seen 0 (set_phase data_crlf s) else s in
    chunked_stream_loop spool_error fuel s (drop (Z.to_nat n) b).
Proof using Type. intros Hp Hb. destruct b; [done|]. cbn [chunked_stream_loop]. by rewrite Hp. Qed.

Lemma loop_crlf fuel s x b :
  chunked_phase s = data_crlf ->
  chunked_stream_loop spool_error (S fuel) s (x :: b) =
  if negb (bool_decide (x = if crlf_seen s =? 0 then CR else LF)) then Ret bad_body
  else
    let s := set_crlf_seen (crlf_seen s + 1) s in
    let s := if crlf_seen s =? 2 then set_phase size_line s else s in
    chunked_stream_loop spool_error fuel s b.
Proof using Type. intros Hp. cbn [chunked_stream_loop]. by rewrite Hp. Qed.

(** Whatever byte-wise arrival leads to, so does arrival in one piece. *)
Lemma chunked_stream_loop_run l fuel s b r :
  0 <= l -> (length b <= fuel)%nat -> stream_wf l s -> byte_run s b = Ret r -> r <> bad_body ->
  chunked_stream_loop spool_error fuel s b = Ret r.
Proof using no_error.
  intros Hl. revert s b; induction fuel as [|fuel IH]; intros s b Hf W E Hr.
  { destruct b; [exact E|cbn in Hf; lia]. }
  destruct (decide (b = [])) as [-> |Hb]; [exact E|].
  assert (Lb : (0 < length b)%nat) by (destruct b; [done|cbn; lia]).
  assert (Line : line_phase (chunked_phase s) -> chunked_stream_loop spool_error (S fuel) s b = Ret r).
  { intros Hp. rewrite loop_line by done. destruct (find_byte LF b) as [i|] eqn:F.
    - pose proof (find_byte_lt _ _ _ F) as Li. apply find_byte_Some in F as [Fi Fn].
      assert (Fl : b !! i = Some LF).
      { rewrite Fi, lookup_app_r by (rewrite length_take; lia). rewrite length_take.
        by replace (i - Nat.min i (length b))%nat with 0%nat by lia. }
      clear Fi. rewrite <- (take_drop i b) in E. destruct (run_line s _ _ r Hp Fn E Hr) as [E2 _].
      rewrite (drop_S b LF i Fl) in E2. cbn [byte_run] in E2. unfold byte_step in E2.
      cbn [chunked_phase set_line line_buffer] in E2.
      rewrite (take_S_r b i LF Fl). rewrite app_assoc.
      assert (E3 : match stream_line ((line_buffer s ++ take i b) ++ [LF]) s with
                   | inr failed => Ret failed
                   | inl None => Ret (Finished (set_line [] s) (drop (S i) b))
                   | inl (Some s') => byte_run s' (drop (S i) b)
                   end = Ret r).
      { destruct Hp as [Hp|Hp]; rewrite Hp, decide_True in E2 by reflexivity;
          rewrite stream_line_set in E2; cbn [mbind outcome_bind] in E2;
          by destruct (stream_line _ s) as [[s'|]|f]. }
      destruct (stream_line _ s) as [[s'|]|f] eqn:SL; [|exact E3|exact E3].
      apply IH; [rewrite length_drop; lia| |exact E3|done]. by eapply stream_line_wf.
    - apply find_byte_None in F. rewrite <- (app_nil_r b) in E.
      destruct (run_line s b [] r Hp F E Hr) as [E2 S2]. rewrite (proj2 (Z.ltb_ge _ _)) by (apply S2; done).
      exact E2. }
  destruct W as [[c Hc] Hrem]. destruct (chunked_phase s) eqn:Hp.
  - apply Line. by left.
  - specialize (Hrem eq_refl). rewrite loop_data by done. cbn zeta. set (n := Z.min (chunk_remaining s) (size b)).
    pose proof E as D. rewrite (run_data (Z.to_nat n) l s c b Hl Hp Hc ltac:(lia) ltac:(lia)) in D.
    rewrite Z2Nat.id in D by lia. rewrite Hc, holding_size.
    destruct (Z.ltb_spec (max_body_bytes s) (size c + n)); [exact D|].
    rewrite append_holding by done. cbn [mbind outcome_bind]. cbn zeta in D.
    assert (Ln : 1 <= n <= chunk_remaining s) by lia.
    apply IH; [rewrite length_drop; lia| |exact D|done].
    cbn [chunk_remaining set_remaining set_accumulator].
    destruct (Z.eqb_spec (chunk_remaining s - n) 0) as [Z|Z]; (constructor; [by eexists|]).
    + done.
    + intros _. cbn [chunk_remaining set_remaining]. lia.
  - destruct b as [|x b]; [done|]. rewrite loop_crlf by done.
    cbn [byte_run] in E. unfold byte_step in E. rewrite Hp in E.
    destruct (negb _); [exact E|]. cbn [mbind outcome_bind] in E.
    apply IH; [cbn [length] in Hf; lia| |exact E|done].
    destruct (_ =? 2); constructor; cbn; eauto; try done. by rewrite Hp.
  - apply Line. by right.
Qed.

Lemma byte_step_wf l s c s' :
  0 <= l -> stream_wf l s -> byte_step s c = Ret (inl (Some s')) ->
  stream_wf l s' /\ stream_chunked s' = stream_chunked s.
Proof using no_error.
  intros Hl W. pose proof W as [[k Hk] Hrem]. unfold byte_step.
  assert (Line : line_phase (chunked_phase s) ->
    (if decide (c = LF) then Ret (stream_line (line_buffer s ++ [c]) s)
     else if 8192 <? size (line_buffer s ++ [c]) then Ret (inr bad_body)
     else Ret (inl (Some (set_line (line_buffer s ++ [c]) s)))) = Ret (inl (Some s')) ->
    stream_wf l s' /\ stream_chunked s' = stream_chunked s).
  { intros Hp. destruct (decide (c = LF)).
    - intros [= E]. split; [by eapply stream_line_wf|by eapply stream_line_chunked].
    - destruct (_ <? _); [done|]. intros [= <-]. split; [|done]. constructor; [by exists k|].
      cbn. destruct Hp as [-> | ->]; done. }
  destruct (chunked_phase s) eqn:Hp.
  - apply Line. by left.
  - destruct (Z.ltb_spec (max_body_bytes s) (size_ (accumulator s) + 1)); [discriminate|].
    rewrite Hk, append_holding by done. cbn [mbind outcome_bind].
    cbn [chunk_remaining set_remaining set_accumulator]. intros [= <-].
    destruct (Z.eqb_spec (chunk_remaining s - 1) 0); split; try done; constructor; cbn; eauto; try done.
    intros _. specialize (Hrem eq_refl). lia.
  - destruct (negb _); [done|]. intros [= <-].
    destruct (_ =? 2); split; try done; constructor; cbn; eauto; try done. by rewrite Hp.
  - apply Line. by right.
Qed.

Lemma byte_run_waiting l s b s' rest :
  0 <= l -> stream_wf l s -> byte_run s b = Ret (Waiting s' rest) ->
  stream_wf l s' /\ rest = [] /\ stream_chunked s' = stream_chunked s.
Proof using no_error.
  intros Hl. revert s; induction b as [|c b IH]; intros s W E; cbn [byte_run] in E.
  { by injection E as <- <-. }
  destruct (byte_step s c) as [[[s1|]|f]| |] eqn:S; cbn [mbind outcome_bind] in E; try done.
  - destruct (byte_step_wf l s c s1 Hl W S) as [W1 C1]. rewrite <- C1. by apply IH.
  - injection E as ->. exfalso. revert S. unfold byte_step, stream_line, bad_body. intros S.
    split_ifs; try done; by destruct (append spool_error [c] (accumulator s)).
Qed.

(** ... and in any segments. *)
Lemma feed_chunked l s segments r :
  0 <= l -> stream_chunked s = true -> stream_wf l s -> byte_run s (concat segments) = Ret r -> r <> bad_body ->
  feed_segments spool_error s [] segments = Ret r.
Proof using no_error.
  intros Hl. revert s; induction segments as [|g segments IH]; intros s Hk W E Hr; [exact E|].
  cbn [feed_segments concat app] in *. unfold process_http1_body_stream. rewrite Hk.
  rewrite byte_run_app in E. apply bind_Ret in E as (r1 & E1 & E2).
  unfold process_chunked_http1_body_stream.
  rewrite (chunked_stream_loop_run l _ s g r1); [|done|lia|done|done|].
  - cbn [mbind outcome_bind]. destruct r1 as [s1 rest|st m|s1 rest]; [|exact E2|exact E2].
    destruct (byte_run_waiting l s g s1 rest Hl W E1) as (W1 & -> & K1). apply IH; [by rewrite K1|done|done|done].
  - intros ->. apply Hr. by injection E2 as <-.
Qed.

(** One byte at a time, the two machines coincide. *)
Lemma feed_bytes l s b :
  0 <= l -> stream_chunked s = true -> stream_wf l s ->
  feed_segments spool_error s [] ((fun c => [c]) <$> b) = byte_run s b.
Proof using no_error.
  intros Hl. revert s; induction b as [|c b IH]; intros s Hk W; [done|].
  cbn [fmap list_fmap feed_segments byte_run app]. unfold process_http1_body_stream. rewrite Hk.
  assert (S : process_chunked_http1_body_stream spool_error s [c]
    = (r ← byte_step s c; Ret match r with
                              | inr failed => failed
                              | inl None => Finished (set_line [] s) []
                              | inl (Some s') => Waiting s' []
                              end)).
  { unfold process_chunked_http1_body_stream. change (2 * length [c])%nat with 2%nat.
    assert (Nil : forall s', chunked_stream_loop spool_error 2 s' [] = Ret (Waiting s' [])) by done.
    generalize dependent 2%nat. intros fuel Nil. cbn [length chunked_stream_loop]. unfold byte_step.
    assert (F : find_byte LF [c] = if decide (c = LF) then Some 0%nat else None).
    { cbn. by destruct (decide (c = LF)). }
    pose proof W as [[k Hkk] Hrem]. destruct (chunked_phase s) eqn:Hp; rewrite ?F.
    - destruct (decide (c = LF)); [|by destruct (_ <? _)]. cbn [take drop].
      destruct (stream_line _ s) as [[s'|]|f]; [apply Nil|done..].
    - specialize (Hrem eq_refl). cbn zeta.
      replace (Z.min (chunk_remaining s) (Z.of_nat 1)) with 1 by lia. destruct (Z.ltb_spec (max_body_bytes s) (size_ (accumulator s) + 1)); [reflexivity|].
      change (take (Z.to_nat 1) [c]) with [c]. change (drop (Z.to_nat 1) [c]) with (@nil byte).
      destruct (append spool_error [c] (accumulator s)); [apply Nil|done..].
    - destruct (negb _); [done|apply Nil].
    - destruct (decide (c = LF)); [|by destruct (_ <? _)]. cbn [take drop].
      destruct (stream_line _ s) as [[s'|]|f]; [apply Nil|done..]. }
  rewrite S. destruct (byte_step s c) as [[[s'|]|f]| |] eqn:E; cbn [mbind outcome_bind]; try done.
  - destruct (byte_step_wf l s c s' Hl W E) as [W' K']. apply IH; [by rewrite K'|done].
  - cbn [app]. by rewrite concat_bytes.
  - destruct f as [s' r|st m|s' r]; try done; exfalso; revert E; unfold byte_step, stream_line, bad_body;
      intros E; split_ifs; try done; by destruct (append spool_error [c] (accumulator s)).
Qed.

(** ** An encoded body is read back *)

Definition same_stream (s s' : Http1BodyStreamState) : Prop :=
  stream_request s' = stream_request s /\ max_body_bytes s' = max_body_bytes s /\
  stream_chunked s' = stream_chunked s.

(** Between two chunks, with [c] received. *)
Record between_chunks (l : Z) (c : bytes) (s : Http1BodyStreamState) : Prop := {
  between_phase : chunked_phase s = size_line;
  between_line : line_buffer s = [];
  between_content : accumulator s = holding l c;
}.

Lemma run_line_free s a b :
  line_phase (chunked_phase s) -> LF ∉ a -> size (line_buffer s ++ a) <= 8192 ->
  byte_run s (a ++ b) = byte_run (set_line (line_buffer s ++ a) s) b.
Proof using Type.
  revert s; induction a as [|c a IH]; intros s Hp Hn Hl.
  { rewrite app_nil_r. by destruct s. }
  apply not_elem_of_cons in Hn as [Hc Hn]. cbn [app byte_run].
  assert (S : byte_step s c = Ret (inl (Some (set_line (line_buffer s ++ [c]) s)))).
  { unfold byte_step. rewrite length_app in Hl. cbn [length] in Hl.
    assert (L : 8192 <? size (line_buffer s ++ [c]) = false)
      by (apply Z.ltb_ge; rewrite length_app; cbn [length]; lia).
    destruct Hp as [-> | ->]; rewrite decide_False by auto; by rewrite L. }
  rewrite S. cbn [mbind outcome_bind]. rewrite IH; cbn [line_buffer set_line chunked_phase];
    rewrite <- ?app_assoc; done.
Qed.

Lemma run_line_crlf s line b :
  line_phase (chunked_phase s) -> line_buffer s = [] -> LF ∉ line -> size line < 8192 ->
  byte_run s (line ++ CRLF ++ b) =
  match stream_line (line ++ CRLF) s with
  | inr failed => Ret failed
  | inl None => Ret (Finished (set_line [] s) b)
  | inl (Some s') => byte_run s' b
  end.
Proof using Type.
  intros Hp Hl Hn Hs. change (line ++ CRLF ++ b) with (line ++ [CR] ++ (LF :: b)).
  rewrite app_assoc, run_line_free; rewrite ?Hl; [|done| |rewrite !length_app; cbn [length]; lia].
  2: { apply not_elem_of_app. split; [done|]. by_decide. }
  cbn [app byte_run]. unfold byte_step. cbn [chunked_phase set_line line_buffer].
  rewrite stream_line_set, <- app_assoc. change ([CR] ++ [LF]) with CRLF.
  destruct Hp as [-> | ->]; rewrite decide_True by reflexivity; cbn [mbind outcome_bind];
    by destruct (stream_line _ s) as [[s'|]|f].
Qed.

Lemma stream_line_crlf line s :
  stream_line (line ++ CRLF) s =
  if bool_decide (chunked_phase s = trailer_line) then
    match line with
    | [] => inl None
    | _ => if 8192 <? size line then inr bad_body else inl (Some (set_line [] s))
    end
  else
    match chunk_size_of line with
    | None => inr bad_body
    | Some n => if n =? 0 then inl (Some (set_phase trailer_line (set_line [] s)))
                else inl (Some (set_phase data (set_remaining n (set_line [] s))))
    end.
Proof using Type.
  unfold stream_line. assert (L : length (line ++ CRLF) = (length line + 2)%nat) by (by rewrite length_app).
  rewrite (proj2 (Z.ltb_ge _ _)) by lia. rewrite L.
  replace (length line + 2 - 2)%nat with (length line + 0)%nat by lia.
  rewrite lookup_app_r by lia. replace (length line + 0 - length line)%nat with 0%nat by lia.
  rewrite bool_decide_true by done. cbn [negb orb]. rewrite Nat.add_0_r, take_app_length. done.
Qed.

Lemma run_crlf s b :
  chunked_phase s = data_crlf -> crlf_seen s = 0 ->
  byte_run s (CRLF ++ b) = byte_run (set_phase size_line (set_crlf_seen 2 s)) b.
Proof using Type.
  intros Hp Hc. cbn [app byte_run].
  assert (S1 : byte_step s CR = Ret (inl (Some (set_crlf_seen 1 s)))) by (unfold byte_step; by rewrite Hp, Hc).
  rewrite S1. cbn [mbind outcome_bind].
  assert (S2 : byte_step (set_crlf_seen 1 s) LF = Ret (inl (Some (set_phase size_line (set_crlf_seen 2 s)))))
    by (unfold byte_step; cbn [chunked_phase set_crlf_seen]; by rewrite Hp).
  by rewrite S2.
Qed.

Lemma run_chunk l s c ext d b :
  0 <= l -> between_chunks l c s -> wf_chunk (ext, d) -> LF ∉ ext -> size (to_hex (size d) ++ ext) < 8192 ->
  size d <= size_max -> size c + size d <= max_body_bytes s ->
  exists s', byte_run s (encode_chunk (ext, d) ++ b) = byte_run s' b /\
    between_chunks l (c ++ d) s' /\ same_stream s s'.
Proof using no_error.
  intros Hl [Hp Hb Hc] (Hd & _ & Hext) Hn Hh Hs Hm. cbn [fst snd] in *.
  unfold encode_chunk. cbn [fst snd].
  replace (((to_hex (size d) ++ ext) ++ CRLF ++ d ++ CRLF) ++ b)
    with ((to_hex (size d) ++ ext) ++ CRLF ++ (d ++ CRLF ++ b)) by (by rewrite <- !app_assoc).
  rewrite run_line_crlf; try done; [|by left|].
  2: { apply not_elem_of_app. split; [|done]. by apply (alnum_not_elem _ LF (to_hex_alnum _)). }
  rewrite stream_line_crlf, bool_decide_false by (by rewrite Hp).
  rewrite chunk_size_of_hex by (done || lia).
  assert (Ld : (0 < length d)%nat) by (destruct d; [done|cbn; lia]).
  rewrite (proj2 (Z.eqb_neq _ _)) by lia. set (s1 := set_phase data _).
  rewrite (run_data (length d) l s1 c) by (done || (rewrite length_app; lia) || (cbn; lia)).
  change (max_body_bytes s1) with (max_body_bytes s). rewrite (proj2 (Z.ltb_ge _ _)) by lia. cbn zeta.
  rewrite take_app_length, drop_app_length.
  cbn [chunk_remaining set_remaining set_accumulator set_phase s1]. rewrite Z.sub_diag. cbn [Z.eqb].
  rewrite run_crlf by done.
  eexists. split; [reflexivity|]. split; [by constructor|done].
Qed.

Definition wf_stream_chunk (c : bytes * bytes) : Prop :=
  wf_chunk c /\ LF ∉ c.1 /\ size (to_hex (size c.2) ++ c.1) < 8192 /\ size c.2 <= size_max.

Definition wf_stream_trailer (t : bytes) : Prop := wf_trailer t /\ LF ∉ t /\ size t < 8192.

Lemma run_trailers s ts b :
  chunked_phase s = trailer_line -> line_buffer s = [] -> Forall wf_stream_trailer ts ->
  byte_run s ((ts ≫= fun t => t ++ CRLF) ++ CRLF ++ b) = Ret (Finished s b).
Proof using Type.
  intros Hp Hb. assert (Id : set_line [] s = s) by (rewrite <- Hb; by destruct s).
  induction 1 as [|t ts [[Ht _] [Hn Hs]] _ IH].
  - change (([] ≫= fun t => t ++ CRLF) ++ CRLF ++ b) with ([] ++ CRLF ++ b).
    rewrite run_line_crlf; try done; [|by right|by apply not_elem_of_nil].
    rewrite stream_line_crlf, bool_decide_true by done. by rewrite Id.
  - change ((t :: ts) ≫= fun t => t ++ CRLF) with ((t ++ CRLF) ++ (ts ≫= fun t => t ++ CRLF)).
    rewrite <- !app_assoc, run_line_crlf; try done; [|by right].
    rewrite stream_line_crlf, bool_decide_true by done. destruct t as [|x t]; [done|].
    rewrite (proj2 (Z.ltb_ge _ _)) by lia. by rewrite Id.
Qed.

Lemma run_encoded l s c chunks trailers rest :
  0 <= l -> between_chunks l c s -> Forall wf_stream_chunk chunks -> Forall wf_stream_trailer trailers ->
  size (c ++ (chunks ≫= snd)) <= max_body_bytes s ->
  exists s', byte_run s (encode_chunked chunks trailers ++ rest) = Ret (Finished s' rest) /\
    accumulator s' = holding l (c ++ (chunks ≫= snd)) /\ same_stream s s'.
Proof using no_error.
  intros Hl B F Ft. revert s c B; induction F as [|[ext d] chunks (W & Hn & Hh & Hs) _ IH]; intros s c B Hm.
  - destruct B as [Hp Hb Hc]. change ([] ≫= snd) with (@nil byte). rewrite app_nil_r.
    set (tr := trailers ≫= fun t => t ++ CRLF).
    assert (E : encode_chunked [] trailers ++ rest = str "0" ++ CRLF ++ (tr ++ CRLF ++ rest))
      by (unfold encode_chunked; fold tr; by rewrite <- !app_assoc).
    rewrite E. clear E.
    rewrite (run_line_crlf s (str "0")); try done; [|by left|by_decide].
    rewrite stream_line_crlf, bool_decide_false by (by rewrite Hp).
    replace (chunk_size_of (str "0")) with (Some 0) by reflexivity. cbn [Z.eqb].
    unfold tr. rewrite run_trailers by done. eexists. split; [reflexivity|]. by repeat split.
  - unfold encode_chunked. change (((ext, d) :: chunks) ≫= encode_chunk)
      with (encode_chunk (ext, d) ++ (chunks ≫= encode_chunk)).
    change (((ext, d) :: chunks) ≫= snd) with (d ++ (chunks ≫= snd)) in *. cbn [fst snd] in *.
    rewrite !length_app in Hm. rewrite <- app_assoc, <- app_assoc.
    destruct (run_chunk l s c ext d ((chunks ≫= encode_chunk) ++ (str "0" ++ CRLF ++
       (trailers ≫= fun t => t ++ CRLF) ++ CRLF) ++ rest)) as (s1 & -> & B1 & S1); try done; [lia|].
    destruct S1 as (R1 & M1 & K1).
    destruct (IH s1 (c ++ d) B1) as (s' & E & A & S'); [rewrite M1, !length_app; lia|].
    exists s'. rewrite app_assoc. split; [exact E|]. rewrite <- app_assoc in A. split; [exact A|].
    destruct S' as (R' & M' & K'). unfold same_stream. by rewrite R', M', K'.
Qed.

(** ** What a stream may hold *)

Record bounded_stream (s : Http1BodyStreamState) : Prop := {
  bounded_wf : stream_wf memory_body_limit s;
  bounded_size : size_ (accumulator s) <= (if stream_chunked s then max_body_bytes s else stream_content_length s);
  bounded_received : stream_chunked s = false -> received s = size_ (accumulator s);
}.

Definition bounded_result (s : Http1BodyStreamState) (r : StreamResult) : Prop :=
  match r with
  | Failed status _ => stream_chunked s = true /\ (status = 400 \/ status = 413)
  | Waiting s' _ | Finished s' _ =>
      bounded_stream s' /\ same_stream s s' /\ stream_content_length s' = stream_content_length s
  end.

Lemma bounded_result_trans s s' r :
  same_stream s s' -> stream_content_length s' = stream_content_length s -> bounded_result s' r -> bounded_result s r.
Proof using Type.
  intros (R & M & K) C H. unfold bounded_result, same_stream in *. rewrite R, M, K, C in H. exact H.
Qed.

Lemma stream_line_bounded lb s :
  stream_chunked s = true -> line_phase (chunked_phase s) -> bounded_stream s ->
  match stream_line lb s with
  | inr failed => bounded_result s failed
  | inl None => True
  | inl (Some s') => bounded_stream s' /\ same_stream s s' /\ stream_content_length s' = stream_content_length s
  end.
Proof using Type.
  intros Hk Hp B. assert (Bad : bounded_result s bad_body) by (split; [done|by left]).
  destruct B as [W Hs Hr]. pose proof (stream_line_wf memory_body_limit lb s) as L. revert L.
  unfold stream_line. destruct (_ || _); [done|]. case_bool_decide.
  - destruct (take _ lb); [done|]. destruct (_ <? _); [done|]. intros L. split; [|done].
    constructor; [by apply L|exact Hs|exact Hr].
  - destruct (chunk_size_of _) as [n|]; [|done]. destruct (n =? 0); intros L; (split; [|done]);
      (constructor; [by apply L|exact Hs|exact Hr]).
Qed.

Lemma chunked_stream_loop_bounded fuel s b :
  (length b <= fuel)%nat -> stream_chunked s = true -> bounded_stream s ->
  exists r, chunked_stream_loop spool_error fuel s b = Ret r /\ bounded_result s r.
Proof using no_error.
  revert s b; induction fuel as [|fuel IH]; intros s b Hf Hk B.
  { destruct b; [|cbn in Hf; lia]. eexists. by split. }
  destruct (decide (b = [])) as [-> |Hb]; [eexists; by split|].
  assert (Lb : (0 < length b)%nat) by (destruct b; [done|cbn; lia]).
  assert (Bad : forall st m, st = 400 \/ st = 413 -> bounded_result s (Failed st m)) by (by intros; split).
  assert (Next : forall s' b', (length b' <= fuel)%nat -> bounded_stream s' -> same_stream s s' ->
    stream_content_length s' = stream_content_length s ->
    exists r, chunked_stream_loop spool_error fuel s' b' = Ret r /\ bounded_result s r).
  { intros s' b' Hf' B' S' C'. pose proof S' as (_ & _ & K).
    destruct (IH s' b' Hf') as (r & E & R); [by rewrite K|done|].
    exists r. split; [done|]. by eapply bounded_result_trans. }
  assert (Line : line_phase (chunked_phase s) ->
    exists r, chunked_stream_loop spool_error (S fuel) s b = Ret r /\ bounded_result s r).
  { intros Hp. assert (Set' : forall x, bounded_stream (set_line x s)).
    { intros x. destruct B as [[Hc Hrem] Hs Hr]. by repeat constructor. }
    rewrite loop_line by done. destruct (find_byte LF b) as [i|].
    - pose proof (stream_line_bounded (line_buffer s ++ take (S i) b) s Hk Hp B) as L.
      destruct (stream_line _ s) as [[s'|]|f]; [|eexists; split; [done|]; split; [by apply Set'|done]|by eexists].
      destruct L as (B' & S' & C'). apply Next; try done. rewrite length_drop. lia.
    - destruct (_ <? _); [eexists; split; [done|]; apply Bad; by left|]. eexists. split; [done|].
      split; [apply Set'|done]. }
  pose proof B as [[[c Hc] Hrem] Hs Hr]. rewrite Hk in Hs. destruct (chunked_phase s) eqn:Hp.
  - apply Line. by left.
  - specialize (Hrem eq_refl). rewrite loop_data by done. cbn zeta. set (n := Z.min (chunk_remaining s) (size b)).
    destruct (Z.ltb_spec (max_body_bytes s) (size_ (accumulator s) + n)) as [M|M];
      [eexists; split; [done|]; apply Bad; by right|].
    rewrite Hc, append_holding by by_decide. cbn [mbind outcome_bind].
    assert (Ln : size (take (Z.to_nat n) b) = n) by (rewrite length_take; lia).
    rewrite Hc, holding_size in M.
    set (c' := c ++ take (Z.to_nat n) b). assert (Lc : size c' = size c + n) by (unfold c'; rewrite length_app; lia).
    cbn [chunk_remaining set_remaining set_accumulator].
    destruct (Z.eqb_spec (chunk_remaining s - n) 0) as [Z|Z]; (apply Next; [rewrite length_drop; lia| |done|done]);
      (constructor; [constructor; [by exists c'|]|cbn; rewrite Hk, holding_size; lia|cbn; congruence]).
    + done.
    + intros _. cbn. lia.
  - destruct b as [|x b]; [done|]. rewrite loop_crlf by done.
    destruct (negb _); [eexists; split; [done|]; apply Bad; by left|]. cbn [length] in Hf. cbn zeta.
    cbn [crlf_seen set_crlf_seen].
    destruct (_ =? 2); (apply Next; [lia| |done|done]);
      (constructor; [constructor; [by exists c|]|cbn; rewrite ?Hk; lia|cbn; congruence]); cbn; rewrite ?Hp; done.
  - apply Line. by right.
Qed.

Lemma process_bounded s b :
  0 <= stream_content_length s -> bounded_stream s ->
  exists r, process_http1_body_stream spool_error s b = Ret r /\ bounded_result s r.
Proof using no_error.
  intros Hn B. unfold process_http1_body_stream. destruct (stream_chunked s) eqn:Hk.
  { apply chunked_stream_loop_bounded; [lia|done..]. }
  destruct B as [[[c Hc] Hrem] Hs Hr]. rewrite Hk in Hs. specialize (Hr Hk). rewrite Hc, holding_size in Hs, Hr.
  unfold process_content_length_http1_body_stream.
  assert (Lim : memory_limit_ (accumulator s) = memory_body_limit)
    by (rewrite Hc; unfold holding; by destruct (_ <=? _)).
  rewrite (content_length_loop_spec _ s b c); rewrite ?Lim; try done.
  cbn [mbind outcome_bind mret outcome_ret]. set (k := Z.to_nat _). set (s' := set_received _ _).
  assert (Lk : size (c ++ take k b) <= stream_content_length s)
    by (unfold k; rewrite length_app, length_take; lia).
  assert (B : bounded_stream s').
  { constructor; [constructor; [by eexists|exact Hrem]|..]; cbn; rewrite ?Hk, holding_size; done. }
  eexists. split; [reflexivity|]. by destruct (_ =? _).
Qed.

Lemma feed_bounded s buffer segments :
  0 <= stream_content_length s -> bounded_stream s ->
  exists r, feed_segments spool_error s buffer segments = Ret r /\ bounded_result s r.
Proof using no_error.
  revert s buffer; induction segments as [|g segments IH]; intros s buffer Hn B.
  { eexists. by split. }
  cbn [feed_segments]. destruct (process_bounded s (buffer ++ g) Hn B) as (r & -> & R).
  cbn [mbind outcome_bind]. destruct r as [s' rest|st m|s' rest]; [|by eexists..].
  destruct R as (B' & S' & C'). destruct (IH s' rest) as (r & E & R'); [by rewrite C'|done|].
  exists r. split; [done|]. by eapply bounded_result_trans.
Qed.

Lemma start_bounded request frame m :
  0 <= (if consumed frame <? m then m - consumed frame else 0) ->
  0 <= default 0 (frame_content_length frame) -> bounded_stream (start_body_stream request frame m).
Proof using Type.
  intros Hm Hn. constructor; [constructor; [by exists []|done]| |done].
  cbn. by destruct (frame_chunked frame).
Qed.

Lemma start_between request frame m : between_chunks memory_body_limit [] (start_body_stream request frame m).
Proof using Type. by constructor. Qed.

Lemma finish_stored request a c l other path :
  body_file request = None -> a = holding l c -> 
  stored_body (fun p => if bool_decide (p = path) then spool_file a else other p) (finish path request a) c.
Proof using Type.
  intros Hb ->. unfold finish, stored_body, holding. destruct (_ <=? _); cbn.
  - rewrite Hb. split; [done|by right].
  - by rewrite bool_decide_true.
Qed.
End lemmas.

(** ** Every pass over the buffer ends

    In any state, and whether or not the spool file can be written. *)

Section ending.
Context (spool_error : bytes -> option string).

Lemma settles_append d a : settles (append spool_error d a).
Proof using. unfold append, ensure_spool_file, write_spool. auto 20 with settles. Qed.
#[local] Hint Resolve settles_append : settles.

Lemma settles_content_length_loop fuel s b :
  (length b <= fuel)%nat -> settles (content_length_loop spool_error fuel s b).
Proof using.
  revert s b; induction fuel as [|fuel IH]; intros s b Hf; cbn [content_length_loop];
    destruct b as [|x b]; cbn [length] in Hf; try done; [lia|].
  rewrite bool_decide_eq_false_2 by done. cbn [negb andb].
  destruct (Z.ltb_spec (received s) (stream_content_length s)); [|done].
  apply settles_bind; [auto with settles|]. intros a _. apply IH. rewrite length_drop. cbn [length]. lia.
Qed.

(** In the data of a chunk a turn may take nothing. *)
Definition turns_left (s : Http1BodyStreamState) (b : bytes) : nat :=
  2 * length b + (if bool_decide (chunked_phase s = data) then 1 else 0).

Lemma turns_left_bound s b : (turns_left s b <= S (2 * length b))%nat.
Proof using. unfold turns_left. case_bool_decide; lia. Qed.

Lemma settles_chunked_stream_loop fuel s b :
  (turns_left s b <= fuel)%nat -> settles (chunked_stream_loop spool_error fuel s b).
Proof using.
  revert s b; induction fuel as [|fuel IH]; intros s b Hf; cbn [chunked_stream_loop];
    destruct b as [|x b]; try done; [unfold turns_left in Hf; cbn [length] in Hf; lia|].
  assert (Shorter : forall s' n, (0 < n)%nat -> settles (chunked_stream_loop spool_error fuel s' (drop n (x :: b)))).
  { intros s' n Hn. apply IH. pose proof (turns_left_bound s' (drop n (x :: b))) as T. revert T.
    rewrite length_drop. unfold turns_left in Hf. cbn [length] in *. lia. }
  assert (Line : settles
    match find_byte LF (x :: b) with
    | None => let lb := line_buffer s ++ x :: b in
              if 8192 <? size lb then Ret bad_body else Ret (Waiting (set_line lb s) [])
    | Some line_end =>
        match stream_line (line_buffer s ++ take (S line_end) (x :: b)) s with
        | inr failed => Ret failed
        | inl None => Ret (Finished (set_line [] s) (drop (S line_end) (x :: b)))
        | inl (Some s) => chunked_stream_loop spool_error fuel s (drop (S line_end) (x :: b))
        end
    end).
  { destruct (find_byte LF (x :: b)); [|cbv zeta; by destruct (_ <? _)].
    destruct (stream_line _ s) as [[s'|]|f]; [apply Shorter; lia|done..]. }
  destruct (chunked_phase s) eqn:Hp; [exact Line| | |exact Line].
  - cbv zeta. destruct (_ <? _); [done|]. apply settles_bind; [auto with settles|]. intros a _.
    destruct (Z.to_nat (Z.min (chunk_remaining s) (size (x :: b)))) as [|n] eqn:Hn; [|apply Shorter; lia].
    cbn [chunk_remaining set_remaining set_accumulator].
    replace (chunk_remaining s - Z.min (chunk_remaining s) (size (x :: b))) with 0 by (cbn [length] in *; lia).
    cbn [Z.eqb]. apply IH. unfold turns_left in *. rewrite Hp in Hf. rewrite bool_decide_eq_true_2 in Hf by done.
    cbn [chunked_phase set_crlf_seen set_phase]. rewrite bool_decide_eq_false_2 by done. change (drop 0 (x :: b)) with (x :: b). lia.
  - destruct (negb _); [done|]. cbv zeta. apply Shorter. lia.
Qed.

Lemma settles_process_body s b : settles (process_http1_body_stream spool_error s b).
Proof using.
  unfold process_http1_body_stream, process_chunked_http1_body_stream, process_content_length_http1_body_stream.
  destruct (stream_chunked s); [apply settles_chunked_stream_loop, turns_left_bound|].
  apply settles_bind; [by apply settles_content_length_loop|]. intros [s' rest] _. done.
Qed.
End ending.

(** ** Properties *)

(** How a client may write a body after the given head: as many bytes as it
    announced, or in chunks. *)
Definition encodes_body (frame : Http1FrameResult) (content encoded : bytes) : Prop :=
  if frame_chunked frame then
    exists chunks trailers, Forall wf_stream_chunk chunks /\ Forall wf_stream_trailer trailers /\
      encoded = encode_chunked chunks trailers /\ content = (chunks ≫= snd)
  else
    frame_content_length frame = Some (size content) /\ content <> [] /\ encoded = content.

Definition stream_limit (frame : Http1FrameResult) (max_request_bytes : Z) : Z :=
  if consumed frame <? max_request_bytes then max_request_bytes - consumed frame else 0.

(** C29. A request body that is streamed arrives completely: however the network
    cuts the body into segments, announced by its length or sent in chunks with
    extensions and trailers, the stream finishes exactly at its end, hands the
    request on with the whole content, in memory up to 16 KiB and in the spool
    file beyond, and leaves what follows (a pipelined request) in the buffer. *)
Theorem streamed_body_complete (spool_error : bytes -> option string) (other : bytes -> option bytes)
    (path : bytes) (request : Request) (frame : Http1FrameResult) (max_request_bytes : Z)
    (content encoded rest : bytes) (segments : list bytes) :
  no_spool_error spool_error -> body_file request = None ->
  encodes_body frame content encoded -> size content <= stream_limit frame max_request_bytes ->
  concat segments = encoded ++ rest ->
  exists s, feed_segments spool_error (start_body_stream request frame max_request_bytes) [] segments
              = Ret (Finished s rest) /\
    stream_request s = request /\
    stored_body (fun p => if bool_decide (p = path) then spool_file (accumulator s) else other p)
      (finish path request (accumulator s)) content /\
    size (body (finish path request (accumulator s))) <= memory_body_limit.
Proof.
  intros no_error Hb He Hs Hc. set (s0 := start_body_stream request frame max_request_bytes).
  assert (M : 0 <= memory_body_limit) by by_decide.
  cut (exists s, feed_segments spool_error s0 [] segments = Ret (Finished s rest) /\
    stream_request s = request /\ accumulator s = holding memory_body_limit content).
  { intros (s & E & R & A). exists s. split; [done|]. split; [done|]. split; [by eapply finish_stored|].
    rewrite A. unfold finish, holding. destruct (Z.leb_spec (size content) memory_body_limit); done. }
  unfold encodes_body in He. destruct (frame_chunked frame) eqn:K.
  - destruct He as (chunks & trailers & Fc & Ft & -> & ->).
    destruct (run_encoded spool_error no_error memory_body_limit s0 [] chunks trailers rest M
      (start_between request frame max_request_bytes) Fc Ft Hs) as (s & E & A & (R & _)).
    exists s. split; [|done]. rewrite <- Hc in E.
    eapply feed_chunked; eauto; try done. constructor; [by exists []|done].
  - destruct He as (L & Hne & ->). destruct content as [|x content]; [done|]. set (c := x :: content) in *.
    assert (N : stream_content_length s0 = size c) by (cbn; by rewrite L).
    pose proof (feed_sized spool_error no_error memory_body_limit (size c) [] s0 segments M K N) as F.
    cbn zeta in F. cbn [app] in F. rewrite Hc in F. rewrite Nat2Z.id, take_app_length, drop_app_length in F.
    rewrite (proj2 (Z.leb_le _ _)) in F by (rewrite length_app; lia).
    change (sized_state memory_body_limit [] s0) with s0 in F. rewrite F by (cbn; lia). by eexists.
Qed.

Definition chunked_head : Http1FrameResult :=
  mk_frame_result header_complete None None [] 58 true true false 400 bad_request.
Definition sized_head (n : Z) : Http1FrameResult :=
  mk_frame_result header_complete None (Some n) [] 58 true false false 400 bad_request.

Lemma streamed_body_complete_witness :
  let wire := [str "5;a=b"; [CR]; [LF] ++ str "hel"; str "lo"; CRLF ++ str "0"; CRLF ++ str "X: y"; CRLF ++ CRLF ++ str "GET"] in
  exists s, feed_segments (fun _ => None) (start_body_stream empty_request chunked_head 1000) [] wire
              = Ret (Finished s (str "GET")) /\
    stream_request s = empty_request /\
    stored_body (fun p => if bool_decide (p = str "/tmp/s") then spool_file (accumulator s) else None)
      (finish (str "/tmp/s") empty_request (accumulator s)) (str "hello") /\
    size (body (finish (str "/tmp/s") empty_request (accumulator s))) <= memory_body_limit.
Proof.
  apply (streamed_body_complete (fun _ => None) (fun _ => None) (str "/tmp/s") empty_request chunked_head 1000
    (str "hello") (encode_chunked [(str ";a=b", str "hello")] [str "X: y"])); try done.
  exists [(str ";a=b", str "hello")], [str "X: y"]. split; [|split; [|done]].
  - apply Forall_singleton. split; [split; [done|split; [by_decide|by right]]|]. by_decide.
  - apply Forall_singleton. split; [split; [done|by_decide]|]. by_decide.
Defined.

(** The outcome of a streamed body does not depend on how the network cut it
    into segments: whatever the bytes lead to when they arrive one by one - the
    body and the bytes that follow it, or a refusal because it is too large, or
    waiting for more - they lead to in any other segmentation.  (Only what is
    refused as malformed byte by byte may be accepted in larger pieces: the
    limit on a chunk-size line is applied to lines that arrive in pieces.) *)
Theorem stream_segmentation (spool_error : bytes -> option string) (request : Request)
    (frame : Http1FrameResult) (max_request_bytes : Z) (segments : list bytes) (r : StreamResult) :
  no_spool_error spool_error ->
  frame_chunked frame = true \/ 0 < default 0 (frame_content_length frame) ->
  feed_segments spool_error (start_body_stream request frame max_request_bytes) []
    ((fun c => [c]) <$> concat segments) = Ret r ->
  r <> bad_body ->
  feed_segments spool_error (start_body_stream request frame max_request_bytes) [] segments = Ret r.
Proof.
  intros no_error Hf E Hr. set (s0 := start_body_stream request frame max_request_bytes) in *.
  assert (M : 0 <= memory_body_limit) by by_decide.
  destruct (frame_chunked frame) eqn:K.
  - assert (W : stream_wf memory_body_limit s0) by (constructor; [by exists []|done]).
    rewrite (feed_bytes spool_error no_error memory_body_limit) in E by done.
    by eapply feed_chunked.
  - destruct Hf as [|Hn]; [done|].
    pose proof (fun segs => feed_sized spool_error no_error memory_body_limit _ [] s0 segs M K eq_refl Hn) as F.
    cbn zeta in F. change (sized_state memory_body_limit [] s0) with s0 in F. cbn [app] in F.
    rewrite F in E. rewrite F, <- E. by rewrite concat_bytes.
Qed.

Lemma stream_segmentation_witness :
  feed_segments (fun _ => None) (start_body_stream empty_request (sized_head 5) 1000) []
    [str "he"; []; str "lloGET"]
  = Ret (Finished (set_received 5 (set_accumulator (holding memory_body_limit (str "hello"))
      (start_body_stream empty_request (sized_head 5) 1000))) (str "GET")).
Proof. apply stream_segmentation; [done|by right|by vm_compute|done]. Defined.

(** A streamed body never takes more than it may: whatever the client sends,
    in whatever segments, the stream ends its pass over the buffer without a
    fault, a chunked body can only be refused as malformed (400) or too large
    (413), and what was accepted never exceeds the request limit (or the
    announced length), with at most 16 KiB of it in memory. *)
Theorem streamed_body_bounded (spool_error : bytes -> option string) (request : Request)
    (frame : Http1FrameResult) (max_request_bytes : Z) (segments : list bytes) :
  no_spool_error spool_error -> 0 <= default 0 (frame_content_length frame) ->
  exists r, feed_segments spool_error (start_body_stream request frame max_request_bytes) [] segments = Ret r /\
  match r with
  | Failed status _ => frame_chunked frame = true /\ (status = 400 \/ status = 413)
  | Waiting s _ | Finished s _ =>
      exists content, accumulator s = holding memory_body_limit content /\
        size (memory_ (accumulator s)) <= memory_body_limit /\
        size content <= (if frame_chunked frame then stream_limit frame max_request_bytes
                         else default 0 (frame_content_length frame))
  end.
Proof.
  intros no_error Hn. set (s0 := start_body_stream request frame max_request_bytes).
  assert (B : bounded_stream s0).
  { apply start_bounded; [|done]. destruct (Z.ltb_spec (consumed frame) max_request_bytes); lia. }
  destruct (feed_bounded spool_error no_error s0 [] segments Hn B) as (r & E & R).
  exists r. split; [done|].
  assert (G : forall s, bounded_stream s -> same_stream s0 s -> stream_content_length s = stream_content_length s0 ->
    exists content, accumulator s = holding memory_body_limit content /\
      size (memory_ (accumulator s)) <= memory_body_limit /\
      size content <= (if frame_chunked frame then stream_limit frame max_request_bytes
                       else default 0 (frame_content_length frame))).
  { intros s [[[c Hc] _] Hs _] (_ & M & K) C. exists c. split; [done|]. rewrite Hc, holding_size in *.
    rewrite K, M, C in Hs. split; [|exact Hs]. unfold holding.
    destruct (Z.leb_spec (size c) memory_body_limit); done. }
  destruct r as [s rest|st m|s rest]; [|exact R|]; apply G; apply R.
Qed.

Lemma streamed_body_bounded_witness :
  exists r, feed_segments (fun _ => None) (start_body_stream empty_request chunked_head 62) []
    [str "5"; CRLF ++ str "hello"] = Ret r /\
  match r with
  | Failed status _ => frame_chunked chunked_head = true /\ (status = 400 \/ status = 413)
  | Waiting s _ | Finished s _ =>
      exists content, accumulator s = holding memory_body_limit content /\
        size (memory_ (accumulator s)) <= memory_body_limit /\
        size content <= (if frame_chunked chunked_head then stream_limit chunked_head 62
                         else default 0 (frame_content_length chunked_head))
  end.
Proof. apply (streamed_body_bounded (fun _ => None) empty_request chunked_head 62); done. Defined.
