(* ===== verification/Http2Session.v ===== *)
(** * Http2Session: the server side of an HTTP/2 connection

    Models [src/src/protocol/http2_session.cpp]: the frames the server writes,
    the connection preface, the state machine over client frames (header
    blocks with continuations, data and flow control, settings, resets), the
    translation of a completed stream to a request, and response frames.
    Every operation returns the new session also when it throws. *)

From S2P Require Import Prelude Text Numbers Http2Frame Hpack Request Http1Frame Response StaticFiles Handler.

Definition flag_end_stream : Z := 0x1.
Definition flag_end_headers : Z := 0x4.
Definition flag_padded : Z := 0x8.
Definition flag_priority : Z := 0x20.

Definition error_no_error : Z := 0x0.
Definition error_protocol : Z := 0x1.
Definition error_internal : Z := 0x2.
Definition error_flow_control : Z := 0x3.
Definition error_stream_closed : Z := 0x5.
Definition error_compression : Z := 0x9.
Definition error_enhance_your_calm : Z := 0xb.
Definition error_http_1_1_required : Z := 0xd.

(** ** Writing frames *)

Definition u32_payload (v : Z) : bytes :=
  [u8 (Z.land (v ≫ 24) 0xff); u8 (Z.land (v ≫ 16) 0xff);
   u8 (Z.land (v ≫ 8) 0xff); u8 (Z.land v 0xff)].

Definition frame_string (f : Frame) : outcome bytes := serialize_frame f default_max_frame_size.

Definition settings_frame (ack : bool) : outcome bytes :=
  frame_string (mk_frame (frame_type_value Http2Frame.settings) (u8 (if ack then 1 else 0)) 0 []).

Definition rst_stream_frame (id error_code : Z) : outcome bytes :=
  frame_string (mk_frame (frame_type_value rst_stream) (u8 0) id (u32_payload error_code)).

Definition ping_frame (p : bytes) (ack : bool) : outcome bytes :=
  frame_string (mk_frame (frame_type_value ping) (u8 (if ack then 1 else 0)) 0 p).

Definition window_update_frame (id increment : Z) : outcome bytes :=
  frame_string (mk_frame (frame_type_value window_update) (u8 0) id
                  (u32_payload (Z.land increment 0x7fffffff))).

Definition headers_frame (id : Z) (fields : list HeaderField) (end_stream : bool) : outcome bytes :=
  block ← hpack_encode_header_block fields;
  frame_string (mk_frame (frame_type_value Http2Frame.headers)
                  (u8 (Z.lor flag_end_headers (if end_stream then flag_end_stream else 0))) id block).

Definition data_frame (id : Z) (p : bytes) (end_stream : bool) : outcome bytes :=
  frame_string (mk_frame (frame_type_value data) (u8 (if end_stream then flag_end_stream else 0)) id p).

(** The last stream identifier is always written as 0. *)
Definition goaway_frame (error_code : Z) (debug_data : bytes) : outcome bytes :=
  frame_string (mk_frame (frame_type_value goaway) (u8 0) 0
                  (u32_payload 0 ++ u32_payload error_code ++ debug_data)).

(** ** Header fields and payloads *)

Definition header_name_has_uppercase (n : bytes) : bool := existsb isupper n.

Definition forbidden_request_header (n v : bytes) : bool :=
  if bool_decide (n = str "te") then negb (bool_decide (lowercase v = str "trailers"))
  else bool_decide (n = str "connection") || bool_decide (n = str "keep-alive")
       || bool_decide (n = str "proxy-connection") || bool_decide (n = str "transfer-encoding")
       || bool_decide (n = str "upgrade").

Definition forbidden_response_header (n : bytes) : bool :=
  bool_decide (n = str "connection") || bool_decide (n = str "keep-alive")
  || bool_decide (n = str "proxy-authenticate") || bool_decide (n = str "proxy-authorization")
  || bool_decide (n = str "te") || bool_decide (n = str "trailer")
  || bool_decide (n = str "transfer-encoding") || bool_decide (n = str "upgrade").

(** [end -= padding], with the cursor after the length byte: the bounds of
    the unpadded part. *)
Definition padded_bounds (f : Frame) : option (nat * nat) :=
  let p := Http2Frame.payload f in
  if has_flag (val (flags f)) flag_padded then
    match p with
    | [] => None
    | padding :: _ =>
        if size p - 1 <? val padding then None
        else Some (1%nat, (length p - Z.to_nat (val padding))%nat)
    end
  else Some (0%nat, length p).

Definition header_block_payload (f : Frame) : option bytes :=
  '(cursor, last) ← padded_bounds f;
  cursor ← (if has_flag (val (flags f)) flag_priority
            then if (last - cursor <? 5)%nat then None else Some (cursor + 5)%nat
            else Some cursor);
  if (last <? cursor)%nat then None
  else Some (substr (Http2Frame.payload f) cursor (last - cursor)).

Definition data_payload (f : Frame) : option bytes :=
  '(cursor, last) ← padded_bounds f;
  if (last <? cursor)%nat then None
  else Some (substr (Http2Frame.payload f) cursor (last - cursor)).

(** ** Responses *)

Definition response_may_have_body (status : Z) : bool :=
  (200 <=? status) && negb (status =? 204) && negb (status =? 304).

Section responses.
Context `{MapOrder bytes}.

Definition apply_response_defaults (r : Response) (o : SerializationOptions) : Response :=
  let h := if negb (status r =? 101)
           then fold_left add_default (order (default_headers o)) (Response.headers r)
           else Response.headers r in
  let h := if negb (status r =? 101) && negb (status r =? 204)
              && negb (bool_decide (is_Some (h !! str "transfer-encoding")))
           then <[str "content-length" := to_string (size (Response.body r))]> h else h in
  let h := if server_header_enabled o
           then <[str "server" := if bool_decide (server_name o = []) then str "Rimau Web Server"
                                  else server_name o]> h
           else delete (str "server") h in
  mk_response (status r) (reason r) h (Response.body r).

(** One turn of the loop over the headers: invalid and forbidden names are
    skipped. *)
Definition response_field (nv : bytes * bytes) : list HeaderField :=
  let n := lowercase nv.1 in
  if negb (valid_header_name n) || forbidden_response_header n then []
  else [mk_field n (sanitize_header_value nv.2)].

Definition response_fields (r : Response) : list HeaderField :=
  mk_field (str ":status") (to_string (status r)) :: (order (Response.headers r) ≫= response_field).

(** [for (offset = 0; offset < body.size();)]: every turn sends at least one
    byte, [fuel] is the size of the rest. *)
Fixpoint body_frames (fuel : nat) (id : Z) (rest : bytes) : outcome bytes :=
  match rest with
  | [] => mret []
  | _ =>
      match fuel with
      | O => Timeout
      | S fuel' =>
          let chunk_size := Nat.min (length rest) (Z.to_nat default_max_frame_size) in
          let end_stream := bool_decide (chunk_size = length rest) in
          f ← data_frame id (take chunk_size rest) end_stream;
          fs ← body_frames fuel' id (drop chunk_size rest);
          mret (f ++ fs)
      end
  end.

Definition serialize_response (id : Z) (input : Response) (body_mode : BodyMode)
    (o : SerializationOptions) : outcome bytes :=
  let r := apply_response_defaults input o in
  let include_body := bool_decide (body_mode = include) && response_may_have_body (status r) in
  let no_body := negb include_body || bool_decide (Response.body r = []) in
  h ← headers_frame id (response_fields r) no_body;
  if no_body then mret h
  else b ← body_frames (length (Response.body r)) id (Response.body r); mret (h ++ b).
End responses.

(** ** The session *)

Inductive StreamLifecycle : Type := open | half_closed_remote.

#[export] Instance StreamLifecycle_eq_dec : EqDecision StreamLifecycle.
Proof. solve_decision. Defined.

Record StreamState : Type := mk_stream {
  state_id : Z;
  headers_received : bool;
  lifecycle : StreamLifecycle;
  inbound_window : Z;
  stream_headers : list HeaderField;
  stream_body : bytes;
}.

Definition new_stream : StreamState := mk_stream 0 false open 65535 [] [].

Record PendingHeaderBlock : Type := mk_pending {
  pending_stream_id : Z;
  pending_end_stream : bool;
  pending_block : bytes;
}.

Record ServerSession : Type := mk_session {
  active_ : bool;
  last_client_stream_id_ : Z;
  connection_inbound_window_ : Z;
  decoder_ : HpackDecoder;
  pending_headers_ : option PendingHeaderBlock;
  streams_ : gmap Z StreamState;
}.

Definition new_session : ServerSession := mk_session false 0 65535 new_decoder None ∅.

Record CompletedStream : Type := mk_completed {
  completed_id : Z;
  completed_request : Request;
}.

Record SessionResult : Type := mk_result {
  output : bytes;
  keep_connection : bool;
  close_now : bool;
  completed_stream : option CompletedStream;
  error_response : option Response;
  error_stream_id : Z;
  warning : string;
}.

Definition empty_result : SessionResult := mk_result [] true false None None 0 "".
Definition output_result (out : bytes) : SessionResult := mk_result out true false None None 0 "".

Inductive PrefaceStatus : Type := not_http2 | need_more | accepted | rejected.

Record PrefaceResult : Type := mk_preface {
  preface_status : PrefaceStatus;
  preface_output : bytes;
  preface_keep_connection : bool;
}.

Definition set_active (b : bool) (s : ServerSession) : ServerSession :=
  mk_session b (last_client_stream_id_ s) (connection_inbound_window_ s) (decoder_ s)
    (pending_headers_ s) (streams_ s).
Definition set_last_client (i : Z) (s : ServerSession) : ServerSession :=
  mk_session (active_ s) i (connection_inbound_window_ s) (decoder_ s) (pending_headers_ s) (streams_ s).
Definition set_window (w : Z) (s : ServerSession) : ServerSession :=
  mk_session (active_ s) (last_client_stream_id_ s) w (decoder_ s) (pending_headers_ s) (streams_ s).
Definition set_decoder (d : HpackDecoder) (s : ServerSession) : ServerSession :=
  mk_session (active_ s) (last_client_stream_id_ s) (connection_inbound_window_ s) d
    (pending_headers_ s) (streams_ s).
Definition set_pending (p : option PendingHeaderBlock) (s : ServerSession) : ServerSession :=
  mk_session (active_ s) (last_client_stream_id_ s) (connection_inbound_window_ s) (decoder_ s) p (streams_ s).
Definition set_streams (m : gmap Z StreamState) (s : ServerSession) : ServerSession :=
  mk_session (active_ s) (last_client_stream_id_ s) (connection_inbound_window_ s) (decoder_ s)
    (pending_headers_ s) m.

Definition reset (s : ServerSession) : ServerSession :=
  mk_session false 0 65535 (Hpack.reset (decoder_ s)) None ∅.

Definition active (s : ServerSession) : bool := active_ s.

Definition reset_stream (i : Z) (s : ServerSession) : ServerSession :=
  set_streams (delete i (streams_ s)) s.

(** ** Results *)

Definition fail_connection (error_code : Z) (debug_data : string) (s : ServerSession)
    : ServerSession * outcome SessionResult :=
  (set_active false (set_pending None (set_streams ∅ s)),
   out ← goaway_frame error_code (str debug_data);
   mret (mk_result out false false None None 0 "")).

Definition reset_stream_result (i error_code : Z) (s : ServerSession)
    : ServerSession * outcome SessionResult :=
  (reset_stream i s, out ← rst_stream_frame i error_code; mret (output_result out)).

(** ** A completed stream becomes a request *)

Record Collected : Type := mk_collected {
  pseudo_headers : gmap bytes bytes;
  request_headers : Request.Headers;
  regular_header_seen : bool;
  content_length : option Z;
}.

Definition no_fields : Collected := mk_collected ∅ ∅ false None.

(** [headers[name] = value], or the values of a repeated name joined. *)
Definition merge_header (n v : bytes) (h : Request.Headers) : Request.Headers :=
  <[n := match h !! n with
         | None => v
         | Some old => old ++ str (if bool_decide (n = str "cookie") then "; " else ", ") ++ v
         end]> h.

Definition is_request_pseudo (n : bytes) : bool :=
  bool_decide (n = str ":method") || bool_decide (n = str ":path")
  || bool_decide (n = str ":scheme") || bool_decide (n = str ":authority").

(** One turn of the loop over the fields; [None] answers 400. *)
Definition collect_field (c : Collected) (field : HeaderField) : option Collected :=
  let n := lowercase (Hpack.name field) in
  let v := Hpack.value field in
  if bool_decide (n = []) || header_name_has_uppercase (Hpack.name field)
     || header_value_has_invalid_control v
  then None
  else if bool_decide (head n = Some (chr ":")) then
    if negb (is_request_pseudo n) then None
    else if regular_header_seen c || bool_decide (is_Some (pseudo_headers c !! n)) then None
    else Some (mk_collected (<[n := v]> (pseudo_headers c)) (request_headers c) false
                            (content_length c))
  else if negb (valid_header_name n) || forbidden_request_header n v then None
  else
    cl ← (if bool_decide (n = str "content-length") then
            match content_length c with
            | Some _ => None
            | None => parsed ← parse_decimal_size (trim v); Some (Some parsed)
            end
          else Some (content_length c));
    Some (mk_collected (pseudo_headers c) (merge_header n v (request_headers c)) true cl).

Fixpoint collect_fields (fields : list HeaderField) (c : Collected) : option Collected :=
  match fields with
  | [] => Some c
  | field :: fields' => c' ← collect_field c field; collect_fields fields' c'
  end.

(** [RequestBuildResult]: the request, or the error response. *)
Inductive RequestBuildResult : Type :=
| Built (request : Request)
| Refused (response : Response).

Definition build_error : RequestBuildResult :=
  Refused (text_response 400 (str "Bad Request" ++ [LF]) text_plain).

Definition set_version (v : bytes) (r : Request) : Request :=
  mk_request (method r) (target r) (Request.path r) (query_string r) v (Request.headers r) (query_params r)
    (Request.body r) (body_size_bytes r) (body_file r).

Section session.
Context `{MapOrder bytes}.

(** The HTTP/1 message that [parse_request] reads. *)
Definition raw_request (m p : bytes) (h : Request.Headers) (cl : option Z) (b : bytes) : bytes :=
  m ++ [SP] ++ p ++ str " HTTP/1.1" ++ CRLF
  ++ (order h ≫= fun nv => nv.1 ++ str ": " ++ nv.2 ++ CRLF)
  ++ (if negb (bool_decide (b = [])) && negb (bool_decide (is_Some cl))
      then str "content-length: " ++ to_string (size b) ++ CRLF else [])
  ++ CRLF ++ b.

Definition build_request (stream : StreamState) : RequestBuildResult :=
  match collect_fields (stream_headers stream) no_fields with
  | None => build_error
  | Some c =>
      match pseudo_headers c !! str ":method", pseudo_headers c !! str ":path",
            pseudo_headers c !! str ":scheme" with
      | Some m, Some p, Some scheme =>
          if negb (bool_decide (scheme = str "http")) && negb (bool_decide (scheme = str "https"))
          then build_error
          else if match content_length c with
                  | Some n => negb (n =? size (stream_body stream))
                  | None => false
                  end
          then build_error
          else
            let with_host :=
              match pseudo_headers c !! str ":authority" with
              | None => Some (request_headers c)
              | Some authority =>
                  match request_headers c !! str "host" with
                  | Some host =>
                      if bool_decide (host = authority)
                      then Some (<[str "host" := authority]> (request_headers c)) else None
                  | None => Some (<[str "host" := authority]> (request_headers c))
                  end
              end in
            match with_host with
            | None => build_error
            | Some h =>
                match parse_request (raw_request m p h (content_length c) (stream_body stream)) with
                | Rejected _ _ => build_error
                | Parsed r => Built (set_version (str "HTTP/2") r)
                end
            end
      | _, _, _ => build_error
      end
  end.

Definition complete_stream (i : Z) (s : ServerSession) : ServerSession * outcome SessionResult :=
  match streams_ s !! i with
  | None => reset_stream_result i error_stream_closed s
  | Some stream =>
      (reset_stream i s,
       mret match build_request stream with
            | Refused response => mk_result [] true false None (Some response) i ""
            | Built request => mk_result [] true false (Some (mk_completed i request)) None 0 ""
            end)
  end.

(** ** Frames *)

Definition decode_headers (i : Z) (end_stream : bool) (block : bytes) (s : ServerSession)
    : ServerSession * outcome SessionResult :=
  let '(d, decoded) := decode_header_block (decoder_ s) block in
  let s := set_decoder d s in
  match decoded with
  | Timeout => (s, Timeout)
  | Raise e =>
      let '(s, r) := reset_stream_result i error_compression s in
      (s, result ← r;
          mret (mk_result (output result) (keep_connection result) (close_now result)
                  (completed_stream result) (error_response result) (error_stream_id result)
                  ("HTTP/2 HPACK decode failed: " +:+ e)))
  | Ret fields =>
      let stream := default new_stream (streams_ s !! i) in
      if headers_received stream then reset_stream_result i error_protocol s
      else
        let stream := mk_stream i true (if end_stream then half_closed_remote else open)
                        (inbound_window stream) fields (stream_body stream) in
        let s := set_streams (<[i := stream]> (streams_ s)) s in
        let s := if last_client_stream_id_ s <? i then set_last_client i s else s in
        if end_stream then complete_stream i s else (s, mret empty_result)
  end.

Definition handle_headers_frame (f : Frame) (max_request_bytes : Z) (s : ServerSession)
    : ServerSession * outcome SessionResult :=
  let i := stream_id f in
  if bool_decide (is_Some (pending_headers_ s)) then
    fail_connection error_protocol "HTTP/2 HEADERS received before pending CONTINUATION sequence ended" s
  else if i mod 2 =? 0 then fail_connection error_protocol "HTTP/2 client stream id must be odd" s
  else if negb (bool_decide (is_Some (streams_ s !! i))) && (i <=? last_client_stream_id_ s) then
    reset_stream_result i error_stream_closed s
  else
    match header_block_payload f with
    | None => reset_stream_result i error_protocol s
    | Some block =>
        if max_request_bytes <? size block then reset_stream_result i error_enhance_your_calm s
        else if negb (has_flag (val (flags f)) flag_end_headers) then
          (set_pending (Some (mk_pending i (has_flag (val (flags f)) flag_end_stream) block)) s,
           mret empty_result)
        else decode_headers i (has_flag (val (flags f)) flag_end_stream) block s
    end.

Definition handle_continuation_frame (f : Frame) (max_request_bytes : Z) (s : ServerSession)
    : ServerSession * outcome SessionResult :=
  let mismatch :=
    fail_connection error_protocol "HTTP/2 CONTINUATION received without matching HEADERS" s in
  match pending_headers_ s with
  | None => mismatch
  | Some pending =>
      if negb (pending_stream_id pending =? stream_id f) then mismatch
      else if max_request_bytes <? size (pending_block pending) + size (Http2Frame.payload f) then
        reset_stream_result (stream_id f) error_enhance_your_calm (set_pending None s)
      else
        let pending := mk_pending (pending_stream_id pending) (pending_end_stream pending)
                         (pending_block pending ++ Http2Frame.payload f) in
        if negb (has_flag (val (flags f)) flag_end_headers)
        then (set_pending (Some pending) s, mret empty_result)
        else decode_headers (pending_stream_id pending) (pending_end_stream pending)
               (pending_block pending) (set_pending None s)
  end.

(** [static_cast<std::int32_t>] *)
Definition i32 (z : Z) : Z := let v := u32 z in if v <? 2 ^ 31 then v else v - 2 ^ 32.

Definition handle_data_frame (f : Frame) (max_request_bytes : Z) (s : ServerSession)
    : ServerSession * outcome SessionResult :=
  let i := stream_id f in
  match streams_ s !! i with
  | None => reset_stream_result i error_stream_closed s
  | Some stream =>
      if negb (headers_received stream) then reset_stream_result i error_stream_closed s
      else if bool_decide (lifecycle stream = half_closed_remote)
      then reset_stream_result i error_stream_closed s
      else
        match data_payload f with
        | None => reset_stream_result i error_protocol s
        | Some p =>
            if (u64 (connection_inbound_window_ s) <? size p) || (u64 (inbound_window stream) <? size p)
            then fail_connection error_flow_control "HTTP/2 inbound flow-control window exceeded" s
            else if max_request_bytes <? size (stream_body stream) + size p
            then reset_stream_result i error_enhance_your_calm s
            else
              let with_stream window body lifecycle s :=
                set_streams (<[i := mk_stream (state_id stream) (headers_received stream) lifecycle
                                     window (stream_headers stream) body]> (streams_ s)) s in
              let end_stream := has_flag (val (flags f)) flag_end_stream in
              let lifecycle' := if end_stream then half_closed_remote else lifecycle stream in
              let body' := stream_body stream ++ p in
              let connection_window := connection_inbound_window_ s - i32 (size p) in
              let window := inbound_window stream - i32 (size p) in
              let increment := u32 (size p) in
              let updates :=
                match p with
                | [] => mret []
                | _ => a ← window_update_frame 0 increment; b ← window_update_frame i increment;
                       mret (a ++ b)
                end in
              let '(connection_window, window) :=
                match p with
                | [] => (connection_window, window)
                | _ => (connection_window + i32 increment, window + i32 increment)
                end in
              let s := with_stream window body' lifecycle' (set_window connection_window s) in
              match updates with
              | Raise e => (s, Raise e)
              | Timeout => (s, Timeout)
              | Ret window_updates =>
                  if end_stream then
                    let '(s, r) := complete_stream i s in
                    (s, result ← r;
                        mret (mk_result (window_updates ++ output result) (keep_connection result)
                                (close_now result) (completed_stream result) (error_response result)
                                (error_stream_id result) (warning result)))
                  else (s, mret (output_result window_updates))
              end
        end
  end.

(** The settings that matter to the decoder. *)
Definition apply_setting (d : HpackDecoder) (setting : Setting) : HpackDecoder :=
  if identifier setting =? SETTINGS_HEADER_TABLE_SIZE
  then set_max_table_size (Http2Frame.value setting) d else d.

Definition handle_frame (f : Frame) (max_request_bytes : Z) (s : ServerSession)
    : ServerSession * outcome SessionResult :=
  let type := frame_type (type f) in
  if bool_decide (is_Some (pending_headers_ s)) && negb (bool_decide (type = Some continuation)) then
    fail_connection error_protocol "HTTP/2 expected CONTINUATION before any other frame" s
  else
    match type with
    | Some settings =>
        if negb (has_flag (val (flags f)) 0x1) then
          match parse_settings_payload (Http2Frame.payload f) with
          | Raise e => fail_connection error_protocol e s
          | Timeout => (s, Timeout)
          | Ret l =>
              (set_decoder (fold_left apply_setting l (decoder_ s)) s,
               out ← settings_frame true; mret (output_result out))
          end
        else (s, mret empty_result)
    | Some ping =>
        (s, if negb (has_flag (val (flags f)) 0x1)
            then out ← ping_frame (Http2Frame.payload f) true; mret (output_result out)
            else mret empty_result)
    | Some goaway => (s, mret (mk_result [] false true None None 0 ""))
    | Some rst_stream =>
        let pending :=
          match pending_headers_ s with
          | Some p => if pending_stream_id p =? stream_id f then None else Some p
          | None => None
          end in
        (set_pending pending (reset_stream (stream_id f) s), mret empty_result)
    | Some window_update | Some priority | None => (s, mret empty_result)
    | Some Http2Frame.headers => handle_headers_frame f max_request_bytes s
    | Some data => handle_data_frame f max_request_bytes s
    | Some continuation => handle_continuation_frame f max_request_bytes s
    | Some push_promise =>
        fail_connection error_protocol "HTTP/2 clients must not send PUSH_PROMISE" s
    end.

(** ** The connection *)

Definition has_result (r : SessionResult) : bool :=
  negb (bool_decide (output r = [])) || close_now r || bool_decide (is_Some (completed_stream r))
  || bool_decide (is_Some (error_response r)).

(** [while (active_ && !input_buffer.empty())]: every turn erases a frame;
    the session, the buffer and the result. *)
Fixpoint process_loop (fuel : nat) (max_request_bytes : Z) (input_buffer : bytes) (s : ServerSession)
    : ServerSession * bytes * outcome SessionResult :=
  if active_ s && negb (bool_decide (input_buffer = [])) then
    match fuel with
    | O => (s, input_buffer, Timeout)
    | S fuel' =>
        if max_request_bytes <? size input_buffer then
          let '(s, r) := fail_connection error_enhance_your_calm
                           "HTTP/2 frame buffer exceeded Rimau request limit" s in
          (s, [], r)
        else
          let parsed := parse_frame input_buffer default_max_frame_size in
          if Http2Frame.incomplete parsed then (s, input_buffer, mret empty_result)
          else if negb (Http2Frame.ok parsed) then
            let '(s, r) := fail_connection error_protocol
                             (if bool_decide (Http2Frame.error parsed = EmptyString) then "invalid HTTP/2 frame"
                              else Http2Frame.error parsed) s in
            (s, [], r)
          else
            let rest := drop (Http2Frame.consumed parsed) input_buffer in
            match handle_frame (Http2Frame.frame parsed) max_request_bytes s with
            | (s, Ret result) =>
                if has_result result then (s, rest, mret result)
                else process_loop fuel' max_request_bytes rest s
            | (s, r) => (s, rest, r)
            end
    end
  else (s, input_buffer, mret empty_result).

Definition process_input (input_buffer : bytes) (max_request_bytes : Z) (s : ServerSession)
    : ServerSession * bytes * outcome SessionResult :=
  process_loop (length input_buffer) max_request_bytes input_buffer s.

Definition reject_preface (error_code : Z) (debug_data : string) : outcome PrefaceResult :=
  out ← goaway_frame error_code (str debug_data); mret (mk_preface rejected out false).

Definition accept_preface (input_buffer : bytes) (max_request_bytes : Z)
    (http2_enabled request_allowed : bool) (s : ServerSession)
    : ServerSession * bytes * outcome PrefaceResult :=
  let preface := client_connection_preface in
  let need := (s, input_buffer, mret (mk_preface need_more [] true)) in
  let comparable := Nat.min (length input_buffer) (length preface) in
  if bool_decide (input_buffer = []) then (s, input_buffer, mret (mk_preface not_http2 [] true))
  else if negb (bool_decide (take comparable input_buffer = take comparable preface)) then
    (s, input_buffer, mret (mk_preface not_http2 [] true))
  else if (length input_buffer <? length preface)%nat then need
  else if max_request_bytes <? size input_buffer then
    (s, [], reject_preface error_protocol "HTTP/2 preface exceeded Rimau request limit")
  else if (length input_buffer <? length preface + 9)%nat then need
  else
    let parsed := parse_frame (drop (length preface) input_buffer) default_max_frame_size in
    if Http2Frame.incomplete parsed then need
    else if negb (Http2Frame.ok parsed)
            || negb (bool_decide (type (Http2Frame.frame parsed) = frame_type_value settings))
            || negb (stream_id (Http2Frame.frame parsed) =? 0) then
      (s, [], reject_preface error_protocol
                "Rimau expected an HTTP/2 SETTINGS frame after the preface")
    else
      match parse_settings_payload (Http2Frame.payload (Http2Frame.frame parsed)) with
      | Raise e => (s, [], reject_preface error_protocol e)
      | Timeout => (s, [], Timeout)
      | Ret _ =>
          let rest := drop (length preface + Http2Frame.consumed parsed) input_buffer in
          if negb http2_enabled then
            (s, rest, reject_preface error_http_1_1_required
                        "HTTP/2 is disabled in Rimau SQLite config")
          else if negb request_allowed then
            (s, rest, reject_preface error_enhance_your_calm "Rimau HTTP/2 rate limit exceeded")
          else
            (set_active true s, rest,
             a ← settings_frame false; b ← settings_frame true;
             mret (mk_preface accepted (a ++ b) true))
      end.
End session.

(** ** Frames that are always written *)

Lemma validate_frame_inv f max :
  validate_frame f max = EmptyString ->
  size (Http2Frame.payload f) <= max /\
  validate_stream_id (frame_type (type f)) (stream_id f) = EmptyString /\
  validate_payload (frame_type (type f)) (flags f) (Http2Frame.payload f) = EmptyString.
Proof.
  intros V. split; [by apply validate_frame_size in V as [V _]|]. revert V. unfold validate_frame.
  destruct (_ <? max); [done|]. destruct (max <? _); [done|]. case_bool_decide as E; [|done].
  intros E2. split; [exact E|exact E2].
Qed.

Lemma frame_string_wire f :
  0 <= stream_id f < 2 ^ 31 -> validate_frame f default_max_frame_size = EmptyString ->
  frame_string f = Ret (wire f).
Proof. intros Hs V. apply serialize_frame_Ret; [lia|]. split; [lia|done]. Qed.

(** A frame of a known type is written when its payload and stream fit. *)
Lemma frame_string_typed t fl i p :
  0 <= i < 2 ^ 31 -> size p <= default_max_frame_size ->
  validate_stream_id (Some t) i = EmptyString -> validate_payload (Some t) fl p = EmptyString ->
  frame_string (mk_frame (frame_type_value t) fl i p)
  = Ret (wire (mk_frame (frame_type_value t) fl i p)).
Proof.
  intros Hi Hp V1 V2. apply frame_string_wire; [done|]. unfold validate_frame.
  cbn [Http2Frame.payload type stream_id flags].
  replace (frame_type (frame_type_value t)) with (Some t) by (by destruct t).
  destruct (Z.ltb_spec max_allowed_frame_size default_max_frame_size) as [C|_]; [done|].
  destruct (Z.ltb_spec default_max_frame_size (size p)); [lia|]. by rewrite V1.
Qed.

Lemma settings_frame_returns ack :
  settings_frame ack = Ret (wire (mk_frame (frame_type_value settings) (u8 (if ack then 1 else 0)) 0 [])).
Proof. by destruct ack. Qed.

Lemma validate_data_id t i :
  0 < i -> t = data \/ t = Http2Frame.headers \/ t = rst_stream \/ t = continuation ->
  validate_stream_id (Some t) i = EmptyString.
Proof. intros Hi [-> |[-> |[-> | ->]]]; cbn; by destruct (Z.eqb_spec i 0); [lia|]. Qed.

Lemma rst_stream_frame_returns i e :
  0 < i < 2 ^ 31 ->
  rst_stream_frame i e = Ret (wire (mk_frame (frame_type_value rst_stream) (u8 0) i (u32_payload e))).
Proof.
  intros Hi. apply frame_string_typed; [lia|cbn; unfold default_max_frame_size; lia| |done].
  apply validate_data_id; [lia|auto].
Qed.

Lemma ping_frame_returns p ack :
  length p = 8%nat ->
  ping_frame p ack = Ret (wire (mk_frame (frame_type_value ping) (u8 (if ack then 1 else 0)) 0 p)).
Proof.
  intros L. apply frame_string_typed; [lia|rewrite L; unfold default_max_frame_size; lia|done|].
  cbn. by rewrite L.
Qed.

Lemma window_update_frame_returns i inc :
  0 <= i < 2 ^ 31 -> 0 < inc < 2 ^ 31 ->
  window_update_frame i inc
  = Ret (wire (mk_frame (frame_type_value window_update) (u8 0) i (u32_payload inc))).
Proof.
  intros Hi Hinc. unfold window_update_frame. rewrite (land_mask 31), Z.mod_small by lia.
  apply frame_string_typed; [lia|cbn; unfold default_max_frame_size; lia|done|].
  unfold validate_payload. change (size (u32_payload inc)) with 4.
  assert (E : read_u32 (u32_payload inc) 0 = inc).
  { rewrite <- (app_nil_r (u32_payload inc)). apply read_write_u32. lia. }
  rewrite E, (land_mask 31), Z.mod_small by lia. by destruct (Z.eqb_spec inc 0); [lia|].
Qed.

Lemma goaway_frame_returns e debug :
  size debug <= 1024 ->
  goaway_frame e debug
  = Ret (wire (mk_frame (frame_type_value goaway) (u8 0) 0 (u32_payload 0 ++ u32_payload e ++ debug))).
Proof.
  intros L. unfold goaway_frame. set (p := u32_payload 0 ++ _).
  assert (Lp : size p = 8 + size debug) by (unfold p; rewrite !length_app; cbn [length u32_payload]; lia).
  clearbody p. apply frame_string_typed; [lia|rewrite Lp; unfold default_max_frame_size; lia|done|].
  cbn. by destruct (Z.ltb_spec (size p) 8); [lia|].
Qed.

Lemma wire_nonempty f : wire f <> [].
Proof. intros E. by apply (f_equal length) in E. Qed.

(** Reports of the frame layer are short. *)
Lemma validate_frame_short f max : size (str (validate_frame f max)) <= 1024.
Proof.
  unfold validate_frame, validate_stream_id, validate_payload. split_ifs; vm_compute; done.
Qed.

Lemma parse_frame_short b max : size (str (Http2Frame.error (parse_frame b max))) <= 1024.
Proof.
  unfold parse_frame. destruct (_ <? 9)%nat; [vm_compute; done|]. destruct (_ <? max); [vm_compute; done|].
  destruct (max <? _); [vm_compute; done|]. destruct (_ <? _); [vm_compute; done|].
  case_bool_decide; cbn [negb Http2Frame.error]; [vm_compute; done|apply validate_frame_short].
Qed.

(** ** The session invariant

    [answered] lists the streams of the connection that were answered so far,
    by a request or by an error response. *)

Definition client_stream (i : Z) : Prop := 0 < i < 2 ^ 31 /\ i mod 2 = 1.

Record stream_ok (max_request_bytes last : Z) (i : Z) (st : StreamState) : Prop := {
  stream_key : state_id st = i /\ client_stream i /\ i <= last;
  stream_opened : headers_received st = true /\ lifecycle st = open;
  stream_window : inbound_window st = 65535;
  stream_size : size (stream_body st) <= max_request_bytes;
}.

Record pending_ok (max_request_bytes : Z) (answered : list Z) (p : PendingHeaderBlock) : Prop := {
  pending_client : client_stream (pending_stream_id p);
  pending_fresh : pending_stream_id p ∉ answered;
  pending_size : size (pending_block p) <= max_request_bytes;
}.

Record session_ok (max_request_bytes : Z) (answered : list Z) (s : ServerSession) : Prop := {
  ok_last : 0 <= last_client_stream_id_ s < 2 ^ 31;
  ok_window : connection_inbound_window_ s = 65535;
  ok_decoder : exists t, implements (decoder_ s) t;
  ok_streams : map_Forall (stream_ok max_request_bytes (last_client_stream_id_ s)) (streams_ s);
  ok_pending : forall p, pending_headers_ s = Some p -> pending_ok max_request_bytes answered p;
  ok_answered : Forall (fun i => client_stream i /\ i <= last_client_stream_id_ s
                                 /\ streams_ s !! i = None) answered;
  ok_once : NoDup answered;
  ok_inactive : active_ s = false -> streams_ s = ∅ /\ pending_headers_ s = None;
}.

(** The streams that a result answers. *)
Definition answers (r : SessionResult) : list Z :=
  match completed_stream r with Some c => [completed_id c] | None => [] end
  ++ match error_response r with Some _ => [error_stream_id r] | None => [] end.

(** What every handler does: it returns, keeps the invariant, and the session
    stays active when there is nothing to report. *)
Definition step_ok (max_request_bytes : Z) (answered : list Z)
    (sr : ServerSession * outcome SessionResult) : Prop :=
  exists s' r, sr = (s', Ret r) /\ session_ok max_request_bytes (answers r ++ answered) s' /\
  (has_result r = false -> active_ s' = true).

Lemma new_session_ok max : session_ok max [] new_session.
Proof.
  constructor; cbn; try done; [eexists; apply new_decoder_implements|constructor].
Qed.

Lemma output_has_result out k c a b e w : out <> [] -> has_result (mk_result out k c a b e w) = true.
Proof. intros. unfold has_result. cbn [output]. by rewrite bool_decide_false. Qed.

Section invariant.
Context (max : Z) (answered : list Z).
Implicit Type s : ServerSession.

Lemma ok_reset_stream i s : session_ok max answered s -> session_ok max answered (reset_stream i s).
Proof.
  intros [H1 H2 H3 H4 H5 H6 H7 H8]. constructor; cbn; try done.
  - intros j st [_ Hj]%lookup_delete_Some. by apply H4.
  - eapply Forall_impl; [exact H6|]. intros j (? & ? & ?). split_and!; try done.
    by apply lookup_delete_None; right.
  - intros Ha. destruct (H8 Ha) as [-> ->]. by rewrite delete_empty.
Qed.

Lemma ok_set_decoder d s :
  (exists t, implements d t) -> session_ok max answered s -> session_ok max answered (set_decoder d s).
Proof. intros Hd []. by constructor. Qed.

Lemma ok_no_pending s : session_ok max answered s -> session_ok max answered (set_pending None s).
Proof. intros [H1 H2 H3 H4 H5 H6 H7 H8]. constructor; cbn; try done. intros Ha. by destruct (H8 Ha). Qed.

Lemma ok_set_pending p s :
  active_ s = true -> pending_ok max answered p -> session_ok max answered s ->
  session_ok max answered (set_pending (Some p) s).
Proof.
  intros Ha Hp [H1 H2 H3 H4 H5 H6 H7 H8]. constructor; cbn; try done; [by intros ? [= <-]|congruence].
Qed.

Lemma ok_failed s :
  session_ok max answered s -> session_ok max answered (set_active false (set_pending None (set_streams ∅ s))).
Proof.
  intros [H1 H2 H3 H4 H5 H6 H7 H8]. constructor; cbn; try done.
  eapply Forall_impl; [exact H6|]. intros j (? & ? & ?). by rewrite lookup_empty.
Qed.

Lemma ok_set_active s : session_ok max answered s -> session_ok max answered (set_active true s).
Proof. by intros []; constructor. Qed.

(** Opening or updating a stream that was not answered. *)
Lemma ok_set_stream i st s :
  active_ s = true -> stream_ok max (last_client_stream_id_ s) i st -> i ∉ answered ->
  session_ok max answered s -> session_ok max answered (set_streams (<[i := st]> (streams_ s)) s).
Proof.
  intros Ha Hst Hi [H1 H2 H3 H4 H5 H6 H7 H8]. constructor; cbn; try done; [| |congruence].
  - by apply map_Forall_insert_2.
  - apply Forall_forall. intros j Hj. rewrite Forall_forall in H6. destruct (H6 j Hj) as (? & ? & ?).
    split_and!; try done. rewrite lookup_insert_ne; [done|]. by intros <-.
Qed.

Lemma ok_set_last i s :
  0 <= i < 2 ^ 31 -> last_client_stream_id_ s <= i ->
  session_ok max answered s -> session_ok max answered (set_last_client i s).
Proof.
  intros Hi Hl [H1 H2 H3 H4 H5 H6 H7 H8]. constructor; cbn; try done.
  - eapply map_Forall_impl; [exact H4|]. intros j st [(? & ? & ?) ? ? ?]. constructor; try done.
    split_and!; try done. lia.
  - eapply Forall_impl; [exact H6|]. intros j (? & ? & ?). split_and!; try done. lia.
Qed.

(** Answering a stream that the session held. *)
Lemma ok_answer i s :
  client_stream i -> i <= last_client_stream_id_ s -> i ∉ answered -> pending_headers_ s = None ->
  session_ok max answered s -> session_ok max (i :: answered) (reset_stream i s).
Proof.
  intros Hi Hl Hn Hp Hs. pose proof (ok_reset_stream i s Hs) as [H1 H2 H3 H4 H5 H6 H7 H8].
  constructor; try done.
  - cbn. rewrite Hp. done.
  - constructor; [|done]. split_and!; try done. apply lookup_delete_eq.
  - by constructor.
Qed.

Lemma fail_connection_ok e debug s :
  size (str debug) <= 1024 -> session_ok max answered s -> step_ok max answered (fail_connection e debug s).
Proof.
  intros Hd Hs. unfold fail_connection. rewrite goaway_frame_returns by done.
  eexists _, _. split; [reflexivity|]. split; [by apply ok_failed|].
  rewrite output_has_result; [done|apply wire_nonempty].
Qed.

Lemma reset_stream_result_ok i e s :
  0 < i < 2 ^ 31 -> session_ok max answered s -> step_ok max answered (reset_stream_result i e s).
Proof.
  intros Hi Hs. unfold reset_stream_result. rewrite rst_stream_frame_returns by done.
  eexists _, _. split; [reflexivity|]. split; [by apply ok_reset_stream|].
  unfold output_result. rewrite output_has_result; [done|apply wire_nonempty].
Qed.

Lemma empty_result_ok s : active_ s = true -> session_ok max answered s -> step_ok max answered (s, mret empty_result).
Proof. intros Ha Hs. by eexists _, _. Qed.

Lemma output_result_ok s out :
  out <> [] -> session_ok max answered s -> step_ok max answered (s, Ret (output_result out)).
Proof.
  intros Ho Hs. eexists _, _. split; [reflexivity|]. split; [done|].
  unfold output_result. by rewrite output_has_result.
Qed.

Lemma step_ok_map s' r (f : SessionResult -> SessionResult) :
  (forall x, answers (f x) = answers x /\ (has_result (f x) = false -> has_result x = false)) ->
  step_ok max answered (s', r) -> step_ok max answered (s', f <$> r).
Proof.
  intros Hf (s & x & [= -> ->] & Hs & Ha). destruct (Hf x) as [F1 F2].
  eexists _, (f x). split; [reflexivity|]. rewrite F1. split; [done|]. intros Hx. by apply Ha, F2.
Qed.
End invariant.

(** ** Every handler keeps the invariant *)

Lemma padded_bounds_le f c e : padded_bounds f = Some (c, e) -> (c <= e <= length (Http2Frame.payload f))%nat.
Proof.
  unfold padded_bounds. destruct (has_flag _ _); [|intros [= <- <-]; lia].
  destruct (Http2Frame.payload f) as [|x p]; [done|].
  destruct (Z.ltb_spec (size (x :: p) - 1) (val x)) as [|L]; [done|]. intros [= <- <-].
  pose proof (val_range x). cbn [length] in *. lia.
Qed.

Lemma data_payload_le f p : data_payload f = Some p -> (length p <= length (Http2Frame.payload f))%nat.
Proof.
  unfold data_payload. destruct (padded_bounds f) as [[c e]|] eqn:E; [|done]. apply padded_bounds_le in E.
  cbn [mbind option_bind]. destruct (e <? c)%nat; [done|]. intros [= <-]. rewrite length_substr. lia.
Qed.

Lemma i32_small z : 0 <= z < 2 ^ 31 -> i32 z = z.
Proof. intros. unfold i32. rewrite wrap_small by lia. by destruct (Z.ltb_spec z (2 ^ 31)); [|lia]. Qed.

Lemma reset_set_stream i st s :
  reset_stream i (set_streams (<[i := st]> (streams_ s)) s) = reset_stream i s.
Proof. unfold reset_stream. cbn. by rewrite delete_insert_eq. Qed.

Section handlers.
Context `{MapOrder bytes} (max : Z) (answered : list Z).
Implicit Type s : ServerSession.

Lemma complete_stream_ok i st s :
  client_stream i -> i <= last_client_stream_id_ s -> i ∉ answered -> pending_headers_ s = None ->
  session_ok max answered s ->
  step_ok max answered (complete_stream i (set_streams (<[i := st]> (streams_ s)) s)).
Proof.
  intros Hi Hl Hn Hp Hs. unfold complete_stream. cbn [streams_ set_streams]. rewrite lookup_insert_eq.
  rewrite reset_set_stream. eexists _, _. split; [reflexivity|].
  split; [|by destruct (build_request st)].
  replace (answers _) with [i] by (by destruct (build_request st)). by apply ok_answer.
Qed.

Lemma known_not_answered s i : session_ok max answered s -> is_Some (streams_ s !! i) -> i ∉ answered.
Proof.
  intros [] [st Hst] Hin. rewrite Forall_forall in ok_answered0. apply ok_answered0 in Hin.
  destruct Hin as (_ & _ & ?). congruence.
Qed.

Lemma new_not_answered s i : session_ok max answered s -> last_client_stream_id_ s < i -> i ∉ answered.
Proof.
  intros [] Hl Hin. rewrite Forall_forall in ok_answered0. apply ok_answered0 in Hin.
  destruct Hin as (_ & ? & _). lia.
Qed.

Lemma decode_headers_ok i end_stream block s :
  0 <= max -> client_stream i -> i ∉ answered -> pending_headers_ s = None -> active_ s = true ->
  session_ok max answered s -> step_ok max answered (decode_headers i end_stream block s).
Proof.
  intros Hm Hi Hn Hp Ha Hs. unfold decode_headers. pose proof (ok_decoder _ _ _ Hs) as [t It].
  destruct (decode_loop_ok (length block) _ t block 0 [] false It) as [Ht Hto]; [lia|].
  change (decode_loop _ _ _ _ _ _) with (decode_header_block (decoder_ s) block) in *.
  destruct (decode_header_block (decoder_ s) block) as [d decoded]. cbn [fst snd] in *.
  apply (ok_set_decoder _ _ d s Ht) in Hs. change (active_ s) with (active_ (set_decoder d s)) in Ha.
  change (pending_headers_ s) with (pending_headers_ (set_decoder d s)) in Hp.
  set (s1 := set_decoder d s) in *. clearbody s1. clear Ht It s.
  destruct decoded as [fields|e|]; [|by pose proof (reset_stream_result_ok max answered i error_compression s1 (proj1 Hi) Hs) as K;
    revert K; unfold reset_stream_result; rewrite rst_stream_frame_returns by apply Hi;
    intros (? & ? & [= <- <-] & ? & ?); eexists _, _; split_and!; [reflexivity| |]|done].
  destruct (headers_received (default new_stream (streams_ s1 !! i))) eqn:R;
    [apply reset_stream_result_ok; [apply Hi|done]|].
  assert (N : streams_ s1 !! i = None).
  { destruct (streams_ s1 !! i) as [st|] eqn:E; [|done]. apply (ok_streams _ _ _ Hs) in E as [_ [? _] _ _].
    cbn [default from_option Datatypes.id] in R. congruence. }
  rewrite N. cbn [default from_option Datatypes.id new_stream inbound_window stream_body].
  set (st := mk_stream i true _ 65535 fields []).
  set (s2 := if last_client_stream_id_ s1 <? i then set_last_client i s1 else s1).
  assert (E : (if last_client_stream_id_ (set_streams (<[i := st]> (streams_ s1)) s1) <? i
               then set_last_client i (set_streams (<[i := st]> (streams_ s1)) s1)
               else set_streams (<[i := st]> (streams_ s1)) s1) = set_streams (<[i := st]> (streams_ s2)) s2).
  { unfold s2. cbn [last_client_stream_id_ set_streams]. by destruct (_ <? i). }
  rewrite E. destruct Hi as [Hi Hodd].
  assert (H2 : session_ok max answered s2 /\ i <= last_client_stream_id_ s2).
  { unfold s2. destruct (Z.ltb_spec (last_client_stream_id_ s1) i); [|done].
    split; [|cbn; lia]. apply ok_set_last; [lia|lia|done]. }
  assert (P2 : pending_headers_ s2 = None /\ active_ s2 = true) by (unfold s2; by destruct (_ <? i)).
  clearbody s2. destruct H2 as [H2 Hl], P2 as [P2 A2]. destruct end_stream.
  - by apply complete_stream_ok.
  - apply empty_result_ok; [done|]. by apply ok_set_stream.
Qed.

Lemma handle_headers_frame_ok f s :
  0 <= max -> 0 < stream_id f < 2 ^ 31 -> pending_headers_ s = None -> active_ s = true ->
  session_ok max answered s -> step_ok max answered (handle_headers_frame f max s).
Proof.
  intros Hm Hi Hp Ha Hs. unfold handle_headers_frame. rewrite Hp. cbn zeta.
  destruct (Z.eqb_spec (stream_id f mod 2) 0) as [|Odd]; [by apply fail_connection_ok|].
  cbn [bool_decide decide]. rewrite bool_decide_false by (by intros []).
  destruct (negb _ && _) eqn:K; [by apply reset_stream_result_ok|].
  assert (Hn : stream_id f ∉ answered).
  { apply andb_false_iff in K as [K|K].
    - apply negb_false_iff, bool_decide_eq_true in K. by eapply known_not_answered.
    - apply Z.leb_gt in K. by eapply new_not_answered. }
  clear K.
  assert (Hc : client_stream (stream_id f)) by (split; [done|Z.div_mod_to_equations; lia]).
  destruct (header_block_payload f) as [block|]; [|by apply reset_stream_result_ok].
  destruct (Z.ltb_spec max (size block)); [by apply reset_stream_result_ok|].
  destruct (negb _).
  - apply empty_result_ok; [done|]. by apply ok_set_pending.
  - by apply decode_headers_ok.
Qed.

Lemma handle_continuation_frame_ok f s :
  0 <= max -> 0 < stream_id f < 2 ^ 31 -> active_ s = true ->
  session_ok max answered s -> step_ok max answered (handle_continuation_frame f max s).
Proof.
  intros Hm Hi Ha Hs. unfold handle_continuation_frame. cbn zeta.
  destruct (pending_headers_ s) as [p|] eqn:Hp; [|by apply fail_connection_ok].
  destruct (ok_pending _ _ _ Hs p Hp) as [Pc Pf Ps].
  destruct (Z.eqb_spec (pending_stream_id p) (stream_id f)) as [E|]; cbn [negb]; [|by apply fail_connection_ok].
  pose proof (ok_no_pending _ _ _ Hs) as Hs0.
  destruct (Z.ltb_spec max (size (pending_block p) + size (Http2Frame.payload f)));
    [by apply reset_stream_result_ok|].
  destruct (negb _).
  - apply empty_result_ok; [done|]. apply ok_set_pending; [done| |done]. constructor; [done|done|].
    cbn. rewrite length_app. lia.
  - by apply decode_headers_ok.
Qed.

Lemma handle_data_frame_ok f s :
  0 < stream_id f < 2 ^ 31 -> size (Http2Frame.payload f) <= default_max_frame_size ->
  pending_headers_ s = None -> active_ s = true ->
  session_ok max answered s -> step_ok max answered (handle_data_frame f max s).
Proof.
  intros Hi Hf Hp Ha Hs. unfold handle_data_frame. cbn zeta. set (i := stream_id f) in *.
  destruct (streams_ s !! i) as [st|] eqn:Hst; [|by apply reset_stream_result_ok].
  destruct (ok_streams _ _ _ Hs i st Hst) as [(K1 & K2 & K3) [R L] W B].
  pose proof (known_not_answered s i Hs (mk_is_Some _ _ Hst)) as Hn.
  rewrite R, L, bool_decide_false by done. cbn [negb].
  destruct (data_payload f) as [p|] eqn:D; [|by apply reset_stream_result_ok].
  apply data_payload_le in D. rewrite W, (ok_window _ _ _ Hs). unfold default_max_frame_size in Hf.
  assert (Sp : 0 <= size p <= 16384) by lia.
  rewrite (wrap_small 64 65535), wrap_small, i32_small by lia.
  destruct (Z.ltb_spec 65535 (size p)); [lia|]. cbn [orb].
  destruct (Z.ltb_spec max (size (stream_body st) + size p)); [by apply reset_stream_result_ok|].
  assert (P : exists out,
     match p with
     | [] => mret []
     | _ => a ← window_update_frame 0 (size p); b ← window_update_frame i (size p); mret (a ++ b)
     end = Ret out /\ (out = [] <-> p = [])).
  { destruct p as [|x p]; [by eexists|]. cbn [length] in *.
    rewrite !window_update_frame_returns by lia. eexists. split; [reflexivity|]. done. }
  destruct P as (out & -> & Ho).
  assert (E : match p with
    | [] => (65535 - size p, 65535 - size p)
    | _ => (65535 - size p + size p, 65535 - size p + size p) end = (65535, 65535)).
  { destruct p; cbn [length]; f_equal; lia. }
  rewrite E. clear E. set (s1 := set_window 65535 s).
  assert (Hs1 : session_ok max answered s1).
  { destruct Hs. by constructor. }
  destruct (has_flag (val (flags f)) flag_end_stream).
  - set (st' := mk_stream _ _ half_closed_remote _ _ _).
    assert (C : step_ok max answered (complete_stream i (set_streams (<[i:=st']> (streams_ s1)) s1)))
      by by apply complete_stream_ok.
    revert C. change (streams_ s1) with (streams_ s). change (i ∉ answered) in Hn.
    destruct (complete_stream i _) as [s2 r]. intros C.
    apply (step_ok_map max answered s2 r
             (fun x => mk_result (out ++ output x) (keep_connection x) (close_now x) (completed_stream x)
                         (error_response x) (error_stream_id x) (warning x))); [|done].
    intros x. split; [done|]. unfold has_result. cbn [output close_now completed_stream error_response].
    rewrite !orb_false_iff, !negb_false_iff, !bool_decide_eq_true.
    intros [[[[_ ?]%app_eq_nil ?] ?] ?]. done.
  - set (st' := mk_stream _ _ open _ _ _).
    assert (Hs2 : session_ok max answered (set_streams (<[i:=st']> (streams_ s1)) s1)).
    { apply ok_set_stream; try done. constructor; try done. cbn. rewrite length_app. lia. }
    destruct (decide (out = [])) as [Eo|Eo]; [|by apply output_result_ok].
    rewrite Eo. by apply empty_result_ok.
Qed.
End handlers.

Lemma apply_settings_implements l d :
  Forall (fun x => 0 <= Http2Frame.value x < 2 ^ 32) l -> (exists t, implements d t) ->
  exists t, implements (fold_left apply_setting l d) t.
Proof.
  intros F. revert d; induction F as [|x l Hx _ IH]; intros d [t Ht]; [eauto|]. cbn [fold_left]. apply IH.
  unfold apply_setting. destruct (_ =? _); [|eauto]. eexists. by apply set_max_implements.
Qed.

Lemma parse_settings_values p l :
  parse_settings_payload p = Ret l -> Forall (fun x => 0 <= Http2Frame.value x < 2 ^ 32) l.
Proof.
  unfold parse_settings_payload. intros E. inv_ret. subst. apply Forall_fmap, Forall_forall. intros i _.
  cbn. apply read_u32_range.
Qed.

Lemma parse_settings_settles p : settles (parse_settings_payload p).
Proof. unfold parse_settings_payload. auto with settles. Qed.

Lemma parse_settings_short p e : parse_settings_payload p = Raise e -> size (str e) <= 1024.
Proof.
  unfold parse_settings_payload. match goal with |- context [throw_if ?b _] => destruct b end; [|done].
  intros [= <-]. vm_compute. done.
Qed.

Lemma no_result_no_answer r : has_result r = false -> answers r = [].
Proof.
  unfold has_result, answers. rewrite !orb_false_iff, !bool_decide_eq_false. intros [[_ ?] ?].
  destruct (completed_stream r) eqn:?, (error_response r) eqn:?; naive_solver.
Qed.

Section loop.
Context `{MapOrder bytes} (max : Z).

Lemma handle_frame_ok answered f s :
  0 <= max -> 0 <= stream_id f < 2 ^ 31 -> validate_frame f default_max_frame_size = EmptyString ->
  active_ s = true -> session_ok max answered s -> step_ok max answered (handle_frame f max s).
Proof.
  intros Hm Hi V Ha Hs. apply validate_frame_inv in V as (Sz & V1 & V2). unfold handle_frame. cbn zeta.
  destruct (frame_type (type f)) as [t|] eqn:T.
  2: { destruct (_ && _); [by apply fail_connection_ok|by apply empty_result_ok]. }
  destruct (decide (t = continuation)) as [-> |Hc].
  - rewrite (bool_decide_true (Some continuation = Some continuation)), andb_false_r by done.
    cbn in V1. destruct (Z.eqb_spec (stream_id f) 0); [done|]. apply handle_continuation_frame_ok; (done || lia).
  - rewrite (bool_decide_false (Some t = Some continuation)), andb_true_r by congruence.
    destruct (pending_headers_ s) eqn:Hp; [by apply fail_connection_ok|].
    rewrite bool_decide_false by (by intros []).
    destruct t; cbn in V1; try (destruct (Z.eqb_spec (stream_id f) 0); [done|]); try done.
    + apply handle_data_frame_ok; (done || lia).
    + apply handle_headers_frame_ok; (done || lia).
    + by apply empty_result_ok.
    + apply empty_result_ok; [done|]. by apply ok_no_pending, ok_reset_stream.
    + destruct (has_flag (val (flags f)) 1); [by apply empty_result_ok|].
      destruct (parse_settings_payload (Http2Frame.payload f)) as [l|e|] eqn:P.
      * rewrite settings_frame_returns. cbn [mbind outcome_bind mret outcome_ret].
        apply output_result_ok; [apply wire_nonempty|]. apply ok_set_decoder; [|done].
        eapply apply_settings_implements; [by eapply parse_settings_values|apply Hs].
      * apply fail_connection_ok; [|done]. by apply (parse_settings_short _ _ P).
      * by apply parse_settings_settles in P.
    + by apply fail_connection_ok.
    + destruct (has_flag (val (flags f)) 1); [by apply empty_result_ok|]. cbn in V2.
      destruct (Z.eqb_spec (size (Http2Frame.payload f)) 8); [|done].
      rewrite ping_frame_returns by lia. by apply output_result_ok; [apply wire_nonempty|].
    + by eexists _, _.
    + by apply empty_result_ok.
Qed.

(** What a call of [process_input] does. *)
Definition input_ok (answered : list Z) (buffer : bytes) (s : ServerSession)
    (out : ServerSession * bytes * outcome SessionResult) : Prop :=
  exists s' rest r, out = (s', rest, Ret r) /\
  session_ok max (answers r ++ answered) s' /\ rest `suffix_of` buffer /\
  if has_result r then (length rest < length buffer)%nat
  else active_ s' = active_ s /\
       (active_ s = false \/ rest = []
        \/ Http2Frame.incomplete (parse_frame rest default_max_frame_size) = true).

Lemma quiet_input_ok answered buffer s :
  session_ok max answered s ->
  active_ s = false \/ buffer = []
  \/ Http2Frame.incomplete (parse_frame buffer default_max_frame_size) = true ->
  input_ok answered buffer s (s, buffer, mret empty_result).
Proof. intros Hs Hq. by eexists _, _, _. Qed.

Lemma process_loop_ok answered fuel buffer s :
  0 <= max -> (length buffer <= fuel)%nat -> session_ok max answered s ->
  input_ok answered buffer s (process_loop fuel max buffer s).
Proof.
  intros Hm. revert buffer s; induction fuel as [|fuel IH]; intros buffer s Hf Hs;
    unfold process_loop; fold process_loop; destruct (active_ s) eqn:Ha; cbn [andb].
  - destruct buffer; [|cbn in Hf; lia]. rewrite bool_decide_true by done. apply quiet_input_ok; auto.
  - apply quiet_input_ok; auto.
  - case_bool_decide as E; cbn [negb].
    { apply quiet_input_ok; auto. }
    assert (L0 : (0 < length buffer)%nat) by (destruct buffer; [done|cbn; lia]).
    assert (Fail : forall e d, size (str d) <= 1024 ->
      input_ok answered buffer s (let '(s, r) := fail_connection e d s in (s, [], r))).
    { intros e d Hd. destruct (fail_connection_ok max answered e d s Hd Hs) as (s' & r & Er & Hs' & _).
      assert (R : has_result r = true).
      { revert Er. unfold fail_connection. rewrite goaway_frame_returns by done. intros [= _ <-].
        apply output_has_result, wire_nonempty. }
      rewrite Er. eexists _, _, _. split; [reflexivity|]. split; [done|].
      split; [by exists buffer; rewrite app_nil_r|]. by rewrite R. }
    destruct (max <? size buffer); [apply Fail; vm_compute; done|].
    destruct (Http2Frame.incomplete (parse_frame buffer default_max_frame_size)) eqn:I.
    { apply quiet_input_ok; auto. }
    destruct (Http2Frame.ok (parse_frame buffer default_max_frame_size)) eqn:O; cbn [negb].
    2: { apply Fail. case_bool_decide; [vm_compute; done|apply parse_frame_short]. }
    apply parse_frame_ok in O as (_ & V & C & Cl & F).
    set (parsed := parse_frame buffer default_max_frame_size) in *. clearbody parsed.
    destruct (handle_frame_ok answered (Http2Frame.frame parsed) s) as (s' & r & E1 & Hs' & Hact); try done.
    { rewrite F. cbn. pose proof (read_u31_range (substr buffer 5 4)). lia. }
    rewrite E1. set (rest := drop (Http2Frame.consumed parsed) buffer).
    assert (Lr : (length rest < length buffer)%nat) by (unfold rest; rewrite length_drop; lia).
    assert (Sr : rest `suffix_of` buffer)
      by (exists (take (Http2Frame.consumed parsed) buffer); unfold rest; by rewrite take_drop).
    destruct (has_result r) eqn:R; cbn [negb].
    + eexists _, _, _. split; [reflexivity|]. split_and!; try done. by rewrite R.
    + rewrite (no_result_no_answer r R) in Hs'. cbn [app] in Hs'.
      destruct (IH rest s' ltac:(lia) Hs') as (s2 & rest2 & r2 & E2 & H2 & Suf & T).
      eexists _, _, _. split; [exact E2|]. split; [done|]. split; [by etrans|].
      rewrite (Hact eq_refl) in T. rewrite Ha. destruct (has_result r2); [lia|done].
  - apply quiet_input_ok; auto.
Qed.

Lemma process_input_ok answered buffer s :
  0 <= max -> session_ok max answered s -> input_ok answered buffer s (process_input buffer max s).
Proof. intros. by apply process_loop_ok. Qed.

Lemma accept_preface_ok answered buffer enabled allowed s :
  session_ok max answered s ->
  exists s' rest r, accept_preface buffer max enabled allowed s = (s', rest, Ret r) /\
  session_ok max answered s' /\ rest `suffix_of` buffer /\
  (preface_status r = accepted -> active_ s' = true /\ enabled = true /\ allowed = true).
Proof.
  intros Hs. unfold accept_preface, reject_preface. cbn zeta.
  assert (Nil : [] `suffix_of` buffer) by (exists buffer; by rewrite app_nil_r).
  assert (Need : forall st, st <> accepted -> exists s' rest r,
    (s, buffer, mret (mk_preface st [] true)) = (s', rest, Ret r) /\
    session_ok max answered s' /\ rest `suffix_of` buffer /\
    (preface_status r = accepted -> active_ s' = true /\ enabled = true /\ allowed = true)).
  { intros st Hst. eexists _, _, _. split; [reflexivity|]. by split_and!. }
  assert (Rej : forall rest e d, size (str d) <= 1024 -> rest `suffix_of` buffer -> exists s' rest' r,
    (s, rest, out ← goaway_frame e (str d); mret (mk_preface rejected out false)) = (s', rest', Ret r) /\
    session_ok max answered s' /\ rest' `suffix_of` buffer /\
    (preface_status r = accepted -> active_ s' = true /\ enabled = true /\ allowed = true)).
  { intros rest e d Hd Hr. rewrite goaway_frame_returns by done. eexists _, _, _.
    split; [reflexivity|]. by split_and!. }
  case_bool_decide; [by apply Need|]. case_bool_decide; cbn [negb]; [|by apply Need].
  destruct (_ <? _)%nat; [by apply Need|]. destruct (max <? _); [by apply Rej|].
  destruct (_ <? _)%nat; [by apply Need|].
  set (parsed := parse_frame _ _). destruct (Http2Frame.incomplete parsed); [by apply Need|].
  destruct (negb (Http2Frame.ok parsed) || _ || _); [by apply Rej|].
  assert (Suf : drop (length client_connection_preface + Http2Frame.consumed parsed) buffer `suffix_of` buffer).
  { eexists (take _ buffer). symmetry. apply take_drop. }
  destruct (parse_settings_payload _) as [l|e|] eqn:P.
  - destruct enabled; cbn [negb]; [|by apply Rej]. destruct allowed; cbn [negb]; [|by apply Rej].
    rewrite !settings_frame_returns. eexists _, _, _. split; [reflexivity|]. split_and!; try done.
    by apply ok_set_active.
  - apply Rej; [|done]. by apply (parse_settings_short _ _ P).
  - by apply parse_settings_settles in P.
Qed.
End loop.

(** ** What a request is built from *)

(** The only field with a name, for the pseudo fields of a request. *)
Definition field_value (n : bytes) (fields : list HeaderField) : option bytes :=
  Hpack.value <$> head (filter (fun f => Hpack.name f = n) fields).

Definition is_pseudo (n : bytes) : bool := bool_decide (head n = Some (chr ":")).

Definition add_field (h : Request.Headers) (f : HeaderField) : Request.Headers :=
  if is_pseudo (Hpack.name f) then h else merge_header (Hpack.name f) (Hpack.value f) h.

(** The regular fields, values of a repeated name joined. *)
Definition regular_headers (fields : list HeaderField) : Request.Headers :=
  fold_left add_field fields ∅.

(** The headers of the request: [host] is the authority, the length of the
    body is added if it was not announced. *)
Definition expected_headers (fields : list HeaderField) (b : bytes) : Request.Headers :=
  let h := match field_value (str ":authority") fields with
           | Some a => <[str "host" := a]> (regular_headers fields)
           | None => regular_headers fields
           end in
  let h := trim <$> h in
  if bool_decide (b = []) || bool_decide (is_Some (h !! str "content-length")) then h
  else <[str "content-length" := to_string (size b)]> h.

Definition clean (v : bytes) : Prop := header_value_has_invalid_control v = false.

Lemma clean_app a b : clean (a ++ b) <-> clean a /\ clean b.
Proof. unfold clean, header_value_has_invalid_control. by rewrite existsb_app, orb_false_iff. Qed.

Lemma clean_no_line v : clean v -> CR ∉ v /\ LF ∉ v.
Proof.
  unfold clean, header_value_has_invalid_control. intros E.
  split; intros Hin; apply not_true_iff_false in E; apply E, existsb_exists;
    (eexists; split; [by apply list_elem_of_In|done]).
Qed.

Lemma valid_name_plain n :
  valid_header_name n = true -> n <> [] /\ trimmed n /\ chr ":" ∉ n /\ LF ∉ n.
Proof.
  intros V. assert (T : forall c, c ∈ n -> token_char c = true).
  { unfold valid_header_name in V. destruct n; [done|]. rewrite forallb_forall in V.
    intros c Hc. by apply V, list_elem_of_In. }
  assert (C : forall c, implb (token_char c) (negb (isspace c)) = true) by (intros x; by_byte x).
  assert (N : forall c, c ∈ n -> isspace c = false).
  { intros c Hc. specialize (C c). rewrite T in C by done. by apply negb_true_iff. }
  split; [by intros ->|]. split; [|by split; intros ?%T].
  split; intros c Hc; apply N; [by apply head_Some_elem_of|by apply last_Some_elem_of].
Qed.

Lemma no_uppercase_lower n : header_name_has_uppercase n = false -> lowercase n = n.
Proof.
  unfold header_name_has_uppercase, lowercase. induction n as [|c n IH]; [done|]. cbn.
  rewrite orb_false_iff. intros [E1 E2]. rewrite IH by done. unfold tolower. by rewrite E1.
Qed.

Record collected_ok (c : Collected) : Prop := {
  col_pseudo : map_Forall (fun _ v => clean v) (pseudo_headers c);
  col_headers : map_Forall (fun n v => valid_header_name n = true /\ lowercase n = n /\ clean v)
                  (request_headers c);
  col_length : match content_length c with
               | None => request_headers c !! str "content-length" = None
               | Some n => exists v, request_headers c !! str "content-length" = Some v
                                     /\ parse_decimal_size (trim v) = Some n
               end;
}.

(** One accepted field. *)
Lemma collect_field_inv c f c' :
  collect_field c f = Some c' ->
  clean (Hpack.value f) /\ lowercase (Hpack.name f) = Hpack.name f /\ Hpack.name f <> [] /\
  if is_pseudo (Hpack.name f)
  then is_request_pseudo (Hpack.name f) = true /\ pseudo_headers c !! Hpack.name f = None /\
       c' = mk_collected (<[Hpack.name f := Hpack.value f]> (pseudo_headers c)) (request_headers c)
              false (content_length c)
  else valid_header_name (Hpack.name f) = true /\
       exists cl, c' = mk_collected (pseudo_headers c)
                         (merge_header (Hpack.name f) (Hpack.value f) (request_headers c)) true cl /\
       if bool_decide (Hpack.name f = str "content-length")
       then content_length c = None /\ cl = parse_decimal_size (trim (Hpack.value f)) /\ is_Some cl
       else cl = content_length c.
Proof.
  unfold collect_field. cbn zeta.
  destruct (bool_decide (lowercase (Hpack.name f) = [])) eqn:E1; [done|]. cbn [orb].
  destruct (header_name_has_uppercase (Hpack.name f)) eqn:E2; [done|]. cbn [orb].
  rewrite (no_uppercase_lower _ E2) in *. apply bool_decide_eq_false in E1.
  destruct (header_value_has_invalid_control (Hpack.value f)) eqn:E3; [done|].
  change (bool_decide (head (Hpack.name f) = Some (chr ":"))) with (is_pseudo (Hpack.name f)).
  intros E. do 3 (split; [done|]). destruct (is_pseudo (Hpack.name f)).
  - destruct (is_request_pseudo _); [|done]. cbn [negb] in E. split; [done|].
    destruct (regular_header_seen c); [done|]. cbn [orb] in E.
    case_bool_decide as P; [done|]. injection E as <-. split; [|done]. by apply eq_None_not_Some.
  - destruct (valid_header_name (Hpack.name f)); [|done]. split; [done|]. cbn [negb orb] in E.
    destruct (forbidden_request_header _ _); [done|]. case_bool_decide.
    + destruct (content_length c); [done|]. destruct (parse_decimal_size _) as [n|]; [|done].
      injection E as <-. eexists. by split.
    + injection E as <-. eexists. by split.
Qed.

Lemma collect_field_ok c f c' : collected_ok c -> collect_field c f = Some c' -> collected_ok c'.
Proof.
  intros [H1 H2 H3] E. apply collect_field_inv in E as (C & L & N & E).
  destruct (is_pseudo (Hpack.name f)).
  - destruct E as (_ & _ & ->). constructor; cbn; [by apply map_Forall_insert_2|done|done].
  - destruct E as (V & cl & -> & Ecl). constructor; cbn; [done| |].
    + apply map_Forall_insert_2; [|done]. split_and!; try done.
      destruct (request_headers c !! Hpack.name f) as [old|] eqn:O; [|done].
      apply H2 in O as (_ & _ & O). rewrite !clean_app. split_and!; try done. by destruct (bool_decide (Hpack.name f = str "cookie")).
    + unfold merge_header. revert Ecl. case_bool_decide as B.
      * intros (Cn & -> & [n Hn]). rewrite Cn in H3. rewrite Hn, B, H3, lookup_insert_eq. eauto.
      * intros ->. by rewrite lookup_insert_ne.
Qed.

Lemma field_value_cons n f fields :
  field_value n (f :: fields) = if decide (Hpack.name f = n) then Some (Hpack.value f)
                                else field_value n fields.
Proof. unfold field_value. rewrite filter_cons. by destruct (decide _). Qed.

Lemma is_request_pseudo_pseudo n : is_request_pseudo n = true -> is_pseudo n = true.
Proof.
  unfold is_request_pseudo. rewrite !orb_true_iff, !bool_decide_eq_true.
  intros [[[-> | ->] | ->] | ->]; reflexivity.
Qed.

(** The collected fields, whatever their order. *)
Lemma collect_fields_inv fields c c' :
  collected_ok c -> collect_fields fields c = Some c' ->
  collected_ok c' /\ request_headers c' = fold_left add_field fields (request_headers c) /\
  (forall n, is_request_pseudo n = true ->
     pseudo_headers c' !! n = match pseudo_headers c !! n with
                              | Some v => Some v
                              | None => field_value n fields
                              end).
Proof.
  revert c; induction fields as [|f fields IH]; intros c Hc; cbn [collect_fields].
  { intros [= <-]. split; [done|]. split; [done|]. intros n _. by destruct (pseudo_headers c !! n). }
  intros (c1 & E & K)%bind_Some. pose proof (collect_field_ok _ _ _ Hc E) as Hc1.
  apply (IH c1 Hc1) in K as (K1 & K2 & K3). split; [done|].
  apply collect_field_inv in E as (_ & _ & _ & E). cbn [fold_left]. unfold add_field at 2.
  destruct (is_pseudo (Hpack.name f)) eqn:P.
  - destruct E as (Hp & Hn & ->). cbn in K2, K3. split; [done|]. intros n Hr. rewrite (K3 n Hr), field_value_cons.
    destruct (decide (Hpack.name f = n)) as [<-|]; [by rewrite lookup_insert_eq, Hn|by rewrite lookup_insert_ne].
  - destruct E as (_ & cl & -> & _). cbn in K2, K3. split; [done|]. intros n Hr.
    rewrite (K3 n Hr), field_value_cons. destruct (decide (Hpack.name f = n)) as [<-|]; [|done].
    apply is_request_pseudo_pseudo in Hr. congruence.
Qed.

Lemma no_fields_ok : collected_ok no_fields.
Proof. constructor; done. Qed.

(** Printing a header map and reading it back trims the values. *)
Lemma set_trimmed_order (l : list (bytes * bytes)) h n :
  NoDup l.*1 -> (forall k v, (k, v) ∈ l -> lowercase k = k) ->
  fold_left set_trimmed l h !! n = match (list_to_map l : Request.Headers) !! n with
                                   | Some v => Some (trim v)
                                   | None => h !! n
                                   end.
Proof.
  revert h; induction l as [|[k v] l IH]; intros h ND Hl; [done|].
  apply NoDup_cons in ND as [Nk ND]. cbn [fold_left]. rewrite IH by (done || intros; eapply Hl; by right).
  unfold set_trimmed. cbn [fst snd]. rewrite (Hl k v) by left. rewrite list_to_map_cons.
  destruct (decide (k = n)) as [-> |].
  - rewrite not_elem_of_list_to_map_1 by done. by rewrite !lookup_insert_eq.
  - by rewrite !lookup_insert_ne.
Qed.

Section build.
Context `{MapOrder bytes}.

Lemma set_trimmed_map (h : Request.Headers) :
  map_Forall (fun n _ => lowercase n = n) h -> fold_left set_trimmed (order h) ∅ = trim <$> h.
Proof.
  intros Hl. apply map_eq. intros n. rewrite set_trimmed_order, lookup_fmap.
  - rewrite (list_to_map_proper (M := gmap bytes) (order h) (map_to_list h))
      by (apply order_NoDup || apply order_perm).
    rewrite list_to_map_to_list. by destruct (h !! n).
  - apply order_NoDup.
  - intros k v Hk%order_lookup. by apply (Hl k v).
Qed.

Lemma raw_request_print (m p : bytes) h cl (b : bytes) :
  raw_request m p h cl b
  = (m ++ SP :: p ++ SP :: str "HTTP/1.1") ++ CRLF
    ++ ((order h ++ (if negb (bool_decide (b = [])) && negb (bool_decide (is_Some cl))
                     then [(str "content-length", to_string (size b))] else [])) ≫= print_header)
    ++ CRLF ++ b.
Proof.
  unfold raw_request. rewrite bind_app. unfold print_header at 2.
  change (str " HTTP/1.1") with (SP :: str "HTTP/1.1"). destruct (_ && _); cbn [mbind list_bind app fst snd];
    repeat (rewrite <- ?app_assoc; cbn [app]; try done).
Qed.

Lemma words_request_line (m p : bytes) :
  words (m ++ SP :: p ++ SP :: str "HTTP/1.1") = words m ++ words p ++ [str "HTTP/1.1"].
Proof. by rewrite !words_app_space. Qed.

Lemma words_snoc_three (l : list bytes) (v : bytes) (A : Type) (f : bytes -> bytes -> bytes -> A) (y : A) :
  match l ++ [v] with [a; b; c] => f a b c | _ => y end
  = match l with [a; b] => f a b v | _ => y end.
Proof. by destruct l as [|a [|b [|c [|d l]]]]. Qed.

Lemma raw_request_parse (m p : bytes) (h : Request.Headers) (cl : option Z) (b : bytes) :
  clean m -> clean p ->
  map_Forall (fun n v => valid_header_name n = true /\ lowercase n = n /\ clean v) h ->
  (is_Some cl <-> is_Some (h !! str "content-length")) ->
  let h' := trim <$> h in
  let h' := if bool_decide (b = []) || bool_decide (is_Some (h' !! str "content-length")) then h'
            else <[str "content-length" := to_string (size b)]> h' in
  parse_request (raw_request m p h cl b)
  = match words m ++ words p with
    | [m'; t] => Parsed (parse_target (mk_request m' t [] [] (str "HTTP/1.1") h' ∅ b (size b) None))
    | _ => Rejected malformed_request_line "request line must be: METHOD TARGET HTTP/VERSION"
    end.
Proof.
  intros Hm Hp Hh Hcl h1 h'. rewrite raw_request_print. set (extra := if _ && _ then _ else _).
  assert (E : fold_left set_trimmed (order h ++ extra) ∅ = h').
  { rewrite fold_left_app, set_trimmed_map by (intros n v Hn; by apply (Hh n v)).
    unfold extra, h'. fold h1.
    assert (B : bool_decide (is_Some (h1 !! str "content-length")) = bool_decide (is_Some cl)).
    { apply bool_decide_ext. unfold h1. by rewrite lookup_fmap, fmap_is_Some, Hcl. }
    rewrite B. destruct (bool_decide (b = [])), (bool_decide (is_Some cl)); try done.
    cbn [negb andb orb fold_left]. unfold set_trimmed. cbn [fst snd].
    rewrite (trimmed_trim (to_string _)); [done|]. apply all_alnum_trimmed, to_string_alnum. lia. }
  rewrite parse_request_lines.
  - rewrite E, words_request_line, app_assoc, words_snoc_three. done.
  - apply clean_no_line in Hm as [_ Hm], Hp as [_ Hp]. rewrite not_elem_of_app, not_elem_of_cons,
      not_elem_of_app, not_elem_of_cons. split_and!; try done. by_decide.
  - apply Forall_app. split.
    + apply Forall_forall. intros [n v] Hn%order_lookup. apply Hh in Hn as (V & _ & C).
      apply valid_name_plain in V as (? & ? & ? & ?). apply clean_no_line in C as [_ ?]. by constructor.
    + unfold extra. destruct (_ && _); [|constructor]. apply Forall_singleton.
      constructor; cbn [fst snd]; [split; [done|]|split; by_decide|].
      * split; intros c [= <-]; reflexivity.
      * pose proof (to_string_alnum (size b) ltac:(lia)) as A. rewrite Forall_forall in A. by intros ?%A.
Qed.

(** The conditions on a request beyond those on single fields. *)
Record acceptable (fields : list HeaderField) (b : bytes) : Prop := {
  acc_scheme : field_value (str ":scheme") fields = Some (str "http")
               \/ field_value (str ":scheme") fields = Some (str "https");
  acc_length : forall v, regular_headers fields !! str "content-length" = Some v ->
                 parse_decimal_size (trim v) = Some (size b);
  acc_host : forall a v, field_value (str ":authority") fields = Some a ->
               regular_headers fields !! str "host" = Some v -> v = a;
}.

Lemma build_request_collected st c :
  collect_fields (stream_headers st) no_fields = Some c ->
  let fields := stream_headers st in
  let b := stream_body st in
  (build_request st = build_error /\
   ~ (is_Some (field_value (str ":method") fields) /\ is_Some (field_value (str ":path") fields)
      /\ acceptable fields b)) \/
  exists m p, field_value (str ":method") fields = Some m /\ field_value (str ":path") fields = Some p /\
    acceptable fields b /\
    build_request st =
    match words m ++ words p with
    | [m'; t] => Built (set_version (str "HTTP/2") (parse_target
        (mk_request m' t [] [] (str "HTTP/1.1") (expected_headers fields b) ∅ b (size b) None)))
    | _ => build_error
    end.
Proof.
  intros Ec fields b. destruct (collect_fields_inv _ _ _ no_fields_ok Ec) as ([C1 C2 C3] & R & P).
  unfold build_request. rewrite Ec, !P by reflexivity. fold fields b. fold fields in R.
  cbn [pseudo_headers no_fields]. rewrite !lookup_empty. change (request_headers c = regular_headers fields) in R.
  rewrite R in *.
  destruct (field_value (str ":method") fields) as [m|] eqn:Em; [|left; split; [done|by intros [[] _]]].
  destruct (field_value (str ":path") fields) as [p|] eqn:Ep; [|left; split; [done|by intros (_ & [] & _)]].
  destruct (field_value (str ":scheme") fields) as [scheme|] eqn:Es;
    [|left; split; [done|]; intros (_ & _ & [[A|A] _ _]); congruence].
  assert (Clean : forall n v, is_request_pseudo n = true -> field_value n fields = Some v -> clean v).
  { intros n v Hn Hv. apply (C1 n v). rewrite (P n Hn). done. }
  destruct (negb (bool_decide (scheme = str "http")) && _) eqn:Bs.
  { left. split; [done|]. intros (_ & _ & [A _ _]). rewrite Es in A.
    apply andb_true_iff in Bs as [B1 B2]. rewrite !negb_true_iff, !bool_decide_eq_false in B1, B2.
    destruct A; congruence. }
  assert (As : Some scheme = Some (str "http") \/ Some scheme = Some (str "https")).
  { apply andb_false_iff in Bs. rewrite !negb_false_iff, !bool_decide_eq_true in Bs.
    destruct Bs; [left|right]; congruence. }
  destruct (match content_length c with Some n => negb (n =? size b) | None => false end) eqn:Bl.
  { left. split; [done|]. intros (_ & _ & [_ A _]). destruct (content_length c) as [n|]; [|done].
    destruct C3 as (v & V1 & V2). rewrite (A v V1) in V2. injection V2 as <-. by rewrite Z.eqb_refl in Bl. }
  assert (Al : forall v, regular_headers fields !! str "content-length" = Some v ->
                 parse_decimal_size (trim v) = Some (size b)).
  { intros v Hv. destruct (content_length c) as [n|]; [|congruence]. destruct C3 as (w & V1 & V2).
    apply negb_false_iff, Z.eqb_eq in Bl. congruence. }
  assert (Hcl : is_Some (content_length c) <-> is_Some (regular_headers fields !! str "content-length")).
  { destruct (content_length c); [destruct C3 as (? & -> & _)|rewrite C3]; by split; intros []. }
  assert (Done : forall h, h = match field_value (str ":authority") fields with
                               | Some a => <[str "host" := a]> (regular_headers fields)
                               | None => regular_headers fields
                               end ->
    match parse_request (raw_request m p h (content_length c) b) with
    | Rejected _ _ => build_error
    | Parsed r => Built (set_version (str "HTTP/2") r)
    end = match words m ++ words p with
          | [m'; t] => Built (set_version (str "HTTP/2") (parse_target
              (mk_request m' t [] [] (str "HTTP/1.1") (expected_headers fields b) ∅ b (size b) None)))
          | _ => build_error
          end).
  { intros h Hh. rewrite raw_request_parse.
    - unfold expected_headers. rewrite <- Hh. by destruct (words m ++ words p) as [|? [|? [|? ?]]].
    - by apply (Clean (str ":method")).
    - by apply (Clean (str ":path")).
    - rewrite Hh. destruct (field_value (str ":authority") fields) as [a|] eqn:Ea; [|done].
      apply map_Forall_insert_2; [|done]. split_and!; [done|done|]. by apply (Clean (str ":authority")).
    - rewrite Hcl, Hh. destruct (field_value (str ":authority") fields); [|done]. by rewrite lookup_insert_ne. }
  destruct (field_value (str ":authority") fields) as [a|] eqn:Ea.
  - destruct (regular_headers fields !! str "host") as [v|] eqn:Eh.
    + destruct (bool_decide (v = a)) eqn:Bh;
        [apply bool_decide_eq_true in Bh|apply bool_decide_eq_false in Bh].
      * right. exists m, p. split_and!; try done; [constructor; [by rewrite Es|exact Al|rewrite Ea; intros; congruence]|]. by apply Done.
      * left. split; [done|]. intros (_ & _ & [_ _ A]). by apply Bh, A.
    + right. exists m, p. split_and!; try done; [constructor; [by rewrite Es|exact Al|rewrite Ea; intros; congruence]|]. by apply Done.
  - right. exists m, p. split_and!; try done; [constructor; [by rewrite Es|exact Al|rewrite Ea; intros; congruence]|]. by apply Done.
Qed.
End build.

(** ** A client's request *)

Definition field_of (nv : bytes * bytes) : HeaderField := mk_field nv.1 nv.2.

Definition request_fields (m scheme p a : bytes) (regular : list (bytes * bytes)) : list HeaderField :=
  mk_field (str ":method") m :: mk_field (str ":scheme") scheme :: mk_field (str ":path") p
  :: mk_field (str ":authority") a :: (field_of <$> regular).

(** A header that a client may send, as it is sent. *)
Record client_header (b : bytes) (nv : bytes * bytes) : Prop := {
  ch_name : valid_header_name nv.1 = true /\ header_name_has_uppercase nv.1 = false /\ nv.1 <> str "host";
  ch_value : clean nv.2 /\ trimmed nv.2;
  ch_allowed : forbidden_request_header nv.1 nv.2 = false;
  ch_length : nv.1 = str "content-length" -> parse_decimal_size nv.2 = Some (size b);
}.

Record client_request (m scheme p a : bytes) (regular : list (bytes * bytes)) (b : bytes) : Prop := {
  cr_words : wf_word m /\ wf_word p;
  cr_clean : clean m /\ clean p /\ clean a /\ trimmed a;
  cr_scheme : scheme = str "http" \/ scheme = str "https";
  cr_regular : Forall (client_header b) regular;
  cr_distinct : NoDup regular.*1;
}.

Lemma token_not_pseudo n : valid_header_name n = true -> is_pseudo n = false.
Proof.
  intros (_ & _ & Hc & _)%valid_name_plain. unfold is_pseudo. apply bool_decide_eq_false.
  intros Hh. by apply Hc, head_Some_elem_of.
Qed.

Lemma collect_pseudo c n v :
  n <> [] -> header_name_has_uppercase n = false -> is_request_pseudo n = true -> clean v ->
  regular_header_seen c = false -> pseudo_headers c !! n = None ->
  collect_field c (mk_field n v)
  = Some (mk_collected (<[n := v]> (pseudo_headers c)) (request_headers c) false (content_length c)).
Proof.
  intros Hn U P C S L. unfold collect_field. cbn [Hpack.name Hpack.value].
  rewrite (no_uppercase_lower _ U), U, C, (bool_decide_false (n = [])) by done. cbn [orb].
  change (bool_decide (head n = Some (chr ":"))) with (is_pseudo n).
  rewrite (is_request_pseudo_pseudo n P), P, S, L. done.
Qed.

Lemma collect_client_header b c nv :
  client_header b nv -> (nv.1 = str "content-length" -> content_length c = None) ->
  exists cl, collect_field c (field_of nv)
             = Some (mk_collected (pseudo_headers c) (merge_header nv.1 nv.2 (request_headers c)) true cl)
  /\ (nv.1 <> str "content-length" -> cl = content_length c).
Proof.
  intros [(V & U & _) [C T] F L] Hc. destruct nv as [n v]; cbn [fst snd] in *. unfold collect_field, field_of.
  cbn [fst snd Hpack.name Hpack.value]. pose proof (valid_name_plain n V) as (Hn & _).
  rewrite (no_uppercase_lower _ U), U, C, (bool_decide_false (n = [])) by done. cbn [orb].
  change (bool_decide (head n = Some (chr ":"))) with (is_pseudo n).
  rewrite (token_not_pseudo n V), V, F. cbn [negb orb].
  destruct (decide (n = str "content-length")) as [E|E].
  - rewrite (bool_decide_true (n = str "content-length")), (Hc E), trimmed_trim, (L E) by done. by eexists.
  - rewrite (bool_decide_false (n = str "content-length")) by done. by eexists.
Qed.

Lemma collect_client_headers b l c :
  Forall (client_header b) l -> NoDup l.*1 ->
  (str "content-length" ∈ l.*1 -> content_length c = None) ->
  is_Some (collect_fields (field_of <$> l) c).
Proof.
  intros F. revert c; induction F as [|nv l W _ IH]; intros c ND Hc; [by eexists|].
  apply NoDup_cons in ND as [N ND]. cbn [fmap list_fmap collect_fields].
  destruct (collect_client_header b c nv W) as (cl & -> & Hcl); [intros E; apply Hc; rewrite <- E; left|].
  cbn [mbind option_bind]. apply IH; [done|]. cbn [content_length]. intros Hin. rewrite Hcl.
  - apply Hc. by right.
  - intros E. apply N. by rewrite E.
Qed.

Lemma regular_headers_fields l h :
  Forall (fun nv => valid_header_name nv.1 = true) l -> NoDup l.*1 -> (forall n, n ∈ l.*1 -> h !! n = None) ->
  fold_left add_field (field_of <$> l) h = (list_to_map l : Request.Headers) ∪ h.
Proof.
  intros F. revert h; induction F as [|[n v] l V _ IH]; intros h ND Hh.
  { cbn. by rewrite (left_id_L ∅ (∪)). }
  apply NoDup_cons in ND as [N ND]. cbn [fmap list_fmap fold_left fst] in *.
  unfold add_field at 2, field_of at 2 3 4. cbn [fst snd Hpack.name Hpack.value].
  rewrite token_not_pseudo by done. unfold merge_header. rewrite Hh by left.
  rewrite IH; [|done|].
  - rewrite list_to_map_cons. rewrite <- insert_union_r, insert_union_l; [done|].
    by apply not_elem_of_list_to_map_1.
  - intros k Hk. rewrite lookup_insert_ne; [apply Hh; by right|]. by intros <-.
Qed.

Section client.
Context (m scheme p a : bytes) (regular : list (bytes * bytes)) (b : bytes).
Context (W : client_request m scheme p a regular b).

Let fields := request_fields m scheme p a regular.

Lemma request_fields_collect : is_Some (collect_fields fields no_fields).
Proof using W.
  destruct W as [_ (Cm & Cp & Ca & _) S R D]. unfold fields, request_fields. cbn [collect_fields].
  assert (Cs : clean scheme) by (destruct S as [-> | ->]; reflexivity).
  do 4 (rewrite collect_pseudo; [cbn [mbind option_bind]|done|reflexivity|reflexivity|done|reflexivity|by_decide ||
    (cbn [pseudo_headers no_fields]; rewrite ?lookup_insert_ne by done; reflexivity)]).
  by apply (collect_client_headers b).
Qed.

Lemma request_fields_values :
  field_value (str ":method") fields = Some m /\ field_value (str ":scheme") fields = Some scheme /\
  field_value (str ":path") fields = Some p /\ field_value (str ":authority") fields = Some a.
Proof. unfold fields, request_fields. by rewrite !field_value_cons. Qed.

Lemma request_fields_headers : regular_headers fields = list_to_map regular.
Proof using W.
  destruct W as [_ _ _ R D]. unfold regular_headers, fields, request_fields. cbn [fold_left].
  do 4 (unfold add_field at 2; cbn [Hpack.name]; change (is_pseudo _) with true; cbn match).
  rewrite regular_headers_fields; [by rewrite (right_id_L ∅ (∪))| |done|by intros; apply lookup_empty].
  eapply Forall_impl; [exact R|]. by intros nv [(? & _) _ _ _].
Qed.

Lemma request_fields_lookup n v :
  (list_to_map regular : Request.Headers) !! n = Some v <-> (n, v) ∈ regular.
Proof using W. destruct W. symmetry. by apply elem_of_list_to_map. Qed.

Lemma request_fields_acceptable : acceptable fields b.
Proof using W.
  destruct request_fields_values as (_ & Es & _ & Ea). destruct W as [_ _ S R D].
  rewrite Forall_forall in R. constructor; rewrite ?Es, ?Ea, ?request_fields_headers.
  - destruct S as [-> | ->]; auto.
  - intros v Hv%request_fields_lookup. apply R in Hv as [_ [_ T] _ L]. cbn in T, L. rewrite trimmed_trim by done.
    by apply L.
  - intros a' v _ Hv%request_fields_lookup. by apply R in Hv as [(_ & _ & N) _ _ _].
Qed.

Lemma request_fields_expected n v :
  n <> str "content-length" ->
  expected_headers fields b !! n = Some v <-> n = str "host" /\ v = a \/ (n, v) ∈ regular.
Proof using W.
  intros Hn. destruct request_fields_values as (_ & _ & _ & Ea). pose proof W as [_ (_ & _ & _ & Ta) _ R _].
  unfold expected_headers. rewrite Ea, request_fields_headers.
  assert (E : (trim <$> <[str "host":=a]> (list_to_map regular : Request.Headers)) !! n = Some v
              <-> n = str "host" /\ v = a \/ (n, v) ∈ regular).
  { rewrite lookup_fmap, fmap_Some. rewrite Forall_forall in R. split.
    - intros (w & [[<- <-]|[Hne Hw%request_fields_lookup]]%lookup_insert_Some & ->).
      + left. by rewrite trimmed_trim.
      + right. apply R in Hw as T. destruct T as [_ [_ T] _ _]. cbn in T. by rewrite trimmed_trim.
    - intros [[-> ->]|Hw].
      + exists a. rewrite lookup_insert_eq. by rewrite trimmed_trim.
      + apply R in Hw as T. destruct T as [(_ & _ & N) [_ T] _ _]. cbn in T, N. exists v.
        rewrite trimmed_trim by done. rewrite lookup_insert_ne by done. by apply request_fields_lookup in Hw. }
  destruct (_ || _); [done|]. by rewrite lookup_insert_ne.
Qed.

Lemma request_fields_build `{MapOrder bytes} st :
  stream_headers st = fields -> stream_body st = b ->
  exists r, build_request st = Built r /\
  method r = m /\ target r = p /\ version r = str "HTTP/2" /\ Request.body r = b /\
  Request.headers r = expected_headers fields b.
Proof using W.
  intros Ef Eb. destruct request_fields_collect as [c Ec]. destruct request_fields_values as (Em & _ & Ep & _).
  rewrite <- Ef in Ec. destruct (build_request_collected st c Ec) as [[_ C]|(m' & p' & Hm & Hp & _ & E)].
  - destruct C. rewrite Ef, Eb, Em, Ep. split_and!; [done|done|]. apply request_fields_acceptable.
  - rewrite Ef, Eb in E. rewrite Ef in Hm, Hp. rewrite E. simplify_eq.
    destruct W as [[[? ?] [? ?]] _ _ _ _]. rewrite (words_last m), (words_last p) by done.
    cbn [app]. eexists. split; [reflexivity|]. cbn [set_version method target version Request.body Request.headers].
    set (q := mk_request m p [] [] _ _ _ _ _ _).
    destruct (parse_target_fields q) as (-> & -> & _ & -> & -> & _). done.
Qed.
End client.

(** ** A client's frames *)

Definition client_flags (end_headers end_stream : bool) : byte :=
  u8 (Z.lor (if end_headers then flag_end_headers else 0) (if end_stream then flag_end_stream else 0)).

Fixpoint continuation_frames (i : Z) (parts : list bytes) : list Frame :=
  match parts with
  | [] => []
  | p :: parts' =>
      mk_frame (frame_type_value continuation) (client_flags (bool_decide (parts' = [])) false) i p
      :: continuation_frames i parts'
  end.

Definition header_frames (i : Z) (end_stream : bool) (first : bytes) (parts : list bytes) : list Frame :=
  mk_frame (frame_type_value Http2Frame.headers) (client_flags (bool_decide (parts = [])) end_stream) i first
  :: continuation_frames i parts.

Fixpoint data_frames (i : Z) (parts : list bytes) : list Frame :=
  match parts with
  | [] => []
  | p :: parts' =>
      mk_frame (frame_type_value data) (client_flags false (bool_decide (parts' = []))) i p
      :: data_frames i parts'
  end.

(** A header block and a body, each cut into pieces. *)
Definition message_frames (i : Z) (first : bytes) (conts body_parts : list bytes) : list Frame :=
  header_frames i (bool_decide (body_parts = [])) first conts ++ data_frames i body_parts.

(** Handling frames one after the other. *)
Fixpoint feed `{MapOrder bytes} (max : Z) (fs : list Frame) (s : ServerSession)
    : outcome (ServerSession * list SessionResult) :=
  match fs with
  | [] => mret (s, [])
  | f :: fs' =>
      let '(s1, r) := handle_frame f max s in
      r ← r; '(s2, rs) ← feed max fs' s1; mret (s2, r :: rs)
  end.

(** A result that answers nothing and keeps the connection. *)
Definition quiet (r : SessionResult) : Prop :=
  completed_stream r = None /\ error_response r = None /\ close_now r = false /\ keep_connection r = true.

Section frames.
Context `{MapOrder bytes} (max : Z).
Implicit Type s : ServerSession.

Lemma feed_app fs gs s :
  feed max (fs ++ gs) s = ('(s1, rs) ← feed max fs s; '(s2, rs') ← feed max gs s1; mret (s2, rs ++ rs')).
Proof.
  revert s; induction fs as [|f fs IH]; intros s; cbn [app feed].
  - cbn [mbind outcome_bind mret outcome_ret]. by destruct (feed max gs s) as [[]| |].
  - destruct (handle_frame f max s) as [s1 [r|e|]]; cbn [mbind outcome_bind]; [|done|done].
    rewrite IH. destruct (feed max fs s1) as [[s2 rs]| |]; cbn [mbind outcome_bind mret outcome_ret]; [|done|done].
    by destruct (feed max gs s2) as [[]| |].
Qed.

Lemma client_flags_check eh es :
  has_flag (val (client_flags eh es)) flag_end_headers = eh /\
  has_flag (val (client_flags eh es)) flag_end_stream = es /\
  has_flag (val (client_flags eh es)) flag_padded = false /\
  has_flag (val (client_flags eh es)) flag_priority = false.
Proof. by destruct eh, es. Qed.

Lemma header_block_plain t eh es i p :
  header_block_payload (mk_frame t (client_flags eh es) i p) = Some p.
Proof.
  destruct (client_flags_check eh es) as (_ & _ & Hp & Hq). unfold header_block_payload, padded_bounds.
  cbn [flags Http2Frame.payload]. rewrite Hp, Hq. cbn [mbind option_bind].
  destruct (Nat.ltb_spec (length p) 0); [lia|]. rewrite Nat.sub_0_r. unfold substr. by rewrite take_ge.
Qed.

Lemma data_payload_plain t eh es i p :
  data_payload (mk_frame t (client_flags eh es) i p) = Some p.
Proof.
  destruct (client_flags_check eh es) as (_ & _ & Hp & _). unfold data_payload, padded_bounds.
  cbn [flags Http2Frame.payload]. rewrite Hp. cbn [mbind option_bind].
  destruct (Nat.ltb_spec (length p) 0); [lia|]. rewrite Nat.sub_0_r. unfold substr. by rewrite take_ge.
Qed.

Lemma frame_type_inv t : frame_type (frame_type_value t) = Some t.
Proof. by destruct t. Qed.

Lemma set_pending_id s : pending_headers_ s = None -> set_pending None s = s.
Proof. destruct s. cbn. by intros ->. Qed.

(** Continuations complete the block of the pending header. *)
Lemma feed_continuations i es acc parts s s' r :
  parts <> [] -> pending_headers_ s = None -> size (acc ++ concat parts) <= max ->
  decode_headers i es (acc ++ concat parts) s = (s', Ret r) ->
  feed max (continuation_frames i parts) (set_pending (Some (mk_pending i es acc)) s)
  = Ret (s', replicate (length parts - 1) empty_result ++ [r]).
Proof.
  intros Hne Hp. revert acc; induction parts as [|p parts IH]; intros acc Hs D; [done|].
  cbn [continuation_frames feed concat length] in *. unfold handle_frame at 1. cbn [type].
  rewrite frame_type_inv, (bool_decide_true (Some continuation = Some continuation)), andb_false_r by done.
  unfold handle_continuation_frame. cbn [set_pending pending_headers_ pending_stream_id stream_id
    pending_block Http2Frame.payload flags pending_end_stream].
  rewrite Z.eqb_refl. cbn [negb].
  destruct (Z.ltb_spec max (size acc + size p)); [rewrite !length_app in Hs; lia|].
  destruct (client_flags_check (bool_decide (parts = [])) false) as (-> & _).
  rewrite app_assoc in D, Hs.
  destruct parts as [|p2 parts].
  - rewrite bool_decide_true by done. cbn [negb concat] in *. rewrite app_nil_r in D.
    change (set_pending None (set_pending (Some (mk_pending i es acc)) s)) with (set_pending None s).
    rewrite set_pending_id, D by done. done.
  - rewrite bool_decide_false by done. cbn [negb].
    change (set_pending (Some (mk_pending i es (acc ++ p))) (set_pending (Some (mk_pending i es acc)) s))
      with (set_pending (Some (mk_pending i es (acc ++ p))) s).
    specialize (IH ltac:(done) (acc ++ p) Hs D). cbn [mbind outcome_bind mret outcome_ret].
    rewrite IH. cbn [mbind outcome_bind mret outcome_ret length]. by replace (S (S (length parts)) - 1)%nat with (S (S (length parts) - 1)) by lia.
Qed.

Lemma feed_header_frames i es first conts s s' r :
  0 < i -> i mod 2 = 1 -> pending_headers_ s = None -> last_client_stream_id_ s < i ->
  size (first ++ concat conts) <= max -> decode_headers i es (first ++ concat conts) s = (s', Ret r) ->
  feed max (header_frames i es first conts) s = Ret (s', replicate (length conts) empty_result ++ [r]).
Proof.
  intros Hi Odd Hp Hl Hs D. unfold header_frames. cbn [feed]. unfold handle_frame at 1. cbn [type].
  rewrite frame_type_inv, Hp. rewrite (bool_decide_false (is_Some None)) by (by intros []). cbn [andb].
  unfold handle_headers_frame. cbn zeta. rewrite Hp, (bool_decide_false (is_Some None)) by (by intros []).
  cbn [stream_id]. rewrite Odd. cbn [Z.eqb].
  destruct (Z.leb_spec i (last_client_stream_id_ s)); [lia|]. rewrite andb_false_r, header_block_plain.
  destruct (Z.ltb_spec max (size first)); [rewrite length_app in Hs; lia|]. cbn [flags].
  destruct (client_flags_check (bool_decide (conts = [])) es) as (-> & -> & _).
  destruct conts as [|p conts].
  - rewrite bool_decide_true by done. cbn [negb concat] in *. rewrite app_nil_r in D. rewrite D. done.
  - rewrite bool_decide_false by done. cbn [negb mbind outcome_bind mret outcome_ret].
    rewrite (feed_continuations i es first (p :: conts) s s' r) by done. cbn [length].
    by rewrite ?Nat.sub_succ, ?Nat.sub_0_r.
Qed.

(** A new stream, once its header block is decoded. *)
Definition opened (i : Z) (l : StreamLifecycle) (fields : list HeaderField) (b : bytes) s : ServerSession :=
  set_streams (<[i := mk_stream i true l 65535 fields b]> (streams_ s)) s.

Lemma decode_headers_fresh i es block fields s :
  streams_ s !! i = None -> last_client_stream_id_ s < i ->
  Forall wf_field fields -> hpack_encode_header_block fields = Ret block ->
  decode_headers i es block s
  = let s1 := set_last_client i s in
    if es then complete_stream i (opened i half_closed_remote fields [] s1)
    else (opened i open fields [] s1, mret empty_result).
Proof.
  intros Hn Hl F E. unfold decode_headers, decode_header_block.
  pose proof (decode_loop_encoded _ (decoder_ s) [] fields block [] false F E (le_n _)) as D.
  cbn [app length] in D. rewrite D.
  replace (set_decoder (decoder_ s) s) with s by (by destruct s).
  rewrite Hn. cbn [default from_option new_stream headers_received inbound_window stream_body].
  cbn [last_client_stream_id_ set_streams]. destruct (Z.ltb_spec (last_client_stream_id_ s) i); [|lia].
  by destruct es.
Qed.

Lemma complete_opened i l fields b s :
  complete_stream i (opened i l fields b s)
  = (reset_stream i s,
     Ret match build_request (mk_stream i true l 65535 fields b) with
         | Refused response => mk_result [] true false None (Some response) i ""
         | Built request => mk_result [] true false (Some (mk_completed i request)) None 0 ""
         end).
Proof.
  unfold complete_stream, opened. cbn [streams_ set_streams]. rewrite lookup_insert_eq.
  by rewrite reset_set_stream.
Qed.

(** What the last frame of a request reports, after its window updates. *)
Definition completes (i : Z) (fields : list HeaderField) (b : bytes) (r : SessionResult) : Prop :=
  forall q, build_request (mk_stream i true half_closed_remote 65535 fields b) = Built q ->
  completed_stream r = Some (mk_completed i q) /\ error_response r = None /\
  close_now r = false /\ keep_connection r = true.

Lemma handle_data_opened i fields b p es s :
  0 < i < 2 ^ 31 -> pending_headers_ s = None -> connection_inbound_window_ s = 65535 ->
  size p <= default_max_frame_size -> size (b ++ p) <= max ->
  exists r,
    handle_frame (mk_frame (frame_type_value data) (client_flags false es) i p) max (opened i open fields b s)
    = (if es then reset_stream i s else opened i open fields (b ++ p) s, Ret r) /\
    if es then completes i fields (b ++ p) r else quiet r.
Proof.
  intros Hi Hp Hw Hsz Hm. unfold handle_frame. cbn [type]. rewrite frame_type_inv.
  cbn [pending_headers_ opened set_streams]. rewrite Hp, (bool_decide_false (is_Some None)) by (by intros []).
  cbn [andb]. unfold handle_data_frame. cbn zeta. cbn [stream_id]. unfold opened at 1.
  cbn [streams_ set_streams]. rewrite lookup_insert_eq. cbn [headers_received negb lifecycle].
  rewrite bool_decide_false by done. rewrite data_payload_plain. cbn [flags inbound_window stream_body
    connection_inbound_window_ opened set_streams state_id stream_headers]. rewrite Hw.
  destruct (client_flags_check false es) as (_ & -> & _). unfold default_max_frame_size in Hsz.
  rewrite (wrap_small 64 65535), wrap_small, i32_small by lia.
  destruct (Z.ltb_spec 65535 (size p)); [lia|]. cbn [orb]. rewrite length_app in Hm.
  destruct (Z.ltb_spec max (size b + size p)); [lia|].
  assert (E : match p with
    | [] => (65535 - size p, 65535 - size p)
    | _ => (65535 - size p + size p, 65535 - size p + size p) end = (65535, 65535)).
  { destruct p; cbn [length]; f_equal; lia. }
  rewrite E. clear E.
  assert (U : exists out, match p with
     | [] => mret []
     | _ => x ← window_update_frame 0 (size p); y ← window_update_frame i (size p); mret (x ++ y)
     end = Ret out).
  { destruct p as [|x p]; [by eexists|]. cbn [length] in *.
    rewrite !window_update_frame_returns by lia. by eexists. }
  destruct U as [out ->].
  assert (S : forall l, set_streams (<[i := mk_stream i true l 65535 fields (b ++ p)]>
      (streams_ (set_window 65535 (opened i open fields b s)))) (set_window 65535 (opened i open fields b s))
      = opened i l fields (b ++ p) s).
  { intros l. unfold opened, set_streams, set_window. cbn. rewrite insert_insert_eq, <- Hw. by destruct s. }
  rewrite S. destruct es; [|by eexists].
  rewrite complete_opened. cbn [mbind outcome_bind mret outcome_ret]. eexists. split; [reflexivity|].
  intros q ->. done.
Qed.

(** The body of a stream, frame by frame. *)
Lemma feed_data_frames i fields b parts s :
  0 < i < 2 ^ 31 -> pending_headers_ s = None -> connection_inbound_window_ s = 65535 -> parts <> [] ->
  Forall (fun p => size p <= default_max_frame_size) parts -> size (b ++ concat parts) <= max ->
  exists rs r, feed max (data_frames i parts) (opened i open fields b s) = Ret (reset_stream i s, rs ++ [r]) /\
  Forall quiet rs /\ completes i fields (b ++ concat parts) r.
Proof.
  intros Hi Hp Hw Hne F. revert b Hne; induction F as [|p parts Hsz F IH]; intros b Hne Hm; [done|].
  cbn [data_frames feed concat] in *. rewrite app_assoc in Hm |- *.
  destruct (handle_data_opened i fields b p (bool_decide (parts = [])) s) as (r & -> & C); try done.
  { rewrite length_app in Hm. lia. }
  cbn [mbind outcome_bind]. destruct (decide (parts = [])) as [-> |Hparts].
  - rewrite bool_decide_true in C |- * by done. cbn [data_frames feed mbind outcome_bind mret outcome_ret concat].
    rewrite app_nil_r. by exists [], r.
  - rewrite bool_decide_false in C |- * by done.
    destruct (IH (b ++ p) Hparts Hm) as (rs & r2 & -> & Q & C2). cbn [mbind outcome_bind mret outcome_ret].
    exists (r :: rs), r2. split_and!; [done|by constructor|done].
Qed.

(** A whole request, on a session that is ready for it. *)
Lemma feed_message_frames answered i fields block first conts parts s :
  session_ok max answered s -> pending_headers_ s = None -> client_stream i -> last_client_stream_id_ s < i ->
  Forall wf_field fields -> hpack_encode_header_block fields = Ret block -> first ++ concat conts = block ->
  size block <= max -> size (concat parts) <= max ->
  Forall (fun p => size p <= default_max_frame_size) parts ->
  exists s' rs r, feed max (message_frames i first conts parts) s = Ret (s', rs ++ [r]) /\
  Forall quiet rs /\ completes i fields (concat parts) r.
Proof.
  intros Hs Hp [Hi Odd] Hl F E Eb Hbl Hbo Hsz. subst block. unfold message_frames.
  assert (Hn : streams_ s !! i = None).
  { destruct (streams_ s !! i) as [st|] eqn:K; [|done]. apply (ok_streams _ _ _ Hs) in K as [(_ & _ & ?) _ _ _]. lia. }
  assert (Q0 : Forall quiet (replicate (length conts) empty_result)) by (by apply Forall_replicate).
  pose proof (decode_headers_fresh i (bool_decide (parts = [])) _ fields s Hn Hl F E) as D. cbn zeta in D.
  destruct (decide (parts = [])) as [-> |Hne].
  - rewrite bool_decide_true in D |- * by done. rewrite complete_opened in D.
    rewrite app_nil_r, (feed_header_frames i true first conts s _ _ ltac:(lia) Odd Hp Hl Hbl D).
    eexists _, _, _. split; [reflexivity|]. split; [done|]. cbn [concat]. intros q ->. done.
  - rewrite bool_decide_false in D |- * by done.
    rewrite feed_app, (feed_header_frames i false first conts s _ _ ltac:(lia) Odd Hp Hl Hbl D).
    cbn [mbind outcome_bind].
    destruct (feed_data_frames i fields [] parts (set_last_client i s) Hi Hp (ok_window _ _ _ Hs) Hne Hsz Hbo)
      as (rs & r & -> & Q & C).
    cbn [mbind outcome_bind mret outcome_ret]. eexists _, ((_ ++ [empty_result]) ++ rs), r.
    rewrite <- (app_assoc _ rs). split; [reflexivity|]. split; [|done]. rewrite !Forall_app. split_and!; [done|by repeat constructor|done].
Qed.
End frames.

(** ** The properties of the session *)

(** The sessions of a connection, with the streams answered since it was
    opened: the public operations in any order, on any input. *)
Inductive reachable `{MapOrder bytes} (max_request_bytes : Z) : ServerSession -> list Z -> Prop :=
| reach_new : reachable max_request_bytes new_session []
| reach_reset s answered :
    reachable max_request_bytes s answered -> reachable max_request_bytes (reset s) []
| reach_preface s answered buffer enabled allowed s' rest r :
    reachable max_request_bytes s answered ->
    accept_preface buffer max_request_bytes enabled allowed s = (s', rest, Ret r) ->
    reachable max_request_bytes s' answered
| reach_input s answered buffer s' rest r :
    reachable max_request_bytes s answered ->
    process_input buffer max_request_bytes s = (s', rest, Ret r) ->
    reachable max_request_bytes s' (answers r ++ answered)
| reach_reset_stream s answered i :
    reachable max_request_bytes s answered -> reachable max_request_bytes (reset_stream i s) answered.

Lemma reachable_ok `{MapOrder bytes} max s answered :
  0 <= max -> reachable max s answered -> session_ok max answered s.
Proof.
  intros Hm R. induction R as [|s a _ IH|s a buffer en al s' rest r _ IH E|s a buffer s' rest r _ IH E|s a i _ IH].
  - apply new_session_ok.
  - destruct IH as [H1 H2 [t Ht] H4 H5 H6 H7 H8]. constructor; cbn; try done; [|constructor].
    eexists. by apply reset_implements.
  - destruct (accept_preface_ok max a buffer en al s IH) as (? & ? & ? & E2 & Hs & _).
    rewrite E in E2. injection E2 as <- <- <-. exact Hs.
  - destruct (process_input_ok max a buffer s Hm IH) as (? & ? & ? & E2 & Hs & _).
    rewrite E in E2. injection E2 as <- <- <-. exact Hs.
  - by apply ok_reset_stream.
Qed.

(** C2. The session invariant: in every state that prefaces, input and resets
    lead to, the flow-control windows of the connection and of every stream
    are back at 65535 bytes, every open stream has an odd identifier not above
    the last one seen and a body within the limit, the block that awaits its
    continuation is within the limit and belongs to a stream that was not
    answered, the HPACK decoder holds a table of RFC 7541, an inactive session
    holds no stream, and no stream identifier was answered twice on the
    connection - neither by a request nor by an error response. *)
Theorem session_invariant `{MapOrder bytes} (max_request_bytes : Z) (s : ServerSession) (answered : list Z) :
  0 <= max_request_bytes -> reachable max_request_bytes s answered ->
  session_ok max_request_bytes answered s /\ NoDup answered.
Proof. intros Hm R. apply (reachable_ok _ _ _ Hm) in R. split; [done|]. apply R. Qed.

Lemma session_invariant_witness :
  session_ok 1000 [] (reset_stream 1 (reset new_session)) /\ NoDup (@nil Z).
Proof.
  apply (session_invariant 1000); [lia|]. apply reach_reset_stream, (reach_reset _ _ []), reach_new.
Defined.

(** Reading always makes progress: from every reachable session and for
    any bytes, [process_input] returns - no frame makes it throw or loop -,
    keeps a suffix of the buffer, and either reports a result after consuming
    at least one byte, or has nothing left to do: the session is inactive, the
    buffer is empty, or it holds the beginning of a frame. *)
Theorem process_input_progress `{MapOrder bytes} (max_request_bytes : Z) (s : ServerSession)
    (answered : list Z) (buffer : bytes) :
  0 <= max_request_bytes -> reachable max_request_bytes s answered ->
  exists s' rest r, process_input buffer max_request_bytes s = (s', rest, Ret r) /\
  rest `suffix_of` buffer /\
  if has_result r then (length rest < length buffer)%nat
  else active s' = active s /\
       (active s = false \/ rest = []
        \/ Http2Frame.incomplete (parse_frame rest default_max_frame_size) = true).
Proof.
  intros Hm R. apply (reachable_ok _ _ _ Hm) in R.
  destruct (process_input_ok max_request_bytes answered buffer s Hm R) as (s' & rest & r & E & _ & Suf & T).
  by exists s', rest, r.
Qed.

Lemma process_input_progress_witness :
  exists s' rest r, process_input (str "any bytes at all") 1000 new_session = (s', rest, Ret r) /\
  rest `suffix_of` str "any bytes at all".
Proof.
  destruct (process_input_progress 1000 new_session [] (str "any bytes at all")) as (s' & rest & r & E & S & _);
    [lia|apply reach_new|].
  exists s', rest, r. exact (conj E S).
Defined.

(** C3. A stream becomes a request only as the client meant it: when
    [build_request] accepts the fields and body of a stream, method and target
    are the words of [:method] and [:path], the scheme is http or https, the
    headers are the regular fields (repeated ones joined), with [host] from
    [:authority] and the length of the body, their values trimmed - no field
    can add a header line, end the header block or alter the body -, and an
    announced length is the length of the body. *)
Theorem h2_request_sound `{MapOrder bytes} (st : StreamState) (r : Request) :
  build_request st = Built r ->
  exists m p, field_value (str ":method") (stream_headers st) = Some m /\
  field_value (str ":path") (stream_headers st) = Some p /\
  words m ++ words p = [method r; target r] /\
  acceptable (stream_headers st) (stream_body st) /\
  version r = str "HTTP/2" /\ Request.headers r = expected_headers (stream_headers st) (stream_body st) /\
  Request.body r = stream_body st /\ body_size_bytes r = size (stream_body st).
Proof.
  intros E. destruct (collect_fields (stream_headers st) no_fields) as [c|] eqn:Ec.
  2: { unfold build_request in E. by rewrite Ec in E. }
  destruct (build_request_collected st c Ec) as [[B _]|(m & p & Hm & Hp & A & B)]; rewrite E in B; [done|].
  destruct (words m ++ words p) as [|m' [|t [|? ?]]] eqn:Wd; try done. injection B as ->.
  exists m, p. rewrite Wd. cbn [set_version method target version Request.headers Request.body body_size_bytes].
  set (q := mk_request m' t [] [] _ _ _ _ _ _).
  by destruct (parse_target_fields q) as (-> & -> & _ & -> & -> & -> & _).
Qed.

Lemma h2_request_sound_witness :
  let st := mk_stream 1 true open 65535
    (request_fields (str "GET") (str "https") (str "/a") (str "example.org") [(str "x-id", str "7")]) [] in
  exists r, build_request st = Built r /\
  Request.headers r = expected_headers (stream_headers st) [] /\ Request.body r = [].
Proof.
  cbn zeta. match goal with |- exists r, build_request ?st = _ /\ _ => set (x := st) end.
  destruct (build_request x) as [r|e] eqn:E; [|vm_compute in E; discriminate E].
  exists r. destruct (h2_request_sound x r E) as (m & p & _ & _ & _ & _ & _ & H & B & _).
  exact (conj eq_refl (conj H B)).
Defined.

(** C27. A request survives the journey: for a client that compresses its
    header block, cuts it into a HEADERS frame and any CONTINUATION frames and
    the body into any DATA frames, a session in any reachable state reports
    nothing until the last frame and then exactly that request, with the same
    method, target, host, headers and body. *)
Theorem h2_request_roundtrip `{MapOrder bytes} (max_request_bytes : Z) (s : ServerSession) (answered : list Z)
    (i : Z) (m scheme p a : bytes) (regular : list (bytes * bytes))
    (block first : bytes) (conts parts : list bytes) :
  0 <= max_request_bytes -> reachable max_request_bytes s answered -> pending_headers_ s = None ->
  client_stream i -> last_client_stream_id_ s < i ->
  client_request m scheme p a regular (concat parts) ->
  Forall wf_field (request_fields m scheme p a regular) ->
  hpack_encode_header_block (request_fields m scheme p a regular) = Ret block ->
  first ++ concat conts = block -> size block <= max_request_bytes -> size (concat parts) <= max_request_bytes ->
  Forall (fun part => size part <= default_max_frame_size) parts ->
  exists s' rs result r,
    feed max_request_bytes (message_frames i first conts parts) s = Ret (s', rs ++ [result]) /\
    Forall quiet rs /\ completed_stream result = Some (mk_completed i r) /\ keep_connection result = true /\
    method r = m /\ target r = p /\ Request.body r = concat parts /\
    forall n v, n <> str "content-length" ->
      Request.headers r !! n = Some v <-> n = str "host" /\ v = a \/ (n, v) ∈ regular.
Proof.
  intros Hm R Hp Hi Hl W F E Eb Hbl Hbo Hsz. apply (reachable_ok _ _ _ Hm) in R.
  destruct (feed_message_frames max_request_bytes answered i _ block first conts parts s R Hp Hi Hl F E Eb Hbl Hbo Hsz)
    as (s' & rs & result & Ef & Q & C).
  destruct (request_fields_build m scheme p a regular (concat parts) W
              (mk_stream i true half_closed_remote 65535 (request_fields m scheme p a regular) (concat parts)))
    as (r & Er & Em & Et & _ & Ebo & Eh); [done|done|].
  destruct (C r Er) as (C1 & _ & _ & C2). exists s', rs, result, r. split_and!; try done.
  intros n v Hn. rewrite Eh. by apply request_fields_expected.
Qed.

Definition sample_headers : list (bytes * bytes) :=
  [(str "user-agent", str "test"); (str "content-length", str "5")].

Lemma h2_request_roundtrip_witness :
  exists block s' rs result r,
  hpack_encode_header_block
    (request_fields (str "POST") (str "https") (str "/form?x=1") (str "example.org") sample_headers) = Ret block /\
  feed 4096 (message_frames 1 (take 7 block) [drop 7 block] [str "hel"; str "lo"]) new_session
  = Ret (s', rs ++ [result]) /\
  completed_stream result = Some (mk_completed 1 r) /\ Request.body r = str "hello".
Proof.
  destruct (hpack_encode_header_block (request_fields (str "POST") (str "https") (str "/form?x=1")
    (str "example.org") sample_headers)) as [block|e|] eqn:E;
    [|vm_compute in E; discriminate E|vm_compute in E; discriminate E].
  assert (L : size block = 37) by (vm_compute in E; injection E as <-; reflexivity).
  destruct (h2_request_roundtrip 4096 new_session [] 1 (str "POST") (str "https") (str "/form?x=1")
    (str "example.org") sample_headers block (take 7 block) [drop 7 block] [str "hel"; str "lo"])
    as (s' & rs & result & r & F & _ & C & _ & _ & _ & B & _).
  - lia.
  - apply reach_new.
  - reflexivity.
  - split; [lia|reflexivity].
  - cbn. lia.
  - constructor.
    + split; split; (done || by repeat constructor).
    + split_and!; try reflexivity; split; intros c [= <-]; reflexivity.
    + by right.
    + repeat constructor; try done; try (intros c [= <-]; reflexivity); intros [=].
    + by_decide.
  - repeat constructor; vm_compute; reflexivity.
  - exact E.
  - cbn [concat]. by rewrite app_nil_r, take_drop.
  - rewrite L. lia.
  - vm_compute. discriminate.
  - repeat constructor; vm_compute; discriminate.
  - exists block, s', rs, result, r. exact (conj eq_refl (conj F (conj C B))).
Defined.

(** ** Responses on the wire *)

(** A reader of frames, as a client cuts a byte stream. *)
Fixpoint read_frames (fuel : nat) (b : bytes) : option (list Frame) :=
  match b with
  | [] => Some []
  | _ =>
      match fuel with
      | O => None
      | S fuel' =>
          let parsed := parse_frame b default_max_frame_size in
          if Http2Frame.ok parsed
          then fs ← read_frames fuel' (drop (Http2Frame.consumed parsed) b);
               Some (Http2Frame.frame parsed :: fs)
          else None
      end
  end.

Definition sendable (f : Frame) : Prop :=
  0 <= stream_id f < 2 ^ 31 /\ validate_frame f default_max_frame_size = EmptyString.

Lemma read_frames_wire fs fuel :
  Forall sendable fs -> (length (fs ≫= wire) <= fuel)%nat -> read_frames fuel (fs ≫= wire) = Some fs.
Proof.
  intros F. revert fuel; induction F as [|f fs [Hi V] _ IH]; intros fuel Hf; [by destruct fuel|].
  change ((f :: fs) ≫= wire) with (wire f ++ (fs ≫= wire)) in *. rewrite length_app, length_wire in Hf.
  destruct fuel as [|fuel]; [lia|].
  assert (E : forall (x : bytes) {A} (y : A) (z : A), x <> [] -> match x with [] => y | _ => z end = z)
    by (intros []; done).
  cbn [read_frames]. rewrite E by done. rewrite (parse_wire f _ (fs ≫= wire) Hi V).
  cbn [Http2Frame.ok Http2Frame.consumed Http2Frame.frame]. rewrite drop_app_length, IH by lia. done.
Qed.

Lemma typed_frame_sendable t fl i p :
  0 <= i < 2 ^ 31 -> size p <= default_max_frame_size ->
  validate_stream_id (Some t) i = EmptyString -> validate_payload (Some t) fl p = EmptyString ->
  sendable (mk_frame (frame_type_value t) fl i p).
Proof.
  intros Hi Hp V1 V2. split; [done|]. unfold validate_frame. cbn [Http2Frame.payload type stream_id flags].
  rewrite frame_type_inv. destruct (Z.ltb_spec max_allowed_frame_size default_max_frame_size) as [C|_]; [done|].
  destruct (Z.ltb_spec default_max_frame_size (size p)); [lia|]. by rewrite V1.
Qed.

Lemma message_frame_sendable t fl i p :
  0 < i < 2 ^ 31 -> size p <= default_max_frame_size -> t = data \/ t = Http2Frame.headers ->
  sendable (mk_frame (frame_type_value t) fl i p).
Proof.
  intros Hi Hp Ht. apply typed_frame_sendable; [lia|done| |by destruct Ht as [-> | ->]].
  apply validate_data_id; [lia|]. by destruct Ht; auto.
Qed.

(** The body leaves in data frames of at most the frame size. *)
Lemma body_frames_wire fuel i b :
  0 < i < 2 ^ 31 -> (length b <= fuel)%nat ->
  exists parts, body_frames fuel i b = Ret (data_frames i parts ≫= wire) /\ concat parts = b /\
  Forall (fun p => 0 < size p <= default_max_frame_size) parts.
Proof.
  intros Hi. revert b; induction fuel as [|fuel IH]; intros b Hf.
  { destruct b; [by exists []|cbn in Hf; lia]. }
  destruct b as [|x b]; [by exists []|]. set (b1 := x :: b) in *. cbn [body_frames]. fold b1.
  change (match b1 with [] => _ | _ => ?y end) with y. cbn zeta.
  unfold default_max_frame_size. set (n := Nat.min (length b1) (Z.to_nat (16 * 1024))).
  assert (L : (0 < length b1)%nat) by (cbn; lia).
  assert (Hn : (0 < n <= length b1)%nat /\ Z.of_nat n <= 16384) by lia.
  clearbody n b1.
  destruct (IH (drop n b1)) as (parts & -> & C & F); [rewrite length_drop; lia|].
  assert (E : bool_decide (n = length b1) = bool_decide (parts = [])).
  { apply bool_decide_ext. split; intros E.
    - rewrite E, drop_all in C. destruct parts as [|p parts]; [done|].
      apply Forall_cons_1 in F as [Hp _]. destruct p; [cbn in Hp; lia|done].
    - rewrite E in C. apply (f_equal length) in C. rewrite length_drop in C. cbn [concat length] in C. lia. }
  exists (take n b1 :: parts). cbn [data_frames concat]. rewrite C, take_drop, E. split; [|split; [done|]].
  - unfold data_frame. replace (u8 (if bool_decide (parts = []) then flag_end_stream else 0))
      with (client_flags false (bool_decide (parts = []))) by (by destruct (bool_decide (parts = []))).
    assert (S : sendable (mk_frame (frame_type_value data) (client_flags false (bool_decide (parts = []))) i
      (take n b1))).
    { apply message_frame_sendable; [done| |by left]. rewrite length_take. unfold default_max_frame_size. lia. }
    destruct S as [S1 S2]. rewrite frame_string_wire by done. done.
  - constructor; [|done]. rewrite length_take. unfold default_max_frame_size. lia.
Qed.

(** The body that a response sends. *)
Definition sent_body (r : Response) (m : BodyMode) : bytes :=
  if bool_decide (m = include) && response_may_have_body (status r) then Response.body r else [].

Lemma headers_frame_block i fields es block :
  hpack_encode_header_block fields = Ret block -> 0 < i < 2 ^ 31 ->
  headers_frame i fields es
  = if size block <=? default_max_frame_size
    then Ret (wire (mk_frame (frame_type_value Http2Frame.headers) (client_flags true es) i block))
    else Raise "HTTP/2 frame payload exceeds configured maximum frame size".
Proof.
  intros E Hi. unfold headers_frame. rewrite E. cbn [mbind outcome_bind].
  change (u8 (Z.lor flag_end_headers (if es then flag_end_stream else 0))) with (client_flags true es).
  destruct (Z.leb_spec (size block) default_max_frame_size) as [L|L].
  - apply frame_string_wire; apply message_frame_sendable; auto.
  - unfold frame_string, serialize_frame. cbn [stream_id].
    destruct (Z.ltb_spec 0x7fffffff i); [lia|]. cbn [throw_if mbind outcome_bind].
    unfold validate_frame. cbn [Http2Frame.payload].
    destruct (Z.ltb_spec max_allowed_frame_size default_max_frame_size) as [C|_]; [done|].
    by destruct (Z.ltb_spec default_max_frame_size (size block)); [|lia].
Qed.

(** A response reaches the client: when its header block fits a frame,
    [serialize_response] returns bytes that a frame reader cuts into one
    HEADERS frame - whose block any HPACK decoder reads as the status and the
    sanitized headers, connection-specific ones left out - and DATA frames of
    at most the default frame size whose payloads are the body; END_STREAM is
    on the last frame and nowhere else, and a status or mode without body
    sends none.  A larger block is not split into CONTINUATION frames: the
    call throws. *)
Theorem h2_response_roundtrip `{MapOrder bytes} (i : Z) (input : Response) (m : BodyMode)
    (o : SerializationOptions) (block : bytes) :
  let fields := response_fields (apply_response_defaults input o) in
  0 < i < 2 ^ 31 -> Forall wf_field fields -> hpack_encode_header_block fields = Ret block ->
  (size block <= default_max_frame_size -> exists out parts,
     serialize_response i input m o = Ret out /\
     read_frames (length out) out = Some (message_frames i block [] parts) /\
     (forall d, decode_header_block d block = (d, Ret fields)) /\
     concat parts = sent_body input m /\
     Forall (fun p => 0 < size p <= default_max_frame_size) parts) /\
  (default_max_frame_size < size block ->
     serialize_response i input m o = Raise "HTTP/2 frame payload exceeds configured maximum frame size").
Proof.
  intros fields Hi F E. unfold serialize_response. cbn zeta. fold fields.
  set (ap := apply_response_defaults input o) in *.
  change (status ap) with (status input). change (Response.body ap) with (Response.body input).
  set (inc := bool_decide (m = include) && response_may_have_body (status input)).
  rewrite (headers_frame_block i fields _ block E Hi). split; intros Hb.
  2: { destruct (Z.leb_spec (size block) default_max_frame_size); [lia|]. done. }
  destruct (Z.leb_spec (size block) default_max_frame_size); [|lia]. cbn [mbind outcome_bind].
  assert (D : forall d, decode_header_block d block = (d, Ret fields))
    by (intros d; exact (decode_loop_encoded _ d [] fields block [] false F E (le_n _))).
  assert (B : sent_body input m = if inc then Response.body input else []) by done.
  assert (Sh : forall es, sendable (mk_frame (frame_type_value Http2Frame.headers) (client_flags true es) i block))
    by (intros es; apply message_frame_sendable; auto).
  destruct (body_frames_wire (length (Response.body input)) i (Response.body input) Hi (le_n _))
    as (parts & Eb & C & Fp).
  assert (Sd : Forall sendable (data_frames i parts)).
  { clear Eb C. induction Fp as [|p parts Hp _ IH]; constructor; [|done]. apply message_frame_sendable; [done|lia|auto]. }
  destruct (negb inc || bool_decide (Response.body input = [])) eqn:N.
  - exists (wire (mk_frame (frame_type_value Http2Frame.headers) (client_flags true true) i block)), [].
    split; [done|]. split; [|split; [done|split; [|done]]].
    + pose proof (read_frames_wire [mk_frame (frame_type_value Http2Frame.headers) (client_flags true true) i block]) as R.
      cbn [mbind list_bind] in R. rewrite app_nil_r in R. apply R; [by constructor|done].
    + rewrite B. apply orb_true_iff in N as [N%negb_true_iff|N%bool_decide_eq_true]; [by rewrite N|].
      rewrite N. by destruct inc.
  - apply orb_false_iff in N as [N1%negb_false_iff N2%bool_decide_eq_false]. rewrite Eb.
    assert (Hne : parts <> []) by (intros ->; by apply N2).
    exists (message_frames i block [] parts ≫= wire), parts.
    unfold message_frames, header_frames. rewrite (bool_decide_false (parts = [])) by done.
    split; [done|]. split; [|split; [done|split; [by rewrite B, N1|done]]].
    apply read_frames_wire; [|done]. by constructor.
Qed.

Lemma h2_response_roundtrip_witness :
  let r := mk_response 200 (str "OK") {[str "connection" := str "close"]} (str "hello") in
  exists out parts, serialize_response 5 r include default_options = Ret out /\
  concat parts = str "hello".
Proof.
  cbn zeta. set (r := mk_response 200 (str "OK") {[str "connection" := str "close"]} (str "hello")).
  destruct (hpack_encode_header_block (response_fields (apply_response_defaults r default_options)))
    as [block|e|] eqn:E; [|vm_compute in E; discriminate E|vm_compute in E; discriminate E].
  assert (L : size block <= default_max_frame_size)
    by (vm_compute in E; injection E as <-; vm_compute; discriminate).
  destruct (h2_response_roundtrip 5 r include default_options block) as [K _].
  - lia.
  - unfold wf_field. by_decide.
  - exact E.
  - destruct (K L) as (out & parts & S & _ & _ & C & _). exists out, parts. exact (conj S C).
Defined.
