(* ===== verification/Waf.v ===== *)
(** * Waf: the request inspection engine

    Models [src/src/http/waf.cpp] and [src/include/rimau/http/waf.hpp]:
    normalization of the request parts, the eight built-in rules, the anomaly
    score and the blocking decision.  Headers and arguments are inspected in
    the iteration order of their maps ([MapOrder]); the body is read through
    [Request::body_text]. *)

From S2P Require Import Prelude Text Numbers Request Response.

Record InspectionTarget : Type := mk_target { variable : string; value : bytes }.

Record Rule : Type := mk_rule {
  id : Z;
  severity : string;
  score : Z;
  tag : string;
  message : string;
}.

Record WafSettings : Type := mk_settings {
  enabled : bool;
  owasp_crs_enabled : bool;
  blocking_enabled : bool;
  anomaly_threshold : Z;
  max_inspection_bytes : Z;
  disabled_rule_ids : list Z;
}.

Definition default_settings : WafSettings := mk_settings false true true 5 (128 * 1024) [].

Record WafMatch : Type := mk_match {
  rule_id : Z;
  match_severity : string;
  match_score : Z;
  match_tag : string;
  match_message : string;
  match_variable : string;
  evidence : bytes;
}.

Record WafResult : Type := mk_result {
  inspected : bool;
  allowed : bool;
  anomaly_score : Z;
  matches : list WafMatch;
}.

Definition engine : bytes := str "rimau-modsecurity-compatible".
Definition ruleset : bytes := str "builtin-owasp-crs-subset".

(** ** Normalization *)

Definition percent_decode_once (value : bytes) : bytes := percent_decode value true.

Definition inspection_value (value : bytes) (limit : Z) : bytes :=
  if limit =? 0 then []
  else
    let normalized := take (Z.to_nat (Z.min (size value) limit)) value in
    let normalized := percent_decode_once normalized in
    let normalized := percent_decode_once normalized in
    lowercase normalized.

(** ** The engine *)

Section engine.
Context `{MapOrder bytes, MapOrder (list bytes)} (files : bytes -> option bytes).

Definition argument_targets (r : Request) (limit : Z) : list InspectionTarget :=
  order (query_params r) ≫= fun '(name, values) =>
    (fun v => mk_target "ARGS" (inspection_value (name ++ str "=" ++ v) limit)) <$> values.

Definition header_targets (r : Request) (limit : Z) : list InspectionTarget :=
  (fun '(name, v) => mk_target "REQUEST_HEADERS" (inspection_value (name ++ str ": " ++ v) limit))
    <$> order (Request.headers r).

Definition collect_targets (r : Request) (limit : Z) : outcome (list InspectionTarget) :=
  text ← body_text files r limit;
  mret ([mk_target "REQUEST_METHOD" (inspection_value (method r) limit);
         mk_target "REQUEST_TARGET" (inspection_value (target r) limit);
         mk_target "REQUEST_PATH" (inspection_value (path r) limit);
         mk_target "QUERY_STRING" (inspection_value (query_string r) limit);
         mk_target "REQUEST_BODY" (inspection_value text limit)]
        ++ argument_targets r limit ++ header_targets r limit).

Definition add_match (result : WafResult) (rule : Rule) (variable : string) (evidence : bytes)
    : WafResult :=
  mk_result (inspected result) (allowed result) (u64 (anomaly_score result + score rule))
    (matches result ++
       [mk_match (id rule) (severity rule) (score rule) (tag rule) (message rule) variable evidence]).

Definition rule_disabled (settings : WafSettings) (rule_id : Z) : bool :=
  bool_decide (rule_id ∈ disabled_rule_ids settings).

(** [!needle.empty() && value.find(needle) != npos], for the first needle. *)
Fixpoint first_needle (value : bytes) (needles : list bytes) : option bytes :=
  match needles with
  | [] => None
  | needle :: rest =>
      if negb (bool_decide (needle = [])) && contains value needle then Some needle
      else first_needle value rest
  end.

Fixpoint first_target (targets : list InspectionTarget) (needles : list bytes)
    : option (string * bytes) :=
  match targets with
  | [] => None
  | t :: rest =>
      match first_needle (value t) needles with
      | Some needle => Some (variable t, needle)
      | None => first_target rest needles
      end
  end.

Definition match_rule (result : WafResult) (rule : Rule) (targets : list InspectionTarget)
    (needles : list bytes) : WafResult * bool :=
  match first_target targets needles with
  | Some (v, needle) => (add_match result rule v needle, true)
  | None => (result, false)
  end.

Definition match_header_rule (result : WafResult) (r : Request) (rule : Rule) (header_name : bytes)
    (limit : Z) (needles : list bytes) : WafResult * bool :=
  match header r header_name with
  | None => (result, false)
  | Some h =>
      match first_needle (inspection_value h limit) needles with
      | Some needle => (add_match result rule "REQUEST_HEADERS" needle, true)
      | None => (result, false)
      end
  end.

Definition critical (id : Z) (tag message : string) : Rule := mk_rule id "critical" 5 tag message.

Definition scanner_rule : Rule :=
  critical 913100 "application-multi/scanner" "Scanner or vulnerability tool user agent detected".
Definition scanner_needles : list bytes :=
  str <$> ["sqlmap"; "nikto"; "nmap"; "masscan"; "acunetix"; "nessus"; "wpscan"; "zgrab"; "dirbuster"]%string.

(** The rules that look at every target, in the order they run. *)
Definition target_rules : list (Rule * list bytes) := [
  (critical 920271 "protocol/request-splitting" "Encoded CRLF sequence or newline in request data",
   [str "%0d"; str "%0a"; [CR]; [LF]]);
  (critical 930100 "application-multi/path-traversal"
     "Path traversal or local file probing pattern detected",
   str <$> ["../"; "..\"; "%2e%2e"; "%252e%252e"; "/etc/passwd"; "boot.ini"; "win.ini"; "/proc/self"]%string);
  (critical 941100 "application-multi/xss" "Cross-site scripting pattern detected",
   str <$> ["<script"; "javascript:"; "onerror="; "onload="; "document.cookie"; "<svg"; "<iframe";
            "srcdoc="]%string);
  (critical 942100 "application-multi/sqli" "SQL injection pattern detected",
   [str "union select"; str " or 1=1"; str "' or '1'='1";
    [Byte.x22] ++ str " or " ++ [Byte.x22] ++ str "1" ++ [Byte.x22] ++ str "=" ++ [Byte.x22] ++ str "1";
    str "information_schema"; str "sleep("; str "benchmark("; str "xp_cmdshell"]);
  (critical 932100 "application-multi/rce" "Remote command execution pattern detected",
   str <$> [";cat "; "|id"; "&&"; "$("; "`"; "/bin/sh"; "/bin/bash"; "curl http"; "wget http";
            "powershell"]%string);
  (critical 933100 "application-multi/php-injection" "PHP injection or stream wrapper pattern detected",
   str <$> ["<?php"; "php://"; "data://"; "expect://"; "auto_prepend_file"; "allow_url_include";
            "phar://"]%string);
  (critical 944100 "application-multi/java-jndi" "Java/JNDI exploitation pattern detected",
   str <$> ["${jndi:"; "jndi:ldap"; "jndi:rmi"; "class.module.classloader"; "ldap://"]%string)].

Definition run_target_rule (settings : WafSettings) (targets : list InspectionTarget)
    (result : WafResult) (rn : Rule * list bytes) : WafResult :=
  if negb (rule_disabled settings (id rn.1)) then (match_rule result rn.1 targets rn.2).1 else result.

Definition inspect_request (r : Request) (settings : WafSettings) : outcome WafResult :=
  if negb (enabled settings) then mret (mk_result false true 0 [])
  else
    let result := mk_result true true 0 [] in
    if negb (owasp_crs_enabled settings) then mret result
    else
      let limit := if max_inspection_bytes settings =? 0 then 1 else max_inspection_bytes settings in
      targets ← collect_targets r limit;
      let result :=
        if negb (rule_disabled settings (id scanner_rule))
        then (match_header_rule result r scanner_rule (str "user-agent") limit scanner_needles).1
        else result in
      let result := fold_left (run_target_rule settings targets) target_rules result in
      mret (if blocking_enabled settings && (anomaly_threshold settings <=? anomaly_score result)
            then mk_result (inspected result) false (anomaly_score result) (matches result)
            else result).
End engine.

Definition first_rule_id (result : WafResult) : option Z := rule_id <$> head (matches result).

Definition waf_block_response (result : WafResult) : Response :=
  let response := text_response 403
    (str "Forbidden by Rimau ModSecurity compatible WAF" ++ [LF]) text_plain in
  let h := <[str "x-rimau-waf" := str "blocked"]> (Response.headers response) in
  let h := <[str "x-rimau-waf-engine" := engine]> h in
  let h := <[str "x-rimau-waf-ruleset" := ruleset]> h in
  let h := <[str "x-rimau-waf-score" := to_string (anomaly_score result)]> h in
  let h := match first_rule_id result with
           | Some rule_id => <[str "x-rimau-waf-rule-id" := to_string rule_id]> h
           | None => h
           end in
  mk_response (status response) (reason response) h (Response.body response).

(** ** What is detected *)

Lemma first_needle_Some v ns n :
  first_needle v ns = Some n -> n ∈ ns /\ n <> [] /\ contains v n = true.
Proof.
  induction ns as [|x ns IH]; cbn; [done|]. destruct (negb _ && _) eqn:E.
  - intros [= ->]. apply andb_true_iff in E as [E1%negb_true_iff%bool_decide_eq_false E2]. set_solver.
  - intros F. apply IH in F. set_solver.
Qed.

Lemma first_needle_None v ns :
  first_needle v ns = None <-> forall n, n ∈ ns -> n <> [] -> contains v n = false.
Proof.
  induction ns as [|x ns IH]; cbn; [set_solver|]. destruct (negb _ && _) eqn:E.
  - split; [done|]. intros F. apply andb_true_iff in E as [E1%negb_true_iff%bool_decide_eq_false E2].
    specialize (F x ltac:(set_solver) E1). congruence.
  - rewrite IH. apply andb_false_iff in E. split; [|set_solver].
    intros F n [-> |Hn]%elem_of_cons Hne; [|by apply F].
    destruct E as [E%negb_false_iff%bool_decide_eq_true|E]; done.
Qed.

Lemma first_target_Some ts ns v n :
  first_target ts ns = Some (v, n) ->
  exists t, t ∈ ts /\ variable t = v /\ n ∈ ns /\ n <> [] /\ contains (value t) n = true.
Proof.
  induction ts as [|t ts IH]; cbn; [done|]. destruct (first_needle (value t) ns) eqn:E.
  - intros [= <- ->]. apply first_needle_Some in E. exists t. set_solver.
  - intros F. apply IH in F as (u & ? & ?). exists u. set_solver.
Qed.

Lemma first_target_None ts ns :
  first_target ts ns = None ->
  forall t n, t ∈ ts -> n ∈ ns -> n <> [] -> contains (value t) n = false.
Proof.
  induction ts as [|t ts IH]; cbn; [set_solver|]. destruct (first_needle (value t) ns) eqn:E; [done|].
  intros F u n [-> |Hu]%elem_of_cons; [by apply first_needle_None|by apply IH].
Qed.

Section detection.
Context `{MapOrder bytes, MapOrder (list bytes)} (files : bytes -> option bytes).

(** All the rules, and what each looks at. *)
Definition all_rules : list (Rule * list bytes) := (scanner_rule, scanner_needles) :: target_rules.

Definition seen (r : Request) (limit : Z) (targets : list InspectionTarget) (rn : Rule * list bytes)
    : list InspectionTarget :=
  if id rn.1 =? id scanner_rule then
    match header r (str "user-agent") with
    | Some h => [mk_target "REQUEST_HEADERS" (inspection_value h limit)]
    | None => []
    end
  else targets.

Definition inspection_limit (settings : WafSettings) : Z :=
  if max_inspection_bytes settings =? 0 then 1 else max_inspection_bytes settings.

Lemma target_rules_all rn : rn ∈ target_rules -> rn ∈ all_rules.
Proof using. apply list_elem_of_further. Qed.

(** What one rule contributes. *)
Definition rule_match (settings : WafSettings) (look : Rule * list bytes -> list InspectionTarget)
    (rn : Rule * list bytes) : option WafMatch :=
  if rule_disabled settings (id rn.1) then None
  else
    '(v, needle) ← first_target (look rn) rn.2;
    Some (mk_match (id rn.1) (severity rn.1) (score rn.1) (tag rn.1) (message rn.1) v needle).

Lemma run_target_rule_match settings targets result rn :
  run_target_rule settings targets result rn
  = match rule_match settings (fun _ => targets) rn with
    | Some m => mk_result (inspected result) (allowed result) (u64 (anomaly_score result + match_score m))
                  (matches result ++ [m])
    | None => result
    end.
Proof using.
  unfold run_target_rule, rule_match. destruct (rule_disabled _ _); [done|]. cbn [negb].
  unfold match_rule. by destruct (first_target targets rn.2) as [[v n]|].
Qed.

Lemma rules_score_5 rn : rn ∈ all_rules -> score rn.1 = 5.
Proof using.
  revert rn. apply Forall_forall. unfold all_rules, target_rules. repeat (apply Forall_cons; split; [done|]).
  by apply Forall_nil.
Qed.

Lemma rule_match_score settings look rn m :
  rn ∈ all_rules -> rule_match settings look rn = Some m -> match_score m = 5 /\ rule_id m = id rn.1.
Proof using.
  intros Hr. unfold rule_match. destruct (rule_disabled _ _); [done|].
  destruct (first_target _ _) as [[v n]|]; [|done]. cbn. intros [= <-]. cbn. split; [|done].
  by apply rules_score_5.
Qed.

Lemma run_target_rules settings targets rules result :
  (forall rn, rn ∈ rules -> rn ∈ all_rules) ->
  0 <= anomaly_score result -> anomaly_score result + 5 * Z.of_nat (length rules) < 2 ^ 64 ->
  fold_left (run_target_rule settings targets) rules result
  = let ms := omap (rule_match settings (fun _ => targets)) rules in
    mk_result (inspected result) (allowed result) (anomaly_score result + 5 * Z.of_nat (length ms))
      (matches result ++ ms).
Proof using.
  intros Hr. revert result; induction rules as [|rn rules IH]; intros result H1 H2; cbn.
  - destruct result. cbn. by rewrite app_nil_r, Z.add_0_r.
  - rewrite run_target_rule_match.
    destruct (rule_match settings (fun _ => targets) rn) as [m|] eqn:M.
    + apply rule_match_score in M as [M _]; [|set_solver]. cbn [length] in H2.
      rewrite M, IH; cbn [anomaly_score]; [|set_solver|apply wrap_range; lia|rewrite wrap_small; lia].
      rewrite wrap_small by lia. cbn. rewrite <- app_assoc. f_equal. lia.
    + apply IH; [set_solver|lia|cbn [length] in H2; lia].
Qed.

(** The whole inspection, as the list of what each rule contributes. *)
Lemma inspect_request_matches r settings targets :
  enabled settings = true -> owasp_crs_enabled settings = true ->
  collect_targets files r (inspection_limit settings) = Ret targets ->
  let ms := omap (rule_match settings (seen r (inspection_limit settings) targets)) all_rules in
  let score := 5 * Z.of_nat (length ms) in
  inspect_request files r settings
  = Ret (mk_result true (negb (blocking_enabled settings && (anomaly_threshold settings <=? score))) score ms).
Proof using.
  intros He Ho Ht ms score. unfold inspect_request. rewrite He, Ho. cbn [negb].
  fold (inspection_limit settings). rewrite Ht. cbn [mbind outcome_bind].
  set (look := seen r (inspection_limit settings) targets) in *.
  set (first := if negb _ then _ else _).
  assert (F : first = match rule_match settings look (scanner_rule, scanner_needles) with
                      | Some m => mk_result true true 5 [m]
                      | None => mk_result true true 0 [] end).
  { unfold first, rule_match, match_header_rule, look, seen. cbn [fst snd].
    destruct (rule_disabled _ _); [done|]. cbn [negb]. change (id scanner_rule =? id scanner_rule) with true.
    cbn match. destruct (header r _); [|done]. cbn [first_target value variable].
    by destruct (first_needle _ _). }
  rewrite F. clear F first.
  assert (O : omap (rule_match settings (fun _ => targets)) target_rules
              = omap (rule_match settings look) target_rules).
  { apply list_omap_ext. unfold target_rules. repeat constructor; done. }
  assert (M : ms = match rule_match settings look (scanner_rule, scanner_needles) with
                   | Some m => m :: omap (rule_match settings look) target_rules
                   | None => omap (rule_match settings look) target_rules end).
  { unfold ms, all_rules. cbn [omap list_omap]. done. }
  clearbody ms. rewrite run_target_rules.
  2: { intros rn. apply target_rules_all. }
  2: { destruct (rule_match _ _ _); cbn; lia. }
  2: { destruct (rule_match _ _ _); cbn; lia. }
  cbn zeta. rewrite O. unfold score.
  destruct (rule_match settings look (scanner_rule, scanner_needles)) as [m|]; subst ms;
    cbn [anomaly_score inspected allowed matches app length].
  - replace (5 * Z.of_nat (S (length (omap (rule_match settings look) target_rules))))
      with (5 + 5 * Z.of_nat (length (omap (rule_match settings look) target_rules))) by lia.
    by destruct (_ && _).
  - rewrite Z.add_0_l. by destruct (_ && _).
Qed.
End detection.

Lemma all_rules_ids : NoDup ((fun rn => id rn.1) <$> all_rules).
Proof.
  apply (bool_decide_eq_true_1 (NoDup _)). vm_compute. reflexivity.
Qed.

Lemma rule_match_ids settings look rules :
  NoDup ((fun rn => id rn.1) <$> rules) -> (forall rn, rn ∈ rules -> rn ∈ all_rules) ->
  NoDup (rule_id <$> omap (rule_match settings look) rules).
Proof.
  induction rules as [|rn rules IH]; cbn; intros N Hr; [constructor|].
  apply NoDup_cons in N as [N1 N2].
  destruct (rule_match settings look rn) as [m|] eqn:M; [|apply IH; [done|set_solver]].
  apply rule_match_score in M as [_ M]; [|set_solver]. cbn. apply NoDup_cons.
  split; [|apply IH; [done|set_solver]]. rewrite M. intros ([m2 E2] & E & I)%list_elem_of_fmap.
  apply N1. apply list_elem_of_omap in I as (rn2 & I2 & M2).
  apply rule_match_score in M2 as [_ M2]; [|set_solver]. apply list_elem_of_fmap.
  exists rn2. split; [congruence|done].
Qed.

(** A rule matches exactly when it is enabled and something it looks at
    contains one of its needles. *)
Lemma rule_match_is_Some settings look rn :
  is_Some (rule_match settings look rn) <->
  id rn.1 ∉ disabled_rule_ids settings /\
  exists t n, t ∈ look rn /\ n ∈ rn.2 /\ n <> [] /\ contains (value t) n = true.
Proof.
  unfold rule_match, rule_disabled. case_bool_decide as D.
  - split; [by intros []|]. by intros [? _].
  - destruct (first_target (look rn) rn.2) as [[v n]|] eqn:F; cbn.
    + apply first_target_Some in F as (t & ? & ? & ? & ? & ?). split; [|by eexists].
      intros _. split; [done|]. by exists t, n.
    + split; [by intros []|]. intros (_ & t & n & Ht & Hn & Hne & C).
      pose proof (first_target_None _ _ F t n Ht Hn Hne). congruence.
Qed.

Section theorems.
Context `{MapOrder bytes, MapOrder (list bytes)} (files : bytes -> option bytes).

Lemma collect_targets_returns r limit : exists targets, collect_targets files r limit = Ret targets.
Proof using.
  unfold collect_targets, body_text.
  destruct (body_text_loop_returns (bytes_to_read r limit) (bytes_to_read r limit) (open_body_reader files r) [])
    as [b ->]; [lia|]. by eexists.
Qed.

(** The inspection of any request ends, and decides exactly this: a rule
    is reported - once, with its own identifier - iff it is not disabled and
    one of its needles occurs in a normalized part of the request it looks at;
    each report carries a needle that does occur in a part of that name; the
    anomaly score is five times the number of reports; and the request is
    refused iff blocking is on and the score reaches the threshold. *)
Theorem waf_decision (r : Request) (settings : WafSettings) :
  enabled settings = true -> owasp_crs_enabled settings = true ->
  exists targets result, collect_targets files r (inspection_limit settings) = Ret targets /\
    inspect_request files r settings = Ret result /\
    (forall rn, rn ∈ all_rules ->
       id rn.1 ∈ rule_id <$> matches result <->
       id rn.1 ∉ disabled_rule_ids settings /\
       exists t n, t ∈ seen r (inspection_limit settings) targets rn /\ n ∈ rn.2 /\ n <> [] /\
                   contains (value t) n = true) /\
    NoDup (rule_id <$> matches result) /\
    (forall m, m ∈ matches result -> exists rn t, rn ∈ all_rules /\ rule_id m = id rn.1 /\
       evidence m ∈ rn.2 /\ t ∈ seen r (inspection_limit settings) targets rn /\
       variable t = match_variable m /\ contains (value t) (evidence m) = true) /\
    anomaly_score result = 5 * Z.of_nat (length (matches result)) /\
    (allowed result = false <->
       blocking_enabled settings = true /\ anomaly_threshold settings <= anomaly_score result).
Proof using.
  intros He Ho. destruct (collect_targets_returns r (inspection_limit settings)) as [targets T].
  exists targets. eexists. split; [done|]. rewrite (inspect_request_matches files r settings targets) by done.
  split; [reflexivity|]. cbn [matches anomaly_score allowed].
  set (look := seen r (inspection_limit settings) targets). split_and!.
  - intros rn Hr. rewrite <- (rule_match_is_Some settings look rn). split.
    + intros (m & E & (rn2 & I & M)%list_elem_of_omap)%list_elem_of_fmap.
      pose proof (rule_match_score _ _ _ _ I M) as [_ Q].
      assert (rn2 = rn) as ->; [|by eexists].
      apply list_elem_of_lookup in Hr as [i Hi], I as [j Hj].
      pose proof (proj1 (NoDup_alt _) all_rules_ids j i (id rn.1)) as Inj.
      rewrite !list_lookup_fmap, Hi, Hj in Inj. cbn in Inj.
      rewrite Inj in Hj; [congruence|congruence|done].
    + intros [m M]. apply list_elem_of_fmap. exists m. split; [symmetry; by eapply rule_match_score|].
      apply list_elem_of_omap. eauto.
  - by apply rule_match_ids; [apply all_rules_ids|].
  - intros m (rn & I & M)%list_elem_of_omap. unfold rule_match in M.
    destruct (rule_disabled _ _); [done|].
    destruct (first_target (look rn) rn.2) as [[v n]|] eqn:F; [|done]. cbn in M. injection M as <-.
    apply first_target_Some in F as (t & Ht & Hv & Hn & _ & C). exists rn, t. done.
  - done.
  - rewrite negb_false_iff, andb_true_iff, Z.leb_le. done.
Qed.
End theorems.

(** ** Encodings do not hide an attack *)

Lemma percent_decode_cons_plain c s plus :
  c <> chr "%" ->
  percent_decode (c :: s) plus = (if bool_decide (c = chr "+") && plus then SP else c) :: percent_decode s plus.
Proof. intros N. destruct s as [|a [|b s]]; cbn [percent_decode]; by rewrite ?decide_False by done. Qed.

Lemma percent_decode_app a t plus :
  chr "%" ∉ a -> percent_decode (a ++ t) plus = percent_decode a plus ++ percent_decode t plus.
Proof.
  induction a as [|c a IH]; [done|]. intros [N1 N2]%not_elem_of_cons. cbn [app].
  by rewrite !percent_decode_cons_plain, IH by congruence.
Qed.

Lemma percent_decode_no_percent a plus : chr "%" ∉ a -> chr "%" ∉ percent_decode a plus.
Proof.
  induction a as [|c a IH]; [done|]. intros [N1 N2]%not_elem_of_cons.
  rewrite percent_decode_cons_plain by congruence. apply not_elem_of_cons. split; [|by apply IH].
  by destruct (_ && _).
Qed.

(** Text with neither '%' nor '+' stands for itself. *)
Definition literal (s : bytes) : Prop := chr "%" ∉ s /\ chr "+" ∉ s.

Lemma percent_decode_literal s t plus :
  literal s -> percent_decode (s ++ t) plus = s ++ percent_decode t plus.
Proof.
  intros [L1 L2]. rewrite percent_decode_app by done. f_equal.
  induction s as [|c s IH]; [done|]. apply not_elem_of_cons in L1 as [? ?], L2 as [? ?].
  rewrite percent_decode_cons_plain, bool_decide_false by congruence. by rewrite IH.
Qed.

Lemma percent_decode_encode_app s t plus :
  percent_decode (percent_encode s ++ t) plus = s ++ percent_decode t plus.
Proof.
  induction s as [|c s IH]; [done|]. change (percent_encode (c :: s)) with (percent_escape c ++ percent_encode s).
  rewrite <- app_assoc. rewrite percent_decode_escape. by rewrite IH.
Qed.

(** Up to two percent-encodings of [s], after any prefix without escapes and
    before anything, are undone. *)
Lemma inspection_value_encoded k s a b limit :
  (k <= 2)%nat -> literal s -> chr "%" ∉ a ->
  size (a ++ Nat.iter k percent_encode s) <= limit -> limit <> 0 ->
  exists x y, inspection_value (a ++ Nat.iter k percent_encode s ++ b) limit = x ++ lowercase s ++ y.
Proof.
  intros Hk L Ha Hs Hl. unfold inspection_value, percent_decode_once. rewrite (proj2 (Z.eqb_neq _ _)) by done.
  assert (T : exists b', take (Z.to_nat (Z.min (size (a ++ Nat.iter k percent_encode s ++ b)) limit))
                           (a ++ Nat.iter k percent_encode s ++ b) = a ++ Nat.iter k percent_encode s ++ b').
  { rewrite app_assoc. rewrite take_app_ge by lens. eexists. by rewrite <- app_assoc. }
  destruct T as [b' ->]. rewrite percent_decode_app by done.
  assert (D : exists z, percent_decode (percent_decode a true ++ percent_decode (Nat.iter k percent_encode s ++ b') true) true
                        = percent_decode (percent_decode a true) true ++ s ++ z).
  { rewrite percent_decode_app by by apply percent_decode_no_percent.
    destruct k as [|[|[|]]]; [| | |lia]; cbn [Nat.iter nat_rect].
    - rewrite percent_decode_literal by done. rewrite percent_decode_literal by done. by eexists.
    - rewrite percent_decode_encode_app. rewrite percent_decode_literal by done. by eexists.
    - rewrite !percent_decode_encode_app. by eexists. }
  destruct D as [z ->]. rewrite !lowercase_app. eauto.
Qed.

(** The texts a request carries, before normalization. *)
Definition raw_part (r : Request) (text p : bytes) : Prop :=
  p ∈ [method r; target r; path r; query_string r; text] \/
  (exists name values v, query_params r !! name = Some values /\ v ∈ values /\ p = name ++ str "=" ++ v) \/
  (exists name v, Request.headers r !! name = Some v /\ p = name ++ str ": " ++ v).

Section evasion.
Context `{MapOrder bytes, MapOrder (list bytes)} (files : bytes -> option bytes).

Lemma collect_targets_part r limit targets text p :
  collect_targets files r limit = Ret targets -> body_text files r limit = Ret text ->
  raw_part r text p -> exists t, t ∈ targets /\ value t = inspection_value p limit.
Proof using.
  unfold collect_targets. intros C E P. rewrite E in C. cbn in C. injection C as <-.
  destruct P as [P|[(n & vs & v & L & I & ->)|(n & v & L & ->)]].
  - repeat (apply elem_of_cons in P as [-> |P]; [by eexists (mk_target _ _); split; [repeat constructor|]|]).
    by apply elem_of_nil in P.
  - eexists (mk_target "ARGS" _). split; [|done]. do 5 apply list_elem_of_further.
    apply elem_of_app. left. apply list_elem_of_bind. exists (n, vs). rewrite order_lookup. split; [|done].
    apply list_elem_of_fmap. by exists v.
  - eexists (mk_target "REQUEST_HEADERS" _). split; [|done]. do 5 apply list_elem_of_further.
    apply elem_of_app. right. apply list_elem_of_fmap. exists (n, v). by rewrite order_lookup.
Qed.

(** C22. Letter case and percent-encoding do not hide an attack: if any part of
    the request - the method, the target, the path, the query, the body, an
    argument or a header - holds a spelling [s] of a needle in upper or lower
    case, plain, percent-encoded or percent-encoded twice, within the
    inspected prefix and after text without escapes, then a WAF that blocks
    at the default score refuses the request, whatever surrounds [s]. *)
Theorem waf_sees_through_encoding (r : Request) (settings : WafSettings) (rn : Rule * list bytes)
    (text a s b : bytes) (k : nat) :
  enabled settings = true -> owasp_crs_enabled settings = true ->
  blocking_enabled settings = true -> anomaly_threshold settings <= 5 ->
  0 <= max_inspection_bytes settings ->
  rn ∈ target_rules -> id rn.1 ∉ disabled_rule_ids settings -> lowercase s ∈ rn.2 -> literal s -> s <> [] ->
  body_text files r (inspection_limit settings) = Ret text ->
  raw_part r text (a ++ Nat.iter k percent_encode s ++ b) ->
  (k <= 2)%nat -> chr "%" ∉ a -> size (a ++ Nat.iter k percent_encode s) <= inspection_limit settings ->
  exists result, inspect_request files r settings = Ret result /\ allowed result = false /\
                 id rn.1 ∈ rule_id <$> matches result.
Proof using.
  intros He Ho Hb Ht Hm Hr Hd Hs L Hne Hx Hp Hk Ha Hl.
  destruct (collect_targets_returns files r (inspection_limit settings)) as [targets T].
  destruct (collect_targets_part _ _ _ _ _ T Hx Hp) as (t & It & Vt).
  destruct (inspection_value_encoded k s a b (inspection_limit settings) Hk L Ha Hl) as (x & y & E).
  { unfold inspection_limit. destruct (Z.eqb_spec (max_inspection_bytes settings) 0); lia. }
  rewrite (inspect_request_matches files r settings targets) by done. eexists. split; [reflexivity|].
  cbn [allowed matches]. set (look := seen r (inspection_limit settings) targets).
  assert (M : is_Some (rule_match settings look rn)).
  { apply rule_match_is_Some. split; [done|]. exists t, (lowercase s). split_and!.
    - unfold look, seen. destruct (Z.eqb_spec (id rn.1) (id scanner_rule)) as [N|]; [exfalso|done].
      pose proof all_rules_ids as U. unfold all_rules in U. apply NoDup_cons in U as [U _].
      apply U. apply list_elem_of_fmap. exists rn. by rewrite N.
    - done.
    - destruct s; [done|]. discriminate.
    - apply contains_spec. rewrite Vt, E. eauto. }
  destruct M as [m M].
  assert (I : m ∈ omap (rule_match settings look) all_rules).
  { apply list_elem_of_omap. exists rn. split; [by apply target_rules_all|done]. }
  split.
  - rewrite Hb. apply negb_false_iff, Z.leb_le. destruct (omap _ _) as [|? ?]; [set_solver|]. cbn [length]. lia.
  - apply list_elem_of_fmap. exists m. split; [|done]. symmetry. eapply rule_match_score; [|done].
    by apply target_rules_all.
Qed.
End evasion.

Definition blocking_settings : WafSettings := mk_settings true true true 5 (128 * 1024) [942100].

(** An argument that hides a script tag behind two encodings. *)
Definition attack : Request :=
  mk_request (str "GET") (str "/") (str "/") [] (str "HTTP/1.1") {[str "user-agent" := str "SQLMap/1.7"]}
    {[str "q" := [Nat.iter 2 percent_encode (str "<ScRiPt") ++ str ">x"]]} [] 0 None.

Lemma waf_decision_witness :
  exists result, inspect_request (fun _ => None) attack blocking_settings = Ret result /\
    913100 ∈ rule_id <$> matches result.
Proof.
  destruct (waf_decision (fun _ => None) attack blocking_settings eq_refl eq_refl)
    as (targets & result & T & I & D & _).
  exists result. split; [exact I|].
  apply (D (scanner_rule, scanner_needles)); [by left|]. split; [by_decide|].
  exists (mk_target "REQUEST_HEADERS" (str "sqlmap/1.7")), (str "sqlmap"). split_and!.
  - change (mk_target "REQUEST_HEADERS" (str "sqlmap/1.7")
            ∈ [mk_target "REQUEST_HEADERS" (inspection_value (str "SQLMap/1.7") (128 * 1024))]).
    apply list_elem_of_singleton. vm_compute. reflexivity.
  - by_decide.
  - discriminate.
  - vm_compute. reflexivity.
Defined.

Lemma waf_sees_through_encoding_witness :
  exists result, inspect_request (fun _ => None) attack blocking_settings = Ret result /\ allowed result = false.
Proof.
  destruct (waf_sees_through_encoding (fun _ => None) attack blocking_settings
    (critical 941100 "application-multi/xss" "Cross-site scripting pattern detected",
     str <$> ["<script"; "javascript:"; "onerror="; "onload="; "document.cookie"; "<svg"; "<iframe";
              "srcdoc="]%string)
    [] (str "q=") (str "<ScRiPt") (str ">x") 2) as (result & I & A & _).
  - reflexivity.
  - reflexivity.
  - reflexivity.
  - vm_compute. discriminate.
  - vm_compute. discriminate.
  - do 2 apply list_elem_of_further. apply list_elem_of_here.
  - by_decide.
  - by_decide.
  - split; by_decide.
  - discriminate.
  - reflexivity.
  - right. left. exists (str "q"), [Nat.iter 2 percent_encode (str "<ScRiPt") ++ str ">x"],
      (Nat.iter 2 percent_encode (str "<ScRiPt") ++ str ">x"). split_and!; [reflexivity|by left|reflexivity].
  - lia.
  - by_decide.
  - vm_compute. discriminate.
  - exists result. exact (conj I A).
Defined.
