(* ===== verification/VirtualHost.v ===== *)
(** * VirtualHost: host names, virtual host rules and WAF overrides

    Models the configuration side of [src/src/http/virtual_host.cpp]:
    normalization of the Host header, the parsers of [virtual_hosts] and
    [virtual_host_waf_overrides], and the selection of a rule.  Errors are the
    [std::runtime_error]s of the source, with their messages. *)

From S2P Require Import Prelude Text Numbers Request Waf.

(** ** Names *)

Definition valid_runtime_name (value : bytes) : bool :=
  match value with
  | [] => false
  | _ => forallb (fun ch => isalnum ch || bool_decide (ch ∈ str "_-+.")) value
  end.

Definition host_char (ch : byte) : bool := isalnum ch || bool_decide (ch ∈ str "-._[]:").

Definition valid_host_pattern (value : bytes) : bool :=
  if bool_decide (value = []) || contains_control_character value then false
  else
    let value' := if starts_with value (str "*.") then drop 2 value else value in
    if starts_with value (str "*.") && bool_decide (value' = []) then false
    else forallb host_char value'.

Definition hostname_matches_pattern (hostname pattern : bytes) : bool :=
  let hostname := lowercase hostname in
  let pattern := lowercase pattern in
  if starts_with pattern (str "*.") then
    let suffix := drop 1 pattern in
    (length suffix <? length hostname)%nat && ends_with hostname suffix
  else bool_decide (hostname = pattern).

Definition normalize_host (host_header : bytes) : bytes :=
  let host := trim host_header in
  match host with
  | [] => []
  | front :: _ =>
      let plain :=
        match rfind_byte (chr ":") host with
        | Some colon =>
            if bool_decide (find_byte (chr ":") host = Some colon) then take colon host else host
        | None => host
        end in
      if decide (front = chr "[") then
        match find_byte (chr "]") host with
        | Some close => lowercase (take (close + 1) host)
        | None => lowercase plain
        end
      else lowercase plain
  end.

(** ** Upstream targets *)

Record ReverseProxyTarget : Type := mk_proxy_target {
  scheme : bytes;
  target_host : bytes;
  port : Z;
  base_path : bytes;
  authority : bytes;
}.

#[export] Instance ReverseProxyTarget_eq_dec : EqDecision ReverseProxyTarget.
Proof. solve_decision. Defined.

Definition port_invalid : string := "reverse proxy upstream port is invalid".

(** The digit loop, on 32-bit unsigned integers. *)
Fixpoint upstream_port_loop (parsed : Z) (value : bytes) : outcome Z :=
  match value with
  | [] => Ret parsed
  | ch :: rest =>
      if negb (isdigit ch) then Raise port_invalid
      else
        let parsed := u32 (parsed * 10 + (val ch - 48)) in
        if 65535 <? parsed then Raise "reverse proxy upstream port is out of range"
        else upstream_port_loop parsed rest
  end.

Definition parse_upstream_port (value : bytes) : outcome Z :=
  if bool_decide (value = []) then Raise port_invalid
  else
    parsed ← upstream_port_loop 0 value;
    if parsed =? 0 then Raise port_invalid else Ret parsed.

Definition authority_invalid : string := "reverse proxy upstream authority is invalid".

(** The host and the port of an authority. *)
Definition parse_authority (authority : bytes) (default_port : Z) : outcome (bytes * Z) :=
  if bool_decide (head authority = Some (chr "[")) then
    match find_byte (chr "]") authority with
    | None => Raise "reverse proxy IPv6 upstream host is invalid"
    | Some close =>
        let host := substr authority 1 (close - 1) in
        if (close + 1 <? length authority)%nat then
          if negb (bool_decide (byte_at authority (close + 1) = chr ":")) then Raise authority_invalid
          else port ← parse_upstream_port (drop (close + 2) authority); Ret (host, port)
        else Ret (host, default_port)
    end
  else
    match rfind_byte (chr ":") authority with
    | None => Ret (authority, default_port)
    | Some colon =>
        port ← parse_upstream_port (drop (colon + 1) authority); Ret (take colon authority, port)
    end.

(** The text after the scheme. *)
Definition parse_target_text (scheme : bytes) (default_port : Z) (text : bytes) : outcome ReverseProxyTarget :=
  let path_start := find_byte (chr "/") text in
  let authority := match path_start with Some i => take i text | None => text end in
  let base_path := match path_start with Some i => drop i text | None => str "/" end in
  throw_if (bool_decide (authority = []) || bool_decide (chr "@" ∈ authority)) authority_invalid;;
  '(host, port) ← parse_authority authority default_port;
  throw_if (bool_decide (host = []) || (port =? 0)) "reverse proxy upstream host or port is invalid";;
  throw_if (negb (bool_decide (head base_path = Some (chr "/"))))
    "reverse proxy upstream path must start with /";;
  Ret (mk_proxy_target scheme host port base_path authority).

Definition parse_reverse_proxy_target (value : bytes) : outcome ReverseProxyTarget :=
  let text := trim value in
  if contains_control_character text then
    Raise "reverse proxy upstream cannot contain control characters"
  else if starts_with text (str "http://") then parse_target_text (str "http") 80 (drop 7 text)
  else if starts_with text (str "https://") then parse_target_text (str "https") 443 (drop 8 text)
  else Raise "reverse proxy upstream must start with http:// or https://".

Definition parse_reverse_proxy_targets (value : bytes) : outcome (list ReverseProxyTarget) :=
  targets ← mapO parse_reverse_proxy_target (split_delimited value (chr ","));
  throw_if (bool_decide (targets = [])) "proxy virtual host must include at least one upstream";;
  Ret targets.

Definition reverse_proxy_target_path (upstream : ReverseProxyTarget) (request_target : bytes) : bytes :=
  if bool_decide (base_path upstream = []) || bool_decide (base_path upstream = str "/") then
    if bool_decide (request_target = []) then str "/" else request_target
  else
    (* while (base.size() > 1 && base.back() == '/') base.pop_back(); *)
    let stripped := reverse (drop_while (fun c => bool_decide (c = chr "/")) (reverse (base_path upstream))) in
    let base := if bool_decide (stripped = []) then take 1 (base_path upstream) else stripped in
    match request_target with
    | [] => base
    | c :: _ => if decide (c = chr "/") then base ++ request_target
                else base ++ str "/" ++ request_target
    end.

(** ** Virtual host rules *)

Inductive VirtualHostAction : Type := static_files | reverse_proxy | server_side_script.

#[export] Instance VirtualHostAction_eq_dec : EqDecision VirtualHostAction.
Proof. solve_decision. Defined.

(** Paths are kept as the names they are built from. *)
Record VirtualHostRule : Type := mk_vhost_rule {
  host_pattern : bytes;
  action : VirtualHostAction;
  document_root : bytes;
  upstreams : list ReverseProxyTarget;
  script_runtime : bytes;
  script_root : bytes;
}.

(** [throw std::runtime_error(message + detail)] *)
Definition raise_with {A} (message : string) (detail : bytes) : outcome A :=
  Raise (message ++ String.string_of_list_byte detail).

Definition parse_rule_action (host_pattern action : bytes) : outcome VirtualHostRule :=
  if starts_with action (str "static:") then
    let root := trim (drop 7 action) in
    throw_if (bool_decide (root = [])) "static virtual host document root cannot be empty";;
    Ret (mk_vhost_rule host_pattern static_files root [] [] [])
  else if starts_with action (str "proxy:") then
    ups ← parse_reverse_proxy_targets (drop 6 action);
    Ret (mk_vhost_rule host_pattern reverse_proxy [] ups [] [])
  else if starts_with action (str "script:") then
    let rest := drop 7 action in
    match find_byte (chr ":") rest with
    | None => Raise "script virtual host must use script:runtime:script-root"
    | Some separator =>
        let runtime := lowercase (trim (take separator rest)) in
        let root := trim (drop (separator + 1) rest) in
        throw_if (negb (valid_runtime_name runtime) || bool_decide (root = []))
          "script virtual host runtime or root is invalid";;
        Ret (mk_vhost_rule host_pattern server_side_script [] [] runtime root)
    end
  else Raise "virtual host action must be static, proxy, or script".

Definition parse_virtual_host_entry (entry : bytes) : outcome VirtualHostRule :=
  match find_byte (chr "=") entry with
  | None => Raise "virtual_hosts entries must use host=action:target"
  | Some equals =>
      let pattern := lowercase (trim (take equals entry)) in
      if negb (valid_host_pattern pattern) then raise_with "virtual host pattern is invalid: " pattern
      else parse_rule_action pattern (trim (drop (equals + 1) entry))
  end.

Definition parse_virtual_host_rules (value : bytes) : outcome (list VirtualHostRule) :=
  mapO parse_virtual_host_entry (split_delimited value (chr ";")).

(** ** WAF overrides *)

Record VirtualHostWafOverride : Type := mk_override {
  override_pattern : bytes;
  override_enabled : option bool;
  override_owasp_crs : option bool;
  override_blocking : option bool;
  override_threshold : option Z;
  rule_exceptions : list Z;
}.

Definition override_message (key : bytes) (rest : string) : string :=
  ("virtual_host_waf_overrides " ++ String.string_of_list_byte key ++ rest)%string.

Definition parse_waf_override_bool (value key : bytes) : outcome bool :=
  let normalized := lowercase (trim value) in
  if bool_decide (normalized ∈ str <$> ["1"; "true"; "yes"; "on"]%string) then Ret true
  else if bool_decide (normalized ∈ str <$> ["0"; "false"; "no"; "off"]%string) then Ret false
  else Raise (override_message key " must be a boolean").

(** The two [catch] clauses of the number parsers. *)
Definition catch_number {A} (parsed : outcome A) (not_a_number too_large : string) : outcome A :=
  match parsed with
  | Raise e => if decide (e = invalid_argument) then Raise not_a_number
               else if decide (e = out_of_range) then Raise too_large else Raise e
  | other => other
  end.

Definition parse_waf_override_size (value key : bytes) : outcome Z :=
  '(parsed, consumed) ← catch_number (stoull value) (override_message key " must be a number")
                          (override_message key " is out of range");
  if negb (consumed =? length value)%nat || (parsed =? 0)
  then Raise (override_message key " must be greater than zero") else Ret parsed.

Definition parse_waf_rule_id (value : bytes) : outcome Z :=
  '(parsed, consumed) ← catch_number (stoi value)
      "virtual_host_waf_overrides rule_exceptions must contain numeric rule ids"
      "virtual_host_waf_overrides rule_exceptions rule id is out of range";
  if negb (consumed =? length value)%nat || (parsed <=? 0)
  then Raise "virtual_host_waf_overrides rule_exceptions must contain positive rule ids" else Ret parsed.

Definition apply_option (o : VirtualHostWafOverride) (option : bytes) : outcome VirtualHostWafOverride :=
  match find_byte (chr ":") option with
  | None => Raise "virtual_host_waf_overrides options must use key:value"
  | Some separator =>
      let key := lowercase (trim (take separator option)) in
      let v := trim (drop (separator + 1) option) in
      throw_if (bool_decide (v = [])) "virtual_host_waf_overrides option value cannot be empty";;
      let '(mk_override p e c b t x) := o in
      if decide (key = str "enabled") then
        e ← parse_waf_override_bool v key; Ret (mk_override p (Some e) c b t x)
      else if decide (key = str "owasp_crs") then
        c ← parse_waf_override_bool v key; Ret (mk_override p e (Some c) b t x)
      else if decide (key = str "blocking") then
        b ← parse_waf_override_bool v key; Ret (mk_override p e c (Some b) t x)
      else if decide (key = str "threshold") then
        t ← parse_waf_override_size v key; Ret (mk_override p e c b (Some t) x)
      else if decide (key = str "rule_exceptions") then
        x ← mapO parse_waf_rule_id (split_delimited v (chr "|"));
        throw_if (bool_decide (x = [])) "virtual_host_waf_overrides rule_exceptions cannot be empty";;
        Ret (mk_override p e c b t x)
      else raise_with "virtual_host_waf_overrides unknown option: " key
  end.

Definition parse_waf_override_entry (entry : bytes) : outcome VirtualHostWafOverride :=
  match find_byte (chr "=") entry with
  | None => Raise "virtual_host_waf_overrides entries must use host=option:value"
  | Some equals =>
      let pattern := lowercase (trim (take equals entry)) in
      if negb (valid_host_pattern pattern)
      then raise_with "virtual_host_waf_overrides host pattern is invalid: " pattern
      else
        let options := split_delimited (drop (equals + 1) entry) (chr ",") in
        throw_if (bool_decide (options = []))
          "virtual_host_waf_overrides entry must include at least one option";;
        foldO apply_option (mk_override pattern None None None None []) options
  end.

Definition parse_virtual_host_waf_overrides (value : bytes) : outcome (list VirtualHostWafOverride) :=
  mapO parse_waf_override_entry (split_delimited value (chr ";")).

(** ** Selection *)

Definition is_wildcard (pattern : bytes) : bool := starts_with pattern (str "*.").

(** The two loops of both selection functions: exact patterns first. *)
Definition select_by_host {A} (pattern_of : A -> bytes) (r : Request) (rules : list A) : option A :=
  host_header ← header r (str "host");
  let host := normalize_host host_header in
  if bool_decide (host = []) then None
  else
    match list_find (fun rule => negb (is_wildcard (pattern_of rule))
                                 && hostname_matches_pattern host (pattern_of rule)) rules with
    | Some (_, rule) => Some rule
    | None => snd <$> list_find (fun rule => is_wildcard (pattern_of rule)
                                   && hostname_matches_pattern host (pattern_of rule)) rules
    end.

Definition select_virtual_host_rule : Request -> list VirtualHostRule -> option VirtualHostRule :=
  select_by_host host_pattern.

Definition select_virtual_host_waf_override
  : Request -> list VirtualHostWafOverride -> option VirtualHostWafOverride :=
  select_by_host override_pattern.

Definition apply_virtual_host_waf_override (settings : WafSettings)
    (override : option VirtualHostWafOverride) : WafSettings :=
  match override with
  | None => settings
  | Some o =>
      mk_settings (default (enabled settings) (override_enabled o))
        (default (owasp_crs_enabled settings) (override_owasp_crs o))
        (default (blocking_enabled settings) (override_blocking o))
        (default (anomaly_threshold settings) (override_threshold o))
        (max_inspection_bytes settings)
        (disabled_rule_ids settings ++ rule_exceptions o)
  end.

(** ** Which rule is selected *)

Lemma wildcard_matches_spec h d :
  hostname_matches_pattern h (str "*." ++ d) = true <->
  exists label, label <> [] /\ lowercase h = label ++ str "." ++ lowercase d.
Proof.
  unfold hostname_matches_pattern. change (str "*.") with (str "*" ++ str ".").
  rewrite lowercase_app. change (lowercase (str "*" ++ str ".")) with (str "*" ++ str ".").
  rewrite starts_with_app. change (drop 1 ((str "*" ++ str ".") ++ lowercase d)) with (str "." ++ lowercase d).
  rewrite andb_true_iff, Nat.ltb_lt, ends_with_spec. split.
  - intros [L [r E]]. exists r. split; [|exact E]. intros ->. rewrite E in L. cbn [app] in L. lia.
  - intros (label & N & E). split; [|by exists label]. rewrite E, (length_app label).
    destruct label; [done|cbn [length]; lia].
Qed.

Lemma exact_matches_spec h p :
  is_wildcard (lowercase p) = false ->
  (hostname_matches_pattern h p = true <-> lowercase h = lowercase p).
Proof.
  unfold hostname_matches_pattern, is_wildcard. intros ->. by rewrite bool_decide_eq_true.
Qed.

Lemma find_byte_drop_while c p (s : bytes) :
  c ∉ s -> c ∉ drop_while p s.
Proof. intros N I. destruct (drop_while_suffix p s) as (a & E & _). apply N. rewrite E. set_solver. Qed.

Lemma rfind_byte_last c a b : c ∉ b -> rfind_byte c (a ++ c :: b) = Some (length a).
Proof.
  intros N. unfold rfind_byte. rewrite reverse_app, reverse_cons, <- app_assoc. cbn [app].
  rewrite find_byte_app by by rewrite elem_of_reverse. cbn. f_equal. rewrite length_reverse, length_app. cbn. lia.
Qed.

Lemma rfind_byte_None c s : c ∉ s -> rfind_byte c s = None.
Proof.
  intros N. unfold rfind_byte.
  rewrite (proj2 (find_byte_None c (reverse s))); [done|by rewrite elem_of_reverse].
Qed.

(** White space around the header, the letter case of the name and a port
    are not part of the host. *)
Lemma normalize_host_name (sp1 h sp2 : bytes) (p : option bytes) :
  Forall (fun c => isspace c = true) sp1 -> Forall (fun c => isspace c = true) sp2 ->
  h <> [] -> no_space h -> chr ":" ∉ h -> head h <> Some (chr "[") ->
  (forall q, p = Some q -> no_space q /\ chr ":" ∉ q) ->
  normalize_host (sp1 ++ h ++ match p with Some q => chr ":" :: q | None => [] end ++ sp2) = lowercase h.
Proof.
  intros S1 S2 N W C B P. unfold normalize_host. rewrite (app_assoc h).
  set (x := h ++ match p with Some q => chr ":" :: q | None => [] end).
  assert (Nx : no_space x).
  { unfold x, no_space. apply Forall_app. split; [done|]. destruct p as [q|]; [|constructor].
    constructor; [done|by apply P]. }
  assert (T : trim (sp1 ++ x ++ sp2) = x).
  { apply trim_spaces; [done|done|]. split; intros c Hc.
    - apply (proj1 (Forall_forall _ _) Nx c). destruct x; [done|]. injection Hc as ->. by left.
    - apply (proj1 (Forall_forall _ _) Nx c). apply last_Some in Hc as [l ->]. set_solver. }
  rewrite T. assert (Hh : head x = head h) by (unfold x; by destruct h).
  destruct x as [|f x'] eqn:Ex; [by destruct h|].
  rewrite decide_False by (intros ->; cbn in Hh; congruence). f_equal. rewrite <- Ex. unfold x.
  destruct p as [q|].
  - destruct (P q eq_refl) as [_ Cq]. rewrite rfind_byte_last, find_byte_app by done.
    rewrite bool_decide_true by done. by rewrite take_app_length.
  - rewrite app_nil_r. by rewrite rfind_byte_None.
Qed.

Lemma exact_rule_spec h q :
  lowercase q = q ->
  Is_true (negb (is_wildcard q) && hostname_matches_pattern (lowercase h) q)
  <-> is_wildcard q = false /\ q = lowercase h.
Proof.
  intros Lq. rewrite Is_true_true, andb_true_iff, negb_true_iff. split; intros [E1 E2]; (split; [done|]).
  - apply exact_matches_spec in E2; [|by rewrite Lq]. by rewrite lowercase_idem, Lq in E2.
  - apply exact_matches_spec; [by rewrite Lq|]. by rewrite lowercase_idem, Lq.
Qed.

Lemma wild_rule_spec h q :
  lowercase q = q ->
  Is_true (is_wildcard q && hostname_matches_pattern (lowercase h) q)
  <-> exists label d, label <> [] /\ q = str "*." ++ d /\ lowercase h = label ++ str "." ++ d.
Proof.
  intros Lq. unfold is_wildcard. rewrite Is_true_true, andb_true_iff, starts_with_spec. split.
  - intros [[d E] M]. rewrite E in M, Lq. apply wildcard_matches_spec in M as (label & Nl & M).
    rewrite lowercase_app in Lq. change (lowercase (str "*.")) with (str "*.") in Lq.
    apply app_inv_head in Lq. exists label, d. rewrite lowercase_idem, Lq in M. done.
  - intros (label & d & Nl & E & M). split; [by exists d|]. rewrite E in Lq |- *.
    rewrite lowercase_app in Lq. change (lowercase (str "*.")) with (str "*.") in Lq.
    apply app_inv_head in Lq. apply wildcard_matches_spec. exists label. by rewrite lowercase_idem, Lq.
Qed.

(** [list_find] with the condition read as a property of the elements. *)
Lemma list_find_iff {A} (f : A -> bool) (P : A -> Prop) (l : list A) (i : nat) (x : A) :
  (forall x, x ∈ l -> Is_true (f x) <-> P x) ->
  list_find f l = Some (i, x) <->
  l !! i = Some x /\ P x /\ forall j y, l !! j = Some y -> (j < i)%nat -> ~ P y.
Proof.
  intros Hf. rewrite list_find_Some.
  assert (E : forall j y, l !! j = Some y -> Is_true (f y) <-> P y)
    by (intros j y Hj; apply Hf; by eapply list_elem_of_lookup_2).
  split; intros (E1 & E2 & E3); (split; [done|]); (split; [by apply (E i x E1)|]);
    intros j y Hj Lt HQ; apply (E3 j y Hj Lt); by apply (E j y Hj).
Qed.

(** C39. Virtual hosts are selected by name alone, exact names before
    wildcards. Whatever its letter case, port and surrounding white space, a
    Host header for the name [h] selects a rule iff some rule matches [h]:
    the first rule whose exact pattern is [h] if there is one, otherwise the
    first wildcard [*.d] such that [h] is a proper subdomain of [d]. *)
Theorem virtual_host_selection (r : Request) (rules : list VirtualHostRule) (sp1 h sp2 : bytes)
    (p : option bytes) :
  header r (str "host") = Some (sp1 ++ h ++ match p with Some q => chr ":" :: q | None => [] end ++ sp2) ->
  Forall (fun c => isspace c = true) sp1 -> Forall (fun c => isspace c = true) sp2 ->
  h <> [] -> no_space h -> chr ":" ∉ h -> head h <> Some (chr "[") ->
  (forall q, p = Some q -> no_space q /\ chr ":" ∉ q) ->
  Forall (fun rule => lowercase (host_pattern rule) = host_pattern rule) rules ->
  let exact rule := is_wildcard (host_pattern rule) = false /\ host_pattern rule = lowercase h in
  let wild rule := exists label d, label <> [] /\ host_pattern rule = str "*." ++ d /\
                                   lowercase h = label ++ str "." ++ d in
  let first (P : VirtualHostRule -> Prop) rule :=
    exists i, rules !! i = Some rule /\ P rule /\ forall j y, rules !! j = Some y -> (j < i)%nat -> ~ P y in
  forall rule,
    select_virtual_host_rule r rules = Some rule <->
    first exact rule \/ ((forall x, x ∈ rules -> ~ exact x) /\ first wild rule).
Proof.
  intros Hd S1 S2 N W C B P L exact wild first rule.
  unfold select_virtual_host_rule, select_by_host. rewrite Hd. cbn [mbind option_bind].
  rewrite normalize_host_name by done.
  rewrite bool_decide_false by (destruct h; [done|discriminate]).
  set (fe := fun x : VirtualHostRule => negb (is_wildcard (host_pattern x)) &&
               hostname_matches_pattern (lowercase h) (host_pattern x)).
  set (fw := fun x : VirtualHostRule => is_wildcard (host_pattern x) &&
               hostname_matches_pattern (lowercase h) (host_pattern x)).
  assert (He : forall x, x ∈ rules -> Is_true (fe x) <-> exact x)
    by (intros x Hx; apply exact_rule_spec, (proj1 (Forall_forall _ _) L x Hx)).
  assert (Hw : forall x, x ∈ rules -> Is_true (fw x) <-> wild x)
    by (intros x Hx; apply wild_rule_spec, (proj1 (Forall_forall _ _) L x Hx)).
  change (match list_find fe rules with Some (_, x) => Some x | None => snd <$> list_find fw rules end
          = Some rule <-> first exact rule \/ ((forall x, x ∈ rules -> ~ exact x) /\ first wild rule)).
  destruct (list_find fe rules) as [[i x]|] eqn:E.
  - apply (list_find_iff fe exact _ _ _ He) in E. split.
    + intros [= <-]. left. by exists i.
    + intros [(j & E1 & E2 & E3)|[No _]].
      * destruct E as (D1 & D2 & D3). destruct (lt_eq_lt_dec i j) as [[Lt| ->]|Lt]; [|congruence|].
        -- by destruct (E3 i x D1 Lt).
        -- by destruct (D3 j rule E1 Lt).
      * destruct (No x); [eapply list_elem_of_lookup_2, E|apply E].
  - apply list_find_None in E. assert (No : forall x, x ∈ rules -> ~ exact x).
    { intros x Hx Ex. apply (proj1 (Forall_forall _ _) E x Hx). by apply He. }
    transitivity (first wild rule).
    + split.
      * destruct (list_find fw rules) as [[i x]|] eqn:G; [|done]. cbn. intros [= <-].
        exists i. by apply (list_find_iff fw wild _ _ _ Hw).
      * intros (i & Hi). apply (list_find_iff fw wild _ _ _ Hw) in Hi. by rewrite Hi.
    + split; [auto|]. intros [(i & E1 & E2 & _)|[_ ?]]; [|done]. destruct (No rule); [by eapply list_elem_of_lookup_2|done].
Qed.

Definition host_request (h : bytes) : Request :=
  mk_request (str "GET") (str "/") (str "/") [] (str "HTTP/1.1") {[str "host" := h]} ∅ [] 0 None.

Definition static_rule (pattern root : string) : VirtualHostRule :=
  mk_vhost_rule (str pattern) static_files (str root) [] [] [].

Lemma virtual_host_selection_witness :
  select_virtual_host_rule (host_request (str " WWW.Example.org:8080"))
    [static_rule "*.example.org" "/a"; static_rule "www.example.org" "/b"]
  = Some (static_rule "www.example.org" "/b").
Proof.
  apply (virtual_host_selection _ [static_rule "*.example.org" "/a"; static_rule "www.example.org" "/b"]
    (str " ") (str "WWW.Example.org") [] (Some (str "8080"))).
  - reflexivity.
  - by repeat constructor.
  - constructor.
  - discriminate.
  - by_decide.
  - by_decide.
  - by_decide.
  - intros q [= <-]. split; by_decide.
  - by repeat constructor.
  - left. exists 1%nat. split; [reflexivity|]. split; [by split; vm_compute|].
    intros [|j] y; [|lia]. cbn. intros [= <-] _ [W _]. vm_compute in W. discriminate W.
Defined.

(** ** Printing the configuration, and reading it back *)

Fixpoint join (sep : byte) (items : list bytes) : bytes :=
  match items with
  | [] => []
  | [x] => x
  | x :: rest => x ++ sep :: join sep rest
  end.

(** An item [split_delimited] can return. *)
Record item_of (sep : byte) (x : bytes) : Prop := {
  item_nonempty : x <> [];
  item_trimmed : trimmed x;
  item_no_sep : sep ∉ x;
}.

Lemma split_delimited_items v sep : Forall (item_of sep) (split_delimited v sep).
Proof.
  apply Forall_forall. intros x (Nx & (l & -> & I)%list_elem_of_fmap)%list_elem_of_filter.
  split; [done|apply trim_trimmed|]. intros S%trim_elem_of. by apply getlines_no_delim in I.
Qed.

Lemma split_delimited_join sep items :
  Forall (item_of sep) items -> split_delimited (join sep items) sep = items.
Proof.
  intros F. unfold split_delimited.
  assert (G : getlines sep (join sep items) = items).
  { unfold getlines. induction F as [|x l [Nx Tx Sx] F IH]; [done|]. destruct l as [|y l].
    - cbn [join]. rewrite getlines_from_last by done. by destruct x.
    - change (join sep (x :: y :: l)) with (x ++ sep :: join sep (y :: l)).
      rewrite getlines_from_app by done. cbn [app]. by rewrite IH. }
  rewrite G. clear G. induction F as [|x l [Nx Tx Sx] F IH]; [done|].
  cbn [fmap list_fmap]. rewrite trimmed_trim by done. rewrite filter_cons_True by done. by f_equal.
Qed.

Definition print_target (t : ReverseProxyTarget) : bytes :=
  scheme t ++ str "://" ++ authority t ++ base_path t.

Definition default_port (scheme : bytes) : Z := if decide (scheme = str "http") then 80 else 443.

Record wf_target (t : ReverseProxyTarget) : Prop := {
  target_scheme : scheme t = str "http" \/ scheme t = str "https";
  target_authority : authority t <> [] /\ chr "@" ∉ authority t /\ chr "/" ∉ authority t;
  target_path : head (base_path t) = Some (chr "/");
  target_text : contains_control_character (print_target t) = false /\ trimmed (print_target t);
  target_host_port : parse_authority (authority t) (default_port (scheme t)) = Ret (target_host t, port t);
  target_bounds : target_host t <> [] /\ 1 <= port t <= 65535;
}.

Lemma upstream_port_range value parsed p :
  0 <= parsed <= 65535 -> upstream_port_loop parsed value = Ret p -> 0 <= p <= 65535.
Proof.
  revert parsed; induction value as [|c v IH]; intros parsed Hp; cbn [upstream_port_loop].
  - by intros [= <-].
  - destruct (isdigit c) eqn:D; [|done]. cbn [negb].
    destruct (Z.ltb_spec 65535 (u32 (parsed * 10 + (val c - 48)))); [done|].
    apply IH. split; [|done]. by apply wrap_range.
Qed.

Lemma parse_upstream_port_range value p : parse_upstream_port value = Ret p -> 1 <= p <= 65535.
Proof.
  unfold parse_upstream_port. case_bool_decide; [done|]. intros E. inv_ret.
  apply upstream_port_range in Hx; [|lia]. destruct (Z.eqb_spec x 0); [done|]. injection E as ->. lia.
Qed.

Lemma parse_authority_range a dp h p :
  1 <= dp <= 65535 -> parse_authority a dp = Ret (h, p) -> 1 <= p <= 65535.
Proof.
  intros Hd. unfold parse_authority. repeat case_match; try done; intros E; inv_ret; simplify_eq; try done.
  all: by eapply parse_upstream_port_range.
Qed.

Lemma contains_control_app a b :
  contains_control_character (a ++ b) = contains_control_character a || contains_control_character b.
Proof. apply existsb_app. Qed.

Lemma parse_target_text_spec sch dp rest t :
  parse_target_text sch dp rest = Ret t <->
  scheme t = sch /\ authority t <> [] /\ chr "@" ∉ authority t /\ chr "/" ∉ authority t /\
  head (base_path t) = Some (chr "/") /\ parse_authority (authority t) dp = Ret (target_host t, port t) /\
  target_host t <> [] /\ port t <> 0 /\
  (rest = authority t ++ base_path t \/ (rest = authority t /\ base_path t = str "/")).
Proof.
  unfold parse_target_text. split.
  - destruct (find_byte (chr "/") rest) as [i|] eqn:F; intros P; inv_ret; destruct x0 as [h p]; inv_ret;
      subst t; cbn [scheme authority base_path target_host port].
    all: apply orb_false_iff in Hx as [A1%bool_decide_eq_false A2%bool_decide_eq_false].
    all: apply orb_false_iff in Hx1 as [A3%bool_decide_eq_false A4%Z.eqb_neq].
    all: apply negb_false_iff, bool_decide_eq_true in Hx2.
    + apply find_byte_Some in F as [_ F]. split_and!; try done. left. by rewrite take_drop.
    + apply find_byte_None in F. split_and!; try done. by right.
  - destruct t as [sch' h p b a]. cbn [scheme authority base_path target_host port].
    intros (-> & A1 & A2 & A3 & B & P & H1 & H2 & R).
    assert (E : exists a' b', find_byte (chr "/") rest = None /\ a' = rest /\ b' = str "/" /\ a = a' /\ b = b' \/
                (exists i, find_byte (chr "/") rest = Some i /\ a = take i rest /\ b = drop i rest)).
    { destruct R as [->|[-> ->]].
      - destruct b as [|c b]; [done|]. injection B as ->. exists [], []. right. exists (length a).
        by rewrite find_byte_app, take_app_length, drop_app_length.
      - eexists _, _. left. split; [by apply find_byte_None|done]. }
    destruct E as (a' & b' & [(-> & -> & -> & -> & ->)|(i & -> & <- & <-)]).
    all: rewrite (bool_decide_false (_ = [])) by done; rewrite (bool_decide_false (_ ∈ _)) by done.
    all: cbn [orb throw_if mbind outcome_bind]; rewrite P; cbn [mbind outcome_bind].
    all: rewrite (bool_decide_false (h = [])) by done; rewrite (proj2 (Z.eqb_neq _ _) H2); cbn [orb throw_if mbind outcome_bind].
    all: by rewrite bool_decide_true.
Qed.

Lemma parse_authority_bounds a sch h p :
  parse_authority a (default_port sch) = Ret (h, p) -> 1 <= p <= 65535.
Proof. apply parse_authority_range. unfold default_port. case_decide; lia. Qed.

Lemma starts_with_drop s p : starts_with s p = true -> s = p ++ drop (length p) s.
Proof. intros [r ->]%starts_with_spec. by rewrite drop_app_length. Qed.

(** A parsed target is well formed, and its text is the value, up to the
    path "/" that is added when there is none. *)
Lemma parse_target_wf value t :
  parse_reverse_proxy_target value = Ret t ->
  wf_target t /\ (print_target t = trim value \/ print_target t = trim value ++ str "/").
Proof.
  unfold parse_reverse_proxy_target. destruct (contains_control_character (trim value)) eqn:C; [done|].
  pose proof (trim_trimmed value) as T. revert T C. generalize (trim value). clear value. intros v T C P.
  assert (S : exists sch dp rest, v = sch ++ str "://" ++ rest /\ parse_target_text sch dp rest = Ret t /\
                (sch = str "http" \/ sch = str "https") /\ dp = default_port sch).
  { destruct (starts_with v (str "http://")) eqn:S1; [|destruct (starts_with v (str "https://")) eqn:S2; [|done]].
    - apply starts_with_drop in S1. exists (str "http"), 80, (drop 7 v). auto.
    - apply starts_with_drop in S2. exists (str "https"), 443, (drop 8 v). auto. }
  destruct S as (sch & dp & rest & E & Pt & Hs & ->). clear P.
  apply parse_target_text_spec in Pt as (<- & A1 & A2 & A3 & B & Pa & H1 & H2 & R).
  assert (Pr : print_target t = v \/ print_target t = v ++ str "/").
  { unfold print_target. destruct R as [-> |[-> ->]]; [by left|right]. rewrite E. by rewrite <- !app_assoc. }
  split; [|done]. split; try done; [|by split; [|eapply parse_authority_bounds]].
  destruct Pr as [-> | ->]; [done|]. split; [by rewrite contains_control_app, C|].
  split; intros c Hc; [|rewrite last_app in Hc; by injection Hc as <-].
  destruct v as [|x v]; [by destruct Hs as [Hs|Hs]; rewrite Hs in E|]. by apply (proj1 T c).
Qed.

Lemma parse_print_target t : wf_target t -> parse_reverse_proxy_target (print_target t) = Ret t.
Proof.
  intros [Hs (A1 & A2 & A3) B [C T] Pa [H1 H2]]. unfold parse_reverse_proxy_target.
  rewrite trimmed_trim, C by done. unfold print_target.
  assert (Pt : parse_target_text (scheme t) (default_port (scheme t)) (authority t ++ base_path t) = Ret t).
  { apply parse_target_text_spec. split_and!; try done; [lia|by left]. }
  destruct Hs as [E|E]; rewrite E in Pt |- *; exact Pt.
Qed.

Definition print_action (r : VirtualHostRule) : bytes :=
  match action r with
  | static_files => str "static:" ++ document_root r
  | reverse_proxy => str "proxy:" ++ join (chr ",") (print_target <$> upstreams r)
  | server_side_script => str "script:" ++ script_runtime r ++ str ":" ++ script_root r
  end.

Definition print_rule (r : VirtualHostRule) : bytes := host_pattern r ++ str "=" ++ print_action r.
Definition print_rules (rules : list VirtualHostRule) : bytes := join (chr ";") (print_rule <$> rules).

Record wf_rule (r : VirtualHostRule) : Prop := {
  rule_pattern : valid_host_pattern (host_pattern r) = true /\ lowercase (host_pattern r) = host_pattern r;
  rule_action : match action r with
    | static_files =>
        item_of (chr ";") (document_root r) /\
        r = mk_vhost_rule (host_pattern r) static_files (document_root r) [] [] []
    | reverse_proxy =>
        upstreams r <> [] /\
        Forall (fun t => wf_target t /\ chr "," ∉ print_target t /\ chr ";" ∉ print_target t) (upstreams r) /\
        r = mk_vhost_rule (host_pattern r) reverse_proxy [] (upstreams r) [] []
    | server_side_script =>
        valid_runtime_name (script_runtime r) = true /\ lowercase (script_runtime r) = script_runtime r /\
        item_of (chr ";") (script_root r) /\
        r = mk_vhost_rule (host_pattern r) server_side_script [] [] (script_runtime r) (script_root r)
    end;
}.

Lemma host_char_plain c :
  host_char c = true -> isspace c = false /\ c <> chr ";" /\ c <> chr "=".
Proof.
  intros H. enough (bool_decide (host_char c = true -> isspace c = false /\ c <> chr ";" /\ c <> chr "=") = true)
    as E by (by apply bool_decide_eq_true in E; apply E).
  clear H. by_byte c.
Qed.

Lemma runtime_char_plain c :
  isalnum c || bool_decide (c ∈ str "_-+.") = true ->
  isspace c = false /\ c <> chr ";" /\ c <> chr ":".
Proof.
  intros H.
  enough (bool_decide (isalnum c || bool_decide (c ∈ str "_-+.") = true ->
                       isspace c = false /\ c <> chr ";" /\ c <> chr ":") = true)
    as E by (by apply bool_decide_eq_true in E; apply E).
  clear H. by_byte c.
Qed.

(** A valid pattern is one word, without the separators. *)
Lemma valid_pattern_plain p :
  valid_host_pattern p = true -> p <> [] /\ no_space p /\ chr ";" ∉ p /\ chr "=" ∉ p.
Proof.
  unfold valid_host_pattern. destruct (bool_decide (p = [])) eqn:N; [done|]. apply bool_decide_eq_false in N.
  destruct (contains_control_character p); [done|]. cbn [orb]. intros V.
  assert (F : Forall (fun c => isspace c = false /\ c <> chr ";" /\ c <> chr "=") p).
  { destruct (starts_with p (str "*.")) eqn:S; cbn [andb] in V.
    - apply starts_with_drop in S. rewrite S. case_bool_decide; [done|].
      apply Forall_app. split; [by repeat constructor|].
      apply Forall_forall. intros c Hc. apply host_char_plain. rewrite forallb_forall in V. by apply V, list_elem_of_In.
    - apply Forall_forall. intros c Hc. apply host_char_plain. rewrite forallb_forall in V. by apply V, list_elem_of_In. }
  split; [done|]. split; [eapply Forall_impl; [exact F|]; by intros c (? & _)|].
  rewrite Forall_forall in F. split; intros I; by destruct (F _ I) as (_ & ? & ?).
Qed.

Lemma no_space_trimmed p : no_space p -> trimmed p.
Proof.
  intros F. unfold no_space in F. rewrite Forall_forall in F. split; intros c Hc; apply F.
  - destruct p; [done|]. injection Hc as ->. by left.
  - apply last_Some in Hc as [l ->]. set_solver.
Qed.

Lemma runtime_plain s :
  valid_runtime_name s = true -> s <> [] /\ no_space s /\ chr ";" ∉ s /\ chr ":" ∉ s.
Proof.
  intros V. assert (N : s <> []) by (intros ->; done).
  assert (F : Forall (fun c => isspace c = false /\ c <> chr ";" /\ c <> chr ":") s).
  { apply Forall_forall. intros c Hc. apply runtime_char_plain. destruct s as [|x s]; [done|].
    unfold valid_runtime_name in V. rewrite forallb_forall in V. by apply V, list_elem_of_In. }
  split; [done|]. split; [eapply Forall_impl; [exact F|]; by intros c (? & _)|].
  rewrite Forall_forall in F. split; intros I; by destruct (F _ I) as (_ & ? & ?).
Qed.

Lemma lowercase_trim_trimmed s : trimmed (lowercase (trim s)).
Proof. apply trimmed_lowercase, trim_trimmed. Qed.

Lemma trimmed_app a b : trimmed a -> a <> [] -> trimmed b -> b <> [] -> trimmed (a ++ b).
Proof.
  intros [A1 _] Na [_ B2] Nb. split; intros c Hc.
  - apply A1. by destruct a.
  - rewrite last_app in Hc. destruct (last b) eqn:L; [by apply B2|]. by apply last_None in L.
Qed.

(** A literal that neither begins nor ends with white space. *)
Ltac trimmed_literal := split; intros c; vm_compute; by intros [= <-].

Lemma join_cons sep x y l : join sep (x :: y :: l) = x ++ [sep] ++ join sep (y :: l).
Proof. done. Qed.

Lemma join_trimmed sep items :
  isspace sep = false -> items <> [] -> Forall (fun x => x <> [] /\ trimmed x) items ->
  join sep items <> [] /\ trimmed (join sep items).
Proof.
  intros Hs N F. induction F as [|x l [Nx Tx] F IH]; [done|]. destruct l as [|y l]; [done|].
  rewrite join_cons. specialize (IH ltac:(done)) as [I1 I2]. split; [by destruct x|].
  assert (Ts : trimmed [sep]) by (split; by intros c [= <-]).
  apply trimmed_app; [done|done| |done]. by apply trimmed_app.
Qed.

Lemma join_elem sep items c : c ∈ join sep items -> c = sep \/ exists x, x ∈ items /\ c ∈ x.
Proof.
  induction items as [|x [|y l] IH]; [by intros ?%elem_of_nil|cbn [join]; intros; right; exists x; set_solver|].
  rewrite join_cons. intros [I|[I|I]%elem_of_app]%elem_of_app.
  - right. exists x. set_solver.
  - left. by apply list_elem_of_singleton in I.
  - destruct (IH I) as [|(z & ? & ?)]; [by left|]. right. exists z. set_solver.
Qed.

Lemma print_target_nonempty t : wf_target t -> print_target t <> [].
Proof.
  intros [_ _ B _ _ _]. unfold print_target. destruct (scheme t); [|done]. cbn. destruct (str "://") eqn:E; [|done].
  by vm_compute in E.
Qed.

Lemma print_target_item t sep :
  wf_target t -> sep ∉ print_target t -> item_of sep (print_target t).
Proof. intros W S. split; [by apply print_target_nonempty|by destruct W as [_ _ _ [_ T] _ _]|done]. Qed.

Lemma print_action_item r : wf_rule r -> item_of (chr ";") (print_action r).
Proof.
  intros [_ A]. unfold print_action. destruct (action r).
  - destruct A as [[N T S] _]. split; [by vm_compute| |].
    + apply trimmed_app; [trimmed_literal|by vm_compute|done|done].
    + apply not_elem_of_app. split; [by_decide|done].
  - destruct A as (N & F & _).
    destruct (join_trimmed (chr ",") (print_target <$> upstreams r)) as [J1 J2].
    { done. }
    { by destruct (upstreams r). }
    { apply Forall_fmap. eapply Forall_impl; [exact F|]. intros t (W & S & _).
      destruct (print_target_item t (chr ",") W S). done. }
    split; [by vm_compute| |].
    + apply trimmed_app; [trimmed_literal|by vm_compute|done|done].
    + apply not_elem_of_app. split; [by_decide|]. intros [E|(x & (t & -> & I)%list_elem_of_fmap & Ic)]%join_elem.
      * by vm_compute in E.
      * rewrite Forall_forall in F. by apply (F t I) in Ic.
  - destruct A as (V & _ & [N T S] & _). apply runtime_plain in V as (V1 & V2 & V3 & _).
    split; [by vm_compute| |].
    + apply trimmed_app; [trimmed_literal|by vm_compute| |by destruct (script_runtime r)].
      apply trimmed_app; [by apply no_space_trimmed|done| |by vm_compute].
      apply trimmed_app; [trimmed_literal|by vm_compute|done|done].
    + rewrite !not_elem_of_app. split_and!; [by_decide|done|by_decide|done].
Qed.

Lemma print_rule_item r : wf_rule r -> item_of (chr ";") (print_rule r).
Proof.
  intros W. pose proof (print_action_item r W) as [N T S]. destruct W as [[V _] _].
  apply valid_pattern_plain in V as (V1 & V2 & V3 & _). unfold print_rule. split.
  - by destruct (host_pattern r).
  - apply trimmed_app; [by apply no_space_trimmed|done| |by vm_compute].
    apply trimmed_app; [trimmed_literal|by vm_compute|done|done].
  - rewrite !not_elem_of_app. split_and!; [done|by_decide|done].
Qed.

Lemma parse_print_action r :
  wf_rule r -> parse_rule_action (host_pattern r) (print_action r) = Ret r.
Proof.
  intros [_ A]. unfold parse_rule_action, print_action. destruct (action r) eqn:Ea.
  - destruct A as [[N T Sc] E]. rewrite starts_with_app.
    change (drop 7 (str "static:" ++ document_root r)) with (document_root r).
    rewrite trimmed_trim, bool_decide_false by done. by rewrite E.
  - destruct A as (N & F & E).
    change (starts_with (str "proxy:" ++ ?x) (str "static:")) with false. cbn match.
    rewrite starts_with_app.
    set (x := join (chr ",") (print_target <$> upstreams r)).
    change (drop 6 (str "proxy:" ++ x)) with x. unfold parse_reverse_proxy_targets, x.
    rewrite split_delimited_join.
    2: { apply Forall_fmap. eapply Forall_impl; [exact F|]. intros t (W & S & _). by apply print_target_item. }
    assert (M : mapO parse_reverse_proxy_target (print_target <$> upstreams r) = Ret (upstreams r)).
    { apply mapO_Ret, Forall2_fmap_l, Forall_Forall2_diag. eapply Forall_impl; [exact F|].
      intros t (W & _). by apply parse_print_target. }
    rewrite M. cbn [mbind outcome_bind]. rewrite bool_decide_false by done. by rewrite E.
  - destruct A as (V & L & [N T Sc] & E). apply runtime_plain in V as V'. destruct V' as (V1 & V2 & V3 & V4).
    change (starts_with (str "script:" ++ ?x) (str "static:")) with false.
    change (starts_with (str "script:" ++ ?x) (str "proxy:")) with false. cbn match.
    rewrite starts_with_app.
    set (x := script_runtime r ++ str ":" ++ script_root r).
    change (drop 7 (str "script:" ++ x)) with x. unfold x.
    change (str ":" ++ script_root r) with (chr ":" :: script_root r). rewrite find_byte_app by done.
    rewrite take_app_length. replace (length (script_runtime r) + 1)%nat with (S (length (script_runtime r))) by lia.
    rewrite drop_app_cons. rewrite (trimmed_trim (script_runtime r)) by by apply no_space_trimmed.
    rewrite L, V, trimmed_trim by done. cbn [negb orb]. rewrite bool_decide_false by done. by rewrite E.
Qed.

Lemma parse_print_entry r : wf_rule r -> parse_virtual_host_entry (print_rule r) = Ret r.
Proof.
  intros W. pose proof (print_action_item r W) as [N T Sc]. pose proof W as [[V L] _].
  pose proof (valid_pattern_plain _ V) as (V1 & V2 & V3 & V4).
  unfold parse_virtual_host_entry, print_rule. change (str "=" ++ ?x) with (chr "=" :: x).
  rewrite find_byte_app, take_app_length by done.
  rewrite (trimmed_trim (host_pattern r)), L, V by by apply no_space_trimmed. cbn [negb].
  replace (length (host_pattern r) + 1)%nat with (S (length (host_pattern r))) by lia.
  rewrite drop_app_cons, trimmed_trim by done. by apply parse_print_action.
Qed.

(** Conversely, what is parsed is well formed. *)
Lemma drop_item sep n (s : bytes) : sep ∉ s -> sep ∉ trim (drop n s).
Proof. intros N I%trim_elem_of%drop_elem_of. done. Qed.

Lemma trim_item sep (s : bytes) : sep ∉ s -> trim s <> [] -> item_of sep (trim s).
Proof. intros S N. split; [done|apply trim_trimmed|]. by intros I%trim_elem_of. Qed.

Lemma parse_targets_wf value ups :
  chr ";" ∉ value -> parse_reverse_proxy_targets value = Ret ups ->
  ups <> [] /\ Forall (fun t => wf_target t /\ chr "," ∉ print_target t /\ chr ";" ∉ print_target t) ups.
Proof.
  intros Sc P. unfold parse_reverse_proxy_targets in P. inv_ret. subst x.
  apply bool_decide_eq_false in Hx0. split; [done|].
  apply mapO_Ret in Hx. apply Forall_forall. intros t I. apply list_elem_of_lookup in I as [i Hi].
  destruct (Forall2_lookup_r _ _ _ _ _ Hx Hi) as (e & He & Pe).
  apply list_elem_of_lookup_2 in He. apply parse_target_wf in Pe as [W Pr]. split; [done|].
  assert (Sub : forall c, c ∈ print_target t -> c ∈ e \/ c = chr "/").
  { intros c Hc. destruct Pr as [Pr|Pr]; rewrite Pr in Hc.
    - left. by apply trim_elem_of.
    - apply elem_of_app in Hc as [Hc|Hc]; [left; by apply trim_elem_of|right]. by apply list_elem_of_singleton in Hc. }
  pose proof (split_delimited_items value (chr ",")) as F. rewrite Forall_forall in F.
  destruct (F e He) as [_ _ Nc]. split; intros I; apply Sub in I as [I|I].
  - done.
  - by vm_compute in I.
  - apply list_elem_of_filter in He as [_ (l & -> & Il)%list_elem_of_fmap]. apply trim_elem_of in I.
    apply Sc. by apply (getlines_elem_of (chr ",") value l).
  - by vm_compute in I.
Qed.

Lemma parse_rule_action_wf p a r :
  valid_host_pattern p = true -> lowercase p = p -> chr ";" ∉ a ->
  parse_rule_action p a = Ret r -> wf_rule r.
Proof.
  intros V L Sc. unfold parse_rule_action.
  destruct (starts_with a (str "static:")); [|destruct (starts_with a (str "proxy:"));
    [|destruct (starts_with a (str "script:")); [|done]]].
  - intros P. inv_ret. subst r. apply bool_decide_eq_false in Hx. split; [done|]. cbn. split; [|done].
    apply trim_item; [|done]. intros I%drop_elem_of. done.
  - intros P. inv_ret. subst r. apply parse_targets_wf in Hx as [H1 H2]; [|by intros I%drop_elem_of].
    split; [done|]. cbn. done.
  - destruct (find_byte _ _) as [i|]; [|done]. intros P. inv_ret. subst r.
    apply orb_false_iff in Hx as [Hx1%negb_false_iff Hx2%bool_decide_eq_false].
    split; [done|]. cbn. split_and!; [done|apply lowercase_idem| |done].
    apply trim_item; [|done]. by intros I%drop_elem_of%drop_elem_of.
Qed.

Lemma parse_entry_wf e r :
  chr ";" ∉ e -> parse_virtual_host_entry e = Ret r -> wf_rule r.
Proof.
  intros Sc. unfold parse_virtual_host_entry. destruct (find_byte (chr "=") e) as [i|]; [|done].
  destruct (valid_host_pattern _) eqn:V; [|done]. cbn [negb].
  apply parse_rule_action_wf; [done|apply lowercase_idem|by apply drop_item].
Qed.

(** The virtual host configuration is parsed into exactly the well-formed
    rules, and loses nothing: a list of rules can come out of [virtual_hosts]
    iff every pattern is a valid lowercase name, every static root and script
    root is a non-empty trimmed name, and every proxy rule has upstreams with
    a non-empty host, a port from 1 to 65535 and an absolute path; and iff it
    is read back from its own printed form. *)
Theorem virtual_hosts_roundtrip (rules : list VirtualHostRule) :
  ((exists value, parse_virtual_host_rules value = Ret rules) <-> Forall wf_rule rules) /\
  (Forall wf_rule rules <-> parse_virtual_host_rules (print_rules rules) = Ret rules).
Proof.
  assert (W : forall value, parse_virtual_host_rules value = Ret rules -> Forall wf_rule rules).
  { intros value P. unfold parse_virtual_host_rules in P. apply mapO_Ret in P.
    apply Forall_forall. intros r I. apply list_elem_of_lookup in I as [i Hi].
    destruct (Forall2_lookup_r _ _ _ _ _ P Hi) as (e & He & Pe). apply list_elem_of_lookup_2 in He.
    pose proof (split_delimited_items value (chr ";")) as F. rewrite Forall_forall in F.
    apply (parse_entry_wf e); [by destruct (F e He)|done]. }
  assert (R : Forall wf_rule rules -> parse_virtual_host_rules (print_rules rules) = Ret rules).
  { intros F. unfold parse_virtual_host_rules, print_rules. rewrite split_delimited_join.
    - apply mapO_Ret, Forall2_fmap_l, Forall_Forall2_diag. eapply Forall_impl; [exact F|].
      intros r Wr. by apply parse_print_entry.
    - apply Forall_fmap. eapply Forall_impl; [exact F|]. intros r Wr. by apply print_rule_item. }
  split; split; [intros [v P]; eauto|intros F; eauto|auto|apply W].
Qed.
