(* ===== verification/ReverseProxy.v ===== *)
(** * ReverseProxy: upstream requests, responses, balancing and circuits

    Models the proxy side of [src/src/http/virtual_host.cpp]: the request sent
    upstream, the parser of the upstream's answer, the order in which
    upstreams are tried, the circuit breakers, the loop of
    [reverse_proxy_response] and the handler factory.  Connecting, writing and
    reading are an environment: one [Attempt] per upstream tried, with the
    times at which the clock is read. *)

From S2P Require Import Prelude Text Numbers Request Http1Frame Response StaticFiles Handler Waf VirtualHost.

(** ** Settings *)

Inductive ReverseProxyLoadBalancingPolicy : Type := round_robin | failover | stable_hash.

#[export] Instance policy_eq_dec : EqDecision ReverseProxyLoadBalancingPolicy.
Proof. solve_decision. Defined.

Record ReverseProxySettings : Type := mk_proxy_settings {
  connect_timeout_seconds : Z;
  read_timeout_seconds : Z;
  max_response_bytes : Z;
  retry_count : Z;
  verify_tls_upstream : bool;
  circuit_breaker_enabled : bool;
  circuit_breaker_failure_threshold : Z;
  circuit_breaker_cooldown_seconds : Z;
  load_balancing_policy : ReverseProxyLoadBalancingPolicy;
}.

Definition default_proxy_settings : ReverseProxySettings :=
  mk_proxy_settings 5 30 (1024 * 1024) 1 false true 3 10 round_robin.

Definition parse_reverse_proxy_load_balancing_policy (value : bytes)
    : outcome ReverseProxyLoadBalancingPolicy :=
  let normalized := lowercase (trim value) in
  if bool_decide (normalized ∈ str <$> ["round_robin"; "round-robin"]%string) then Ret round_robin
  else if bool_decide (normalized = str "failover") then Ret failover
  else if bool_decide (normalized ∈ str <$> ["stable_hash"; "stable-hash"]%string) then Ret stable_hash
  else Raise "reverse_proxy_load_balancing_policy must be round_robin, failover, or stable_hash".

Definition reverse_proxy_load_balancing_policy_name (p : ReverseProxyLoadBalancingPolicy) : bytes :=
  match p with
  | round_robin => str "round_robin"
  | failover => str "failover"
  | stable_hash => str "stable_hash"
  end.

(** ** The upstream request *)

Definition is_hop_by_hop_header (name : bytes) : bool :=
  bool_decide (name ∈ str <$> ["connection"; "keep-alive"; "proxy-authenticate"; "proxy-authorization";
                               "te"; "trailer"; "transfer-encoding"; "upgrade"]%string).

Definition forwarded_header (name : bytes) : bool :=
  negb (bool_decide (name = str "host") || bool_decide (name = str "content-length")
        || is_hop_by_hop_header name).

Definition upstream_header_lines `{MapOrder bytes} (r : Request) : bytes :=
  order (Request.headers r) ≫= fun '(name, value) =>
    let normalized_name := lowercase name in
    if forwarded_header normalized_name then normalized_name ++ str ": " ++ value ++ CRLF else [].

Definition build_reverse_proxy_upstream_request `{MapOrder bytes} (files : bytes -> option bytes)
    (r : Request) (upstream : ReverseProxyTarget) : outcome bytes :=
  text ← body_text files r 0;
  mret (method r ++ str " " ++ reverse_proxy_target_path upstream (target r) ++ str " HTTP/1.1" ++ CRLF
        ++ str "host: " ++ authority upstream ++ CRLF
        ++ str "connection: close" ++ CRLF
        ++ match header r (str "host") with
           | Some original_host => str "x-forwarded-host: " ++ original_host ++ CRLF
           | None => []
           end
        ++ upstream_header_lines r
        ++ str "content-length: " ++ to_string (size text) ++ CRLF
        ++ CRLF ++ text).

(** ** The upstream response *)

(** The [while (true)] of the proxy's [decode_chunked_body], with the 64-bit
    arithmetic of [cursor + *chunk_size + 2]. *)
Fixpoint upstream_chunk_loop (fuel : nat) (encoded : bytes) (cursor : Z) (body : bytes)
    : outcome (option bytes) :=
  match fuel with
  | O => Timeout
  | S fuel' =>
      match find_crlf encoded cursor with
      | None => Ret None
      | Some line_end =>
          line ← substr_checked encoded cursor (line_end - cursor);
          match chunk_size_of line with
          | None => Ret None
          | Some chunk_size =>
              let cursor := u64 (line_end + 2) in
              if chunk_size =? 0 then Ret (Some body)
              else if size encoded <? u64 (cursor + chunk_size + 2) then Ret None
              else
                chunk ← substr_checked encoded cursor chunk_size;
                let cursor := u64 (cursor + chunk_size) in
                ending ← substr_checked encoded cursor 2;
                if negb (bool_decide (ending = CRLF)) then Ret None
                else upstream_chunk_loop fuel' encoded (u64 (cursor + 2)) (body ++ chunk)
          end
      end
  end.

Definition upstream_decode_chunked_body (encoded : bytes) : outcome (option bytes) :=
  upstream_chunk_loop (S (length encoded)) encoded 0 [].

(** [status >> version]: the next word of a stream, and what follows it. *)
Fixpoint until_space (s : bytes) : bytes * bytes :=
  match s with
  | c :: s' => if isspace c then ([], s) else let '(w, rest) := until_space s' in (c :: w, rest)
  | [] => ([], [])
  end.

Definition stream_word (s : bytes) : option (bytes * bytes) :=
  match until_space (drop_while isspace s) with
  | ([], _) => None
  | (w, rest) => Some (w, rest)
  end.

(** [status >> status_code]: a 32-bit integer, or failure. *)
Definition stream_int (s : bytes) : option (Z * bytes) :=
  '(neg, v, n) ← leading_number s;
  let v : Z := if neg : bool then - v else v in
  if (v <? - 2 ^ 31) || (2 ^ 31 - 1 <? v) then None else Some (v, drop n s).

(** The headers of the response, and whether the body is chunked. *)
Fixpoint upstream_response_headers (lines : list bytes) (chunked : bool) (h : Headers) : bool * Headers :=
  match lines with
  | [] => (chunked, h)
  | line :: rest =>
      let line := strip_cr line in
      match line with
      | [] => (chunked, h)
      | _ =>
          match find_byte (chr ":") line with
          | None => upstream_response_headers rest chunked h
          | Some separator =>
              let name := lowercase (trim (take separator line)) in
              let value := trim (drop (S separator) line) in
              if bool_decide (name = str "transfer-encoding") && bool_decide (lowercase value = str "chunked")
              then upstream_response_headers rest true h
              else if bool_decide (name = str "content-length") || is_hop_by_hop_header name
              then upstream_response_headers rest chunked h
              else upstream_response_headers rest chunked (<[name := value]> h)
          end
      end
  end.

Definition status_line_invalid : string := "upstream response status line is invalid".

Definition parse_reverse_proxy_upstream_response (raw_response : bytes) : outcome Response :=
  match find CRLF2 raw_response with
  | None => Raise "upstream response missing headers"
  | Some header_end =>
      match getline LF (take header_end raw_response) with
      | None => Raise "upstream response missing status line"
      | Some (status_line, headers_input) =>
          match stream_word (strip_cr status_line) with
          | None => Raise status_line_invalid
          | Some (version, status) =>
              match stream_int status with
              | None => Raise status_line_invalid
              | Some (status_code, status) =>
                  throw_if (negb (starts_with version (str "HTTP/"))) status_line_invalid;;
                  let reason := trim status in
                  let reason := if bool_decide (reason = []) then reason_phrase status_code else reason in
                  let '(chunked, h) := upstream_response_headers (getlines LF headers_input) false ∅ in
                  let raw_body := drop (header_end + 4) raw_response in
                  if chunked : bool then
                    decoded ← upstream_decode_chunked_body raw_body;
                    match decoded with
                    | None => Raise "upstream chunked body is invalid"
                    | Some b => Ret (mk_response status_code reason h b)
                    end
                  else Ret (mk_response status_code reason h raw_body)
              end
          end
      end
  end.

(** ** Balancing *)

Record CircuitBreakerEntry : Type := mk_entry { failure_count : Z; opened_until : Z }.

(** The globals of the file.  [steady_clock] times are in nanoseconds. *)
Record ProxyState : Type := mk_proxy_state {
  next_proxy_upstream : Z;
  circuit_breakers : gmap bytes CircuitBreakerEntry;
}.

Definition max_proxy_attempts : Z := 16.

Definition bounded_proxy_attempts (upstreams : list ReverseProxyTarget) (retry_count : Z) : Z :=
  let requested_attempts :=
    Z.min (if retry_count =? size_max then retry_count else retry_count + 1) max_proxy_attempts in
  if size upstreams =? 1 then requested_attempts else Z.min (size upstreams) requested_attempts.

(** FNV-1a, 64 bits. *)
Definition fnv_step (hash : Z) (ch : byte) : Z := u64 (Z.lxor hash (val ch) * 1099511628211).

Definition stable_hash_start (r : Request) (upstream_count : Z) : Z :=
  let key := default [] (header r (str "host")) ++ [LF] ++ target r in
  fold_left fnv_step key 1469598103934665603 mod upstream_count.

Definition ordered_reverse_proxy_upstreams (r : Request) (upstreams : list ReverseProxyTarget)
    (settings : ReverseProxySettings) (st : ProxyState) : list ReverseProxyTarget * ProxyState :=
  match upstreams with
  | [] => ([], st)
  | front :: _ =>
      let n := size upstreams in
      let '(start, st) :=
        match load_balancing_policy settings with
        | round_robin =>
            (next_proxy_upstream st mod n,
             mk_proxy_state (u64 (next_proxy_upstream st + 1)) (circuit_breakers st))
        | stable_hash => (stable_hash_start r n, st)
        | failover => (0, st)
        end in
      let attempts := bounded_proxy_attempts upstreams (retry_count settings) in
      if n =? 1 then (replicate (Z.to_nat attempts) front, st)
      else ((fun attempt => nth (Z.to_nat ((start + Z.of_nat attempt) mod n)) upstreams front)
              <$> seq 0 (Z.to_nat attempts), st)
  end.

(** ** Circuit breakers *)

Definition upstream_circuit_key (upstream : ReverseProxyTarget) : bytes :=
  scheme upstream ++ str "://" ++ authority upstream ++ base_path upstream.

Definition nanoseconds (seconds : Z) : Z := seconds * 10 ^ 9.

Definition reverse_proxy_upstream_available (upstream : ReverseProxyTarget)
    (settings : ReverseProxySettings) (now : Z) (breakers : gmap bytes CircuitBreakerEntry)
    : bool * gmap bytes CircuitBreakerEntry :=
  if negb (circuit_breaker_enabled settings) then (true, breakers)
  else
    match breakers !! upstream_circuit_key upstream with
    | None => (true, breakers)
    | Some found =>
        if opened_until found =? 0 then (true, breakers)
        else if now <? opened_until found then (false, breakers)
        else (true, delete (upstream_circuit_key upstream) breakers)
    end.

Definition record_reverse_proxy_upstream_success (upstream : ReverseProxyTarget)
    (settings : ReverseProxySettings) (breakers : gmap bytes CircuitBreakerEntry)
    : gmap bytes CircuitBreakerEntry :=
  if negb (circuit_breaker_enabled settings) then breakers
  else delete (upstream_circuit_key upstream) breakers.

Definition record_reverse_proxy_upstream_failure (upstream : ReverseProxyTarget)
    (settings : ReverseProxySettings) (now : Z) (breakers : gmap bytes CircuitBreakerEntry)
    : gmap bytes CircuitBreakerEntry :=
  if negb (circuit_breaker_enabled settings) then breakers
  else
    let threshold := Z.max (circuit_breaker_failure_threshold settings) 1 in
    let entry := default (mk_entry 0 0) (breakers !! upstream_circuit_key upstream) in
    let failures := u64 (failure_count entry + 1) in
    let entry :=
      if threshold <=? failures
      then mk_entry failures (now + nanoseconds (circuit_breaker_cooldown_seconds settings))
      else mk_entry failures (opened_until entry) in
    <[upstream_circuit_key upstream := entry]> breakers.

(** ** The proxy loop *)

(** The environment of one turn: the clock when the circuit is checked and
    when a failure is recorded, and the exchange with the upstream
    (connecting, writing the request, reading until close). *)
Record Attempt : Type := mk_attempt {
  checked_at : Z;
  failed_at : Z;
  exchange : bytes -> outcome bytes;
}.

Section proxy.
Context `{MapOrder bytes} (files : bytes -> option bytes).

(** The body of the [try] block. *)
Definition try_upstream (r : Request) (upstream : ReverseProxyTarget) (env : Attempt) : outcome Response :=
  upstream_request ← build_reverse_proxy_upstream_request files r upstream;
  raw_response ← exchange env upstream_request;
  parse_reverse_proxy_upstream_response raw_response.

Fixpoint proxy_loop (r : Request) (settings : ReverseProxySettings) (ups : list ReverseProxyTarget)
    (env : nat -> Attempt) (turn : nat) (breakers : gmap bytes CircuitBreakerEntry)
    (skipped_open_circuit attempted_upstream : bool)
    : outcome (Response * gmap bytes CircuitBreakerEntry) :=
  match ups with
  | [] =>
      if negb attempted_upstream && skipped_open_circuit then
        let response := text_response 503 (line_body "Service Unavailable") text_plain in
        Ret (build_header (str "retry-after")
               (to_string (circuit_breaker_cooldown_seconds settings)) response, breakers)
      else Ret (text_response 502 (line_body "Bad Gateway") text_plain, breakers)
  | upstream :: rest =>
      let '(available, breakers) :=
        reverse_proxy_upstream_available upstream settings (checked_at (env turn)) breakers in
      if negb available then proxy_loop r settings rest env (S turn) breakers true attempted_upstream
      else
        match try_upstream r upstream (env turn) with
        | Ret response =>
            Ret (response, record_reverse_proxy_upstream_success upstream settings breakers)
        | Raise _ =>
            proxy_loop r settings rest env (S turn)
              (record_reverse_proxy_upstream_failure upstream settings (failed_at (env turn)) breakers)
              skipped_open_circuit true
        | Timeout => Timeout
        end
  end.

Definition reverse_proxy_response (r : Request) (upstreams : list ReverseProxyTarget)
    (settings : ReverseProxySettings) (env : nat -> Attempt) (st : ProxyState)
    : outcome (Response * ProxyState) :=
  let '(ordered, st) := ordered_reverse_proxy_upstreams r upstreams settings st in
  '(response, breakers) ← proxy_loop r settings ordered env 0 (circuit_breakers st) false false;
  Ret (response, mk_proxy_state (next_proxy_upstream st) breakers).
End proxy.

(** ** The handlers of a virtual host *)

Definition script_response (rule : VirtualHostRule) : Response :=
  build_header (str "x-rimau-runtime-status") (str "planned")
    (json_response 501
       (str "{" ++ quoted_field "runtime" (script_runtime rule) ++ str ","
        ++ quoted_field "script_root" (script_root rule) ++ str ","
        ++ plain_field "implemented" (str "false") ++ str ","
        ++ quoted_field "message" (str "Bundled server-side runtime execution is not implemented yet")
        ++ str "}" ++ [LF])).

(** The class of the handler that is created, with its data. *)
Inductive VirtualHostHandler : Type :=
| static_handler (document_root : bytes)
| proxy_handler (upstreams : list ReverseProxyTarget)
| script_handler (rule : VirtualHostRule).

Definition create_handler (default_document_root : bytes) (rules : list VirtualHostRule) (r : Request)
    : VirtualHostHandler :=
  match select_virtual_host_rule r rules with
  | None => static_handler default_document_root
  | Some rule =>
      match action rule with
      | VirtualHost.static_files => static_handler (VirtualHost.document_root rule)
      | VirtualHost.reverse_proxy => proxy_handler (upstreams rule)
      | VirtualHost.server_side_script => script_handler rule
      end
  end.

Section handlers.
Context `{MapOrder bytes, MapOrder (list bytes)} {S : Type} `{ResponseSink S}.
Context (files : bytes -> option bytes) (fs : FileSystem) (http_date : Z -> bytes)
  (gzip_compress : bytes -> bytes).

Definition reverse_proxy_on_request (upstreams : list ReverseProxyTarget) (settings : ReverseProxySettings)
    (env : nat -> Attempt) (r : Request) (downstream : S) (st : ProxyState) : outcome (S * ProxyState) :=
  '(response, st) ← reverse_proxy_response files r upstreams settings env st;
  Ret (send downstream response (if bool_decide (method r = str "HEAD") then headers_only else include), st).

Definition virtual_host_on_request (handler : VirtualHostHandler) (settings : ReverseProxySettings)
    (options : StaticFileOptions) (env : nat -> Attempt) (r : Request) (downstream : S) (st : ProxyState)
    : outcome (S * ProxyState) :=
  match handler with
  | static_handler root =>
      Ret ((static_on_request files fs http_date gzip_compress (path_of root) options r downstream).1, st)
  | proxy_handler upstreams => reverse_proxy_on_request upstreams settings env r downstream st
  | script_handler rule => Ret (send downstream (script_response rule) include, st)
  end.
End handlers.

(** ** The upstream request is the client's request *)

Section upstream_request.
Context `{MapOrder bytes}.

(** The header lines that are printed. *)
Definition upstream_headers (r : Request) (upstream : ReverseProxyTarget) (text : bytes)
    : list (bytes * bytes) :=
  [(str "host", authority upstream); (str "connection", str "close")]
  ++ match header r (str "host") with Some h => [(str "x-forwarded-host", h)] | None => [] end
  ++ filter (fun nv => forwarded_header nv.1 = true) (order (Request.headers r))
  ++ [(str "content-length", to_string (size text))].

Lemma upstream_header_lines_print r :
  map_Forall stored_header (Request.headers r) ->
  upstream_header_lines r
  = filter (fun nv => forwarded_header nv.1 = true) (order (Request.headers r)) ≫= print_header.
Proof using.
  intros St. unfold upstream_header_lines.
  assert (L : forall n v, (n, v) ∈ order (Request.headers r) -> lowercase n = n).
  { intros n v I%order_lookup. by destruct (St n v I). }
  induction (order (Request.headers r)) as [|[n v] l IH]; [done|].
  rewrite (filter_cons _ (n, v)). cbn [mbind list_bind]. rewrite IH by (intros ? ? I; eapply L; by right).
  rewrite (L n v) by left. destruct (forwarded_header n) eqn:F.
  - rewrite decide_True by done. cbn [mbind list_bind]. unfold print_header. cbn [fst snd]. by rewrite <- !app_assoc.
  - rewrite decide_False by (cbn; congruence). done.
Qed.

Lemma fold_set_header_notin l h n :
  (forall k w, (k, w) ∈ l -> lowercase k <> n) -> fold_left set_header l h !! n = h !! n.
Proof using.
  revert h; induction l as [|[k w] l IH]; intros h L; [done|]. cbn [fold_left].
  rewrite IH by (intros; eapply L; by right). unfold set_header. cbn [fst snd].
  apply lookup_insert_ne. eapply L. left.
Qed.

Lemma fold_set_header_in l h n v :
  NoDup l.*1 -> (forall k w, (k, w) ∈ l -> lowercase k = k) -> (n, v) ∈ l ->
  fold_left set_header l h !! n = Some v.
Proof using.
  revert h; induction l as [|[k w] l IH]; intros h N L I; [by apply elem_of_nil in I|].
  cbn [fmap list_fmap fst] in N. apply NoDup_cons in N as [N1 N2]. cbn [fold_left].
  apply elem_of_cons in I as [[= -> ->]|I]; [|apply IH; [done|intros; eapply L; by right|done]].
  rewrite fold_set_header_notin.
  - unfold set_header. cbn [fst snd]. rewrite (L k w) by left. apply lookup_insert_eq.
  - intros k' w' I. rewrite (L k' w') by by right. intros ->. apply N1.
    apply list_elem_of_fmap. by exists (k, w').
Qed.

Lemma upstream_headers_lookup r upstream text n :
  map_Forall stored_header (Request.headers r) ->
  fold_left set_header (upstream_headers r upstream text) ∅ !! n
  = if decide (n = str "host") then Some (authority upstream)
    else if decide (n = str "connection") then Some (str "close")
    else if decide (n = str "content-length") then Some (to_string (size text))
    else if is_hop_by_hop_header n then None
    else match Request.headers r !! n with
         | Some v => Some v
         | None => if decide (n = str "x-forwarded-host") then header r (str "host") else None
         end.
Proof using.
  intros St. unfold upstream_headers. rewrite !fold_left_app.
  set (base := fold_left set_header [_; _] ∅). set (xfh := fold_left set_header _ base).
  set (l := filter _ _).
  assert (Hl : forall k v, (k, v) ∈ l <-> forwarded_header k = true /\ Request.headers r !! k = Some v).
  { intros k v. unfold l. by rewrite list_elem_of_filter, order_lookup. }
  assert (Low : forall k v, (k, v) ∈ l -> lowercase k = k).
  { intros k v [_ I]%Hl. by destruct (St k v I). }
  assert (Nd : NoDup l.*1).
  { unfold l. apply (sublist_NoDup _ (order (Request.headers r)).*1); [apply order_NoDup|apply fmap_sublist, sublist_filter]. }
  assert (B : base !! n = if decide (n = str "host") then Some (authority upstream)
                          else if decide (n = str "connection") then Some (str "close") else None).
  { unfold base. cbn [fold_left]. unfold set_header. cbn [fst snd].
    change (lowercase (str "host")) with (str "host"). change (lowercase (str "connection")) with (str "connection").
    repeat case_decide; subst; by simplify_map_eq. }
  assert (X : xfh !! n = if decide (n = str "x-forwarded-host" /\ is_Some (header r (str "host")))
                         then header r (str "host") else base !! n).
  { unfold xfh. destruct (header r (str "host")) as [h|]; cbn [fold_left].
    - unfold set_header. cbn [fst snd]. change (lowercase (str "x-forwarded-host")) with (str "x-forwarded-host").
      clear B. destruct (decide (n = str "x-forwarded-host" /\ _)) as [[-> _]|D]; [apply lookup_insert_eq|].
      apply lookup_insert_ne. intros E. destruct D. by split; [symmetry|].
    - rewrite decide_False; [done|]. by intros [_ []]. }
  cbn [fold_left]. unfold set_header at 1. cbn [fst snd].
  change (lowercase (str "content-length")) with (str "content-length").
  destruct (decide (n = str "content-length")) as [-> |Nc]; [by rewrite lookup_insert_eq|].
  rewrite lookup_insert_ne by done.
  destruct (forwarded_header n) eqn:F.
  - unfold forwarded_header in F. apply negb_true_iff, orb_false_iff in F as [F F3].
    apply orb_false_iff in F as [F1%bool_decide_eq_false F2%bool_decide_eq_false].
    rewrite F3, (decide_False (P := n = str "host")) by done.
    rewrite (decide_False (P := n = str "connection")) by (intros ->; by vm_compute in F3).
    destruct (Request.headers r !! n) as [v|] eqn:E.
    + apply fold_set_header_in; [done|done|]. apply Hl. split; [|done].
      unfold forwarded_header. rewrite F3, !bool_decide_false by done. done.
    + rewrite fold_set_header_notin.
      * rewrite X, B. rewrite (decide_False (P := n = str "host")) by done.
        rewrite (decide_False (P := n = str "connection")) by (intros ->; by vm_compute in F3).
        destruct (decide (n = str "x-forwarded-host")) as [Ex|Ex].
        -- destruct (header r (str "host")); [rewrite decide_True by (split; [done|eauto])|
             rewrite decide_False by (intros [_ []]; done)]; done.
        -- by rewrite decide_False by tauto.
      * intros k w I Ek. rewrite (Low k w I) in Ek. subst. apply Hl in I as [_ I]. congruence.
  - rewrite fold_set_header_notin.
    2: { intros k w I Ek. rewrite (Low k w I) in Ek. subst. apply Hl in I as [I _]. congruence. }
    rewrite X, decide_False by (intros [-> _]; by vm_compute in F). rewrite B.
    destruct (decide (n = str "host")); [done|]. destruct (decide (n = str "connection")); [done|].
    unfold forwarded_header in F. apply negb_false_iff in F. rewrite !bool_decide_false in F by done.
    cbn [orb] in F. by rewrite F.
Qed.

Context (files : bytes -> option bytes).

Lemma build_upstream_request_print r upstream text :
  map_Forall stored_header (Request.headers r) -> body_text files r 0 = Ret text ->
  build_reverse_proxy_upstream_request files r upstream
  = Ret (print_request (method r) (reverse_proxy_target_path upstream (target r)) (str "HTTP/1.1")
           (upstream_headers r upstream text) text).
Proof using.
  intros St B. unfold build_reverse_proxy_upstream_request. rewrite B. cbn [mbind outcome_bind].
  change (mret ?x) with (Ret x). f_equal. rewrite upstream_header_lines_print by done.
  unfold print_request, upstream_headers. rewrite !bind_app. cbn [mbind list_bind].
  assert (L : forall n v, print_header (n, v) = n ++ str ": " ++ v ++ CRLF) by done.
  replace (str "host: ") with (str "host" ++ str ": ") by done.
  replace (str "connection: close") with (str "connection" ++ str ": " ++ str "close") by done.
  replace (str "content-length: ") with (str "content-length" ++ str ": ") by done.
  replace (str " HTTP/1.1") with ([SP] ++ str "HTTP/1.1") by done.
  replace (str "x-forwarded-host: ") with (str "x-forwarded-host" ++ str ": ") by done.
  change (str " ") with [SP].
  destruct (header r (str "host")); cbn [mbind list_bind]; rewrite !L, ?app_nil_r, <- !app_assoc; done.
Qed.


Lemma target_path_word upstream t :
  no_space (base_path upstream) -> wf_word t -> wf_word (reverse_proxy_target_path upstream t).
Proof using.
  intros Hb [Nt Ht]. unfold reverse_proxy_target_path. destruct (_ || _) eqn:B; [by rewrite bool_decide_false|].
  apply orb_false_iff in B as [B1%bool_decide_eq_false _].
  set (stripped := reverse _). set (base := if bool_decide (stripped = []) then _ else _).
  assert (W : wf_word base).
  { unfold base. case_bool_decide as E.
    - destruct (base_path upstream) as [|c b]; [done|]. split; [done|]. cbn [take].
      apply Forall_cons_1 in Hb as [? _]. by repeat constructor.
    - split; [done|]. unfold stripped, no_space.
      destruct (drop_while_suffix (fun c => bool_decide (c = chr "/")) (reverse (base_path upstream))) as (a & E2 & _).
      apply Forall_reverse. unfold no_space in Hb. apply Forall_reverse in Hb. rewrite E2 in Hb.
      by apply Forall_app in Hb as [_ ?]. }
  destruct W as [N1 N2]. destruct t as [|c t]; [done|].
  destruct (decide (c = chr "/")); (split; [by destruct base|]);
    repeat (apply Forall_app; split); (done || by repeat constructor).
Qed.

(** C23. The request an upstream receives is the client's request and nothing
    else: for a parsed target and a well-formed request, an HTTP parser reads
    the bytes sent upstream as the client's method, the target below the
    configured base path, and exactly the client's body under a
    Content-Length that is its size - no header, target or body can introduce
    another request line or header. Host, Connection and Content-Length are
    the proxy's; hop-by-hop headers are dropped; every other header is passed
    on unchanged - which includes an X-Forwarded-Host of the client's, in
    preference to the real one. *)
Theorem proxy_request_faithful (r : Request) (upstream : ReverseProxyTarget) (content : bytes) :
  wf_word (method r) -> wf_word (target r) -> map_Forall stored_header (Request.headers r) ->
  stored_body files r content ->
  wf_target upstream -> trimmed (authority upstream) -> no_space (base_path upstream) ->
  exists raw r', build_reverse_proxy_upstream_request files r upstream = Ret raw /\
    parse_request raw = Parsed r' /\
    method r' = method r /\ target r' = reverse_proxy_target_path upstream (target r) /\
    version r' = str "HTTP/1.1" /\ Request.body r' = content /\
    forall n, Request.headers r' !! n
      = if decide (n = str "host") then Some (authority upstream)
        else if decide (n = str "connection") then Some (str "close")
        else if decide (n = str "content-length") then Some (to_string (size content))
        else if is_hop_by_hop_header n then None
        else match Request.headers r !! n with
             | Some v => Some v
             | None => if decide (n = str "x-forwarded-host") then header r (str "host") else None
             end.
Proof using.
  intros Wm Wt St Sb Wu Ta Nb.
  assert (Bt : body_text files r 0 = Ret content).
  { unfold body_text, bytes_to_read. rewrite (stored_body_size files _ _ Sb). cbn [Z.eqb].
    rewrite Nat2Z.id. rewrite <- (take_0 content). rewrite (body_text_loop_spec content); [|by apply open_reading|lia|lia].
    by rewrite take_ge. }
  eexists. eexists. split; [by apply build_upstream_request_print|].
  assert (Wh : Forall wf_header (upstream_headers r upstream content)).
  { unfold upstream_headers. repeat (apply Forall_app; split).
    - constructor; [|constructor; [|constructor]].
      + split; cbn [fst snd]; [split; [done|trimmed_literal]|split; by_decide|split; [done|]].
        destruct Wu as [_ _ _ [C _] _ _]. intros I. unfold print_target in C.
        rewrite !contains_control_app in C. apply orb_false_iff in C as [_ C].
        apply orb_false_iff in C as [_ C]. apply orb_false_iff in C as [C _].
        enough (contains_control_character (authority upstream) = true) by congruence.
        apply existsb_exists. exists LF. split; [by apply list_elem_of_In|done].
      + split; cbn [fst snd]; [split; [done|trimmed_literal]|split; by_decide|split; [trimmed_literal|by_decide]].
    - destruct (header r (str "host")) as [h|] eqn:Eh; [|constructor]. constructor; [|constructor].
      destruct (St _ _ Eh) as [_ _ _ _ V1 V2].
      split; cbn [fst snd]; [split; [done|trimmed_literal]|split; by_decide|split; done].
    - apply Forall_forall. intros [n v] [_ I%order_lookup]%list_elem_of_filter.
      destruct (St n v I) as [K1 K2 K3 [K4 K5] V1 V2]. split; done.
    - constructor; [|constructor]. pose proof (to_string_alnum (size content) ltac:(lia)) as A.
      split; cbn [fst snd]; [split; [done|trimmed_literal]|split; by_decide|split; [by apply all_alnum_trimmed|]].
      intros I. rewrite Forall_forall in A. by apply A in I. }
  split; [apply parse_printed; [done|by apply target_path_word|done|done]|].
  set (r' := mk_request _ _ _ _ _ _ _ _ _ _).
  destruct (parse_target_fields r') as (-> & -> & -> & -> & -> & _).
  cbn [method target version Request.headers Request.body r'].
  split_and!; try done. intros n. by apply upstream_headers_lookup.
Qed.
End upstream_request.

Definition example_upstream : ReverseProxyTarget :=
  mk_proxy_target (str "http") (str "10.0.0.1") 8080 (str "/app/") (str "10.0.0.1:8080").

Lemma proxy_request_faithful_witness :
  let r := mk_request (str "POST") (str "/x?y") (str "/x") (str "y") (str "HTTP/1.1")
    {[str "host" := str "example.org"; str "te" := str "trailers"]} ∅ (str "hello") 5 None in
  exists raw r', build_reverse_proxy_upstream_request (fun _ => None) r example_upstream = Ret raw /\
    parse_request raw = Parsed r' /\ target r' = str "/app/x?y" /\ Request.body r' = str "hello".
Proof.
  set (r := mk_request _ _ _ _ _ _ _ _ _ _).
  destruct (proxy_request_faithful (fun _ => None) r example_upstream (str "hello"))
    as (raw & r' & B & P & _ & T & _ & Bd & _).
  - split; [discriminate|by repeat constructor].
  - split; [discriminate|by repeat constructor].
  - apply map_Forall_insert_2; [|apply map_Forall_singleton].
    + split; [discriminate|reflexivity|trimmed_literal|split; by_decide|trimmed_literal|by_decide].
    + split; [discriminate|reflexivity|trimmed_literal|split; by_decide|trimmed_literal|by_decide].
  - split; [reflexivity|by right].
  - split; [by left|split_and!; [discriminate|by_decide|by_decide]|reflexivity|
      split; [reflexivity|trimmed_literal]|reflexivity|split; [discriminate|cbn; lia]].
  - trimmed_literal.
  - by repeat constructor.
  - exists raw, r'. split_and!; [exact B|exact P|rewrite T; reflexivity|exact Bd].
Defined.

(** ** The upstream response is relayed *)

(** The proxy's chunked decoder accepts what the server's decoder accepts. *)
Lemma trailer_loop_body fuel e c b r n :
  trailer_loop fuel e c b = Ret (mk_chunked chunk_complete r n) -> r = b.
Proof.
  revert c; induction fuel as [|fuel IH]; intros c; cbn [trailer_loop]; [done|].
  destruct (find_crlf e c) as [t|]; [|done]. destruct (t =? c); [by intros [= <- _]|apply IH].
Qed.

Lemma upstream_chunk_loop_agrees fuel e c b r n :
  chunk_loop fuel e c b = Ret (mk_chunked chunk_complete r n) ->
  upstream_chunk_loop fuel e c b = Ret (Some r).
Proof.
  revert c b; induction fuel as [|fuel IH]; intros c b; cbn [chunk_loop upstream_chunk_loop]; [done|].
  destruct (find_crlf e c) as [l|]; [|done].
  destruct (substr_checked e c (l - c)) as [line| |]; [|done|done]. cbn [mbind outcome_bind].
  destruct (chunk_size_of line) as [k|]; [|done].
  destruct (k =? 0); [by intros ->%trailer_loop_body|]. destruct (_ <? _); [done|].
  destruct (substr_checked e _ k) as [chunk| |]; [|done|done]. cbn [mbind outcome_bind].
  destruct (substr_checked e _ 2) as [ending| |]; [|done|done]. cbn [mbind outcome_bind].
  destruct (negb _); [done|]. apply IH.
Qed.

Lemma upstream_decode_encoded chunks rest :
  size (encode_chunked_body chunks ++ rest) < 2 ^ 63 ->
  upstream_decode_chunked_body (encode_chunked_body chunks ++ rest) = Ret (Some (concat chunks)).
Proof. intros Hs. apply decode_encode_chunked_body in Hs. by eapply upstream_chunk_loop_agrees. Qed.

(** Reading the status line. *)
Lemma until_space_app w c s : no_space w -> isspace c = true -> until_space (w ++ c :: s) = (w, c :: s).
Proof.
  intros W C. induction W as [|x w Hx W IH]; cbn; [by rewrite C|]. by rewrite Hx, IH.
Qed.

Lemma leading_digits_numeral acc k w s n :
  numeral dec_digit 10 acc w = Some n -> (forall c, head s = Some c -> dec_digit c = None) ->
  leading_digits acc k (w ++ s) = (n, (k + length w)%nat).
Proof.
  revert acc k; induction w as [|c w IH]; intros acc k Hn Hs; cbn in Hn |- *.
  - injection Hn as <-. destruct s as [|c s]; cbn; [by rewrite Nat.add_0_r|].
    rewrite (Hs c) by done. by rewrite Nat.add_0_r.
  - destruct (dec_digit c) as [d|]; [|done]. cbn in Hn. rewrite (IH _ (S k)) by done. f_equal. lia.
Qed.

Lemma stream_int_print n s :
  0 <= n < 2 ^ 31 -> (forall c, head s = Some c -> dec_digit c = None) ->
  stream_int (SP :: to_string n ++ s) = Some (n, s).
Proof.
  intros Hn Hs. unfold stream_int, leading_number.
  assert (A : Forall (fun c => isalnum c = true) (to_string n)) by (apply to_string_alnum; lia).
  assert (Nn : numeral dec_digit 10 0 (to_string n) = Some n).
  { unfold to_string. destruct (Z.ltb_spec n 0); [lia|].
    apply numeral_print_base; [lia|apply dec_digit_print|lia]. }
  destruct (to_string n) as [|c w] eqn:E; [by apply to_string_nonempty in E|].
  apply Forall_cons_1 in A as [Ac _]. change (drop_while isspace (SP :: (c :: w) ++ s))
    with (drop_while isspace ((c :: w) ++ s)).
  rewrite drop_while_id by (intros x [= <-]; by apply alnum_not_space).
  cbn [app]. rewrite !decide_False by (intros ->; by vm_compute in Ac).
  change (c :: w ++ s) with ((c :: w) ++ s). rewrite (leading_digits_numeral 0 0 (c :: w) s n) by done.
  cbn [mbind option_bind]. replace (0 + length (c :: w) =? 0)%nat with false by done. cbn [mbind option_bind].
  replace (n <? - 2 ^ 31) with false by lia. replace (2 ^ 31 - 1 <? n) with false by lia. cbn [orb].
  do 2 f_equal. replace (length (SP :: (c :: w) ++ s) - length ((c :: w) ++ s) + (0 + length (c :: w)))%nat
    with (S (length (c :: w))) by (cbn [length]; lia).
  cbn [drop]. apply drop_app_length.
Qed.

(** Reading the header lines. *)
Lemma header_line_parts nv :
  wf_header nv ->
  find_byte (chr ":") (nv.1 ++ str ": " ++ nv.2) = Some (length nv.1) /\
  lowercase (trim (take (length nv.1) (nv.1 ++ str ": " ++ nv.2))) = lowercase nv.1 /\
  trim (drop (S (length nv.1)) (nv.1 ++ str ": " ++ nv.2)) = nv.2.
Proof.
  destruct nv as [n v]. intros [[N1 N2] [N3 N4] [V1 V2]]. cbn [fst snd] in *.
  change (str ": ") with [chr ":"; SP]. cbn [app]. split_and!.
  - by apply find_byte_app.
  - by rewrite take_app_length, trimmed_trim.
  - rewrite drop_app_cons. rewrite <- (app_nil_r v) at 1. change (SP :: v ++ []) with ([SP] ++ v ++ []).
    apply trim_spaces; [by repeat constructor|constructor|done].
Qed.

(** What one header line of the response does. *)
Definition is_chunked_header (nv : bytes * bytes) : bool :=
  bool_decide (lowercase nv.1 = str "transfer-encoding") && bool_decide (lowercase nv.2 = str "chunked").

Definition relay_header (acc : bool * Headers) (nv : bytes * bytes) : bool * Headers :=
  if is_chunked_header nv then (true, acc.2)
  else if bool_decide (lowercase nv.1 = str "content-length") || is_hop_by_hop_header (lowercase nv.1)
  then acc
  else (acc.1, set_header acc.2 nv).

Lemma upstream_response_headers_line nv l rest acc :
  wf_header nv -> strip_cr l = nv.1 ++ str ": " ++ nv.2 ->
  upstream_response_headers (l :: rest) acc.1 acc.2
  = upstream_response_headers rest (relay_header acc nv).1 (relay_header acc nv).2.
Proof.
  intros W E. cbn [upstream_response_headers]. rewrite E. destruct (header_line_parts nv W) as (P1 & P2 & P3).
  destruct (nv.1 ++ str ": " ++ nv.2) as [|c t] eqn:D; [by destruct W as [[? _] _ _]; destruct (nv.1)|].
  rewrite P1, P2, P3. unfold relay_header, is_chunked_header. destruct (_ && _); [done|].
  by destruct (_ || _).
Qed.

Lemma upstream_response_headers_lines lines hs acc :
  Forall wf_header hs -> strip_cr <$> lines = (fun nv => nv.1 ++ str ": " ++ nv.2) <$> hs ->
  upstream_response_headers lines acc.1 acc.2 = fold_left relay_header hs acc.
Proof.
  intros W. revert acc lines; induction W as [|nv hs W _ IH]; intros acc lines E.
  - apply fmap_nil_inv in E as ->. by destruct acc.
  - destruct lines as [|l lines]; [done|]. cbn [fmap list_fmap] in E. injection E as E1 E2.
    rewrite (upstream_response_headers_line nv) by done. cbn [fold_left]. by apply IH.
Qed.

Lemma getlines_unlines ls l :
  Forall (fun x => LF ∉ x) ls -> LF ∉ l -> l <> [] ->
  getlines LF (unlines ls ++ l) = ((fun x => x ++ [CR]) <$> ls) ++ [l].
Proof.
  intros F Hl Nl. unfold getlines. induction F as [|x ls Hx F IH].
  - cbn [fmap list_fmap app]. change (unlines [] ++ l) with l. rewrite getlines_from_last by done. by destruct l.
  - rewrite unlines_cons, <- !app_assoc. replace (x ++ CRLF ++ unlines ls ++ l)
      with ((x ++ [CR]) ++ LF :: unlines ls ++ l) by by rewrite <- app_assoc.
    rewrite getlines_from_app by (rewrite not_elem_of_app; split; [done|by_decide]).
    cbn [app]. by rewrite IH.
Qed.

(** The head of a message: its lines, and what follows. *)
Lemma message_head first ls b :
  Forall (fun l => CR ∉ l /\ LF ∉ l /\ l <> []) (first :: ls) ->
  exists i line rest, let raw := unlines (first :: ls) ++ CRLF ++ b in
    find CRLF2 raw = Some i /\ getline LF (take i raw) = Some (line, rest) /\
    strip_cr line = first /\ strip_cr <$> getlines LF rest = ls /\ drop (i + 4) raw = b.
Proof.
  intros F. destruct (exists_last (l := first :: ls) ltac:(done)) as (init & l & E). rewrite E in F |- *.
  exists (length (unlines init ++ l)).
  assert (R : unlines (init ++ [l]) ++ CRLF ++ b = unlines init ++ l ++ CRLF2 ++ b).
  { rewrite unlines_app, unlines_cons, <- !app_assoc. done. }
  pose proof F as F'. apply Forall_app in F as [F (H1 & H2 & H3)%Forall_singleton].
  assert (G : getlines LF (take (length (unlines init ++ l)) (unlines init ++ l ++ CRLF2 ++ b))
              = ((fun x => x ++ [CR]) <$> init) ++ [l]).
  { rewrite app_assoc, take_app_length. apply getlines_unlines; [|done|done].
    eapply Forall_impl; [exact F|]. by intros x (? & ? & ?). }
  assert (S : fmap (M:=list) strip_cr (fmap (M:=list) (fun x => x ++ [CR]) init ++ [l]) = first :: ls).
  { rewrite fmap_app, <- list_fmap_compose, E. f_equal.
    - transitivity (fmap (M:=list) (@Datatypes.id bytes) init); [|apply list_fmap_id].
      apply list_fmap_ext. intros ? x _. apply strip_cr_app.
    - cbn [fmap list_fmap]. f_equal. apply strip_cr_id. intros L. apply last_Some in L as [y ->]. set_solver. }
  rewrite getlines_getline in G. cbn zeta. rewrite R.
  destruct (getline LF _) as [[line rest]|] eqn:GL; [|by destruct init].
  exists line, rest. rewrite <- G in S. cbn [fmap list_fmap] in S. injection S as S1 S2.
  split_and!; try done.
  - apply find_CRLF2_unlines. eapply Forall_impl; [exact F'|]. intros x (? & ? & ?). done.
  - rewrite app_assoc. replace (length (unlines init ++ l) + 4)%nat with (length (unlines init ++ l) + length CRLF2)%nat by done.
    rewrite <- drop_drop, drop_app_length. apply drop_app_length.
Qed.

(** What the bytes after the header block stand for. *)
Definition body_stands_for (hs : list (bytes * bytes)) (b content : bytes) : Prop :=
  if existsb is_chunked_header hs then
    exists chunks rest, b = encode_chunked_body chunks ++ rest /\ content = concat chunks /\ size b < 2 ^ 63
  else content = b.

Definition print_response (code : Z) (reason : bytes) (hs : list (bytes * bytes)) (b : bytes) : bytes :=
  str "HTTP/1.1 " ++ to_string code ++ str " " ++ reason ++ CRLF ++ (hs ≫= print_header) ++ CRLF ++ b.

Lemma relay_headers_fold hs acc :
  (fold_left relay_header hs acc).1 = acc.1 || existsb is_chunked_header hs /\
  forall n, (fold_left relay_header hs acc).2 !! n
    = if bool_decide (n = str "content-length") || is_hop_by_hop_header n then acc.2 !! n
      else fold_left set_header hs acc.2 !! n.
Proof.
  revert acc; induction hs as [|nv hs IH]; intros acc; cbn [fold_left existsb].
  - rewrite orb_false_r. split; [done|]. intros n. by destruct (_ || _).
  - destruct (IH (relay_header acc nv)) as [IH1 IH2]. rewrite IH1. clear IH1 IH. unfold relay_header in *.
    assert (Same : forall n (h1 h2 : Headers), h1 !! n = h2 !! n ->
                     fold_left set_header hs h1 !! n = fold_left set_header hs h2 !! n).
    { clear. intros n. induction hs as [|nv hs IH]; intros h1 h2 E; [done|]. cbn [fold_left]. apply IH.
      unfold set_header. destruct (decide (lowercase nv.1 = n)) as [-> |]; [by rewrite !lookup_insert_eq|].
      by rewrite !lookup_insert_ne. }
    destruct (is_chunked_header nv) eqn:C; cbn [fst snd] in *.
    + rewrite orb_true_r. split; [done|]. intros n. rewrite IH2. destruct (_ || _) eqn:Hn; [done|].
      apply Same. unfold set_header. symmetry. apply lookup_insert_ne. intros <-.
      apply andb_true_iff in C as [C%bool_decide_eq_true _]. rewrite C in Hn. by vm_compute in Hn.
    + rewrite orb_false_l. destruct (bool_decide (lowercase nv.1 = _) || _) eqn:D; cbn [fst snd] in *; (split; [done|]);
        intros n; rewrite IH2; destruct (bool_decide (n = _) || _) eqn:Hn; try done.
      * apply Same. unfold set_header. symmetry. apply lookup_insert_ne. intros <-. congruence.
      * unfold set_header. apply lookup_insert_ne. intros <-. congruence.
Qed.

Lemma print_headers_lines hs :
  (hs ≫= print_header) = unlines ((fun nv : bytes * bytes => nv.1 ++ str ": " ++ nv.2) <$> hs).
Proof.
  induction hs as [|nv l IH]; [done|]. cbn [fmap list_fmap mbind list_bind]. rewrite unlines_cons, <- IH.
  unfold print_header. by rewrite <- !app_assoc.
Qed.

(** An upstream response is relayed as it was sent: for a printed response
    with a status code, a reason and any list of well-formed headers, the
    parser returns that status and reason, the content its body stands for -
    decoded when the headers say it is chunked, verbatim otherwise - and, of
    the headers, exactly those that are end to end: Content-Length and the
    hop-by-hop headers never reach the client, and every other name has the
    last value the upstream gave it. *)
Theorem upstream_response_faithful (code : Z) (reason_text : bytes) (hs : list (bytes * bytes))
    (b content : bytes) :
  0 <= code < 2 ^ 31 -> reason_text <> [] -> trimmed reason_text -> CR ∉ reason_text -> LF ∉ reason_text ->
  Forall (fun nv => wf_header nv /\ CR ∉ nv.1 /\ CR ∉ nv.2) hs -> body_stands_for hs b content ->
  exists resp, parse_reverse_proxy_upstream_response (print_response code reason_text hs b) = Ret resp /\
    status resp = code /\ reason resp = reason_text /\ Response.body resp = content /\
    forall n, Response.headers resp !! n
      = if bool_decide (n = str "content-length") || is_hop_by_hop_header n then None
        else fold_left set_header hs ∅ !! n.
Proof.
  intros Hc Nr Tr Cr Lr Wh Hb.
  set (sl := str "HTTP/1.1 " ++ to_string code ++ str " " ++ reason_text).
  set (line := fun nv : bytes * bytes => nv.1 ++ str ": " ++ nv.2).
  assert (E : print_response code reason_text hs b = unlines (sl :: (line <$> hs)) ++ CRLF ++ b).
  { unfold print_response, sl. rewrite unlines_cons, <- !app_assoc, print_headers_lines. done. }
  assert (Al : Forall (fun c => isalnum c = true) (to_string code)) by (apply to_string_alnum; lia).
  rewrite Forall_forall in Al.
  destruct (message_head sl (line <$> hs) b) as (i & l & rest & H1 & H2 & H3 & H4 & H5).
  { constructor.
    - unfold sl. split_and!; [| |by vm_compute]; rewrite !not_elem_of_app; split_and!;
        (by_decide || done || (intros I; by apply Al in I)).
    - apply Forall_fmap. eapply Forall_impl; [exact Wh|]. intros nv ([[W1 W2] [W3 W4] [W5 W6]] & C1 & C2).
      unfold line. cbn. rewrite !not_elem_of_app. split_and!; try done; try by_decide. by destruct nv.1. }
  unfold parse_reverse_proxy_upstream_response. rewrite E, H1, H2, H3, H5.
  assert (S : stream_word sl = Some (str "HTTP/1.1", SP :: to_string code ++ str " " ++ reason_text)).
  { unfold stream_word, sl. change (str "HTTP/1.1 " ++ ?x) with (str "HTTP/1.1" ++ SP :: x).
    rewrite drop_while_id by (intros c; vm_compute; by intros [= <-]).
    rewrite until_space_app by (by repeat constructor). done. }
  rewrite S, stream_int_print by (done || (intros c; by intros [= <-])).
  cbn [negb]. change (starts_with (str "HTTP/1.1") (str "HTTP/")) with true. cbn [negb throw_if mbind outcome_bind].
  assert (T : trim (str " " ++ reason_text) = reason_text).
  { rewrite <- (app_nil_r reason_text) at 1. apply trim_spaces; [by repeat constructor|constructor|done]. }
  rewrite T, bool_decide_false by done.
  assert (W : Forall wf_header hs) by (eapply Forall_impl; [exact Wh|]; by intros nv (? & _)).
  pose proof (upstream_response_headers_lines (getlines LF rest) hs (false, ∅) W H4) as U. cbn [fst snd] in U.
  rewrite U. destruct (relay_headers_fold hs (false, ∅)) as [R1 R2]. cbn [fst snd orb] in R1, R2.
  destruct (fold_left relay_header hs (false, ∅)) as [ch h]. cbn [fst snd] in R1, R2. subst ch.
  assert (F : forall n, h !! n = if bool_decide (n = str "content-length") || is_hop_by_hop_header n then None
                                 else fold_left set_header hs ∅ !! n) by (intros n; rewrite R2; by destruct (_ || _)).
  unfold body_stands_for in Hb. destruct (existsb is_chunked_header hs).
  - destruct Hb as (chunks & tl & -> & -> & Hs). rewrite upstream_decode_encoded by done.
    cbn [mbind outcome_bind]. eexists. split_and!; [reflexivity|done..|exact F].
  - subst content. eexists. split_and!; [reflexivity|done..|exact F].
Qed.

Lemma upstream_response_faithful_witness :
  let hs := [(str "Transfer-Encoding", str "chunked"); (str "X-A", str "1"); (str "Connection", str "close")] in
  exists resp, parse_reverse_proxy_upstream_response
      (print_response 200 (str "OK") hs (encode_chunked_body [str "hello "; str "world"] ++ [])) = Ret resp /\
    Response.body resp = str "hello world" /\ Response.headers resp !! str "x-a" = Some (str "1") /\
    Response.headers resp !! str "connection" = None.
Proof.
  cbn zeta.
  destruct (upstream_response_faithful 200 (str "OK")
    [(str "Transfer-Encoding", str "chunked"); (str "X-A", str "1"); (str "Connection", str "close")]
    (encode_chunked_body [str "hello "; str "world"] ++ []) (str "hello world"))
    as (resp & P & _ & _ & B & Hh).
  - lia.
  - discriminate.
  - trimmed_literal.
  - by_decide.
  - by_decide.
  - repeat constructor; cbn; (by_decide || discriminate || (intros c; vm_compute; by intros [= <-])).
  - exists [str "hello "; str "world"], []. split; [reflexivity|]. split; [reflexivity|]. vm_compute. reflexivity.
  - exists resp. split_and!; [exact P|exact B|rewrite Hh; vm_compute; reflexivity|rewrite Hh; reflexivity].
Defined.

(** A response that makes the proxy's decoder loop for ever. *)
Lemma upstream_chunk_turn_loop fuel e c b d c' :
  chunk_turn e c = Some (d, c') ->
  upstream_chunk_loop (S fuel) e c b = upstream_chunk_loop fuel e c' (b ++ d).
Proof.
  unfold chunk_turn. cbn [upstream_chunk_loop].
  destruct (find_crlf e c) as [l|]; [|done]. cbn [mbind option_bind].
  destruct (substr_checked e c (l - c)) as [line| |]; [|done..]. cbn [mbind outcome_bind].
  destruct (chunk_size_of line) as [n|]; [|done]. cbn [mbind option_bind].
  destruct (n =? 0); [done|]. cbn [orb]. destruct (size e <? _); [done|].
  destruct (substr_checked e _ n) as [chunk| |]; [|done..]. cbn [mbind outcome_bind].
  destruct (substr_checked e _ 2) as [ending| |]; [|done..]. cbn [mbind outcome_bind].
  destruct (bool_decide _); [|done]. by intros [= <- <-].
Qed.

Lemma upstream_chunk_diverges fuel : upstream_chunk_loop fuel looping_body 0 [] = Timeout.
Proof.
  destruct fuel as [|fuel]; [done|].
  rewrite (upstream_chunk_turn_loop fuel _ _ _ (str "A") 6) by (vm_compute; reflexivity).
  generalize ([] ++ str "A"). induction fuel as [|fuel IH]; intros b; [done|].
  rewrite (upstream_chunk_turn_loop fuel _ _ _ [] 6) by (vm_compute; reflexivity). apply IH.
Qed.

(** ** Circuits *)

(** The key identifies the upstream. *)
Lemma upstream_circuit_key_target t : upstream_circuit_key t = print_target t.
Proof. done. Qed.

Lemma upstream_circuit_key_inj t u :
  wf_target t -> wf_target u -> upstream_circuit_key t = upstream_circuit_key u -> t = u.
Proof.
  intros Wt Wu E. change (print_target t = print_target u) in E.
  pose proof (parse_print_target t Wt) as Pt. rewrite E, (parse_print_target u Wu) in Pt. congruence.
Qed.

(** What can happen to a circuit. *)
Inductive circuit_event : Type :=
| Probed (upstream : ReverseProxyTarget) (now : Z)
| Succeeded (upstream : ReverseProxyTarget)
| Failed (upstream : ReverseProxyTarget) (now : Z).

Definition event_key (e : circuit_event) : bytes :=
  match e with Probed u _ | Succeeded u | Failed u _ => upstream_circuit_key u end.

Definition circuit_step (settings : ReverseProxySettings) (m : gmap bytes CircuitBreakerEntry)
    (e : circuit_event) : gmap bytes CircuitBreakerEntry :=
  match e with
  | Probed u now => (reverse_proxy_upstream_available u settings now m).2
  | Succeeded u => record_reverse_proxy_upstream_success u settings m
  | Failed u now => record_reverse_proxy_upstream_failure u settings now m
  end.

Definition circuit_run (settings : ReverseProxySettings) (m : gmap bytes CircuitBreakerEntry)
    (events : list circuit_event) : gmap bytes CircuitBreakerEntry :=
  fold_left (circuit_step settings) events m.

Section circuits.
Context (settings : ReverseProxySettings) (k : bytes).
Context (enabled_hyp : circuit_breaker_enabled settings = true).

Definition threshold : Z := Z.max (circuit_breaker_failure_threshold settings) 1.
Definition cooldown : Z := nanoseconds (circuit_breaker_cooldown_seconds settings).

(** The times of the failures since the last reset, the latest first: a
    success resets, and so does a probe after the cooldown. *)
Definition failures_step (fails : list Z) (e : circuit_event) : list Z :=
  if decide (event_key e = k) then
    match e with
    | Succeeded _ => []
    | Failed _ now => now :: fails
    | Probed _ now =>
        match fails with
        | last :: _ => if (threshold <=? size fails) && (last + cooldown <=? now) then [] else fails
        | [] => []
        end
    end
  else fails.

Definition failures (events : list circuit_event) : list Z := fold_left failures_step events [].

(** The entry of the key stands for the recent failures. *)
Definition entry_of (fails : list Z) : option CircuitBreakerEntry :=
  match fails with
  | [] => None
  | last :: _ => Some (mk_entry (size fails) (if threshold <=? size fails then last + cooldown else 0))
  end.

(** No clock reading makes [opened_until] the epoch, which means "closed". *)
Definition sane_event (e : circuit_event) : Prop :=
  match e with Failed _ now => 0 < now + cooldown | _ => True end.

Lemma circuit_step_other m e : event_key e <> k -> circuit_step settings m e !! k = m !! k.
Proof using.
  destruct e as [u now|u|u now]; cbn; intros N.
  - unfold reverse_proxy_upstream_available. repeat case_match; cbn; rewrite ?lookup_delete_ne; done.
  - unfold record_reverse_proxy_upstream_success. case_match; [done|]. by rewrite lookup_delete_ne.
  - unfold record_reverse_proxy_upstream_failure. case_match; [done|]. by rewrite lookup_insert_ne.
Qed.

Lemma circuit_step_entry m e fails :
  sane_event e -> Forall (fun t => 0 < t + cooldown) fails -> size fails < 2 ^ 64 - 1 ->
  m !! k = entry_of fails ->
  circuit_step settings m e !! k = entry_of (failures_step fails e) /\
  Forall (fun t => 0 < t + cooldown) (failures_step fails e) /\
  size (failures_step fails e) <= size fails + 1.
Proof using enabled_hyp.
  intros Se F Sz E. unfold failures_step. destruct (decide (event_key e = k)) as [K|K].
  2: { rewrite circuit_step_other by done. split; [done|]. split; [done|lia]. }
  destruct e as [u now|u|u now]; cbn [event_key circuit_step] in K |- *.
  - unfold reverse_proxy_upstream_available. rewrite enabled_hyp, K, E. cbn [negb].
    destruct fails as [|last fs]; [cbn; rewrite E; split; [done|split; [constructor|lia]]|].
    cbn [entry_of opened_until]. apply Forall_cons_1 in F as F'. destruct F' as [F1 _].
    destruct (Z.leb_spec threshold (size (last :: fs))) as [L|L]; cbn [andb].
    + destruct (Z.eqb_spec (last + cooldown) 0); [lia|].
      destruct (Z.ltb_spec now (last + cooldown)), (Z.leb_spec (last + cooldown) now); try lia; cbn [snd].
      * rewrite E. cbn [entry_of]. destruct (Z.leb_spec threshold (size (last :: fs))); [|lia]. split; [done|]. split; [done|lia].
      * rewrite lookup_delete_eq. split; [done|]. split; [constructor|cbn; lia].
    + cbn [Z.eqb snd]. rewrite E. cbn [entry_of]. destruct (Z.leb_spec threshold (size (last :: fs))); [lia|].
      split; [done|]. split; [done|lia].
  - unfold record_reverse_proxy_upstream_success. rewrite enabled_hyp, K. cbn [negb].
    rewrite lookup_delete_eq. split; [done|]. split; [constructor|cbn; lia].
  - unfold record_reverse_proxy_upstream_failure. rewrite enabled_hyp, K, E. cbn [negb].
    cbn zeta. rewrite lookup_insert_eq. fold threshold cooldown.
    assert (C : failure_count (default (mk_entry 0 0) (entry_of fails)) = size fails) by by destruct fails.
    rewrite C, wrap_small by lia. replace (size fails + 1) with (size (now :: fails)) by (cbn [length]; lia).
    split; [|split; [by constructor|cbn [length]; lia]].
    unfold entry_of at 2. destruct (Z.leb_spec threshold (size (now :: fails))) as [L|L]; [done|].
    do 2 f_equal. destruct fails as [|last fs]; [done|]. cbn [entry_of default opened_until from_option].
    destruct (Z.leb_spec threshold (size (last :: fs))); [cbn [length] in *; lia|done].
Qed.

Lemma circuit_run_entry events :
  Forall sane_event events -> size events < 2 ^ 64 - 1 ->
  circuit_run settings ∅ events !! k = entry_of (failures events) /\
  Forall (fun t => 0 < t + cooldown) (failures events) /\ size (failures events) <= size events.
Proof using enabled_hyp.
  induction events as [|e events IH] using rev_ind;
    [intros _ _; split; [apply lookup_empty|split; [constructor|cbn; lia]]|].
  intros [F Fe]%Forall_app Sz. rewrite length_app in Sz. cbn [length] in Sz.
  destruct (IH F ltac:(lia)) as (I1 & I2 & I3). unfold circuit_run, failures in *. rewrite !fold_left_app.
  cbn [fold_left]. apply Forall_cons_1 in Fe as [Fe _].
  destruct (circuit_step_entry _ e _ Fe I2 ltac:(lia) I1) as (J1 & J2 & J3).
  split; [done|]. split; [done|]. rewrite length_app. cbn [length]. lia.
Qed.
End circuits.

(** C38. The circuit breakers implement their policy: after any interleaving of
    probes, successes and failures of any upstreams, an upstream is refused
    exactly when it has failed at least [threshold] times since its last
    success or expired cooldown, and the latest failure is less than the
    cooldown ago. Nothing that happens to other upstreams matters, and a
    refused probe changes nothing. *)
Theorem circuit_breaker_policy (settings : ReverseProxySettings) (events : list circuit_event)
    (upstream : ReverseProxyTarget) (now : Z) :
  circuit_breaker_enabled settings = true -> Forall (sane_event settings) events -> size events < 2 ^ 64 - 1 ->
  let k := upstream_circuit_key upstream in
  let fails := failures settings k events in
  let result := reverse_proxy_upstream_available upstream settings now (circuit_run settings ∅ events) in
  (result.1 = false <->
     threshold settings <= size fails /\ exists last, head fails = Some last /\ now < last + cooldown settings) /\
  (result.1 = false -> result.2 = circuit_run settings ∅ events) /\
  fails = failures settings k (filter (fun e => event_key e = k) events).
Proof.
  intros He Hs Hz k fails result.
  destruct (circuit_run_entry settings k He events Hs Hz) as (E & F & _). fold fails in E, F.
  unfold result, reverse_proxy_upstream_available. fold k. rewrite He, E. cbn [negb].
  assert (Ff : fails = failures settings k (filter (fun e => event_key e = k) events)).
  { unfold fails, failures. generalize (@nil Z). clear. induction events as [|e events IH]; intros l; [done|].
    rewrite filter_cons. cbn [fold_left]. destruct (decide (event_key e = k)); [cbn [fold_left]; apply IH|].
    assert (N : failures_step settings k l e = l) by (unfold failures_step; by rewrite decide_False).
    rewrite N. apply IH. }
  split; [|split; [|done]].
  - destruct fails as [|last fs]; cbn [entry_of opened_until head].
    { split; [done|]. by intros (_ & ? & [=] & _). }
    apply Forall_cons_1 in F as [F _]. destruct (Z.leb_spec (threshold settings) (size (last :: fs))).
    + destruct (Z.eqb_spec (last + cooldown settings) 0); [lia|].
      destruct (Z.ltb_spec now (last + cooldown settings)); cbn [fst].
      * split; [|done]. intros _. split; [done|]. by exists last.
      * split; [done|]. intros (_ & ? & [= <-] & ?). lia.
    + cbn [Z.eqb fst]. split; [done|]. intros [? _]. lia.
  - destruct (entry_of settings fails) as [e|]; [|done]. destruct (_ =? 0); [done|]. by destruct (_ <? _).
Qed.

Lemma circuit_breaker_policy_witness :
  let settings := default_proxy_settings in
  let other := mk_proxy_target (str "http") (str "b") 80 (str "/") (str "b") in
  let events := [Failed example_upstream 1; Succeeded other; Failed example_upstream 2; Failed other 2;
                 Failed example_upstream 3] in
  (reverse_proxy_upstream_available example_upstream settings 4 (circuit_run settings ∅ events)).1 = false.
Proof.
  cbn zeta. set (other := mk_proxy_target (str "http") (str "b") 80 (str "/") (str "b")).
  destruct (circuit_breaker_policy default_proxy_settings
    [Failed example_upstream 1; Succeeded other; Failed example_upstream 2; Failed other 2;
     Failed example_upstream 3] example_upstream 4) as [[_ R] _].
  - reflexivity.
  - repeat constructor; vm_compute; reflexivity.
  - vm_compute. reflexivity.
  - apply R. split; [vm_compute; discriminate|]. exists 3. split; vm_compute; reflexivity.
Defined.

(** ** Failover *)

(** The upstreams are tried in rotation, each at most once. *)
Lemma ordered_upstreams_NoDup r ups settings st :
  (2 <= length ups)%nat -> 0 <= next_proxy_upstream st ->
  NoDup (upstream_circuit_key <$> ups) ->
  NoDup (upstream_circuit_key <$> (ordered_reverse_proxy_upstreams r ups settings st).1).
Proof.
  intros L Hn N. unfold ordered_reverse_proxy_upstreams. destruct ups as [|front rest]; [done|].
  set (ups := front :: rest) in *. set (n := size ups).
  assert (Hn2 : 2 <= n) by (unfold n; lia).
  assert (A : (Z.to_nat (bounded_proxy_attempts ups (retry_count settings)) <= length ups)%nat).
  { unfold bounded_proxy_attempts. fold n. destruct (Z.eqb_spec n 1); [lia|]. lia. }
  set (attempts := Z.to_nat _) in *.
  assert (G : forall start, 0 <= start ->
    NoDup (upstream_circuit_key <$> ((fun attempt => nth (Z.to_nat ((start + Z.of_nat attempt) mod n)) ups front)
                                      <$> seq 0 attempts))).
  { intros start Hs. rewrite <- list_fmap_compose. apply NoDup_fmap_2_strong; [|apply NoDup_seq].
    intros i j [_ Hi]%elem_of_seq [_ Hj]%elem_of_seq E.
    change (upstream_circuit_key (nth (Z.to_nat ((start + Z.of_nat i) mod n)) ups front)
            = upstream_circuit_key (nth (Z.to_nat ((start + Z.of_nat j) mod n)) ups front)) in E.
    pose proof (Z.mod_pos_bound (start + Z.of_nat i) n ltac:(lia)) as Bi.
    pose proof (Z.mod_pos_bound (start + Z.of_nat j) n ltac:(lia)) as Bj.
    assert (Ix : forall k, 0 <= k < n -> (upstream_circuit_key <$> ups) !! Z.to_nat k
                                = Some (upstream_circuit_key (nth (Z.to_nat k) ups front))).
    { intros k Hk. rewrite list_lookup_fmap, nth_lookup.
      destruct (lookup_lt_is_Some_2 ups (Z.to_nat k)) as [x Hx]; [unfold n in Hk; lia|]. by rewrite Hx. }
    assert (M : (start + Z.of_nat i) mod n = (start + Z.of_nat j) mod n).
    { apply Z2Nat.inj; [lia|lia|]. eapply NoDup_lookup; [exact N|by apply Ix|]. rewrite E. by apply Ix. }
    pose proof (Z.div_mod (start + Z.of_nat i) n ltac:(lia)). pose proof (Z.div_mod (start + Z.of_nat j) n ltac:(lia)).
    assert (An : Z.of_nat attempts <= n) by (unfold n; lia). clearbody n.
    set (q1 := (start + Z.of_nat i) / n) in *. set (q2 := (start + Z.of_nat j) / n) in *.
    assert (D : Z.of_nat i - Z.of_nat j = n * (q1 - q2)) by lia. assert (q1 - q2 = 0) by nia. nia. }
  destruct (Z.eqb_spec n 1); [lia|].
  destruct (load_balancing_policy settings); cbn [fst]; apply G; [|lia|]; apply Z.mod_pos_bound; lia.
Qed.

Section failover.
Context `{MapOrder bytes} (files : bytes -> option bytes) (r : Request) (settings : ReverseProxySettings)
  (env : nat -> Attempt) (breakers : gmap bytes CircuitBreakerEntry).

(** The upstream is available at its turn, as far as the circuits before the
    request tell. *)
Definition available_at (turn : nat) (upstream : ReverseProxyTarget) : Prop :=
  (reverse_proxy_upstream_available upstream settings (checked_at (env turn)) breakers).1 = true.

Definition answers (turn : nat) (upstream : ReverseProxyTarget) (resp : Response) : Prop :=
  available_at turn upstream /\ try_upstream files r upstream (env turn) = Ret resp.

Lemma available_ext u now m1 m2 :
  m1 !! upstream_circuit_key u = m2 !! upstream_circuit_key u ->
  (reverse_proxy_upstream_available u settings now m1).1 = (reverse_proxy_upstream_available u settings now m2).1.
Proof using.
  intros E. unfold reverse_proxy_upstream_available. rewrite E. destruct (negb _); [done|].
  destruct (m2 !! upstream_circuit_key u); [|done]. destruct (_ =? 0); [done|]. by destruct (_ <? _).
Qed.

Lemma proxy_loop_spec ups turn m skipped attempted :
  NoDup (upstream_circuit_key <$> ups) ->
  (forall u, u ∈ ups -> m !! upstream_circuit_key u = breakers !! upstream_circuit_key u) ->
  (forall i u, ups !! i = Some u -> try_upstream files r u (env (turn + i)) <> Timeout) ->
  exists resp m', proxy_loop files r settings ups env turn m skipped attempted = Ret (resp, m') /\
    ((exists i u, ups !! i = Some u /\ answers (turn + i) u resp /\
        forall j v x, ups !! j = Some v -> (j < i)%nat -> ~ answers (turn + j) v x) \/
     ((forall j v x, ups !! j = Some v -> ~ answers (turn + j) v x) /\
      (status resp = 503 <-> attempted = false /\ (skipped = true \/ ups <> []) /\
         forall j v, ups !! j = Some v -> ~ available_at (turn + j) v) /\
      (status resp = 503 \/ status resp = 502))).
Proof using.
  revert turn m skipped attempted; induction ups as [|u ups IH]; intros turn m sk at_ N Hm Ht; cbn [proxy_loop].
  - destruct at_, sk; cbn [negb andb]; eexists _, _; (split; [reflexivity|]); right;
      (split; [by intros j v x Hj|]); (split; [|by (left + right)]).
    all: split; [try done|try (intros (? & [?|?] & _); done)]. intros _. split; [done|].
    split; [by left|]. by intros j v Hj.
  - cbn [fmap list_fmap] in N. apply NoDup_cons in N as [N1 N2].
    assert (Av : (reverse_proxy_upstream_available u settings (checked_at (env turn)) m).1 = true <-> available_at turn u).
    { unfold available_at. rewrite (available_ext u _ m breakers); [done|]. apply Hm. left. }
    assert (Hn : forall v, v ∈ ups -> upstream_circuit_key v <> upstream_circuit_key u).
    { intros v Hv E. apply N1. rewrite <- E. by apply list_elem_of_fmap_2. }
    assert (Hm2 : forall e, (e = Probed u (checked_at (env turn)) \/ e = Failed u (failed_at (env turn))) ->
              forall m', (forall v, v ∈ ups -> m' !! upstream_circuit_key v = breakers !! upstream_circuit_key v) ->
              forall v, v ∈ ups -> circuit_step settings m' e !! upstream_circuit_key v = breakers !! upstream_circuit_key v).
    { intros e He m' Hm' v Hv. rewrite circuit_step_other; [by apply Hm'|].
      specialize (Hn v Hv). destruct He as [-> | ->]; cbn [event_key]; congruence. }
    assert (Hm1 : forall v, v ∈ ups -> m !! upstream_circuit_key v = breakers !! upstream_circuit_key v)
      by (intros v Hv; apply Hm; by right).
    pose proof (Hm2 (Probed u (checked_at (env turn))) (or_introl eq_refl) m Hm1) as Hp. cbn [circuit_step] in Hp.
    destruct (reverse_proxy_upstream_available u settings (checked_at (env turn)) m) as [av m1]. cbn [fst snd] in *.
    assert (Ht' : forall i v, ups !! i = Some v -> try_upstream files r v (env (S turn + i)) <> Timeout).
    { intros i v Hv. specialize (Ht (S i) v Hv). by rewrite Nat.add_succ_r in Ht. }
    destruct av; cbn [negb].
    + pose proof (Ht 0%nat u eq_refl) as T0. rewrite Nat.add_0_r in T0.
      destruct (try_upstream files r u (env turn)) as [resp|e|] eqn:Tr; [| |done].
      * eexists _, _. split; [reflexivity|]. left. exists 0%nat, u. rewrite Nat.add_0_r.
        split; [done|]. split; [split; [by apply Av|done]|]. intros; lia.
      * pose proof (Hm2 (Failed u (failed_at (env turn))) (or_intror eq_refl) m1 Hp) as Hf. cbn [circuit_step] in Hf.
        destruct (IH (S turn) _ sk true N2 Hf Ht') as (resp & m' & E & C). exists resp, m'. split; [exact E|].
        assert (No : forall x, ~ answers turn u x) by (intros x [_ X]; congruence).
        destruct C as [(i & v & C1 & C2 & C3)|(C1 & C2 & C3)].
        -- left. exists (S i), v. rewrite Nat.add_succ_r. split; [done|]. split; [done|].
           intros [|j] w x Hw Lt; [injection Hw as <-; rewrite Nat.add_0_r; apply No|].
           rewrite Nat.add_succ_r. apply (C3 j w x Hw). lia.
        -- right. split; [|split; [|done]].
           ++ intros [|j] w x Hw; [injection Hw as <-; rewrite Nat.add_0_r; apply No|].
              rewrite Nat.add_succ_r. by apply (C1 j w x).
           ++ split; [by intros (? & _)%C2|]. intros (_ & _ & C4). exfalso. apply (C4 0%nat u eq_refl).
              rewrite Nat.add_0_r. by apply Av.
    + destruct (IH (S turn) m1 true at_ N2 Hp Ht') as (resp & m' & E & C). exists resp, m'. split; [exact E|].
      assert (Na : ~ available_at turn u) by (by intros ?%Av).
      destruct C as [(i & v & C1 & C2 & C3)|(C1 & C2 & C3)].
      * left. exists (S i), v. rewrite Nat.add_succ_r. split; [done|]. split; [done|].
        intros [|j] w x Hw Lt; [injection Hw as <-; rewrite Nat.add_0_r; by intros [? _]|].
        rewrite Nat.add_succ_r. apply (C3 j w x Hw). lia.
      * right. split; [|split; [|done]].
        -- intros [|j] w x Hw; [injection Hw as <-; rewrite Nat.add_0_r; by intros [? _]|].
           rewrite Nat.add_succ_r. by apply (C1 j w x).
        -- rewrite C2. split; intros (D1 & D2 & D3); (split; [done|]).
           ++ split; [by right|]. intros [|j] w Hw; [injection Hw as <-; by rewrite Nat.add_0_r|].
              rewrite Nat.add_succ_r. by apply (D3 j w).
           ++ split; [by left|]. intros j w Hw. specialize (D3 (S j) w Hw). by rewrite Nat.add_succ_r in D3.
Qed.
End failover.

(** Failover: with several distinct upstreams, whose exchanges all end, the
    answer to a request is the one of the first upstream in balancing order
    whose circuit is not open and whose exchange yields a response, whatever
    failed before it; each upstream is tried at most once; and when none
    answers, the client gets 503 if every circuit was open, and 502 if some
    upstream was tried. *)
Theorem proxy_failover `{MapOrder bytes} (files : bytes -> option bytes) (r : Request)
    (ups : list ReverseProxyTarget) (settings : ReverseProxySettings) (env : nat -> Attempt) (st : ProxyState) :
  (2 <= length ups)%nat -> 0 <= next_proxy_upstream st -> NoDup (upstream_circuit_key <$> ups) ->
  let ordered := (ordered_reverse_proxy_upstreams r ups settings st).1 in
  let answers := answers files r settings env (circuit_breakers st) in
  (forall i u, ordered !! i = Some u -> try_upstream files r u (env i) <> Timeout) ->
  NoDup (upstream_circuit_key <$> ordered) /\
  exists resp st', reverse_proxy_response files r ups settings env st = Ret (resp, st') /\
    ((exists i u, ordered !! i = Some u /\ answers i u resp /\
        forall j v x, ordered !! j = Some v -> (j < i)%nat -> ~ answers j v x) \/
     ((forall j v x, ordered !! j = Some v -> ~ answers j v x) /\
      (status resp = 503 <-> ordered <> [] /\
         forall j v, ordered !! j = Some v -> ~ available_at settings env (circuit_breakers st) j v) /\
      (status resp = 503 \/ status resp = 502))).
Proof.
  intros L Hn N ordered answers Ht.
  pose proof (ordered_upstreams_NoDup r ups settings st L Hn N) as No. fold ordered in No. split; [done|].
  assert (C : circuit_breakers (ordered_reverse_proxy_upstreams r ups settings st).2 = circuit_breakers st).
  { unfold ordered_reverse_proxy_upstreams. destruct ups as [|f rest]; [done|].
    by destruct (load_balancing_policy settings); destruct (size (f :: rest) =? 1). }
  destruct (proxy_loop_spec files r settings env (circuit_breakers st) ordered 0 (circuit_breakers st) false false No)
    as (resp & m' & E & S); [done|done|].
  exists resp, (mk_proxy_state (next_proxy_upstream (ordered_reverse_proxy_upstreams r ups settings st).2) m'). split.
  - unfold reverse_proxy_response. unfold ordered in E.
    destruct (ordered_reverse_proxy_upstreams r ups settings st) as [o st2]. cbn [fst snd] in *.
    rewrite C, E. cbn [mbind outcome_bind]. reflexivity.
  - cbn [Nat.add] in S. destruct S as [S|(S1 & S2 & S3)]; [by left|]. right. split; [done|]. split; [|done].
    rewrite S2. split; [intros (_ & [?|?] & ?); done|]. intros [? ?]. split; [done|]. split; [by right|done].
Qed.

Lemma proxy_failover_witness :
  let second := mk_proxy_target (str "http") (str "b") 80 (str "/") (str "b") in
  let reply := print_response 200 (str "OK") [] (str "hello") in
  let env i := mk_attempt 0 0 (fun _ => match i with O => Raise "connect timeout" | _ => Ret reply end) in
  let settings := mk_proxy_settings 5 30 1000 1 false true 3 10 failover in
  let r := mk_request (str "GET") (str "/") (str "/") [] (str "HTTP/1.1") ∅ ∅ [] 0 None in
  exists resp st', reverse_proxy_response (fun _ => None) r [example_upstream; second] settings env
                     (mk_proxy_state 0 ∅) = Ret (resp, st') /\ status resp = 200.
Proof.
  cbn zeta. set (second := mk_proxy_target (str "http") (str "b") 80 (str "/") (str "b")).
  set (reply := print_response 200 (str "OK") [] (str "hello")).
  set (env := fun i : nat => mk_attempt 0 0 (fun _ => match i with O => Raise "connect timeout" | _ => Ret reply end)).
  set (settings := mk_proxy_settings 5 30 1000 1 false true 3 10 failover).
  set (r := mk_request (str "GET") (str "/") (str "/") [] (str "HTTP/1.1") ∅ ∅ [] 0 None).
  destruct (proxy_failover (fun _ => None) r [example_upstream; second] settings env (mk_proxy_state 0 ∅))
    as (_ & resp & st' & E & S).
  - cbn. lia.
  - cbn. lia.
  - by_decide.
  - intros [|[|i]] u; cbn; intros [= <-]; vm_compute; discriminate.
  - exists resp, st'. split; [exact E|].
    destruct S as [([|[|i]] & u & O & A & _)|(No & _)].
    + exfalso. injection O as <-. destruct A as [_ A]. vm_compute in A. discriminate A.
    + injection O as <-. destruct A as [_ A]. vm_compute in A. injection A as <-. reflexivity.
    + exfalso. vm_compute in O. discriminate O.
    + exfalso. apply (No 1%nat second (mk_response 200 (str "OK") ∅ (str "hello")) eq_refl).
      split; vm_compute; reflexivity.
Defined.
