(* ===== verification/Config.v ===== *)
(** * Config: the server configuration

    Models [include/rimau/core/config.hpp] and [src/src/core/config.cpp]: the
    table of keys, the validation of a value, the construction of a
    [ServerConfig] from the stored values, and its description.  The SQLite
    database is its content: the rows of [rimau_config] by key and the applied
    migrations; errors of SQLite itself are not modelled.  A
    [std::filesystem::path] is its string. *)

From S2P Require Import Prelude Text Numbers StaticFiles VirtualHost ReverseProxy.

Definition default_database_path : bytes := str "data/rimau.sqlite3".

Record ServerConfig : Type := mk_config {
  database_path : bytes;
  host : bytes;
  port : Z;
  document_root : bytes;
  directory_index : bytes;
  error_page : bytes;
  max_request_bytes : Z;
  http_keep_alive_enabled : bool;
  http_keep_alive_timeout_seconds : Z;
  http_keep_alive_max_requests : Z;
  listen_backlog : Z;
  server_name : bytes;
  worker_threads : Z;
  epoll_max_events : Z;
  reuse_port_enabled : bool;
  tcp_keepalive_enabled : bool;
  tcp_keepalive_idle_seconds : Z;
  tcp_keepalive_interval_seconds : Z;
  tcp_keepalive_probe_count : Z;
  graceful_shutdown_timeout_seconds : Z;
  connection_pool_size : Z;
  http1_enabled : bool;
  http2_enabled : bool;
  http3_enabled : bool;
  tls_enabled : bool;
  tls_certificate_file : bytes;
  tls_private_key_file : bytes;
  tls_min_version : bytes;
  tls_max_version : bytes;
  tls_cipher_list : bytes;
  tls_ciphersuites : bytes;
  tls_alpn_protocols : bytes;
  tls_sni_hosts : bytes;
  tls_sni_certificates : bytes;
  tls_sni_required : bool;
  request_timeout_seconds : Z;
  header_timeout_seconds : Z;
  body_timeout_seconds : Z;
  idle_timeout_seconds : Z;
  global_connection_limit : Z;
  per_ip_connection_limit : Z;
  rate_limit_enabled : bool;
  rate_limit_requests_per_minute : Z;
  ip_allowlist : bytes;
  ip_blocklist : bytes;
  websocket_max_frame_bytes : Z;
  security_headers_enabled : bool;
  security_header_content_security_policy : bytes;
  security_header_strict_transport_security : bytes;
  security_header_x_content_type_options : bytes;
  security_header_x_frame_options : bytes;
  security_header_referrer_policy : bytes;
  security_header_cross_origin_opener_policy : bytes;
  server_header_enabled : bool;
  virtual_hosts_enabled : bool;
  virtual_hosts : bytes;
  virtual_host_waf_overrides : bytes;
  reverse_proxy_connect_timeout_seconds : Z;
  reverse_proxy_read_timeout_seconds : Z;
  reverse_proxy_max_response_bytes : Z;
  reverse_proxy_retry_count : Z;
  reverse_proxy_load_balancing_policy : bytes;
  reverse_proxy_tls_verify_upstream : bool;
  reverse_proxy_circuit_breaker_enabled : bool;
  reverse_proxy_circuit_breaker_failure_threshold : Z;
  reverse_proxy_circuit_breaker_cooldown_seconds : Z;
  modsecurity_enabled : bool;
  modsecurity_owasp_crs_enabled : bool;
  modsecurity_blocking_enabled : bool;
  modsecurity_anomaly_threshold : Z;
  modsecurity_max_inspection_bytes : Z;
  modsecurity_audit_log_enabled : bool;
}.

Definition default_config : ServerConfig :=
  mk_config
    default_database_path
    (str "0.0.0.0")
    8080
    (str "public")
    (str "index.html")
    []
    (64 * 1024)
    true
    15
    100
    1024
    (str "Rimau Web Server")
    0
    256
    true
    true
    60
    10
    5
    5
    1024
    true
    false
    false
    false
    (str "certs/rimau-dev.crt")
    (str "certs/rimau-dev.key")
    (str "TLSv1.2")
    (str "TLSv1.3")
    (str "ECDHE-ECDSA-AES256-GCM-SHA384:ECDHE-RSA-AES256-GCM-SHA384:ECDHE-ECDSA-CHACHA20-POLY1305:ECDHE-RSA-CHACHA20-POLY1305:ECDHE-ECDSA-AES128-GCM-SHA256:ECDHE-RSA-AES128-GCM-SHA256")
    (str "TLS_AES_256_GCM_SHA384:TLS_CHACHA20_POLY1305_SHA256:TLS_AES_128_GCM_SHA256")
    (str "http/1.1")
    []
    []
    false
    30
    10
    30
    15
    10000
    100
    true
    600
    []
    []
    (64 * 1024)
    true
    (str "default-src 'self'; frame-ancestors 'self'; base-uri 'self'")
    (str "max-age=31536000")
    (str "nosniff")
    (str "SAMEORIGIN")
    (str "no-referrer")
    (str "same-origin")
    true
    true
    []
    []
    5
    30
    (1024 * 1024)
    1
    (str "round_robin")
    false
    true
    3
    10
    false
    true
    true
    5
    (128 * 1024)
    true.

(** ** Values *)

(** [value.c_str()]: the string up to its first NUL. *)
Definition c_str (s : bytes) : bytes :=
  match find_byte Byte.x00 s with
  | Some i => take i s
  | None => s
  end.

(** The [catch] clauses of the number parsers. *)
Definition catch_number {A} (key : string) (r : outcome A) : outcome A :=
  match r with
  | Raise e =>
      if decide (e = invalid_argument) then Raise (key ++ " must be a number")
      else if decide (e = out_of_range) then Raise (key ++ " is out of range")
      else Raise e
  | _ => r
  end.

Definition parse_port (value : bytes) : outcome Z :=
  '(parsed, consumed) ← catch_number "port" (stoi value);
  throw_if (negb (consumed =? length value)%nat) "port must be a number";;
  throw_if ((parsed <? 1) || (65535 <? parsed)) "port must be between 1 and 65535";;
  Ret parsed.

Definition parse_size (value : bytes) (key : string) : outcome Z :=
  '(parsed, consumed) ← catch_number key (stoull value);
  throw_if (negb (consumed =? length value)%nat) (key ++ " must be a number");;
  throw_if (parsed =? 0) (key ++ " must be greater than zero");;
  Ret parsed.

Definition parse_positive_int (value : bytes) (key : string) : outcome Z :=
  '(parsed, consumed) ← catch_number key (stoi value);
  throw_if (negb (consumed =? length value)%nat) (key ++ " must be a number");;
  throw_if (parsed <? 1) (key ++ " must be greater than zero");;
  Ret parsed.

Definition parse_non_negative_size (value : bytes) (key : string) : outcome Z :=
  '(parsed, consumed) ← catch_number key (stoull value);
  throw_if (negb (consumed =? length value)%nat) (key ++ " must be a number");;
  Ret parsed.

Definition parse_bool (value : bytes) (key : string) : outcome bool :=
  let normalized := lowercase value in
  if bool_decide (normalized ∈ str <$> ["1"; "true"; "yes"; "on"]%string) then Ret true
  else if bool_decide (normalized ∈ str <$> ["0"; "false"; "no"; "off"]%string) then Ret false
  else Raise (key ++ " must be a boolean").

Definition valid_tls_version (value : bytes) : bool :=
  bool_decide (value = str "TLSv1.2") || bool_decide (value = str "TLSv1.3").

Fixpoint prefix_digits (parsed max_prefix : Z) (value : bytes) : option Z :=
  match value with
  | [] => Some parsed
  | ch :: value' =>
      d ← dec_digit ch;
      let parsed := parsed * 10 + d in
      if max_prefix <? parsed then None else prefix_digits parsed max_prefix value'
  end.

Definition parse_prefix_length (value : bytes) (max_prefix : Z) : option Z :=
  match value with [] => None | _ => prefix_digits 0 max_prefix value end.

Definition valid_sni_entry (entry : bytes) : option (bytes * bytes * bytes) :=
  equals ← find_byte (chr "=") entry;
  offset ← find_byte (chr "|") (drop (S equals) entry);
  let separator := (S equals + offset)%nat in
  Some (trim (take equals entry), trim (substr entry (S equals) (separator - equals - 1)),
        trim (drop (S separator) entry)).

Definition valid_sni_certificate_map (value : bytes) : bool :=
  forallb (fun entry =>
    match valid_sni_entry entry with
    | Some (pattern, certificate, private_key) =>
        negb (bool_decide (pattern = []) || bool_decide (certificate = []) || bool_decide (private_key = []))
    | None => false
    end) (split_delimited value (chr ";")).

(** *** Addresses *)

Inductive Family : Type := AF_INET | AF_INET6.

#[export] Instance Family_eq_dec : EqDecision Family.
Proof. solve_decision. Defined.

Definition family_bits (f : Family) : Z := match f with AF_INET => 32 | AF_INET6 => 128 end.

Section environment.
(** [inet_pton] of the C library: the address in network byte order. *)
Context (inet_pton : Family -> bytes -> option bytes).

Definition parse_ip_family (value : bytes) : option Family :=
  match inet_pton AF_INET (c_str value) with
  | Some _ => Some AF_INET
  | None => match inet_pton AF_INET6 (c_str value) with
            | Some _ => Some AF_INET6
            | None => None
            end
  end.

Definition valid_ip_token (token : bytes) : bool :=
  let slash := find_byte (chr "/") token in
  let address_text := match slash with Some i => trim (take i token) | None => token end in
  if bool_decide (address_text = []) then false
  else
    match parse_ip_family address_text with
    | None => false
    | Some family =>
        match slash with
        | None => true
        | Some i =>
            let prefix_text := trim (drop (S i) token) in
            bool_decide (is_Some (parse_prefix_length prefix_text (family_bits family)))
        end
    end.

Definition valid_ip_list (list : bytes) : bool :=
  forallb valid_ip_token (split_delimited list (chr ",")).

(** ** The table of keys *)

Record ConfigDefault : Type := mk_default {
  default_key : string;
  default_value : string;
  default_description : string;
}.

Definition config_defaults : list ConfigDefault := [
  mk_default "host" "0.0.0.0" "IPv4 address to bind";
  mk_default "port" "8080" "TCP port to listen on";
  mk_default "document_root" "public" "Static file document root";
  mk_default "directory_index" "index.html" "Static directory index file name";
  mk_default "error_page" ""
    "Optional custom error page path, relative to document_root unless absolute";
  mk_default "max_request_bytes" "65536" "Maximum request header bytes";
  mk_default "http_keep_alive_enabled" "true" "Enable HTTP/1.1 persistent connections";
  mk_default "http_keep_alive_timeout_seconds" "15" "HTTP/1.1 keep-alive idle timeout";
  mk_default "http_keep_alive_max_requests" "100"
    "Maximum requests served on one HTTP/1.1 connection";
  mk_default "listen_backlog" "1024" "TCP listen backlog";
  mk_default "server_name" "Rimau Web Server" "Server identity used in logs and responses";
  mk_default "worker_threads" "0" "Worker threads; 0 means auto-detect CPU cores";
  mk_default "epoll_max_events" "256" "Maximum epoll events processed per worker iteration";
  mk_default "reuse_port_enabled" "true" "Enable SO_REUSEPORT for per-worker listeners";
  mk_default "tcp_keepalive_enabled" "true" "Enable TCP keepalive on accepted client sockets";
  mk_default "tcp_keepalive_idle_seconds" "60" "TCP keepalive idle time before probes";
  mk_default "tcp_keepalive_interval_seconds" "10" "TCP keepalive interval between probes";
  mk_default "tcp_keepalive_probe_count" "5" "TCP keepalive probe count before failure";
  mk_default "graceful_shutdown_timeout_seconds" "5" "Graceful shutdown drain timeout";
  mk_default "connection_pool_size" "1024" "Idle connection objects retained per worker for reuse";
  mk_default "http1_enabled" "true" "Enable HTTP/1.1 listener handling";
  mk_default "http2_enabled" "false" "Enable HTTP/2 when the HTTP/2 implementation is available";
  mk_default "http3_enabled" "false" "Enable HTTP/3 when the HTTP/3 implementation is available";
  mk_default "tls_enabled" "false" "Enable TLS for accepted HTTP/1.1 connections";
  mk_default "tls_certificate_file" "certs/rimau-dev.crt" "PEM certificate file for TLS";
  mk_default "tls_private_key_file" "certs/rimau-dev.key" "PEM private key file for TLS";
  mk_default "tls_min_version" "TLSv1.2" "Minimum TLS protocol version";
  mk_default "tls_max_version" "TLSv1.3" "Maximum TLS protocol version";
  mk_default "tls_cipher_list" "ECDHE-ECDSA-AES256-GCM-SHA384:ECDHE-RSA-AES256-GCM-SHA384:ECDHE-ECDSA-CHACHA20-POLY1305:ECDHE-RSA-CHACHA20-POLY1305:ECDHE-ECDSA-AES128-GCM-SHA256:ECDHE-RSA-AES128-GCM-SHA256"
    "TLS 1.2 cipher list";
  mk_default "tls_ciphersuites" "TLS_AES_256_GCM_SHA384:TLS_CHACHA20_POLY1305_SHA256:TLS_AES_128_GCM_SHA256"
    "TLS 1.3 cipher suites";
  mk_default "tls_alpn_protocols" "http/1.1"
    "Comma-separated ALPN protocols to advertise; only implemented protocols should be listed";
  mk_default "tls_sni_hosts" ""
    "Comma-separated SNI hostnames accepted by the default certificate; empty means all hostnames";
  mk_default "tls_sni_certificates" ""
    "Semicolon-separated SNI certificate map: hostname=certificate.pem|private-key.pem";
  mk_default "tls_sni_required" "false" "Reject TLS clients that do not send SNI";
  mk_default "request_timeout_seconds" "30" "Maximum time to complete one HTTP request";
  mk_default "header_timeout_seconds" "10" "Maximum time to complete HTTP request headers";
  mk_default "body_timeout_seconds" "30" "Maximum time to complete HTTP request body after headers";
  mk_default "idle_timeout_seconds" "15" "Idle timeout for keep-alive and WebSocket connections";
  mk_default "global_connection_limit" "10000"
    "Maximum active accepted connections across all workers";
  mk_default "per_ip_connection_limit" "100" "Maximum active accepted connections per client IP";
  mk_default "rate_limit_enabled" "true" "Enable fixed-window per-IP request rate limiting";
  mk_default "rate_limit_requests_per_minute" "600" "Maximum requests per minute per client IP";
  mk_default "ip_allowlist" ""
    "Comma-separated IPv4/IPv6 exact or CIDR allowlist; empty allows all non-blocked IPs";
  mk_default "ip_blocklist" "" "Comma-separated IPv4/IPv6 exact or CIDR blocklist";
  mk_default "websocket_max_frame_bytes" "65536" "Maximum accepted WebSocket frame payload bytes";
  mk_default "security_headers_enabled" "true" "Add default HTTP security headers to responses";
  mk_default "security_header_content_security_policy" "default-src 'self'; frame-ancestors 'self'; base-uri 'self'"
    "Content-Security-Policy value; empty disables this header";
  mk_default "security_header_strict_transport_security" "max-age=31536000"
    "Strict-Transport-Security value for TLS responses; empty disables this header";
  mk_default "security_header_x_content_type_options" "nosniff"
    "X-Content-Type-Options value; empty disables this header";
  mk_default "security_header_x_frame_options" "SAMEORIGIN"
    "X-Frame-Options value; empty disables this header";
  mk_default "security_header_referrer_policy" "no-referrer"
    "Referrer-Policy value; empty disables this header";
  mk_default "security_header_cross_origin_opener_policy" "same-origin"
    "Cross-Origin-Opener-Policy value; empty disables this header";
  mk_default "server_header_enabled" "true" "Emit Server header in HTTP responses";
  mk_default "virtual_hosts_enabled" "true" "Enable Host header based virtual host routing";
  mk_default "virtual_hosts" ""
    "Semicolon-separated host=static:path, host=proxy:http://host:port,https://backup:port, or host=script:runtime:path routes";
  mk_default "virtual_host_waf_overrides" ""
    "Semicolon-separated WAF overrides: host=enabled:true,threshold:10,rule_exceptions:930100|942100";
  mk_default "reverse_proxy_connect_timeout_seconds" "5"
    "HTTP reverse proxy upstream connect timeout";
  mk_default "reverse_proxy_read_timeout_seconds" "30" "HTTP reverse proxy upstream read timeout";
  mk_default "reverse_proxy_max_response_bytes" "1048576"
    "Maximum buffered reverse proxy upstream response bytes";
  mk_default "reverse_proxy_retry_count" "1"
    "Additional reverse proxy upstream attempts after the first failure";
  mk_default "reverse_proxy_load_balancing_policy" "round_robin"
    "Reverse proxy upstream selection policy: round_robin, failover, or stable_hash";
  mk_default "reverse_proxy_tls_verify_upstream" "false"
    "Verify HTTPS reverse proxy upstream certificates with default trust paths";
  mk_default "reverse_proxy_circuit_breaker_enabled" "true"
    "Temporarily skip repeatedly failing reverse proxy upstreams";
  mk_default "reverse_proxy_circuit_breaker_failure_threshold" "3"
    "Failures before a reverse proxy upstream circuit opens";
  mk_default "reverse_proxy_circuit_breaker_cooldown_seconds" "10"
    "Seconds before retrying an opened reverse proxy upstream circuit";
  mk_default "modsecurity_enabled" "false"
    "Enable Rimau built-in ModSecurity-compatible WAF inspection";
  mk_default "modsecurity_owasp_crs_enabled" "true"
    "Enable built-in OWASP CRS-inspired rule subset for the WAF";
  mk_default "modsecurity_blocking_enabled" "true"
    "Block requests whose WAF anomaly score reaches the configured threshold";
  mk_default "modsecurity_anomaly_threshold" "5" "WAF anomaly score threshold for blocking";
  mk_default "modsecurity_max_inspection_bytes" "131072"
    "Maximum bytes inspected per request field by the WAF";
  mk_default "modsecurity_audit_log_enabled" "true" "Write WAF matches to the Rimau log"
]%string.

Definition find_default (key : bytes) : option bytes :=
  head ((str ∘ default_value) <$> filter (fun item => str (default_key item) = key) config_defaults).

Definition is_supported_key (key : bytes) : bool :=
  existsb (fun item => bool_decide (key = str (default_key item))) config_defaults.

Definition supported_config_keys : list bytes := (str ∘ default_key) <$> config_defaults.

Definition is_optional_string_key (key : bytes) : bool :=
  bool_decide (key ∈ str <$>
    ["tls_sni_hosts"; "tls_sni_certificates"; "ip_allowlist"; "ip_blocklist";
     "security_header_content_security_policy"; "security_header_strict_transport_security";
     "security_header_x_content_type_options"; "security_header_x_frame_options";
     "security_header_referrer_policy"; "security_header_cross_origin_opener_policy";
     "virtual_hosts"; "virtual_host_waf_overrides"; "error_page"]%string).

Definition value_or_default (values : gmap bytes bytes) (key : string) : outcome bytes :=
  match values !! str key with
  | Some v => Ret v
  | None => match find_default (str key) with
            | Some v => Ret v
            | None => Raise ("missing default config key: " ++ key)
            end
  end.

(** ** Validation of one value

    The keys of the branches of [validate_config_value], by what the branch
    does. *)

Definition size_keys : list bytes := str <$>
  ["max_request_bytes"; "global_connection_limit"; "per_ip_connection_limit";
   "websocket_max_frame_bytes"; "reverse_proxy_max_response_bytes";
   "reverse_proxy_circuit_breaker_failure_threshold"; "modsecurity_anomaly_threshold";
   "modsecurity_max_inspection_bytes"]%string.

Definition positive_int_keys : list bytes := str <$>
  ["http_keep_alive_timeout_seconds"; "http_keep_alive_max_requests"; "listen_backlog";
   "epoll_max_events"; "tcp_keepalive_idle_seconds"; "tcp_keepalive_interval_seconds";
   "tcp_keepalive_probe_count"; "graceful_shutdown_timeout_seconds"; "rate_limit_requests_per_minute";
   "request_timeout_seconds"; "header_timeout_seconds"; "body_timeout_seconds"; "idle_timeout_seconds";
   "reverse_proxy_connect_timeout_seconds"; "reverse_proxy_read_timeout_seconds";
   "reverse_proxy_circuit_breaker_cooldown_seconds"]%string.

Definition non_negative_size_keys : list bytes := str <$>
  ["worker_threads"; "connection_pool_size"; "reverse_proxy_retry_count"]%string.

Definition text_keys : list bytes := str <$>
  ["server_name"; "directory_index"; "error_page"; "tls_cipher_list"; "tls_ciphersuites";
   "tls_alpn_protocols"; "tls_sni_hosts"; "tls_sni_certificates"; "ip_allowlist"; "ip_blocklist";
   "security_header_content_security_policy"; "security_header_strict_transport_security";
   "security_header_x_content_type_options"; "security_header_x_frame_options";
   "security_header_referrer_policy"; "security_header_cross_origin_opener_policy"; "virtual_hosts";
   "virtual_host_waf_overrides"; "reverse_proxy_load_balancing_policy"]%string.

Definition bool_keys : list bytes := str <$>
  ["http_keep_alive_enabled"; "reuse_port_enabled"; "tcp_keepalive_enabled"; "http1_enabled";
   "http2_enabled"; "http3_enabled"; "tls_enabled"; "tls_sni_required"; "rate_limit_enabled";
   "security_headers_enabled"; "server_header_enabled"; "virtual_hosts_enabled";
   "reverse_proxy_tls_verify_upstream"; "reverse_proxy_circuit_breaker_enabled"; "modsecurity_enabled";
   "modsecurity_owasp_crs_enabled"; "modsecurity_blocking_enabled";
   "modsecurity_audit_log_enabled"]%string.

Definition validate_text (key value : bytes) : outcome unit :=
  let k := String.string_of_list_byte key in
  throw_if (contains_control_character value) (k ++ " cannot contain control characters");;
  throw_if (bool_decide (key = str "directory_index") && negb (valid_directory_index value))
    "directory_index must be a file name without slashes";;
  throw_if ((bool_decide (key = str "ip_allowlist") || bool_decide (key = str "ip_blocklist"))
            && negb (valid_ip_list value))
    (k ++ " must contain IPv4/IPv6 exact addresses or CIDR ranges");;
  throw_if (bool_decide (key = str "tls_sni_certificates") && negb (valid_sni_certificate_map value))
    "tls_sni_certificates must use hostname=certificate.pem|private-key.pem entries separated by semicolons";;
  (if bool_decide (key = str "virtual_hosts") then _ ← parse_virtual_host_rules value; Ret () else Ret ());;
  (if bool_decide (key = str "virtual_host_waf_overrides")
   then _ ← parse_virtual_host_waf_overrides value; Ret () else Ret ());;
  (if bool_decide (key = str "reverse_proxy_load_balancing_policy")
   then _ ← parse_reverse_proxy_load_balancing_policy value; Ret () else Ret ()).

Definition validate_config_value (key value : bytes) : outcome unit :=
  let k := String.string_of_list_byte key in
  throw_if (negb (is_supported_key key)) ("unknown sqlite config key: " ++ k);;
  throw_if (bool_decide (value = []) && negb (is_optional_string_key key))
    ("config value cannot be empty: " ++ k);;
  if bool_decide (key = str "port") then _ ← parse_port value; Ret ()
  else if bool_decide (key ∈ size_keys) then _ ← parse_size value k; Ret ()
  else if bool_decide (key ∈ positive_int_keys) then _ ← parse_positive_int value k; Ret ()
  else if bool_decide (key ∈ non_negative_size_keys) then _ ← parse_non_negative_size value k; Ret ()
  else if bool_decide (key = str "tls_min_version") || bool_decide (key = str "tls_max_version") then
    throw_if (negb (valid_tls_version value)) (k ++ " must be TLSv1.2 or TLSv1.3")
  else if bool_decide (key ∈ text_keys) then validate_text key value
  else if bool_decide (key ∈ bool_keys) then _ ← parse_bool value k; Ret ()
  else Ret ().

(** ** Construction *)

Definition port_field (values : gmap bytes bytes) (key : string) : outcome Z :=
  value ← value_or_default values key; parse_port value.
Definition size_field (values : gmap bytes bytes) (key : string) : outcome Z :=
  value ← value_or_default values key; parse_size value key.
Definition int_field (values : gmap bytes bytes) (key : string) : outcome Z :=
  value ← value_or_default values key; parse_positive_int value key.
Definition count_field (values : gmap bytes bytes) (key : string) : outcome Z :=
  value ← value_or_default values key; parse_non_negative_size value key.
Definition bool_field (values : gmap bytes bytes) (key : string) : outcome bool :=
  value ← value_or_default values key; parse_bool value key.

Definition read_fields (values : gmap bytes bytes) : outcome ServerConfig :=
  host ← value_or_default values "host";
  port ← port_field values "port";
  document_root ← value_or_default values "document_root";
  directory_index ← value_or_default values "directory_index";
  error_page ← value_or_default values "error_page";
  max_request_bytes ← size_field values "max_request_bytes";
  http_keep_alive_enabled ← bool_field values "http_keep_alive_enabled";
  http_keep_alive_timeout_seconds ← int_field values "http_keep_alive_timeout_seconds";
  http_keep_alive_max_requests ← int_field values "http_keep_alive_max_requests";
  listen_backlog ← int_field values "listen_backlog";
  server_name ← value_or_default values "server_name";
  worker_threads ← count_field values "worker_threads";
  epoll_max_events ← int_field values "epoll_max_events";
  reuse_port_enabled ← bool_field values "reuse_port_enabled";
  tcp_keepalive_enabled ← bool_field values "tcp_keepalive_enabled";
  tcp_keepalive_idle_seconds ← int_field values "tcp_keepalive_idle_seconds";
  tcp_keepalive_interval_seconds ← int_field values "tcp_keepalive_interval_seconds";
  tcp_keepalive_probe_count ← int_field values "tcp_keepalive_probe_count";
  graceful_shutdown_timeout_seconds ← int_field values "graceful_shutdown_timeout_seconds";
  connection_pool_size ← count_field values "connection_pool_size";
  http1_enabled ← bool_field values "http1_enabled";
  http2_enabled ← bool_field values "http2_enabled";
  http3_enabled ← bool_field values "http3_enabled";
  tls_enabled ← bool_field values "tls_enabled";
  tls_certificate_file ← value_or_default values "tls_certificate_file";
  tls_private_key_file ← value_or_default values "tls_private_key_file";
  tls_min_version ← value_or_default values "tls_min_version";
  tls_max_version ← value_or_default values "tls_max_version";
  tls_cipher_list ← value_or_default values "tls_cipher_list";
  tls_ciphersuites ← value_or_default values "tls_ciphersuites";
  tls_alpn_protocols ← value_or_default values "tls_alpn_protocols";
  tls_sni_hosts ← value_or_default values "tls_sni_hosts";
  tls_sni_certificates ← value_or_default values "tls_sni_certificates";
  tls_sni_required ← bool_field values "tls_sni_required";
  request_timeout_seconds ← int_field values "request_timeout_seconds";
  header_timeout_seconds ← int_field values "header_timeout_seconds";
  body_timeout_seconds ← int_field values "body_timeout_seconds";
  idle_timeout_seconds ← int_field values "idle_timeout_seconds";
  global_connection_limit ← size_field values "global_connection_limit";
  per_ip_connection_limit ← size_field values "per_ip_connection_limit";
  rate_limit_enabled ← bool_field values "rate_limit_enabled";
  rate_limit_requests_per_minute ← int_field values "rate_limit_requests_per_minute";
  ip_allowlist ← value_or_default values "ip_allowlist";
  ip_blocklist ← value_or_default values "ip_blocklist";
  websocket_max_frame_bytes ← size_field values "websocket_max_frame_bytes";
  security_headers_enabled ← bool_field values "security_headers_enabled";
  security_header_content_security_policy ← value_or_default values "security_header_content_security_policy";
  security_header_strict_transport_security ← value_or_default values "security_header_strict_transport_security";
  security_header_x_content_type_options ← value_or_default values "security_header_x_content_type_options";
  security_header_x_frame_options ← value_or_default values "security_header_x_frame_options";
  security_header_referrer_policy ← value_or_default values "security_header_referrer_policy";
  security_header_cross_origin_opener_policy ← value_or_default values "security_header_cross_origin_opener_policy";
  server_header_enabled ← bool_field values "server_header_enabled";
  virtual_hosts_enabled ← bool_field values "virtual_hosts_enabled";
  virtual_hosts ← value_or_default values "virtual_hosts";
  virtual_host_waf_overrides ← value_or_default values "virtual_host_waf_overrides";
  reverse_proxy_connect_timeout_seconds ← int_field values "reverse_proxy_connect_timeout_seconds";
  reverse_proxy_read_timeout_seconds ← int_field values "reverse_proxy_read_timeout_seconds";
  reverse_proxy_max_response_bytes ← size_field values "reverse_proxy_max_response_bytes";
  reverse_proxy_retry_count ← count_field values "reverse_proxy_retry_count";
  reverse_proxy_load_balancing_policy ← value_or_default values "reverse_proxy_load_balancing_policy";
  reverse_proxy_tls_verify_upstream ← bool_field values "reverse_proxy_tls_verify_upstream";
  reverse_proxy_circuit_breaker_enabled ← bool_field values "reverse_proxy_circuit_breaker_enabled";
  reverse_proxy_circuit_breaker_failure_threshold ← size_field values "reverse_proxy_circuit_breaker_failure_threshold";
  reverse_proxy_circuit_breaker_cooldown_seconds ← int_field values "reverse_proxy_circuit_breaker_cooldown_seconds";
  modsecurity_enabled ← bool_field values "modsecurity_enabled";
  modsecurity_owasp_crs_enabled ← bool_field values "modsecurity_owasp_crs_enabled";
  modsecurity_blocking_enabled ← bool_field values "modsecurity_blocking_enabled";
  modsecurity_anomaly_threshold ← size_field values "modsecurity_anomaly_threshold";
  modsecurity_max_inspection_bytes ← size_field values "modsecurity_max_inspection_bytes";
  modsecurity_audit_log_enabled ← bool_field values "modsecurity_audit_log_enabled";
  Ret (mk_config default_database_path
    host port document_root directory_index error_page max_request_bytes http_keep_alive_enabled
    http_keep_alive_timeout_seconds http_keep_alive_max_requests listen_backlog server_name
    worker_threads epoll_max_events reuse_port_enabled tcp_keepalive_enabled
    tcp_keepalive_idle_seconds tcp_keepalive_interval_seconds tcp_keepalive_probe_count
    graceful_shutdown_timeout_seconds connection_pool_size http1_enabled http2_enabled http3_enabled
    tls_enabled tls_certificate_file tls_private_key_file tls_min_version tls_max_version
    tls_cipher_list tls_ciphersuites tls_alpn_protocols tls_sni_hosts tls_sni_certificates
    tls_sni_required request_timeout_seconds header_timeout_seconds body_timeout_seconds
    idle_timeout_seconds global_connection_limit per_ip_connection_limit rate_limit_enabled
    rate_limit_requests_per_minute ip_allowlist ip_blocklist websocket_max_frame_bytes
    security_headers_enabled security_header_content_security_policy
    security_header_strict_transport_security security_header_x_content_type_options
    security_header_x_frame_options security_header_referrer_policy
    security_header_cross_origin_opener_policy server_header_enabled virtual_hosts_enabled
    virtual_hosts virtual_host_waf_overrides reverse_proxy_connect_timeout_seconds
    reverse_proxy_read_timeout_seconds reverse_proxy_max_response_bytes reverse_proxy_retry_count
    reverse_proxy_load_balancing_policy reverse_proxy_tls_verify_upstream
    reverse_proxy_circuit_breaker_enabled reverse_proxy_circuit_breaker_failure_threshold
    reverse_proxy_circuit_breaker_cooldown_seconds modsecurity_enabled modsecurity_owasp_crs_enabled
    modsecurity_blocking_enabled modsecurity_anomaly_threshold modsecurity_max_inspection_bytes
    modsecurity_audit_log_enabled).

Definition alpn_protocols (c : ServerConfig) : list bytes := split_delimited (tls_alpn_protocols c) (chr ",").

Definition alpn_protocol (c : ServerConfig) (has_supported_protocol : bool) (protocol : bytes) : outcome bool :=
  if bool_decide (protocol = str "http/1.1") then
    throw_if (tls_enabled c && negb (http1_enabled c))
      "tls_alpn_protocols cannot include http/1.1 when http1_enabled is false";;
    Ret true
  else if bool_decide (protocol = str "h2") then
    throw_if (tls_enabled c && negb (http2_enabled c))
      "tls_alpn_protocols cannot include h2 when http2_enabled is false";;
    Ret true
  else if bool_decide (protocol = str "h3") then
    Raise "tls_alpn_protocols must not include h3 until HTTP/3 serving is implemented"
  else raise_with "unsupported ALPN protocol: " protocol.

Definition validate_alpn_protocols (c : ServerConfig) : outcome unit :=
  has_supported_protocol ← foldO (alpn_protocol c) false (alpn_protocols c);
  throw_if (negb has_supported_protocol) "tls_alpn_protocols must include at least one supported protocol";;
  throw_if (tls_enabled c && negb (http1_enabled c) && http2_enabled c
            && negb (bool_decide (str "h2" ∈ alpn_protocols c)))
    "tls_alpn_protocols must include h2 when TLS is enabled, http1_enabled is false, and http2_enabled is true".

Definition controlled_fields (c : ServerConfig) : list (string * bytes) :=
  [("server_name", server_name c); ("tls_cipher_list", tls_cipher_list c);
   ("directory_index", directory_index c); ("error_page", error_page c);
   ("tls_ciphersuites", tls_ciphersuites c); ("tls_alpn_protocols", tls_alpn_protocols c);
   ("tls_sni_hosts", tls_sni_hosts c); ("tls_sni_certificates", tls_sni_certificates c);
   ("ip_allowlist", ip_allowlist c); ("ip_blocklist", ip_blocklist c);
   ("security_header_content_security_policy", security_header_content_security_policy c);
   ("security_header_strict_transport_security", security_header_strict_transport_security c);
   ("security_header_x_content_type_options", security_header_x_content_type_options c);
   ("security_header_x_frame_options", security_header_x_frame_options c);
   ("security_header_referrer_policy", security_header_referrer_policy c);
   ("security_header_cross_origin_opener_policy", security_header_cross_origin_opener_policy c);
   ("virtual_hosts", virtual_hosts c); ("virtual_host_waf_overrides", virtual_host_waf_overrides c)]%string.

Definition ensure_no_control (field : string * bytes) : outcome unit :=
  throw_if (contains_control_character field.2) (field.1 ++ " cannot contain control characters").

(** [std::filesystem::is_regular_file], which may throw. *)
Context (is_regular_file : bytes -> outcome bool).

Definition ensure_file (file : bytes) (message : string) : outcome unit :=
  regular ← is_regular_file file;
  if (regular : bool) then Ret () else raise_with message file.

(** The map was found valid before, so every entry has its parts. *)
Definition ensure_sni_files (_ : unit) (entry : bytes) : outcome unit :=
  match valid_sni_entry entry with
  | Some (_, certificate_file, private_key_file) =>
      ensure_file certificate_file "tls_sni_certificates certificate file does not exist: ";;
      ensure_file private_key_file "tls_sni_certificates private key file does not exist: "
  | None => Ret ()
  end.

Definition ensure_tls_files (c : ServerConfig) : outcome unit :=
  if tls_enabled c then
    ensure_file (tls_certificate_file c) "tls_certificate_file does not exist: ";;
    ensure_file (tls_private_key_file c) "tls_private_key_file does not exist: ";;
    foldO ensure_sni_files () (split_delimited (tls_sni_certificates c) (chr ";"))
  else Ret ().

Definition check_fields (c : ServerConfig) : outcome unit :=
  throw_if (bool_decide (host c = [])) "host cannot be empty";;
  throw_if (bool_decide (document_root c = [])) "document_root cannot be empty";;
  throw_if (bool_decide (server_name c = [])) "server_name cannot be empty";;
  foldO (fun _ => ensure_no_control) () (controlled_fields c);;
  throw_if (negb (valid_tls_version (tls_min_version c))) "tls_min_version must be TLSv1.2 or TLSv1.3";;
  throw_if (negb (valid_directory_index (directory_index c)))
    "directory_index must be a file name without slashes";;
  throw_if (negb (valid_tls_version (tls_max_version c))) "tls_max_version must be TLSv1.2 or TLSv1.3";;
  throw_if (bool_decide (tls_min_version c = str "TLSv1.3") && bool_decide (tls_max_version c = str "TLSv1.2"))
    "tls_min_version cannot be newer than tls_max_version";;
  validate_alpn_protocols c;;
  throw_if (negb (valid_sni_certificate_map (tls_sni_certificates c)))
    "tls_sni_certificates must use hostname=certificate.pem|private-key.pem entries separated by semicolons";;
  throw_if (negb (valid_ip_list (ip_allowlist c)))
    "ip_allowlist must contain IPv4/IPv6 exact addresses or CIDR ranges";;
  throw_if (negb (valid_ip_list (ip_blocklist c)))
    "ip_blocklist must contain IPv4/IPv6 exact addresses or CIDR ranges";;
  _ ← parse_virtual_host_rules (virtual_hosts c);
  _ ← parse_virtual_host_waf_overrides (virtual_host_waf_overrides c);
  _ ← parse_reverse_proxy_load_balancing_policy (reverse_proxy_load_balancing_policy c);
  throw_if (bool_decide (tls_certificate_file c = [])) "tls_certificate_file cannot be empty";;
  throw_if (bool_decide (tls_private_key_file c = [])) "tls_private_key_file cannot be empty";;
  ensure_tls_files c.

Definition build_config (values : gmap bytes bytes) : outcome ServerConfig :=
  config ← read_fields values;
  check_fields config;;
  Ret config.

(** ** The database *)

(** The rows of [rimau_config]: a value and a description by key; and the
    versions in [rimau_schema_migrations]. *)
Record Database : Type := mk_database {
  config_rows : gmap bytes (bytes * bytes);
  migrations : list Z;
}.

Definition empty_database : Database := mk_database ∅ [].

Definition current_config_schema_version : Z := 1.

(** [INSERT OR IGNORE INTO rimau_schema_migrations ... VALUES (1, ...)] *)
Definition create_schema (db : Database) : Database :=
  mk_database (config_rows db) (if bool_decide (1 ∈ migrations db) then migrations db else 1 :: migrations db).

(** [SELECT COALESCE(MAX(version), 0)], read as an [int]. *)
Definition read_schema_version (db : Database) : Z :=
  let v := match migrations db with
           | [] => 0
           | v :: vs => foldr Z.max v vs
           end in
  (v + 2 ^ 31) mod 2 ^ 32 - 2 ^ 31.

Definition validate_schema_version (db : Database) : outcome unit :=
  let version := read_schema_version db in
  if current_config_schema_version <? version
  then raise_with "sqlite config database schema version " (to_string version
         ++ str " is newer than supported version " ++ to_string current_config_schema_version)
  else Ret ().

(** [INSERT OR IGNORE INTO rimau_config ...] *)
Definition insert_default (db : Database) (item : ConfigDefault) : Database :=
  match config_rows db !! str (default_key item) with
  | Some _ => db
  | None => mk_database (<[str (default_key item) := (str (default_value item), str (default_description item))]>
                           (config_rows db)) (migrations db)
  end.

Definition initialize_config_database (db : Database) : outcome Database :=
  let db := create_schema db in
  validate_schema_version db;;
  Ret (foldl insert_default db config_defaults).

Definition config_schema_version (db : Database) : outcome Z :=
  db ← initialize_config_database db;
  Ret (read_schema_version db).

Definition read_config_values (db : Database) : gmap bytes bytes := fst <$> config_rows db.

Definition set_database_path (database_path : bytes) (c : ServerConfig) : ServerConfig :=
  let '(mk_config _
    x0 x1 x2 x3 x4 x5 x6 x7 x8 x9 x10 x11 x12 x13 x14 x15 x16 x17 x18 x19 x20 x21 x22 x23 x24 x25
    x26 x27 x28 x29 x30 x31 x32 x33 x34 x35 x36 x37 x38 x39 x40 x41 x42 x43 x44 x45 x46 x47 x48 x49
    x50 x51 x52 x53 x54 x55 x56 x57 x58 x59 x60 x61 x62 x63 x64 x65 x66 x67 x68 x69 x70) := c in
  mk_config database_path
    x0 x1 x2 x3 x4 x5 x6 x7 x8 x9 x10 x11 x12 x13 x14 x15 x16 x17 x18 x19 x20 x21 x22 x23 x24 x25
    x26 x27 x28 x29 x30 x31 x32 x33 x34 x35 x36 x37 x38 x39 x40 x41 x42 x43 x44 x45 x46 x47 x48 x49
    x50 x51 x52 x53 x54 x55 x56 x57 x58 x59 x60 x61 x62 x63 x64 x65 x66 x67 x68 x69 x70.

(** The configuration, and the database as it is afterwards. *)
Definition load_config_from_database (database_path : bytes) (db : Database) : outcome (ServerConfig * Database) :=
  db ← initialize_config_database db;
  config ← build_config (read_config_values db);
  Ret (set_database_path database_path config, db).

(** [UPDATE rimau_config SET value = ? WHERE key = ?]; the texts are bound up
    to their first NUL. *)
Definition set_config_value (db : Database) (key value : bytes) : outcome Database :=
  validate_config_value key value;;
  db ← initialize_config_database db;
  Ret (mk_database (alter (fun row => (c_str value, row.2)) (c_str key) (config_rows db)) (migrations db)).
End environment.

(** ** Description *)

Definition show_bool (b : bool) : bytes := if b then str "true" else str "false".

Definition config_fields (c : ServerConfig) : list (bytes * bytes) := [
  (str "host", host c);
  (str "port", to_string (port c));
  (str "document_root", document_root c);
  (str "directory_index", directory_index c);
  (str "error_page", error_page c);
  (str "max_request_bytes", to_string (max_request_bytes c));
  (str "http_keep_alive_enabled", show_bool (http_keep_alive_enabled c));
  (str "http_keep_alive_timeout_seconds", to_string (http_keep_alive_timeout_seconds c));
  (str "http_keep_alive_max_requests", to_string (http_keep_alive_max_requests c));
  (str "listen_backlog", to_string (listen_backlog c));
  (str "server_name", server_name c);
  (str "worker_threads", to_string (worker_threads c));
  (str "epoll_max_events", to_string (epoll_max_events c));
  (str "reuse_port_enabled", show_bool (reuse_port_enabled c));
  (str "tcp_keepalive_enabled", show_bool (tcp_keepalive_enabled c));
  (str "tcp_keepalive_idle_seconds", to_string (tcp_keepalive_idle_seconds c));
  (str "tcp_keepalive_interval_seconds", to_string (tcp_keepalive_interval_seconds c));
  (str "tcp_keepalive_probe_count", to_string (tcp_keepalive_probe_count c));
  (str "graceful_shutdown_timeout_seconds", to_string (graceful_shutdown_timeout_seconds c));
  (str "connection_pool_size", to_string (connection_pool_size c));
  (str "http1_enabled", show_bool (http1_enabled c));
  (str "http2_enabled", show_bool (http2_enabled c));
  (str "http3_enabled", show_bool (http3_enabled c));
  (str "tls_enabled", show_bool (tls_enabled c));
  (str "tls_certificate_file", tls_certificate_file c);
  (str "tls_private_key_file", tls_private_key_file c);
  (str "tls_min_version", tls_min_version c);
  (str "tls_max_version", tls_max_version c);
  (str "tls_cipher_list", tls_cipher_list c);
  (str "tls_ciphersuites", tls_ciphersuites c);
  (str "tls_alpn_protocols", tls_alpn_protocols c);
  (str "tls_sni_hosts", tls_sni_hosts c);
  (str "tls_sni_certificates", tls_sni_certificates c);
  (str "tls_sni_required", show_bool (tls_sni_required c));
  (str "request_timeout_seconds", to_string (request_timeout_seconds c));
  (str "header_timeout_seconds", to_string (header_timeout_seconds c));
  (str "body_timeout_seconds", to_string (body_timeout_seconds c));
  (str "idle_timeout_seconds", to_string (idle_timeout_seconds c));
  (str "global_connection_limit", to_string (global_connection_limit c));
  (str "per_ip_connection_limit", to_string (per_ip_connection_limit c));
  (str "rate_limit_enabled", show_bool (rate_limit_enabled c));
  (str "rate_limit_requests_per_minute", to_string (rate_limit_requests_per_minute c));
  (str "ip_allowlist", ip_allowlist c);
  (str "ip_blocklist", ip_blocklist c);
  (str "websocket_max_frame_bytes", to_string (websocket_max_frame_bytes c));
  (str "security_headers_enabled", show_bool (security_headers_enabled c));
  (str "security_header_content_security_policy", security_header_content_security_policy c);
  (str "security_header_strict_transport_security", security_header_strict_transport_security c);
  (str "security_header_x_content_type_options", security_header_x_content_type_options c);
  (str "security_header_x_frame_options", security_header_x_frame_options c);
  (str "security_header_referrer_policy", security_header_referrer_policy c);
  (str "security_header_cross_origin_opener_policy", security_header_cross_origin_opener_policy c);
  (str "server_header_enabled", show_bool (server_header_enabled c));
  (str "virtual_hosts_enabled", show_bool (virtual_hosts_enabled c));
  (str "virtual_hosts", virtual_hosts c);
  (str "virtual_host_waf_overrides", virtual_host_waf_overrides c);
  (str "reverse_proxy_connect_timeout_seconds", to_string (reverse_proxy_connect_timeout_seconds c));
  (str "reverse_proxy_read_timeout_seconds", to_string (reverse_proxy_read_timeout_seconds c));
  (str "reverse_proxy_max_response_bytes", to_string (reverse_proxy_max_response_bytes c));
  (str "reverse_proxy_retry_count", to_string (reverse_proxy_retry_count c));
  (str "reverse_proxy_load_balancing_policy", reverse_proxy_load_balancing_policy c);
  (str "reverse_proxy_tls_verify_upstream", show_bool (reverse_proxy_tls_verify_upstream c));
  (str "reverse_proxy_circuit_breaker_enabled", show_bool (reverse_proxy_circuit_breaker_enabled c));
  (str "reverse_proxy_circuit_breaker_failure_threshold", to_string (reverse_proxy_circuit_breaker_failure_threshold c));
  (str "reverse_proxy_circuit_breaker_cooldown_seconds", to_string (reverse_proxy_circuit_breaker_cooldown_seconds c));
  (str "modsecurity_enabled", show_bool (modsecurity_enabled c));
  (str "modsecurity_owasp_crs_enabled", show_bool (modsecurity_owasp_crs_enabled c));
  (str "modsecurity_blocking_enabled", show_bool (modsecurity_blocking_enabled c));
  (str "modsecurity_anomaly_threshold", to_string (modsecurity_anomaly_threshold c));
  (str "modsecurity_max_inspection_bytes", to_string (modsecurity_max_inspection_bytes c));
  (str "modsecurity_audit_log_enabled", show_bool (modsecurity_audit_log_enabled c))
].

Definition show_field (field : bytes * bytes) : bytes := field.1 ++ str "=" ++ field.2.

Definition join_fields (fields : list (bytes * bytes)) : bytes :=
  match fields with
  | [] => []
  | f :: fs => show_field f ++ (fs ≫= fun f => str ", " ++ show_field f)
  end.

Definition describe_config (c : ServerConfig) : bytes := join_fields (config_fields c).
