(* ===== verification/ConfigFacts.v ===== *)
(** * ConfigFacts: the configuration is loaded as it is stored

    The theorems about [Config]: what a loaded configuration satisfies and
    shows, and what setting a value does. *)

From S2P Require Import Prelude Text Numbers StaticFiles VirtualHost ReverseProxy Config.


(** ** What a value means

    The kind of a key, and how a stored value is shown once it is loaded. *)

Inductive Kind : Type := KText | KPort | KSize | KInt | KCount | KBool.

Definition kind_of (key : bytes) : Kind :=
  if bool_decide (key = str "port") then KPort
  else if bool_decide (key ∈ size_keys) then KSize
  else if bool_decide (key ∈ positive_int_keys) then KInt
  else if bool_decide (key ∈ non_negative_size_keys) then KCount
  else if bool_decide (key ∈ bool_keys) then KBool
  else KText.

Definition normal_form (key : string) (value : bytes) : outcome bytes :=
  match kind_of (str key) with
  | KText => Ret value
  | KPort => to_string <$> parse_port value
  | KSize => to_string <$> parse_size value key
  | KInt => to_string <$> parse_positive_int value key
  | KCount => to_string <$> parse_non_negative_size value key
  | KBool => show_bool <$> parse_bool value key
  end.

Definition shown (values : gmap bytes bytes) (key : string) (s : bytes) : Prop :=
  (v ← value_or_default values key; normal_form key v) = Ret s.

Definition keys : list string := default_key <$> config_defaults.

Ltac shown_field :=
  match goal with
  | H : ?f ?values ?k = Ret ?x |- shown ?values ?k _ =>
      unfold shown; revert H;
      unfold port_field, size_field, int_field, count_field, bool_field;
      let v := fresh "v" in
      destruct (value_or_default values k) as [v| |]; cbn [mbind outcome_bind]; [|discriminate..];
      let kd := eval vm_compute in (kind_of (str k)) in
      unfold normal_form; change (kind_of (str k)) with kd; cbn match;
      let H := fresh in intros H; rewrite H; reflexivity
  end.

Lemma read_fields_shown values c :
  read_fields values = Ret c -> Forall2 (shown values) keys (snd <$> config_fields c).
Proof.
  unfold read_fields. intros H. inv_ret. subst c.
  cbn [config_fields fmap list_fmap snd keys config_defaults default_key].
  repeat (apply Forall2_cons; split; [cbn -[shown]; shown_field|]). apply Forall2_nil_2.
Qed.

Lemma shown_value values key s : shown values key s -> exists v, value_or_default values key = Ret v.
Proof. unfold shown. destruct (value_or_default values key); [by eexists|done..]. Qed.

Ltac field_total :=
  match goal with
  | H : exists s, shown ?values ?k s |- exists x, ?f ?values ?k = Ret x =>
      let s := fresh "s" in let v := fresh "v" in
      destruct H as [s H]; unfold shown in H;
      unfold port_field, size_field, int_field, count_field, bool_field;
      destruct (value_or_default values k) as [v| |]; cbn [mbind outcome_bind] in *; [|discriminate..];
      let kd := eval vm_compute in (kind_of (str k)) in
      unfold normal_form in H; change (kind_of (str k)) with kd in H; cbn match in H;
      first [by eexists | match goal with |- exists x, ?m = Ret x => destruct m; [by eexists|discriminate..] end]
  end.

Lemma read_fields_total values :
  Forall (fun k => exists s, shown values k s) keys -> exists c, read_fields values = Ret c.
Proof.
  unfold keys. cbn [config_defaults fmap list_fmap default_key]. intros F.
  repeat match type of F with
         | Forall _ (_ :: _) => apply Forall_cons in F as [? F]
         end.
  clear F. unfold read_fields.
  repeat match goal with
         | |- exists c, mbind _ ?m = Ret c =>
             let x := fresh "x" in let Hx := fresh "Hx" in
             assert (exists x, m = Ret x) as [x Hx] by field_total;
             rewrite Hx; clear Hx; cbn [mbind outcome_bind]
         end.
  by eexists.
Qed.

Ltac read_values H := unfold read_fields in H; inv_ret; subst.

(** ** What a loaded configuration satisfies *)

Definition nonempty (v : bytes) : bool := negb (bool_decide (v = [])).
Definition no_control (v : bytes) : bool := negb (contains_control_character v).
Definition is_ret {A} (m : outcome A) : bool := match m with Ret _ => true | _ => false end.

Lemma is_ret_Ret {A} (m : outcome A) : is_ret m = true <-> exists x, m = Ret x.
Proof. split; [destruct m; [by eexists|done..]|by intros [x ->]]. Qed.

(** Keys whose check involves other keys. *)
Definition cross_keys : list bytes := str <$>
  ["tls_enabled"; "http1_enabled"; "http2_enabled"; "tls_alpn_protocols"; "tls_min_version";
   "tls_max_version"; "tls_certificate_file"; "tls_private_key_file"; "tls_sni_certificates"]%string.

Section checks.
Context (inet_pton : Family -> bytes -> option bytes) (is_regular_file : bytes -> outcome bool).

(** The conditions of [check_fields] that concern one key. *)
Definition field_checks : list (string * (bytes -> bool)) :=
  [("host", nonempty); ("document_root", nonempty); ("server_name", nonempty);
   ("server_name", no_control); ("tls_cipher_list", no_control); ("directory_index", no_control);
   ("error_page", no_control); ("tls_ciphersuites", no_control); ("tls_alpn_protocols", no_control);
   ("tls_sni_hosts", no_control); ("tls_sni_certificates", no_control); ("ip_allowlist", no_control);
   ("ip_blocklist", no_control); ("security_header_content_security_policy", no_control);
   ("security_header_strict_transport_security", no_control);
   ("security_header_x_content_type_options", no_control); ("security_header_x_frame_options", no_control);
   ("security_header_referrer_policy", no_control); ("security_header_cross_origin_opener_policy", no_control);
   ("virtual_hosts", no_control); ("virtual_host_waf_overrides", no_control);
   ("tls_min_version", valid_tls_version); ("directory_index", valid_directory_index);
   ("tls_max_version", valid_tls_version); ("tls_sni_certificates", valid_sni_certificate_map);
   ("ip_allowlist", valid_ip_list inet_pton); ("ip_blocklist", valid_ip_list inet_pton);
   ("virtual_hosts", is_ret ∘ parse_virtual_host_rules);
   ("virtual_host_waf_overrides", is_ret ∘ parse_virtual_host_waf_overrides);
   ("reverse_proxy_load_balancing_policy", is_ret ∘ parse_reverse_proxy_load_balancing_policy);
   ("tls_certificate_file", nonempty); ("tls_private_key_file", nonempty)]%string.

Definition text_fields (c : ServerConfig) : list (string * bytes) :=
  [("host", host c); ("document_root", document_root c); ("server_name", server_name c);
   ("server_name", server_name c); ("tls_cipher_list", tls_cipher_list c);
   ("directory_index", directory_index c); ("error_page", error_page c);
   ("tls_ciphersuites", tls_ciphersuites c); ("tls_alpn_protocols", tls_alpn_protocols c);
   ("tls_sni_hosts", tls_sni_hosts c); ("tls_sni_certificates", tls_sni_certificates c);
   ("ip_allowlist", ip_allowlist c); ("ip_blocklist", ip_blocklist c);
   ("security_header_content_security_policy", security_header_content_security_policy c);
   ("security_header_strict_transport_security", security_header_strict_transport_security c);
   ("security_header_x_content_type_options", security_header_x_content_type_options c);
   ("security_header_x_frame_options", security_header_x_frame_options c);
   ("security_header_referrer_policy", security_header_referrer_policy c);
   ("security_header_cross_origin_opener_policy", security_header_cross_origin_opener_policy c);
   ("virtual_hosts", virtual_hosts c); ("virtual_host_waf_overrides", virtual_host_waf_overrides c);
   ("tls_min_version", tls_min_version c); ("directory_index", directory_index c);
   ("tls_max_version", tls_max_version c); ("tls_sni_certificates", tls_sni_certificates c);
   ("ip_allowlist", ip_allowlist c); ("ip_blocklist", ip_blocklist c);
   ("virtual_hosts", virtual_hosts c); ("virtual_host_waf_overrides", virtual_host_waf_overrides c);
   ("reverse_proxy_load_balancing_policy", reverse_proxy_load_balancing_policy c);
   ("tls_certificate_file", tls_certificate_file c); ("tls_private_key_file", tls_private_key_file c)]%string.

Definition fields_valid (c : ServerConfig) : Prop :=
  Forall2 (fun f k => k.2 f.2 = true) (text_fields c) field_checks.

(** The conditions that concern several keys. *)
Record cross_valid (c : ServerConfig) : Prop := {
  tls_versions_ordered : tls_min_version c = str "TLSv1.3" -> tls_max_version c <> str "TLSv1.2";
  alpn_valid : validate_alpn_protocols c = Ret ();
  tls_files_exist : ensure_tls_files is_regular_file c = Ret ();
}.

Lemma ensure_no_control_Ret f u : ensure_no_control f = Ret u <-> no_control f.2 = true.
Proof. unfold ensure_no_control, no_control. rewrite throw_if_Ret, negb_true_iff. done. Qed.

Lemma check_control c :
  foldO (fun _ => ensure_no_control) () (controlled_fields c) = Ret ()
  <-> Forall (fun f => no_control f.2 = true) (controlled_fields c).
Proof.
  induction (controlled_fields c) as [|f fs IH]; [done|]. cbn [foldO]. rewrite Forall_cons, <- IH.
  rewrite <- ensure_no_control_Ret with (u := ()). destruct (ensure_no_control f) as [[]| |]; cbn; naive_solver.
Qed.

Ltac conjuncts F :=
  repeat match type of F with
         | Forall _ (_ :: _) => apply Forall_cons in F as [? F]
         | Forall2 _ (_ :: _) (_ :: _) => apply Forall2_cons in F as [? F]
         end.

Lemma check_fields_spec c :
  check_fields inet_pton is_regular_file c = Ret () <-> fields_valid c /\ cross_valid c.
Proof.
  unfold check_fields. split.
  - intros H. inv_ret.
    repeat match goal with x : () |- _ => destruct x end.
    match goal with H : foldO _ _ _ = _ |- _ => apply check_control in H as F end.
    unfold controlled_fields in F. conjuncts F. split.
    + unfold fields_valid, text_fields, field_checks, nonempty, compose.
      repeat (apply Forall2_cons; split; [cbn [fst snd] in *|]); try apply Forall2_nil_2; try assumption;
        try (apply negb_true_iff; assumption); try (apply negb_false_iff; assumption);
        apply is_ret_Ret; by eexists.
    + split; [|assumption|assumption]. intros E1 E2.
      match goal with H : bool_decide _ && bool_decide _ = false |- _ =>
        rewrite !bool_decide_true in H by assumption; discriminate H end.
  - intros [F [Hv Ha Ht]]. unfold fields_valid, text_fields, field_checks, nonempty, compose in F.
    conjuncts F. cbn [fst snd] in *.
    repeat match goal with
           | H : negb _ = true |- _ => apply negb_true_iff in H; rewrite H
           | H : is_ret _ = true |- _ => apply is_ret_Ret in H as [? H]; rewrite H
           end.
    cbn [throw_if mbind outcome_bind].
    rewrite (proj2 (check_control c)) by (unfold controlled_fields; repeat (constructor; [assumption|]); constructor).
    repeat match goal with H : _ = true |- _ => rewrite H; clear H end.
    cbn [negb throw_if mbind outcome_bind].
    replace (bool_decide (tls_min_version c = str "TLSv1.3") && bool_decide (tls_max_version c = str "TLSv1.2")) with false.
    2: { symmetry. apply andb_false_iff. destruct (decide (tls_min_version c = str "TLSv1.3")) as [E|E].
         - right. by apply bool_decide_false, Hv.
         - left. by apply bool_decide_false. }
    cbn [throw_if mbind outcome_bind]. rewrite Ha. cbn [mbind outcome_bind]. exact Ht.
Qed.


Lemma read_fields_text values c :
  read_fields values = Ret c -> Forall (fun f => value_or_default values f.1 = Ret f.2) (text_fields c).
Proof using Type.
  intros H. read_values H. unfold text_fields.
  repeat (apply Forall_cons; split; [cbn -[value_or_default]; assumption|]). constructor.
Qed.

Lemma cross_valid_agree values values' c c' :
  read_fields values = Ret c -> read_fields values' = Ret c' ->
  (forall k, str k ∈ cross_keys -> values !! str k = values' !! str k) ->
  cross_valid c -> cross_valid c'.
Proof using Type.
  intros H H' A.
  assert (V : forall k, str k ∈ cross_keys -> value_or_default values k = value_or_default values' k)
    by (intros k Hk; unfold value_or_default; by rewrite A).
  assert (B : forall k, str k ∈ cross_keys -> bool_field values k = bool_field values' k)
    by (intros k Hk; unfold bool_field; by rewrite V).
  assert (E : tls_enabled c = tls_enabled c' /\ http1_enabled c = http1_enabled c' /\
    http2_enabled c = http2_enabled c' /\ tls_alpn_protocols c = tls_alpn_protocols c' /\
    tls_min_version c = tls_min_version c' /\ tls_max_version c = tls_max_version c' /\
    tls_certificate_file c = tls_certificate_file c' /\ tls_private_key_file c = tls_private_key_file c' /\
    tls_sni_certificates c = tls_sni_certificates c').
  { read_values H. read_values H'.
    cbn [tls_enabled http1_enabled http2_enabled tls_alpn_protocols tls_min_version tls_max_version
         tls_certificate_file tls_private_key_file tls_sni_certificates].
    repeat split;
      match goal with H1 : ?f values ?k = Ret ?x, H2 : ?f values' ?k = Ret ?y |- ?x = ?y =>
        let P := fresh in
        assert (P : f values k = f values' k) by first [apply B; by_decide | apply V; by_decide];
        rewrite H1, H2 in P; by injection P
      end. }
  destruct E as (E1 & E2 & E3 & E4 & E5 & E6 & E7 & E8 & E9). clear H H' V B.
  intros [Hv Ha Ht]. split.
  - by rewrite <- E5, <- E6.
  - rewrite <- Ha. unfold validate_alpn_protocols, alpn_protocols.
    rewrite <- E1, <- E2, <- E3, <- E4.
    assert (G : forall b p, alpn_protocol c' b p = alpn_protocol c b p)
      by (intros b p; unfold alpn_protocol; by rewrite E1, E2, E3).
    assert (F : forall ps b, foldO (alpn_protocol c') b ps = foldO (alpn_protocol c) b ps).
    { induction ps as [|p ps IH]; intros b; [done|]. cbn [foldO]. rewrite G.
      by destruct (alpn_protocol c b p); cbn; rewrite ?IH. }
    by rewrite F.
  - rewrite <- Ht. unfold ensure_tls_files. by rewrite <- E1, <- E7, <- E8, <- E9.
Qed.

(** *** A value that passes [validate_config_value] *)

Lemma kind_parses key v :
  validate_config_value inet_pton (str key) v = Ret () -> String.string_of_list_byte (str key) = key ->
  exists s, normal_form key v = Ret s.
Proof using Type.
  unfold validate_config_value, normal_form, kind_of. intros H E. rewrite E in H. inv_ret.
  assert (L : forall A (m : outcome A) (g : A -> bytes), (_ ← m; Ret ()) = Ret () -> exists s, g <$> m = Ret s).
  { intros A m g Hm. destruct m; [by eexists|discriminate..]. }
  case_bool_decide; [exact (L _ _ _ H)|]. case_bool_decide; [exact (L _ _ _ H)|]. case_bool_decide; [exact (L _ _ _ H)|].
  case_bool_decide; [exact (L _ _ _ H)|].
  destruct (decide (str key ∈ bool_keys)) as [Kb|Kb];
    [|rewrite bool_decide_false by exact Kb; by eexists].
  rewrite (bool_decide_true (str key ∈ bool_keys)) in H |- * by exact Kb.
  assert (D : str key <> str "tls_min_version" /\ str key <> str "tls_max_version" /\ str key ∉ text_keys).
  { revert Kb. generalize (str key). apply Forall_forall. by_decide. }
  destruct D as (D1 & D2 & D3). rewrite !bool_decide_false in H by assumption. exact (L _ _ _ H).
Qed.

Ltac eval_keys H :=
  repeat match type of H with
         | context [bool_decide (str ?k ∈ ?l)] =>
             let b := eval vm_compute in (bool_decide (str k ∈ l)) in change (bool_decide (str k ∈ l)) with b in H
         | context [bool_decide (str ?k = str ?l)] =>
             let b := eval vm_compute in (bool_decide (str k = str l)) in
             change (bool_decide (str k = str l)) with b in H
         | context [is_optional_string_key (str ?k)] =>
             let b := eval vm_compute in (is_optional_string_key (str k)) in
             change (is_optional_string_key (str k)) with b in H
         end.

Lemma validated_field key v :
  validate_config_value inet_pton (str key) v = Ret () ->
  Forall (fun kp => kp.1 = key -> kp.2 v = true) field_checks.
Proof using Type.
  intros H. unfold field_checks.
  repeat (apply Forall_cons; split; [cbn [fst snd]; intros <-; unfold validate_config_value, validate_text in H;
    eval_keys H; cbn [andb orb negb] in H; rewrite ?andb_true_r in H; inv_ret|]); [..|constructor].
  all: unfold nonempty, no_control, compose.
  all: try (apply negb_true_iff; assumption); try (apply negb_false_iff; assumption).
  all: apply is_ret_Ret; by eexists.
Qed.
End checks.

(** ** The database *)

(** The value that a key has for the server: the stored one, or the default
    of the table. *)
Definition stored (db : Database) (key : string) : bytes :=
  default (default [] (find_default (str key))) (read_config_values db !! str key).

Definition newest_supported (db : Database) : Prop :=
  read_schema_version (create_schema db) <= current_config_schema_version.

Lemma insert_default_lookup db item k :
  read_config_values (insert_default db item) !! k =
  match read_config_values db !! k with
  | Some v => Some v
  | None => if decide (str (default_key item) = k) then Some (str (default_value item)) else None
  end.
Proof.
  unfold insert_default, read_config_values. rewrite lookup_fmap.
  destruct (config_rows db !! str (default_key item)) as [row|] eqn:E.
  - rewrite lookup_fmap. destruct (config_rows db !! k) eqn:F; [done|]. cbn. case_decide; [|done].
    subst. by rewrite E in F.
  - cbn [config_rows]. rewrite lookup_fmap. case_decide as D.
    + subst k. by rewrite lookup_insert_eq, E.
    + rewrite lookup_insert_ne by done. by destruct (config_rows db !! k).
Qed.

Lemma insert_defaults_lookup items db k :
  read_config_values (foldl insert_default db items) !! k =
  match read_config_values db !! k with
  | Some v => Some v
  | None => head ((str ∘ default_value) <$> filter (fun item => str (default_key item) = k) items)
  end.
Proof.
  revert db; induction items as [|item items IH]; intros db; cbn [foldl].
  { by destruct (read_config_values db !! k). }
  rewrite IH, insert_default_lookup. destruct (read_config_values db !! k); [done|].
  rewrite filter_cons. by destruct (decide (str (default_key item) = k)).
Qed.

Lemma insert_defaults_migrations items db :
  migrations (foldl insert_default db items) = migrations db.
Proof.
  revert db; induction items as [|item items IH]; intros db; [done|]. cbn [foldl]. rewrite IH.
  unfold insert_default. by destruct (config_rows db !! _).
Qed.

Lemma initialize_spec db db' :
  initialize_config_database db = Ret db' <->
  newest_supported db /\ db' = foldl insert_default (create_schema db) config_defaults.
Proof.
  unfold initialize_config_database, validate_schema_version, newest_supported, raise_with.
  set (items := config_defaults). clearbody items.
  destruct (Z.ltb_spec current_config_schema_version (read_schema_version (create_schema db)));
    cbn [mbind outcome_bind]; split.
  - done.
  - intros [? _]. lia.
  - intros [= <-]. split; [lia|done].
  - by intros [_ ->].
Qed.

Lemma find_default_lookup key : find_default key =
  head ((str ∘ default_value) <$> filter (fun item => str (default_key item) = key) config_defaults).
Proof. reflexivity. Qed.

Lemma find_default_keys key : key ∈ keys -> is_Some (find_default (str key)).
Proof.
  assert (F : Forall (fun k => is_Some (find_default (str k))) keys) by by_decide.
  rewrite Forall_forall in F. apply F.
Qed.

Lemma c_str_keys key : key ∈ keys -> c_str (str key) = str key.
Proof.
  assert (F : Forall (fun k => c_str (str k) = str k) keys) by by_decide.
  rewrite Forall_forall in F. apply F.
Qed.

Lemma initialized_lookup db db' k :
  initialize_config_database db = Ret db' ->
  read_config_values db' !! k = match read_config_values db !! k with Some v => Some v | None => find_default k end.
Proof. intros [_ ->]%initialize_spec. rewrite insert_defaults_lookup, find_default_lookup. reflexivity. Qed.

Lemma initialized_value db db' key :
  initialize_config_database db = Ret db' -> key ∈ keys ->
  value_or_default (read_config_values db') key = Ret (stored db key).
Proof.
  intros I Hk. unfold value_or_default. rewrite (initialized_lookup _ _ _ I). unfold stored.
  destruct (read_config_values db !! str key); [done|]. by destruct (find_default_keys key Hk) as [v ->].
Qed.

Lemma initialized_row db db' key :
  initialize_config_database db = Ret db' -> key ∈ keys -> is_Some (config_rows db' !! str key).
Proof.
  intros I Hk. apply (initialized_lookup _ _ (str key)) in I. destruct (find_default_keys key Hk) as [v Hv].
  rewrite Hv in I. unfold read_config_values in I. rewrite !lookup_fmap in I.
  destruct (config_rows db' !! str key); [done|]. by destruct (config_rows db !! str key).
Qed.

Lemma create_schema_idem db : migrations (create_schema (create_schema db)) = migrations (create_schema db).
Proof.
  unfold create_schema at 1. cbn [migrations]. rewrite bool_decide_true; [done|].
  unfold create_schema. cbn [migrations]. case_bool_decide; [done|]. apply list_elem_of_here.
Qed.

(** Once a database has been used, it can be used again, whatever its rows. *)
Lemma initialize_again db db' rows :
  initialize_config_database db = Ret db' ->
  exists d, initialize_config_database (mk_database rows (migrations db')) = Ret d.
Proof.
  intros [N ->]%initialize_spec. eexists. apply initialize_spec. split; [|reflexivity].
  rewrite insert_defaults_migrations. unfold newest_supported in *.
  assert (E : migrations (create_schema (mk_database rows (migrations (create_schema db))))
              = migrations (create_schema db)) by (rewrite <- (create_schema_idem db) at 2; done).
  unfold read_schema_version in *. by rewrite E.
Qed.

Lemma c_str_id s : Byte.x00 ∉ s -> c_str s = s.
Proof. intros H. unfold c_str. by rewrite (proj2 (find_byte_None _ _) H). Qed.

Lemma supported_key key : is_supported_key (str key) = true -> str key ∈ str <$> keys.
Proof.
  unfold is_supported_key. intros (item & Hi & Hb)%existsb_exists. apply bool_decide_eq_true in Hb.
  rewrite Hb. apply list_elem_of_fmap. exists (default_key item). split; [done|].
  unfold keys. apply list_elem_of_fmap. exists item. split; [done|]. by apply list_elem_of_In.
Qed.

Lemma str_inj a b : str a = str b -> a = b.
Proof.
  intros H. rewrite <- (String.string_of_list_byte_of_string a), <- (String.string_of_list_byte_of_string b).
  unfold str in H. by rewrite H.
Qed.

Section loading.
Context (inet_pton : Family -> bytes -> option bytes) (is_regular_file : bytes -> outcome bool).

Lemma load_spec path db c db' :
  load_config_from_database inet_pton is_regular_file path db = Ret (c, db') <->
  exists c0, initialize_config_database db = Ret db' /\ read_fields (read_config_values db') = Ret c0 /\
    fields_valid inet_pton c0 /\ cross_valid is_regular_file c0 /\ c = set_database_path path c0.
Proof.
  unfold load_config_from_database, build_config. split.
  - intros H. inv_ret. subst. repeat match goal with x : () |- _ => destruct x end.
    match goal with H : check_fields _ _ _ = _ |- _ => apply check_fields_spec in H as [? ?] end.
    eexists. split; [eassumption|]. split; [eassumption|]. split; [assumption|]. split; [assumption|reflexivity].
  - intros (c0 & -> & Hr & Hf & Hc & ->). cbn [mbind outcome_bind]. rewrite Hr. cbn [mbind outcome_bind].
    rewrite (proj2 (check_fields_spec _ _ _)) by done. done.
Qed.

Lemma set_database_path_fields path c : config_fields (set_database_path path c) = config_fields c.
Proof. by destruct c. Qed.

Lemma set_config_value_spec db key value db' :
  set_config_value inet_pton db (str key) value = Ret db' -> Byte.x00 ∉ value ->
  key ∈ keys /\ validate_config_value inet_pton (str key) value = Ret () /\
  exists d, initialize_config_database db = Ret d /\ migrations db' = migrations d /\
    read_config_values db' = <[str key := value]> (read_config_values d).
Proof.
  unfold set_config_value. intros H Hv. inv_ret. subst db'. destruct x.
  assert (K : key ∈ keys).
  { pose proof Hx as V. unfold validate_config_value in V. inv_ret.
    match goal with H : negb _ = false |- _ => apply negb_false_iff, supported_key in H end.
    apply list_elem_of_fmap in Hx1 as (k & E & Hk). by rewrite (str_inj _ _ E). }
  split; [done|]. split; [done|]. exists x0. split; [done|]. split; [done|].
  rewrite (c_str_keys key K), c_str_id by done. unfold read_config_values. cbn [config_rows].
  pose proof (initialized_row _ _ _ Hx0 K) as S.
  destruct S as [row Hrow]. apply map_eq. intros k. rewrite lookup_fmap.
  destruct (decide (str key = k)) as [<- |N].
  - by rewrite lookup_alter_eq, lookup_insert_eq, Hrow.
  - by rewrite lookup_alter_ne, lookup_insert_ne, lookup_fmap by done.
Qed.
End loading.

(** *** Bounds *)

Lemma stoi_range v n k : stoi v = Ret (n, k) -> - 2 ^ 31 <= n < 2 ^ 31.
Proof.
  unfold stoi. destruct (leading_number v) as [[[neg m] j]|]; [|done].
  destruct (_ || _) eqn:E; [done|]. apply orb_false_iff in E as [E1%Z.ltb_ge E2%Z.ltb_ge].
  intros [= <- <-]. lia.
Qed.

Lemma leading_digits_nonneg acc n s : 0 <= acc -> 0 <= (leading_digits acc n s).1.
Proof.
  revert acc n; induction s as [|c s IH]; intros acc n H; [done|]. cbn [leading_digits].
  destruct (dec_digit c) eqn:D; [|done]. apply dec_digit_range in D. apply IH. lia.
Qed.

Lemma stoull_range v n k : stoull v = Ret (n, k) -> 0 <= n <= size_max.
Proof.
  unfold stoull, leading_number. set (s2 := match drop_while isspace v with [] => _ | _ => _ end).
  destruct s2 as [neg s2]. pose proof (leading_digits_nonneg 0 0 s2 ltac:(lia)) as P.
  destruct (leading_digits 0 0 s2) as [m j]. cbn [fst] in P. destruct (j =? 0)%nat; [done|].
  destruct (Z.ltb_spec size_max m); [done|]. intros [= <- <-]. destruct neg; [|done].
  pose proof (wrap_range 64 (- m) ltac:(lia)). unfold size_max. unfold wrap in *. lia.
Qed.

Lemma catch_number_Ret {A} key (m : outcome A) x : catch_number key m = Ret x <-> m = Ret x.
Proof.
  unfold catch_number. destruct m; [done|split; [|done]|done].
  by repeat case_decide.
Qed.

Lemma parse_port_range v n : parse_port v = Ret n -> 1 <= n <= 65535.
Proof.
  unfold parse_port. intros H. inv_ret. destruct x as [p k]. inv_ret. subst.
  match goal with H : _ || _ = false |- _ => apply orb_false_iff in H as [?%Z.ltb_ge ?%Z.ltb_ge] end. lia.
Qed.

Lemma parse_positive_int_range v key n : parse_positive_int v key = Ret n -> 1 <= n <= 2 ^ 31 - 1.
Proof.
  unfold parse_positive_int. intros H. inv_ret. destruct x as [p k]. inv_ret. subst.
  match goal with H : catch_number _ _ = _ |- _ => apply catch_number_Ret, stoi_range in H end.
  match goal with H : (_ <? 1) = false |- _ => apply Z.ltb_ge in H end. lia.
Qed.

Lemma parse_size_range v key n : parse_size v key = Ret n -> 1 <= n <= size_max.
Proof.
  unfold parse_size. intros H. inv_ret. destruct x as [p k]. inv_ret. subst.
  match goal with H : catch_number _ _ = _ |- _ => apply catch_number_Ret, stoull_range in H end.
  match goal with H : (_ =? 0) = false |- _ => apply Z.eqb_neq in H end. lia.
Qed.

Lemma parse_non_negative_size_range v key n : parse_non_negative_size v key = Ret n -> 0 <= n <= size_max.
Proof.
  unfold parse_non_negative_size. intros H. inv_ret. destruct x as [p k]. inv_ret. subst.
  by match goal with H : catch_number _ _ = _ |- _ => apply catch_number_Ret, stoull_range in H end.
Qed.

Definition int_fields (c : ServerConfig) : list Z :=
  [http_keep_alive_timeout_seconds c; http_keep_alive_max_requests c; listen_backlog c; epoll_max_events c;
   tcp_keepalive_idle_seconds c; tcp_keepalive_interval_seconds c; tcp_keepalive_probe_count c;
   graceful_shutdown_timeout_seconds c; request_timeout_seconds c; header_timeout_seconds c;
   body_timeout_seconds c; idle_timeout_seconds c; rate_limit_requests_per_minute c;
   reverse_proxy_connect_timeout_seconds c; reverse_proxy_read_timeout_seconds c;
   reverse_proxy_circuit_breaker_cooldown_seconds c].

Definition size_fields (c : ServerConfig) : list Z :=
  [max_request_bytes c; global_connection_limit c; per_ip_connection_limit c; websocket_max_frame_bytes c;
   reverse_proxy_max_response_bytes c; reverse_proxy_circuit_breaker_failure_threshold c;
   modsecurity_anomaly_threshold c; modsecurity_max_inspection_bytes c].

Definition count_fields (c : ServerConfig) : list Z :=
  [worker_threads c; connection_pool_size c; reverse_proxy_retry_count c].

Record config_wf (is_regular_file : bytes -> outcome bool) (c : ServerConfig) : Prop := {
  wf_port : 1 <= port c <= 65535;
  wf_ints : Forall (fun n => 1 <= n <= 2 ^ 31 - 1) (int_fields c);
  wf_sizes : Forall (fun n => 1 <= n <= size_max) (size_fields c);
  wf_counts : Forall (fun n => 0 <= n <= size_max) (count_fields c);
  wf_texts : Forall (fun f => contains_control_character f.2 = false) (controlled_fields c);
  wf_nonempty : Forall (fun v => v <> []) [host c; document_root c; server_name c];
  wf_index : valid_directory_index (directory_index c) = true;
  wf_versions : (tls_min_version c, tls_max_version c)
    ∈ [(str "TLSv1.2", str "TLSv1.2"); (str "TLSv1.2", str "TLSv1.3"); (str "TLSv1.3", str "TLSv1.3")];
  wf_alpn : alpn_protocols c <> [] /\ Forall (fun p => p = str "http/1.1" \/ p = str "h2") (alpn_protocols c);
  wf_alpn_enabled : tls_enabled c = true ->
    (str "http/1.1" ∈ alpn_protocols c -> http1_enabled c = true) /\
    (str "h2" ∈ alpn_protocols c -> http2_enabled c = true);
  wf_sni : valid_sni_certificate_map (tls_sni_certificates c) = true;
  wf_tls_files : tls_enabled c = true ->
    is_regular_file (tls_certificate_file c) = Ret true /\ is_regular_file (tls_private_key_file c) = Ret true;
}.

Lemma read_fields_bounds values c :
  read_fields values = Ret c ->
  1 <= port c <= 65535 /\ Forall (fun n => 1 <= n <= 2 ^ 31 - 1) (int_fields c) /\
  Forall (fun n => 1 <= n <= size_max) (size_fields c) /\ Forall (fun n => 0 <= n <= size_max) (count_fields c).
Proof.
  intros H. read_values H.
  assert (I : forall k n, int_field values k = Ret n -> 1 <= n <= 2 ^ 31 - 1)
    by (unfold int_field; intros; inv_ret; by eapply parse_positive_int_range).
  assert (S : forall k n, size_field values k = Ret n -> 1 <= n <= size_max)
    by (unfold size_field; intros; inv_ret; by eapply parse_size_range).
  assert (C : forall k n, count_field values k = Ret n -> 0 <= n <= size_max)
    by (unfold count_field; intros; inv_ret; by eapply parse_non_negative_size_range).
  split.
  - match goal with H : port_field values "port" = Ret ?x |- _ =>
      unfold port_field in H; inv_ret; by eapply parse_port_range end.
  - unfold int_fields, size_fields, count_fields.
    split; [|split]; repeat (apply Forall_cons; split; [first [eapply I; eassumption|eapply S; eassumption|eapply C; eassumption]|]);
      constructor.
Qed.

Lemma alpn_loop c ps b b' :
  foldO (alpn_protocol c) b ps = Ret b' ->
  Forall (fun p => p = str "http/1.1" \/ p = str "h2") ps /\ (b' = true -> b = true \/ ps <> []) /\
  (tls_enabled c = true -> (str "http/1.1" ∈ ps -> http1_enabled c = true) /\ (str "h2" ∈ ps -> http2_enabled c = true)).
Proof.
  revert b; induction ps as [|p ps IH]; intros b H; cbn [foldO] in H.
  { injection H as ->. split; [constructor|]. split; [by left|]. split; by intros ?%not_elem_of_nil. }
  apply bind_Ret in H as (b1 & H1 & H). destruct (IH b1 H) as (F & _ & E). clear IH H.
  unfold alpn_protocol in H1. case_bool_decide as P1.
  { inv_ret. split; [constructor; auto|]. split; [by right|]. intros T. destruct (E T) as [E1 E2].
    match goal with H : _ && _ = false |- _ => rewrite T in H; apply negb_false_iff in H end.
    split; [done|]. intros [Q|]%elem_of_cons; [|auto]. by rewrite P1 in Q. }
  case_bool_decide as P2; [|by case_bool_decide].
  inv_ret. split; [constructor; auto|]. split; [by right|]. intros T. destruct (E T) as [E1 E2].
  match goal with H : _ && _ = false |- _ => rewrite T in H; apply negb_false_iff in H end.
  split; [|done]. intros [Q|]%elem_of_cons; [by rewrite P2 in Q|auto].
Qed.

(** ** Properties *)

Lemma value_agree values values' key :
  values !! str key = values' !! str key -> value_or_default values key = value_or_default values' key.
Proof. intros E. unfold value_or_default. by rewrite E. Qed.

Lemma shown_keys values c :
  read_fields values = Ret c -> Forall (fun k => exists s, shown values k s) keys.
Proof.
  intros H%read_fields_shown. apply Forall_forall. intros k Hk.
  apply Forall2_flip in H. apply list_elem_of_lookup in Hk as [i Hi].
  apply Forall2_flip in H. destruct (Forall2_lookup_l _ _ _ _ _ H Hi) as (s & _ & S). by exists s.
Qed.

(** Setting one key to a validated value keeps every other field. *)
Lemma set_loads inet_pton is_regular_file values c key value :
  key ∈ keys -> validate_config_value inet_pton (str key) value = Ret () ->
  str key ∉ cross_keys -> read_fields values = Ret c ->
  fields_valid inet_pton c -> cross_valid is_regular_file c ->
  exists c', read_fields (<[str key := value]> values) = Ret c' /\
    fields_valid inet_pton c' /\ cross_valid is_regular_file c'.
Proof.
  intros Hk Hv Hx Hr Hf Hc. set (values' := <[str key := value]> values).
  assert (Same : forall k, k <> key -> values !! str k = values' !! str k).
  { intros k N. unfold values'. rewrite lookup_insert_ne; [done|]. by intros E%str_inj. }
  assert (New : value_or_default values' key = Ret value)
    by (unfold value_or_default, values'; by rewrite lookup_insert_eq).
  destruct (read_fields_total values') as [c' Hr'].
  { apply Forall_forall. intros k Hk'. destruct (decide (k = key)) as [-> |N].
    - destruct (kind_parses inet_pton key value Hv (String.string_of_list_byte_of_string key)) as [s Hs].
      exists s. unfold shown. by rewrite New.
    - pose proof (shown_keys _ _ Hr) as F. rewrite Forall_forall in F. destruct (F k Hk') as [s Hs].
      exists s. unfold shown in *. by rewrite (value_agree _ _ _ (eq_sym (Same k N))). }
  exists c'. split; [done|]. split.
  - pose proof (read_fields_text _ _ Hr) as T. pose proof (read_fields_text _ _ Hr') as T'.
    pose proof (validated_field inet_pton key value Hv) as V. unfold fields_valid in *.
    assert (E : fst <$> text_fields c = fst <$> text_fields c') by done.
    assert (E2 : fst <$> text_fields c' = fst <$> field_checks inet_pton) by done.
    revert Hf V T T' E E2. generalize (text_fields c), (text_fields c'), (field_checks inet_pton). clear -Same New.
    intros fs fs' ks. revert fs'. induction fs as [|[n v] fs IH] in ks |- *; intros fs' Hf V T T' E E2.
    + destruct fs'; [|done]. apply Forall2_nil_inv_l in Hf as ->. constructor.
    + destruct fs' as [|[n' v'] fs']; [done|]. cbn in E. injection E as <- E.
      apply Forall2_cons_inv_l in Hf as ([n2 p] & ks' & Hp & Hf & ->). cbn in E2. injection E2 as <- E2.
      apply Forall_cons in V as [V1 V], T as [T1 T], T' as [T1' T']. cbn [fst snd] in *.
      constructor; [|by apply IH]. cbn [fst snd]. destruct (decide (n = key)) as [-> |N].
      * rewrite New in T1'. injection T1' as <-. by apply V1.
      * rewrite <- (value_agree _ _ _ (Same n N)), T1 in T1'. by injection T1' as <-.
  - eapply cross_valid_agree; [exact Hr|exact Hr'| |exact Hc].
    intros k Kc. apply Same. by intros ->.
Qed.

Lemma read_fields_ext values values' :
  (forall k, k ∈ keys -> value_or_default values k = value_or_default values' k) ->
  read_fields values = read_fields values'.
Proof.
  intros E. unfold read_fields, port_field, size_field, int_field, count_field, bool_field.
  repeat match goal with
         | |- context [value_or_default values ?k] => rewrite (E k) by by_decide
         end.
  reflexivity.
Qed.

(** A value that [set_config_value] accepts takes effect and cannot stop the
    server from loading its configuration: afterwards the key has exactly the
    new value and every other key its old one, and unless the key is one whose
    check involves other keys (the TLS, protocol and ALPN keys), a database
    that loaded before still loads. *)
Theorem set_config_value_effect (inet_pton : Family -> bytes -> option bytes)
    (is_regular_file : bytes -> outcome bool) (db db' : Database) (key : string) (value : bytes) :
  set_config_value inet_pton db (str key) value = Ret db' -> Byte.x00 ∉ value ->
  (forall k, k ∈ keys -> stored db' k = if decide (k = key) then value else stored db k) /\
  (str key ∉ cross_keys ->
   forall path c d, load_config_from_database inet_pton is_regular_file path db = Ret (c, d) ->
   exists c' d', load_config_from_database inet_pton is_regular_file path db' = Ret (c', d')).
Proof.
  intros H Hz. apply set_config_value_spec in H as (Hk & Hv & d0 & I & M & R); [|done].
  split.
  - intros k Kk. unfold stored. rewrite R. destruct (decide (k = key)) as [-> |N].
    + by rewrite lookup_insert_eq.
    + rewrite lookup_insert_ne by (by intros E%str_inj). rewrite (initialized_lookup _ _ _ I).
      destruct (read_config_values db !! str k); [done|]. by destruct (find_default (str k)).
  - intros Hx path c d L. apply load_spec in L as (c0 & I0 & Hr & Hf & Hc & ->).
    rewrite I in I0. injection I0 as ->.
    destruct (initialize_again db d (config_rows db') I) as [d' I'].
    assert (E : mk_database (config_rows db') (migrations d) = db') by (rewrite <- M; by destruct db').
    rewrite E in I'.
    assert (V : read_config_values d' = <[str key := value]> (read_config_values d)).
    { apply map_eq. intros k. rewrite (initialized_lookup _ _ _ I'), R.
      destruct (decide (str key = k)) as [<- |N]; [by rewrite lookup_insert_eq|].
      rewrite lookup_insert_ne, (initialized_lookup _ _ _ I) by done.
      destruct (read_config_values db !! k); [done|]. by destruct (find_default k). }
    destruct (set_loads inet_pton is_regular_file _ c0 key value Hk Hv Hx Hr Hf Hc) as (c' & Hr' & Hf' & Hc').
    exists (set_database_path path c'), d'. apply load_spec. exists c'. by rewrite V.
Qed.

Lemma set_config_value_effect_witness :
  exists db', set_config_value (fun _ _ => None) empty_database (str "port") (str "80") = Ret db' /\
  (forall k, k ∈ keys -> stored db' k = if decide (k = "port"%string) then str "80" else stored empty_database k) /\
  (str "port" ∉ cross_keys ->
   forall path c d, load_config_from_database (fun _ _ => None) (fun _ => Ret true) path empty_database = Ret (c, d) ->
   exists c' d', load_config_from_database (fun _ _ => None) (fun _ => Ret true) path db' = Ret (c', d')).
Proof.
  assert (E : is_ret (set_config_value (fun _ _ => None) empty_database (str "port") (str "80")) = true)
    by (vm_compute; reflexivity).
  apply is_ret_Ret in E as [db' E]. exists db'. split; [exact E|].
  apply (set_config_value_effect (fun _ _ => None) (fun _ => Ret true) empty_database db' "port" (str "80") E).
  by_decide.
Defined.

(** What the server runs with is what the database says: a loaded
    configuration describes itself as the list of all supported keys in the
    order of the table, each with the normal form of its stored value, or of
    its default where nothing is stored; no key is lost, renamed or mixed up
    with another one. *)
Theorem loaded_config_described (inet_pton : Family -> bytes -> option bytes)
    (is_regular_file : bytes -> outcome bool) (path : bytes) (db db' : Database) (c : ServerConfig) :
  load_config_from_database inet_pton is_regular_file path db = Ret (c, db') ->
  database_path c = path /\
  exists values, Forall2 (fun key s => normal_form key (stored db key) = Ret s) keys values /\
    describe_config c = join_fields (zip supported_config_keys values).
Proof.
  intros (c0 & I & Hr & _ & _ & ->)%load_spec. split; [by destruct c0|].
  exists (snd <$> config_fields c0). split.
  - assert (F : forall ks vs, (forall k, k ∈ ks -> k ∈ keys) -> Forall2 (shown (read_config_values db')) ks vs ->
      Forall2 (fun key s => normal_form key (stored db key) = Ret s) ks vs).
    { intros ks vs Hk. induction 1 as [|k s ks vs S _ IH]; constructor.
      - unfold shown in S. by rewrite (initialized_value _ _ _ I) in S by (apply Hk; left).
      - apply IH. intros k' H'. apply Hk. by right. }
    apply F; [done|]. by apply read_fields_shown.
  - unfold describe_config. rewrite set_database_path_fields. reflexivity.
Qed.

Lemma loaded_config_described_witness :
  exists c db', load_config_from_database (fun _ _ => None) (fun _ => Ret true) (str "x.db") empty_database = Ret (c, db') /\
  database_path c = str "x.db" /\
  exists values, Forall2 (fun key s => normal_form key (stored empty_database key) = Ret s) keys values /\
    describe_config c = join_fields (zip supported_config_keys values).
Proof.
  assert (E : is_ret (load_config_from_database (fun _ _ => None) (fun _ => Ret true) (str "x.db") empty_database) = true)
    by (vm_compute; reflexivity).
  apply is_ret_Ret in E as [[c db'] E]. exists c, db'. split; [exact E|].
  exact (loaded_config_described _ _ _ _ _ _ E).
Defined.

(** The defaults of the table and the member initializers of [ServerConfig]
    agree: whatever the environment, a fresh database loads as the default
    configuration, and every supported key then has the default of the table. *)
Theorem config_defaults_agree (inet_pton : Family -> bytes -> option bytes)
    (is_regular_file : bytes -> outcome bool) (path : bytes) :
  exists db', load_config_from_database inet_pton is_regular_file path empty_database
    = Ret (set_database_path path default_config, db') /\
    (forall key, key ∈ keys -> read_config_values db' !! str key = find_default (str key) /\
       stored db' key = stored empty_database key).
Proof.
  assert (E : is_ret (initialize_config_database empty_database) = true) by (vm_compute; reflexivity).
  apply is_ret_Ret in E as [db' I]. exists db'. split.
  2: { intros key Hk. pose proof (initialized_lookup _ _ (str key) I) as L.
       unfold stored. rewrite L. split; [done|]. change (read_config_values empty_database !! str key) with (@None bytes).
       by destruct (find_default (str key)). }
  apply load_spec. exists default_config.
  assert (R : read_fields ∅ = Ret default_config) by (vm_compute; reflexivity).
  split; [done|]. split; [|split; [|split; [|done]]].
  - rewrite <- R. apply read_fields_ext. intros k Hk. rewrite (initialized_value _ _ _ I Hk).
    unfold value_or_default. rewrite lookup_empty. unfold stored.
    destruct (find_default_keys k Hk) as [v ->]. done.
  - unfold fields_valid. repeat (constructor; [by vm_compute|]). constructor.
  - split; [discriminate|by vm_compute|done].
Qed.

Lemma ensure_file_Ret is_regular_file file message :
  ensure_file is_regular_file file message = Ret () -> is_regular_file file = Ret true.
Proof. unfold ensure_file. intros H. apply bind_Ret in H as ([] & -> & H); [done|discriminate]. Qed.

Lemma valid_tls_version_spec v : valid_tls_version v = true -> v = str "TLSv1.2" \/ v = str "TLSv1.3".
Proof. unfold valid_tls_version. intros [?%bool_decide_eq_true|?%bool_decide_eq_true]%orb_true_iff; auto. Qed.

Lemma valid_config_wf inet_pton is_regular_file values c :
  read_fields values = Ret c -> fields_valid inet_pton c -> cross_valid is_regular_file c ->
  config_wf is_regular_file c.
Proof.
  intros Hr Hf [Hv Ha Ht]. destruct (read_fields_bounds _ _ Hr) as (P & I & S & C).
  assert (K : check_fields inet_pton is_regular_file c = Ret ()) by (by apply check_fields_spec).
  unfold check_fields in K. inv_ret. repeat match goal with x : () |- _ => destruct x end.
  repeat match goal with
         | H : bool_decide (_ = _) = false |- _ => apply bool_decide_eq_false in H
         | H : negb _ = false |- _ => apply negb_false_iff in H
         end.
  unfold validate_alpn_protocols in Ha.
  apply bind_Ret in Ha as (b & A & Ha). apply bind_Ret in Ha as (u & Ab%throw_if_Ret%negb_false_iff & _).
  destruct (alpn_loop _ _ _ _ A) as (Af & An & Ae).
  constructor; try assumption.
  - match goal with H : foldO _ _ _ = _ |- _ => apply check_control in H;
      apply (Forall_impl _ _ _ H) end. intros f. apply negb_true_iff.
  - repeat (constructor; [assumption|]). constructor.
  - destruct (valid_tls_version_spec (tls_min_version c)) as [E1|E1]; [assumption| |];
      (destruct (valid_tls_version_spec (tls_max_version c)) as [E2|E2]; [assumption| |]);
      rewrite E1, E2 in *; try by_decide. by destruct Hv.
  - split; [|done]. by destruct (An Ab).
  - intros T. unfold ensure_tls_files in Ht. rewrite T in Ht.
    apply bind_Ret in Ht as ([] & F1%ensure_file_Ret & Ht).
    by apply bind_Ret in Ht as ([] & F2%ensure_file_Ret & Ht).
Qed.

Lemma set_database_path_wf is_regular_file path c :
  config_wf is_regular_file c -> config_wf is_regular_file (set_database_path path c).
Proof. intros []. destruct c. by constructor. Qed.

(** C34. The server only starts with a sane configuration: a loaded one has a
    port, positive times and non-zero limits within their machine ranges, texts
    without control characters (so that no configured header can break a
    response), a directory index that is one file name, a host, a document root
    and a server name, ordered TLS versions, only implemented ALPN protocols,
    and with TLS enabled each of those is served and the key files exist. *)
Theorem loaded_config_wf (inet_pton : Family -> bytes -> option bytes)
    (is_regular_file : bytes -> outcome bool) (path : bytes) (db db' : Database) (c : ServerConfig) :
  load_config_from_database inet_pton is_regular_file path db = Ret (c, db') -> config_wf is_regular_file c.
Proof.
  intros (c0 & _ & Hr & Hf & Hc & ->)%load_spec. apply set_database_path_wf.
  by eapply valid_config_wf.
Qed.

Lemma loaded_config_wf_witness :
  exists c db', load_config_from_database (fun _ _ => None) (fun _ => Ret true) (str "x.db") empty_database = Ret (c, db') /\
  config_wf (fun _ => Ret true) c.
Proof.
  assert (E : is_ret (load_config_from_database (fun _ _ => None) (fun _ => Ret true) (str "x.db") empty_database) = true)
    by (vm_compute; reflexivity).
  apply is_ret_Ret in E as [[c db'] E]. exists c, db'. split; [exact E|].
  exact (loaded_config_wf _ _ _ _ _ _ E).
Defined.

Lemma loaded_wf inet_pton is_regular_file path db db' c :
  load_config_from_database inet_pton is_regular_file path db = Ret (c, db') -> config_wf is_regular_file c.
Proof. intros (c0 & _ & Hr & Hf & Hc & ->)%load_spec. by eapply set_database_path_wf, valid_config_wf. Qed.

(** ** Loading ends *)

Lemma settles_stoi v : settles (stoi v).
Proof. unfold stoi. settle. Qed.
Lemma settles_stoull v : settles (stoull v).
Proof. unfold stoull. settle. Qed.

Lemma settles_read_fields values : settles (read_fields values).
Proof.
  pose proof settles_stoi as Stoi. pose proof settles_stoull as Stoull.
  assert (Value : forall k, settles (value_or_default values k)) by (intros; unfold value_or_default; settle).
  assert (Catch : forall A k (m : outcome A), settles m -> settles (Config.catch_number k m))
    by (intros A k [a|e|] S; unfold Config.catch_number; settle).
  assert (Port : forall k, settles (port_field values k)) by (intros; unfold port_field, parse_port; settle).
  assert (Size : forall k, settles (size_field values k)) by (intros; unfold size_field, parse_size; settle).
  assert (Int : forall k, settles (int_field values k)) by (intros; unfold int_field, parse_positive_int; settle).
  assert (Count : forall k, settles (count_field values k)) by (intros; unfold count_field, parse_non_negative_size; settle).
  assert (Bool : forall k, settles (bool_field values k)) by (intros; unfold bool_field, parse_bool; settle).
  unfold read_fields. repeat (apply settles_bind; [auto|intros]). done.
Qed.

Lemma settles_targets v : settles (parse_reverse_proxy_targets v).
Proof.
  assert (Loop : forall v n, settles (upstream_port_loop n v)).
  { clear v. induction v as [|c v IH]; intros n; cbn [upstream_port_loop]; settle. }
  assert (Port : forall v, settles (parse_upstream_port v)) by (intros; unfold parse_upstream_port; settle).
  assert (Authority : forall a n, settles (parse_authority a n)) by (intros; unfold parse_authority; settle).
  assert (Text : forall s n t, settles (parse_target_text s n t)) by (intros; unfold parse_target_text; settle).
  unfold parse_reverse_proxy_targets, parse_reverse_proxy_target. settle.
Qed.

Lemma settles_virtual_host_rules v : settles (parse_virtual_host_rules v).
Proof.
  pose proof settles_targets as Targets.
  unfold parse_virtual_host_rules, parse_virtual_host_entry, parse_rule_action, raise_with. settle.
Qed.

Lemma settles_waf_overrides v : settles (parse_virtual_host_waf_overrides v).
Proof.
  assert (Catch : forall A (m : outcome A) a b, settles m -> settles (VirtualHost.catch_number m a b))
    by (intros A [x|e|] a b S; unfold VirtualHost.catch_number; settle).
  pose proof settles_stoi. pose proof settles_stoull.
  assert (Sz : forall v k, settles (parse_waf_override_size v k)) by (intros; unfold parse_waf_override_size; settle).
  assert (Id : forall v, settles (parse_waf_rule_id v)) by (intros; unfold parse_waf_rule_id; settle).
  assert (Bl : forall v k, settles (parse_waf_override_bool v k)) by (intros; unfold parse_waf_override_bool; settle).
  assert (Op : forall o x, settles (apply_option o x)) by (intros [p e c b t x] option; unfold apply_option; settle).
  unfold parse_virtual_host_waf_overrides, parse_waf_override_entry, raise_with. settle.
Qed.

Lemma settles_check_fields inet_pton is_regular_file c :
  (forall f, settles (is_regular_file f)) -> settles (check_fields inet_pton is_regular_file c).
Proof.
  intros File. pose proof settles_virtual_host_rules as Rules. pose proof settles_waf_overrides as Overrides.
  assert (Policy : forall v, settles (parse_reverse_proxy_load_balancing_policy v))
    by (intros; unfold parse_reverse_proxy_load_balancing_policy; settle).
  assert (Ensure : forall f m, settles (ensure_file is_regular_file f m)) by (intros; unfold ensure_file, raise_with; settle).
  assert (Tls : settles (ensure_tls_files is_regular_file c)) by (unfold ensure_tls_files, ensure_sni_files; settle).
  assert (Alpn : settles (validate_alpn_protocols c)) by (unfold validate_alpn_protocols, alpn_protocol, raise_with; settle).
  unfold check_fields, ensure_no_control. settle.
Qed.

Lemma settles_load_config inet_pton is_regular_file path db :
  (forall f, settles (is_regular_file f)) -> settles (load_config_from_database inet_pton is_regular_file path db).
Proof.
  intros File. pose proof (settles_check_fields inet_pton is_regular_file) as Check. pose proof settles_read_fields as Read.
  unfold load_config_from_database, initialize_config_database, validate_schema_version, build_config, raise_with. settle.
Qed.

(** A negative size is accepted and wraps around. *)
Lemma parse_size_negative : parse_size (str "-1") "max_request_bytes" = Ret (2 ^ 64 - 1).
Proof. reflexivity. Qed.

(** The keys excluded in [set_config_value_effect] can stop the server. *)
Lemma set_alpn_breaks_loading :
  is_ret (set_config_value (fun _ _ => None) empty_database (str "tls_alpn_protocols") (str "h3")) = true /\
  is_ret (d ← set_config_value (fun _ _ => None) empty_database (str "tls_alpn_protocols") (str "h3");
          load_config_from_database (fun _ _ => None) (fun _ => Ret true) [] d) = false.
Proof. vm_compute. done. Qed.
