(* ===== verification/Security.v ===== *)
(** * Security: address rules, connection limits and the rate limiter

    Models the address matching (lines 246-354) and [SecurityState] (lines
    1987-2074) of [src/src/core/server.cpp].  [inet_pton] of the C library is a
    parameter; a time point is a number of nanoseconds of the steady clock.
    [SecurityState] is shared by the workers under a mutex, so an execution is
    a sequence of its operations. *)

From Stdlib Require Import Sorted.
From S2P Require Import Prelude Text Numbers Config.

(** ** Addresses *)

Section addresses.
Context (inet_pton : Family -> bytes -> option bytes).

Record ParsedIpAddress : Type := mk_ip {
  family : Family;
  ip_bytes : bytes;
  bit_count : Z;
}.

Definition zero_bytes (n : nat) : bytes := replicate n Byte.x00.

(** [std::array<unsigned char, 16>], of which an IPv4 address sets four. *)
Definition parse_ip_address (value : bytes) : option ParsedIpAddress :=
  match inet_pton AF_INET (c_str value) with
  | Some a => Some (mk_ip AF_INET (a ++ zero_bytes 12) 32)
  | None =>
      match inet_pton AF_INET6 (c_str value) with
      | Some a => Some (mk_ip AF_INET6 a 128)
      | None => None
      end
  end.

Definition cidr_match (ip network : ParsedIpAddress) (prefix_length : Z) : bool :=
  if negb (bool_decide (family ip = family network)) || (prefix_length <? 0)
     || (bit_count ip <? prefix_length)
  then false
  else
    let full_bytes := Z.to_nat (prefix_length / 8) in
    let remaining_bits := prefix_length mod 8 in
    if negb (forallb (fun index => bool_decide (byte_at (ip_bytes ip) index = byte_at (ip_bytes network) index))
               (seq 0 full_bytes))
    then false
    else if remaining_bits =? 0 then true
    else
      let mask := Z.land (Z.shiftl 0xff (8 - remaining_bits)) 0xff in
      Z.land (val (byte_at (ip_bytes ip) full_bytes)) mask
      =? Z.land (val (byte_at (ip_bytes network) full_bytes)) mask.

Definition parse_prefix (value : bytes) (max_prefix : Z) : option Z :=
  match value with [] => None | _ => prefix_digits 0 max_prefix value end.

Definition ip_matches_token (ip_text token : bytes) : bool :=
  match parse_ip_address ip_text with
  | None => false
  | Some ip =>
      let token := trim token in
      match find_byte (chr "/") token with
      | None =>
          match parse_ip_address token with
          | Some exact => bool_decide (family exact = family ip) && bool_decide (ip_bytes exact = ip_bytes ip)
          | None => false
          end
      | Some slash =>
          match parse_ip_address (take slash token) with
          | None => false
          | Some network =>
              if negb (bool_decide (family network = family ip)) then false
              else
                match parse_prefix (drop (S slash) token) (bit_count network) with
                | None => false
                | Some prefix => cidr_match ip network prefix
                end
          end
      end
  end.

Definition ip_matches_list (ip_text list : bytes) : bool :=
  existsb (ip_matches_token ip_text) (split_csv list).

(** ** SecurityState *)

Inductive AcceptDecision : Type := allowed | blocked_ip | not_allowlisted | global_limit | per_ip_limit.

#[export] Instance AcceptDecision_eq_dec : EqDecision AcceptDecision.
Proof. solve_decision. Defined.

Record RequestBucket : Type := mk_bucket {
  window_start : Z;
  bucket_count : Z;
}.

Record SecurityState : Type := mk_security {
  active_connections_by_ip_ : gmap bytes Z;
  request_buckets_ : gmap bytes RequestBucket;
  total_connections_ : Z;
}.

Definition initial_security : SecurityState := mk_security ∅ ∅ 0.

(** [active_connections_by_ip_[ip]] creates a missing entry with zero. *)
Definition connections_of (ip : bytes) (s : SecurityState) : Z := default 0 (active_connections_by_ip_ s !! ip).

Definition set_connections (ip : bytes) (n : Z) (s : SecurityState) : SecurityState :=
  mk_security (<[ip := n]> (active_connections_by_ip_ s)) (request_buckets_ s) (total_connections_ s).

Definition try_open_connection (ip : bytes) (config : ServerConfig) (s : SecurityState)
    : AcceptDecision * SecurityState :=
  if ip_matches_list ip (ip_blocklist config) then (blocked_ip, s)
  else if negb (bool_decide (ip_allowlist config = [])) && negb (ip_matches_list ip (ip_allowlist config))
  then (not_allowlisted, s)
  else if global_connection_limit config <=? total_connections_ s then (global_limit, s)
  else
    let ip_connections := connections_of ip s in
    let s := set_connections ip ip_connections s in
    if per_ip_connection_limit config <=? ip_connections then (per_ip_limit, s)
    else
      (allowed, mk_security (<[ip := ip_connections + 1]> (active_connections_by_ip_ s)) (request_buckets_ s)
                  (total_connections_ s + 1)).

Definition close_connection (ip : bytes) (s : SecurityState) : SecurityState :=
  match ip with
  | [] => s
  | _ =>
      let connections :=
        match active_connections_by_ip_ s !! ip with
        | Some n => if 1 <? n then <[ip := n - 1]> (active_connections_by_ip_ s)
                    else delete ip (active_connections_by_ip_ s)
        | None => active_connections_by_ip_ s
        end in
      mk_security connections (request_buckets_ s)
        (if 0 <? total_connections_ s then total_connections_ s - 1 else total_connections_ s)
  end.

Definition minute : Z := 60 * 10 ^ 9.

Definition allow_request (ip : bytes) (config : ServerConfig) (now : Z) (s : SecurityState)
    : bool * SecurityState :=
  if negb (rate_limit_enabled config) || bool_decide (ip = []) then (true, s)
  else
    let bucket := default (mk_bucket 0 0) (request_buckets_ s !! ip) in
    let bucket :=
      if (window_start bucket =? 0) || (minute <=? now - window_start bucket) then mk_bucket now 0 else bucket in
    let set b := mk_security (active_connections_by_ip_ s) (<[ip := b]> (request_buckets_ s)) (total_connections_ s) in
    if u64 (rate_limit_requests_per_minute config) <=? bucket_count bucket then (false, set bucket)
    else (true, set (mk_bucket (window_start bucket) (bucket_count bucket + 1))).
End addresses.

(** ** What a rule means *)

Fixpoint be_value (acc : Z) (s : bytes) : Z :=
  match s with
  | [] => acc
  | c :: s' => be_value (acc * 256 + val c) s'
  end.

(** [inet_pton] fills an [in_addr] of 4 or an [in6_addr] of 16 bytes. *)
Definition inet_pton_sizes (inet_pton : Family -> bytes -> option bytes) : Prop :=
  (forall s a, inet_pton AF_INET s = Some a -> length a = 4%nat) /\
  (forall s a, inet_pton AF_INET6 s = Some a -> length a = 16%nat).

Definition address_value (ip : ParsedIpAddress) : Z := be_value 0 (take (Z.to_nat (bit_count ip / 8)) (ip_bytes ip)).

(** The addresses whose first [p] bits are those of the network. *)
Definition in_block (ip network : ParsedIpAddress) (p : Z) : Prop :=
  family ip = family network /\
  address_value ip / 2 ^ (bit_count ip - p) = address_value network / 2 ^ (bit_count ip - p).

Record wf_ip (ip : ParsedIpAddress) : Prop := {
  wf_bits : bit_count ip = family_bits (family ip);
  wf_bytes : exists a, ip_bytes ip = a ++ zero_bytes (16 - Z.to_nat (bit_count ip / 8)) /\
    length a = Z.to_nat (bit_count ip / 8);
}.

Lemma be_value_acc acc s : be_value acc s = acc * 256 ^ size s + be_value 0 s.
Proof.
  revert acc; induction s as [|c s IH]; intros acc; cbn [be_value].
  { cbn. lia. }
  rewrite IH, (IH (0 * 256 + val c)). cbn [length]. rewrite Nat2Z.inj_succ, Z.pow_succ_r by lia. lia.
Qed.

Lemma be_value_app s t : be_value 0 (s ++ t) = be_value 0 s * 256 ^ size t + be_value 0 t.
Proof.
  induction s as [|c s IH]; [by rewrite Z.mul_0_l|]. cbn [app be_value].
  rewrite be_value_acc, (be_value_acc _ s), IH, length_app, Nat2Z.inj_add, Z.pow_add_r by lia. lia.
Qed.

Lemma be_value_range s : 0 <= be_value 0 s < 256 ^ size s.
Proof.
  induction s as [|c s IH]; [done|]. cbn [be_value length]. rewrite be_value_acc, Nat2Z.inj_succ, Z.pow_succ_r by lia.
  pose proof (val_range c). nia.
Qed.

Lemma be_value_inj s t : length s = length t -> be_value 0 s = be_value 0 t -> s = t.
Proof.
  revert t; induction s as [|c s IH]; intros [|d t] L E; try done. cbn [length] in L. injection L as L.
  cbn [be_value] in E. rewrite be_value_acc, (be_value_acc _ t), L in E.
  pose proof (be_value_range s). pose proof (be_value_range t). rewrite L in *.
  pose proof (val_range c). pose proof (val_range d).
  assert (val c = val d) by nia. assert (be_value 0 s = be_value 0 t) by nia.
  f_equal; [by apply val_inj|by apply IH].
Qed.

(** Comparing [k] bytes and [r] bits is dividing by what follows them. *)
Lemma prefix_bits (a b : bytes) (k : nat) (r : Z) :
  length a = length b -> (k < length a)%nat -> 0 <= r < 8 ->
  be_value 0 a / 2 ^ (8 * size a - (8 * Z.of_nat k + r)) = be_value 0 b / 2 ^ (8 * size a - (8 * Z.of_nat k + r))
  <-> take k a = take k b /\ val (byte_at a k) / 2 ^ (8 - r) = val (byte_at b k) / 2 ^ (8 - r).
Proof.
  intros L Hk Hr. set (m := Z.of_nat (length a - S k)).
  assert (D : forall s : bytes, length s = length a ->
    be_value 0 s / 2 ^ (8 * size a - (8 * Z.of_nat k + r))
    = be_value 0 (take k s) * 2 ^ r + val (byte_at s k) / 2 ^ (8 - r)).
  { intros s Ls. assert (Hc : s !! k = Some (byte_at s k)).
    { unfold byte_at. destruct (s !! k) eqn:E; [done|]. apply lookup_ge_None in E. lia. }
    rewrite <- (take_drop_middle s k _ Hc) at 1. rewrite be_value_app. cbn [be_value length].
    rewrite (be_value_acc (0 * 256 + val (byte_at s k))), length_drop, Ls.
    rewrite Nat2Z.inj_succ. fold m.
    pose proof (be_value_range (drop (S k) s)) as R. rewrite length_drop, Ls in R. fold m in R.
    rewrite Z.pow_succ_r by lia. change 256 with (2 ^ 8) in *. rewrite <- !Z.pow_mul_r in * by lia.
    replace (8 * size a - (8 * Z.of_nat k + r)) with (8 * m + (8 - r)) by lia.
    rewrite Z.pow_add_r, <- Z.div_div by lia.
    replace (be_value 0 (take k s) * (2 ^ 8 * 2 ^ (8 * m)) + ((0 * 2 ^ 8 + val (byte_at s k)) * 2 ^ (8 * m) + be_value 0 (drop (S k) s)))
      with (be_value 0 (drop (S k) s) + (be_value 0 (take k s) * 2 ^ 8 + val (byte_at s k)) * 2 ^ (8 * m)) by ring.
    rewrite Z.div_add by lia. rewrite (Z.div_small (be_value 0 (drop (S k) s))) by lia. rewrite Z.add_0_l.
    replace (2 ^ 8) with (2 ^ r * 2 ^ (8 - r)) by (rewrite <- Z.pow_add_r by lia; f_equal; lia).
    rewrite Z.mul_assoc, Z.add_comm, Z.div_add by lia. lia. }
  rewrite (D a), (D b) by done.
  assert (B : forall c, 0 <= val c / 2 ^ (8 - r) < 2 ^ r).
  { intros c. pose proof (val_range c). split; [apply Z.div_pos; lia|].
    apply Z.div_lt_upper_bound; [lia|]. rewrite <- Z.pow_add_r by lia.
    replace (8 - r + r) with 8 by lia. lia. }
  pose proof (B (byte_at a k)). pose proof (B (byte_at b k)). split.
  - intros E. assert (E1 : be_value 0 (take k a) = be_value 0 (take k b)) by nia.
    split; [|nia]. apply be_value_inj; [rewrite !length_take; lia|done].
  - by intros [-> ->].
Qed.

Lemma land_high_mask x r : 0 <= x < 256 -> 0 < r < 8 ->
  Z.land x (Z.land (Z.shiftl 0xff (8 - r)) 0xff) = x / 2 ^ (8 - r) * 2 ^ (8 - r).
Proof.
  intros Hx Hr.
  assert (C : forallb (fun r => forallb (fun x => Z.land x (Z.land (Z.shiftl 0xff (8 - r)) 0xff) =? x / 2 ^ (8 - r) * 2 ^ (8 - r))
                (seqZ 0 256)) (seqZ 1 7) = true) by (vm_compute; reflexivity).
  rewrite forallb_forall in C. specialize (C r). rewrite <- list_elem_of_In, elem_of_seqZ in C.
  specialize (C ltac:(lia)). rewrite forallb_forall in C. specialize (C x).
  rewrite <- list_elem_of_In, elem_of_seqZ in C. by apply Z.eqb_eq, C.
Qed.

Lemma bytes_agree (a b : bytes) (k : nat) :
  (k <= length a)%nat -> (k <= length b)%nat ->
  forallb (fun i => bool_decide (byte_at a i = byte_at b i)) (seq 0 k) = true <-> take k a = take k b.
Proof.
  intros Ha Hb. rewrite forallb_forall. split.
  - intros H. apply list_eq. intros i. destruct (Nat.lt_ge_cases i k) as [Hi|Hi].
    + rewrite !lookup_take_lt by done. specialize (H i ltac:(apply in_seq; lia)).
      apply bool_decide_eq_true in H. unfold byte_at in H.
      destruct (a !! i) eqn:E; [|apply lookup_ge_None in E; lia].
      destruct (b !! i) eqn:F; [|apply lookup_ge_None in F; lia]. cbn in H. by rewrite H.
    + by rewrite !lookup_take_ge by done.
  - intros H i Hi%in_seq. apply bool_decide_eq_true. unfold byte_at.
    rewrite <- (lookup_take_lt a k i), <- (lookup_take_lt b k i) by lia. by rewrite H.
Qed.

Lemma cidr_match_spec ip network p :
  wf_ip ip -> wf_ip network ->
  cidr_match ip network p = true <-> 0 <= p <= bit_count ip /\ in_block ip network p.
Proof.
  intros [Bi (a & Ai & La)] [Bn (b & An & Lb)]. unfold cidr_match, in_block.
  destruct (decide (family ip = family network)) as [F|F].
  2: { rewrite bool_decide_false by done. cbn [negb orb]. split; [done|]. by intros (_ & ? & _). }
  rewrite bool_decide_true by done. cbn [negb orb].
  assert (Bb : bit_count network = bit_count ip) by (by rewrite Bi, Bn, F). rewrite Bb in *.
  destruct (Z.ltb_spec p 0); [split; [done|lia]|]. destruct (Z.ltb_spec (bit_count ip) p); [split; [done|lia]|].
  cbn [orb].
  set (n := Z.to_nat (bit_count ip / 8)) in *.
  assert (Hn : bit_count ip = 8 * Z.of_nat n) by (unfold n; rewrite Bi; by destruct (family ip)).
  assert (Va : address_value ip = be_value 0 a /\ address_value network = be_value 0 b).
  { unfold address_value. rewrite Bb. fold n. rewrite Ai, An, <- La at 1. rewrite take_app_length.
    by rewrite <- Lb, take_app_length. }
  destruct Va as [-> ->]. clear Bi Bn.
  set (k := Z.to_nat (p / 8)). set (r := p mod 8).
  assert (Hp : p = 8 * Z.of_nat k + r).
  { unfold k, r. rewrite Z2Nat.id by (apply Z.div_pos; lia). apply Z.div_mod. lia. }
  assert (Hr : 0 <= r < 8) by (apply Z.mod_pos_bound; lia).
  assert (Hk : (k <= n)%nat) by lia.
  assert (T : forall s z : bytes, length s = n -> take k (s ++ z) = take k s)
    by (intros s z Hs; apply take_app_le; lia).
  assert (L : forallb (fun i => bool_decide (byte_at (ip_bytes ip) i = byte_at (ip_bytes network) i)) (seq 0 k) = true
              <-> take k a = take k b).
  { rewrite bytes_agree, Ai, An, !T by (rewrite ?Ai, ?An, ?length_app; lia). done. }
  transitivity (be_value 0 a / 2 ^ (bit_count ip - p) = be_value 0 b / 2 ^ (bit_count ip - p)); [|intuition lia].
  destruct (forallb _ _) eqn:FB; cbn [negb].
  2: { split; [done|]. intros E. exfalso. enough (take k a = take k b) by (by apply L in H1).
       destruct (Nat.eq_dec k n) as [-> |].
       - rewrite Hn, Hp in E. replace (8 * Z.of_nat n - (8 * Z.of_nat n + r)) with 0 in E by lia.
         rewrite !Z.div_1_r in E. by rewrite (be_value_inj a b) by (done || lia).
       - rewrite Hn, <- La, Hp in E. apply prefix_bits in E; [tauto|lia..]. }
  assert (TK : take k a = take k b) by (by apply L). clear L FB.
  destruct (Nat.eq_dec k n) as [Ek|Nk].
  { assert (r = 0) by lia. rewrite (proj2 (Z.eqb_eq r 0)) by done. split; [|done]. intros _.
    rewrite Ek, <- La, take_ge, take_ge in TK by lia. by rewrite TK. }
  rewrite Hn, <- La, Hp. rewrite prefix_bits by lia.
  assert (BA : byte_at (ip_bytes ip) k = byte_at a k /\ byte_at (ip_bytes network) k = byte_at b k).
  { unfold byte_at. rewrite Ai, An, !lookup_app_l by lia. done. }
  destruct BA as [-> ->]. pose proof (val_range (byte_at a k)). pose proof (val_range (byte_at b k)).
  destruct (Z.eqb_spec r 0) as [-> |Nr].
  - split; [|done]. intros _. split; [done|]. change (2 ^ (8 - 0)) with 256. by rewrite !Z.div_small by lia.
  - rewrite Z.eqb_eq, !land_high_mask by lia. split; [|by intros [_ ->]]. intros E. split; [done|].
    apply Z.mul_cancel_r in E; [done|]. pose proof (Z.pow_pos_nonneg 2 (8 - r)). lia.
Qed.

Lemma prefix_digits_spec acc m s n :
  0 <= acc -> prefix_digits acc m s = Some n <->
  numeral dec_digit 10 acc s = Some n /\ (s = [] \/ n <= m).
Proof.
  revert acc; induction s as [|c s IH]; intros acc Ha; cbn [prefix_digits numeral].
  { split; [auto|tauto]. }
  destruct (dec_digit c) as [d|] eqn:D; cbn [mbind option_bind]; [|split; [done|by intros []]].
  apply dec_digit_range in D. destruct (Z.ltb_spec m (acc * 10 + d)) as [L|L].
  - split; [done|]. intros (N & [|N']); [done|]. apply (numeral_ge _ 10) in N; [lia|lia|apply dec_digit_range|lia].
  - rewrite IH by lia. split; intros [N H]; (split; [done|]).
    + right. destruct H as [-> |]; [|done]. cbn in N. injection N as <-. lia.
    + right. by destruct H.
Qed.

Lemma parse_prefix_spec s m n :
  parse_prefix s m = Some n <-> s <> [] /\ numeral dec_digit 10 0 s = Some n /\ n <= m.
Proof.
  unfold parse_prefix. destruct s as [|c s]; [split; [done|by intros []]|].
  rewrite prefix_digits_spec by lia. split; [intros [? [|]]; by repeat split|tauto].
Qed.

(** ** Rules and blocks *)

Section rules.
Context (inet_pton : Family -> bytes -> option bytes).

(** The block of addresses that a rule denotes. *)
Definition rule_block (rule : bytes) : option (ParsedIpAddress * Z) :=
  match find_byte (chr "/") rule with
  | None =>
      ip ← parse_ip_address inet_pton rule;
      Some (ip, bit_count ip)
  | Some i =>
      network ← parse_ip_address inet_pton (take i rule);
      p ← (match drop (S i) rule with [] => None | s => numeral dec_digit 10 0 s end);
      if p <=? bit_count network then Some (network, p) else None
  end.

Lemma parse_ip_wf s ip : inet_pton_sizes inet_pton -> parse_ip_address inet_pton s = Some ip -> wf_ip ip.
Proof.
  intros [S4 S6]. unfold parse_ip_address. destruct (inet_pton AF_INET (c_str s)) as [a|] eqn:E.
  - intros [= <-]. constructor; [done|]. exists a. split; [done|]. by rewrite (S4 _ _ E).
  - clear E. destruct (inet_pton AF_INET6 (c_str s)) as [a|] eqn:E; [|done].
    intros [= <-]. constructor; [done|]. exists a. cbn. rewrite app_nil_r. split; [done|]. by rewrite (S6 _ _ E).
Qed.

Lemma same_address ip network :
  wf_ip ip -> wf_ip network ->
  (family network = family ip /\ ip_bytes network = ip_bytes ip) <-> in_block ip network (bit_count network).
Proof.
  intros [Bi (a & Ai & La)] [Bn (b & An & Lb)]. unfold in_block.
  split.
  - intros [F E]. split; [done|]. unfold address_value. by rewrite E, Bi, Bn, F.
  - intros [F E]. split; [done|].
    assert (Bb : bit_count network = bit_count ip) by (by rewrite Bi, Bn, F).
    rewrite Bb, Z.sub_diag, Z.pow_0_r, !Z.div_1_r in E. unfold address_value in E. rewrite Bb in *.
    rewrite Ai, An in E |- *. rewrite (take_app_length' a), (take_app_length' b) in E by done.
    by rewrite (be_value_inj a b) by (exact E || congruence).
Qed.

Lemma ip_matches_token_spec ip_text rule :
  inet_pton_sizes inet_pton -> trim rule = rule ->
  ip_matches_token inet_pton ip_text rule = true <->
  exists ip network p, parse_ip_address inet_pton ip_text = Some ip /\
    rule_block rule = Some (network, p) /\ in_block ip network p.
Proof.
  intros Hs Ht. unfold ip_matches_token, rule_block. rewrite Ht.
  destruct (parse_ip_address inet_pton ip_text) as [ip|] eqn:Pi; [|split; [done|by intros (? & ? & ? & ? & _)]].
  pose proof (parse_ip_wf _ _ Hs Pi) as Wi.
  transitivity (exists network p, match find_byte (chr "/") rule with
    | None => ip ← parse_ip_address inet_pton rule; Some (ip, bit_count ip)
    | Some i =>
        network ← parse_ip_address inet_pton (take i rule);
        p ← (match drop (S i) rule with [] => None | s => numeral dec_digit 10 0 s end);
        if p <=? bit_count network then Some (network, p) else None
    end = Some (network, p) /\ in_block ip network p).
  2: { split; [by intros (n & p & H); exists ip, n, p|by intros (i & n & p & [= <-] & H); exists n, p]. }
  destruct (find_byte (chr "/") rule) as [i|].
  - destruct (parse_ip_address inet_pton (take i rule)) as [network|] eqn:Pn; cbn [mbind option_bind];
      [|split; [done|by intros (? & ? & ? & _)]].
    pose proof (parse_ip_wf _ _ Hs Pn) as Wn.
    destruct (decide (family network = family ip)) as [F|F].
    2: { rewrite bool_decide_false by done. split; [done|]. intros (n & p & H & [F' _]).
         destruct (match drop (S i) rule with [] => _ | _ => _ end) as [q|]; [|done]. cbn in H.
         destruct (q <=? bit_count network); [|done]. injection H as <- <-. by destruct F. }
    rewrite bool_decide_true by done. cbn [negb].
    destruct (parse_prefix (drop (S i) rule) (bit_count network)) as [p|] eqn:Pp.
    + apply parse_prefix_spec in Pp as (Ne & N & Le).
      assert (E : (match drop (S i) rule with [] => None | s => numeral dec_digit 10 0 s end) = Some p)
        by (by destruct (drop (S i) rule)).
      rewrite E. cbn [mbind option_bind]. rewrite (proj2 (Z.leb_le _ _) Le), cidr_match_spec by done.
      assert (0 <= p) by (apply (numeral_ge _ 10) in N; [lia|lia|apply dec_digit_range|lia]).
      assert (bit_count ip = bit_count network)
        by (destruct Wi as [-> _], Wn as [-> _]; by rewrite F).
      split; [intros [_ B]; by exists network, p|]. intros (n & q & [= <- <-] & B). split; [lia|done].
    + split; [done|]. intros (n & q & H & _). exfalso.
      destruct (drop (S i) rule) as [|c s] eqn:D; [done|].
      destruct (numeral dec_digit 10 0 (c :: s)) as [m|] eqn:N; [|done]. cbn in H.
      destruct (Z.leb_spec m (bit_count network)); [|done].
      rewrite (proj2 (parse_prefix_spec (c :: s) (bit_count network) m)) in Pp; done.
  - destruct (parse_ip_address inet_pton rule) as [exact_|] eqn:Pe; cbn [mbind option_bind];
      [|split; [done|by intros (? & ? & ? & _)]].
    pose proof (parse_ip_wf _ _ Hs Pe) as We.
    rewrite andb_true_iff, !bool_decide_eq_true, (same_address ip exact_) by done.
    split; [intros B; by exists exact_, (bit_count exact_)|by intros (n & p & [= <- <-] & B)].
Qed.

Lemma split_csv_trimmed list rule : rule ∈ split_csv list -> trim rule = rule /\ rule <> [].
Proof using Type.
  unfold split_csv, split_delimited. intros [Hn (x & -> & _)%list_elem_of_fmap]%list_elem_of_filter.
  split; [apply trim_idem|done].
Qed.
End rules.

Lemma no_space_trim s : no_space s -> trim s = s.
Proof.
  intros N. apply trimmed_trim. unfold no_space in N. rewrite Forall_forall in N.
  split; intros c H; apply N.
  - destruct s; [done|]. injection H as <-. apply list_elem_of_here.
  - apply last_Some in H as [l ->]. apply elem_of_app. right. apply list_elem_of_here.
Qed.

Lemma no_space_app s t : no_space (s ++ t) <-> no_space s /\ no_space t.
Proof. apply Forall_app. Qed.

(** C33. An address list means what it says: an address matches a list exactly
    when some rule of the list - an address, or a network with a prefix length -
    denotes a block of addresses that contains it, that is, when both are of
    the same family and agree as binary numbers up to the prefix. *)
Theorem ip_list_semantics (inet_pton : Family -> bytes -> option bytes) (ip_text list : bytes) :
  inet_pton_sizes inet_pton ->
  ip_matches_list inet_pton ip_text list = true <->
  exists rule ip network p, rule ∈ split_csv list /\
    parse_ip_address inet_pton ip_text = Some ip /\
    rule_block inet_pton rule = Some (network, p) /\ in_block ip network p.
Proof.
  intros Hs. unfold ip_matches_list. rewrite existsb_exists. split.
  - intros (rule & Hr%list_elem_of_In & M). destruct (split_csv_trimmed _ _ Hr) as [Ht _].
    apply ip_matches_token_spec in M as (ip & network & p & H); [|done..]. by exists rule, ip, network, p.
  - intros (rule & ip & network & p & Hr & H). exists rule. split; [by apply list_elem_of_In|].
    apply ip_matches_token_spec; [done|by apply (split_csv_trimmed list)|]. by exists ip, network, p.
Qed.

(** The address of four bytes, for the witnesses. *)
Definition dotted (f : Family) (s : bytes) : option bytes :=
  match f with
  | AF_INET =>
      match mapM parse_decimal_size (split_byte (chr ".") s) with
      | Some [a; b; c; d] => if forallb (fun n => n <? 256) [a; b; c; d] then Some [u8 a; u8 b; u8 c; u8 d] else None
      | _ => None
      end
  | AF_INET6 => None
  end.

Lemma dotted_sizes : inet_pton_sizes dotted.
Proof.
  split; [|done]. intros s a. cbn. destruct (mapM _ _) as [[|w [|x [|y [|z []]]]]|]; try done.
  destruct (_ && _); [|done]. by intros [= <-].
Qed.

Lemma ip_list_semantics_witness :
  ip_matches_list dotted (str "10.63.1.2") (str "192.168.0.1, 10.0.0.0/10") = true <->
  exists rule ip network p, rule ∈ split_csv (str "192.168.0.1, 10.0.0.0/10") /\
    parse_ip_address dotted (str "10.63.1.2") = Some ip /\
    rule_block dotted rule = Some (network, p) /\ in_block ip network p.
Proof. apply ip_list_semantics, dotted_sizes. Defined.

(** A rule that the configuration accepts is not ignored by the server: if a
    list passes [valid_ip_list], each of its rules that is written without
    blanks denotes a block, so it has an effect on the addresses in the block. *)
Theorem validated_rules_effective (inet_pton : Family -> bytes -> option bytes) (list rule : bytes) :
  valid_ip_list inet_pton list = true -> rule ∈ split_csv list -> no_space rule ->
  exists network p, rule_block inet_pton rule = Some (network, p).
Proof.
  intros V Hr N. unfold valid_ip_list in V. rewrite forallb_forall in V.
  specialize (V rule (proj1 (list_elem_of_In _ _) Hr)). unfold valid_ip_token in V. unfold rule_block.
  assert (A : forall s f, parse_ip_family inet_pton s = Some f ->
    exists ip, parse_ip_address inet_pton s = Some ip /\ bit_count ip = family_bits f).
  { intros s f. unfold parse_ip_family, parse_ip_address.
    destruct (inet_pton AF_INET (c_str s)); [intros [= <-]; by eexists|].
    destruct (inet_pton AF_INET6 (c_str s)); [intros [= <-]; by eexists|done]. }
  destruct (find_byte (chr "/") rule) as [i|] eqn:F.
  - apply find_byte_Some in F as [F _]. rewrite F in N. apply no_space_app in N as [N1 N2].
    apply Forall_cons in N2 as [_ N2]. rewrite !no_space_trim in V by done. case_bool_decide; [done|].
    destruct (parse_ip_family inet_pton (take i rule)) as [f|] eqn:Pf; [|done].
    destruct (A _ _ Pf) as (ip & -> & B). cbn [mbind option_bind]. apply bool_decide_eq_true in V as [p Hp].
    change (parse_prefix (drop (S i) rule) (family_bits f) = Some p) in Hp.
    apply parse_prefix_spec in Hp as (Ne & Nu & Le).
    destruct (drop (S i) rule) as [|c s] eqn:D; [done|]. rewrite Nu. cbn [mbind option_bind].
    rewrite (proj2 (Z.leb_le _ _)) by lia. by eexists _, _.
  - case_bool_decide; [done|]. destruct (parse_ip_family inet_pton rule) as [f|] eqn:Pf; [|done].
    destruct (A _ _ Pf) as (ip & -> & B). by eexists _, _.
Qed.

Lemma validated_rules_effective_witness :
  exists network p, rule_block dotted (str "10.0.0.0/10") = Some (network, p).
Proof.
  apply (validated_rules_effective dotted (str "192.168.0.1, 10.0.0.0/10")); [reflexivity|by_decide|by_decide].
Defined.

(** With blanks around the slash a rule is accepted, and never matches. *)
Lemma blanks_disable_rule :
  valid_ip_list dotted (str "10.0.0.0 / 8") = true /\
  ip_matches_list dotted (str "10.0.0.1") (str "10.0.0.0/8") = true /\
  ip_matches_list dotted (str "10.0.0.1") (str "10.0.0.0 / 8") = false.
Proof. by_decide. Qed.

(** ** Connection accounting *)

Section accounting.
Context (inet_pton : Family -> bytes -> option bytes).

(** The states that the workers can bring about, with the addresses of the open
    connections: a connection is closed once, and only if it was allowed; the
    configuration may be reloaded between two operations. *)
Inductive accounted : list bytes -> SecurityState -> Prop :=
| accounted_init : accounted [] initial_security
| accounted_open open s ip config decision s' :
    accounted open s -> ip <> [] -> try_open_connection inet_pton ip config s = (decision, s') ->
    accounted (if decide (decision = allowed) then ip :: open else open) s'
| accounted_close before after ip s :
    accounted (before ++ ip :: after) s -> accounted (before ++ after) (close_connection ip s)
| accounted_request open s ip config now granted s' :
    accounted open s -> allow_request ip config now s = (granted, s') -> accounted open s'.

Definition count_ip (ip : bytes) (open : list bytes) : Z := size (filter (fun x => x = ip) open).

Definition accounts (open : list bytes) (s : SecurityState) : Prop :=
  total_connections_ s = size open /\ (forall ip, connections_of ip s = count_ip ip open) /\
  Forall (fun ip => ip <> []) open.

Lemma count_ip_cons ip x open : count_ip ip (x :: open) = (if decide (x = ip) then 1 else 0) + count_ip ip open.
Proof using Type.
  unfold count_ip. rewrite filter_cons. destruct (decide (x = ip)); cbn [length]; lia.
Qed.

Lemma count_ip_app ip a b : count_ip ip (a ++ b) = count_ip ip a + count_ip ip b.
Proof using Type. unfold count_ip. rewrite filter_app, length_app. lia. Qed.

Lemma count_ip_le ip open : 0 <= count_ip ip open <= size open.
Proof using Type. unfold count_ip. pose proof (length_filter (fun x => x = ip) open). lia. Qed.

Lemma connections_of_insert ip n k s a t :
  connections_of k (mk_security (<[ip := n]> a) s t) = if decide (ip = k) then n else default 0 (a !! k).
Proof using Type.
  unfold connections_of. cbn [active_connections_by_ip_]. case_decide as D.
  - subst. by rewrite lookup_insert_eq.
  - by rewrite lookup_insert_ne.
Qed.

Lemma try_open_spec ip config s open decision s' :
  accounts open s -> ip <> [] -> try_open_connection inet_pton ip config s = (decision, s') ->
  accounts (if decide (decision = allowed) then ip :: open else open) s' /\
  decision =
    (if ip_matches_list inet_pton ip (ip_blocklist config) then blocked_ip
     else if negb (bool_decide (ip_allowlist config = [])) && negb (ip_matches_list inet_pton ip (ip_allowlist config))
     then not_allowlisted
     else if global_connection_limit config <=? size open then global_limit
     else if per_ip_connection_limit config <=? count_ip ip open then per_ip_limit else allowed).
Proof using Type.
  intros (Ht & Hc & Hn) Hi. unfold try_open_connection.
  destruct (ip_matches_list inet_pton ip (ip_blocklist config)); [by intros [= <- <-]|].
  destruct (_ && _); [by intros [= <- <-]|]. rewrite Ht.
  destruct (global_connection_limit config <=? size open); [by intros [= <- <-]|].
  assert (Hs : forall k, connections_of k (set_connections ip (connections_of ip s) s) = count_ip k open).
  { intros k. unfold set_connections. rewrite connections_of_insert, <- !Hc. by case_decide; subst. }
  rewrite Hc. destruct (per_ip_connection_limit config <=? count_ip ip open).
  - intros [= <- <-]. split; [|done]. rewrite <- Hc. by split.
  - intros [= <- <-]. split; [|done]. rewrite decide_True by done. rewrite <- Hc. split; [|split].
    + cbn [total_connections_ set_connections]. rewrite Ht. cbn [length]. lia.
    + intros k. rewrite count_ip_cons, connections_of_insert.
      change (default 0 _) with (connections_of k (set_connections ip (connections_of ip s) s)).
      rewrite Hs, Hc. destruct (decide (ip = k)) as [<- |]; lia.
    + by constructor.
Qed.

Lemma close_spec before after ip s :
  accounts (before ++ ip :: after) s -> accounts (before ++ after) (close_connection ip s).
Proof using Type.
  intros (Ht & Hc & Hn). apply Forall_app in Hn as [Hn1 [Hi Hn2]%Forall_cons].
  unfold close_connection. destruct ip as [|x ip']; [done|]. set (ip := x :: ip') in *.
  assert (P : 0 < connections_of ip s).
  { rewrite Hc, count_ip_app, count_ip_cons, decide_True by done.
    pose proof (count_ip_le ip before). pose proof (count_ip_le ip after). lia. }
  assert (C : forall k, connections_of k s = (if decide (ip = k) then 1 else 0) + count_ip k (before ++ after)).
  { intros k. rewrite Hc, !count_ip_app, count_ip_cons. lia. }
  split; [|split].
  - clear -Ht. cbn [total_connections_]. rewrite Ht, !length_app. cbn [length].
    destruct (Z.ltb_spec 0 (Z.of_nat (length before + S (length after)))) as [?|?]; lia.
  - intros k. specialize (C k). unfold connections_of in *. cbn [active_connections_by_ip_].
    destruct (active_connections_by_ip_ s !! ip) as [n|] eqn:E; cbn [default] in P; [|lia].
    destruct (decide (ip = k)) as [<- |Nk].
    + rewrite E in C. cbn in C. destruct (Z.ltb_spec 1 n).
      * rewrite lookup_insert_eq. cbn. lia.
      * rewrite lookup_delete_eq. cbn. pose proof (count_ip_le ip (before ++ after)). cbn in P. lia.
    + destruct (1 <? n); [rewrite lookup_insert_ne by done|rewrite lookup_delete_ne by done]; lia.
  - by apply Forall_app.
Qed.

Lemma accounted_accounts open s : accounted open s -> accounts open s.
Proof using Type.
  induction 1 as [|open s ip config decision s' _ IH Hi E|before after ip s _ IH|open s ip config now granted s' _ IH E].
  - split; [done|]. split; [|done]. intros ip. unfold connections_of, initial_security.
    cbn [active_connections_by_ip_]. by rewrite lookup_empty.
  - by apply (try_open_spec ip config s open).
  - by apply close_spec.
  - unfold allow_request in E. destruct (_ || _); [by injection E as <- <-|].
    destruct (_ <=? _) in E; injection E as <- <-; exact IH.
Qed.
End accounting.

(** C30. Connection limits are enforced exactly: after any interleaving of
    accepted, refused and closed connections and requests, from a fresh state
    and under changing configurations, the counters are the numbers of open
    connections, and a new connection is allowed exactly when its address is not
    on the blocklist, is on the allowlist if there is one, and both the global
    and the per-address number of open connections are below their limits. *)
Theorem connection_accounting (inet_pton : Family -> bytes -> option bytes) (open : list bytes)
    (s : SecurityState) :
  accounted inet_pton open s ->
  total_connections_ s = size open /\
  (forall ip, connections_of ip s = count_ip ip open) /\
  (forall ip config, ip <> [] ->
     (try_open_connection inet_pton ip config s).1 = allowed <->
     ip_matches_list inet_pton ip (ip_blocklist config) = false /\
     (ip_allowlist config = [] \/ ip_matches_list inet_pton ip (ip_allowlist config) = true) /\
     size open < global_connection_limit config /\ count_ip ip open < per_ip_connection_limit config).
Proof.
  intros A%accounted_accounts. pose proof A as (Ht & Hc & _). split; [done|]. split; [done|].
  intros ip config Hi. destruct (try_open_connection inet_pton ip config s) as [d s'] eqn:E.
  apply (try_open_spec inet_pton ip config s open) in E as [_ ->]; [|done..]. cbn [fst].
  destruct (ip_matches_list inet_pton ip (ip_blocklist config)); [naive_solver|].
  destruct (decide (ip_allowlist config = [])) as [L|L];
    [rewrite bool_decide_true by done|rewrite bool_decide_false by done]; cbn [negb andb];
    [|destruct (ip_matches_list inet_pton ip (ip_allowlist config)); cbn [negb]; [|naive_solver]];
    (destruct (Z.leb_spec (global_connection_limit config) (size open)); [split; [done|lia]|];
     destruct (Z.leb_spec (per_ip_connection_limit config) (count_ip ip open)); [split; [done|lia]|];
     split; [|done]; intros _; split; [done|]; split; [tauto|lia]).
Qed.

Lemma connection_accounting_witness :
  let ip := str "10.0.0.1" in
  let s := (try_open_connection dotted ip default_config initial_security).2 in
  total_connections_ s = 1 /\
  (forall x, connections_of x s = count_ip x [ip]) /\
  (forall x config, x <> [] ->
     (try_open_connection dotted x config s).1 = allowed <->
     ip_matches_list dotted x (ip_blocklist config) = false /\
     (ip_allowlist config = [] \/ ip_matches_list dotted x (ip_allowlist config) = true) /\
     size [ip] < global_connection_limit config /\ count_ip x [ip] < per_ip_connection_limit config).
Proof.
  intros ip s. apply (connection_accounting dotted [ip] s).
  exact (accounted_open dotted [] initial_security ip default_config allowed s (accounted_init dotted)
           ltac:(discriminate) ltac:(reflexivity)).
Defined.

(** ** The rate limiter *)

(** The answers to the requests of one address at the given times. *)
Fixpoint rate_run (ip : bytes) (config : ServerConfig) (s : SecurityState) (times : list Z)
    : list (Z * bool) :=
  match times with
  | [] => []
  | now :: times' =>
      let '(granted, s') := allow_request ip config now s in
      (now, granted) :: rate_run ip config s' times'
  end.

Definition granted_in (from upto : Z) (answers : list (Z * bool)) : Z :=
  size (filter (fun a => from <= a.1 < upto /\ a.2 = true) answers).

Definition asked_in (from upto : Z) (times : list Z) : Z := size (filter (fun t => from <= t < upto) times).

(** The bucket alone. *)
Fixpoint bucket_run (limit : Z) (b : RequestBucket) (times : list Z) : list (Z * bool) :=
  match times with
  | [] => []
  | now :: times' =>
      let b := if (window_start b =? 0) || (minute <=? now - window_start b) then mk_bucket now 0 else b in
      if limit <=? bucket_count b then (now, false) :: bucket_run limit b times'
      else (now, true) :: bucket_run limit (mk_bucket (window_start b) (bucket_count b + 1)) times'
  end.

Lemma rate_run_bucket ip config s times :
  ip <> [] -> rate_limit_enabled config = true ->
  rate_run ip config s times
  = bucket_run (u64 (rate_limit_requests_per_minute config)) (default (mk_bucket 0 0) (request_buckets_ s !! ip)) times.
Proof.
  intros Hi He. revert s; induction times as [|t times IH]; intros s; [done|]. cbn [rate_run bucket_run].
  unfold allow_request. rewrite He, bool_decide_false by done. cbn [negb orb]. set (b := default _ _).
  set (b' := if _ || _ then _ else b).
  destruct (_ <=? bucket_count b'); rewrite IH; cbn [request_buckets_]; by rewrite lookup_insert_eq.
Qed.

Lemma granted_in_cons from upto a answers :
  granted_in from upto (a :: answers)
  = (if decide (from <= a.1 < upto /\ a.2 = true) then 1 else 0) + granted_in from upto answers.
Proof. unfold granted_in. rewrite filter_cons. case_decide; cbn [length]; lia. Qed.

(** What can still be granted in the minute from [T] on: what the window leaves
    and a whole window more, as far as the minute reaches them. *)
Definition allowance (limit : Z) (b : RequestBucket) (T : Z) : Z :=
  if T <=? window_start b then limit - bucket_count b
  else if T <? window_start b + minute then 2 * limit - bucket_count b
  else 2 * limit.

Lemma bucket_run_late limit b times T :
  Forall (fun t => T <= t) times -> granted_in (T - minute) T (bucket_run limit b times) = 0.
Proof.
  intros F. revert b; induction F as [|t times Ht _ IH]; intros b; [done|]. cbn [bucket_run].
  destruct (limit <=? _); rewrite granted_in_cons, IH, decide_False by (cbn; lia); done.
Qed.

Lemma allowance_nonneg limit b T : 0 <= bucket_count b <= limit -> 0 <= allowance limit b T.
Proof. intros H. unfold allowance. repeat case_match; lia. Qed.

Lemma bucket_run_bound limit b times T :
  0 <= bucket_count b <= limit -> 0 < window_start b ->
  StronglySorted Z.le times -> Forall (fun t => window_start b <= t) times ->
  granted_in T (T + minute) (bucket_run limit b times) <= allowance limit b T.
Proof.
  intros Hb Hw Hs. revert b Hb Hw; induction Hs as [|t times Hs IH Ft]; intros b Hb Hw Fw.
  { by apply allowance_nonneg. }
  apply Forall_cons in Fw as [Ht Fw].
  destruct (Z.le_gt_cases (T + minute) t) as [L|L].
  { assert (F : Forall (fun x => T + minute <= x) (t :: times))
      by (constructor; [done|]; eapply Forall_impl; [exact Ft|]; cbn; lia).
    replace T with (T + minute - minute) at 1 by lia. rewrite bucket_run_late by done.
    by apply allowance_nonneg. }
  cbn [bucket_run]. rewrite (proj2 (Z.eqb_neq _ _)) by lia. cbn [orb].
  assert (M : 0 < minute) by done.
  assert (Next : forall b', 0 <= bucket_count b' <= limit -> 0 < window_start b' <= t ->
    granted_in T (T + minute) (bucket_run limit b' times) <= allowance limit b' T).
  { intros b' H1 H2. apply IH; [done|lia|]. eapply Forall_impl; [exact Ft|]. cbn. lia. }
  destruct (Z.leb_spec minute (t - window_start b)) as [W|W]; cbn [bucket_count window_start].
  - destruct (Z.leb_spec limit 0); rewrite granted_in_cons; cbn [fst snd].
    + rewrite decide_False by (by intros []). specialize (Next (mk_bucket t 0) ltac:(cbn; lia) ltac:(cbn; lia)).
      unfold allowance in *. cbn [bucket_count window_start] in *.
      destruct (Z.leb_spec T (window_start b)), (Z.ltb_spec T (window_start b + minute)),
        (Z.leb_spec T t), (Z.ltb_spec T (t + minute)); lia.
    + specialize (Next (mk_bucket t (0 + 1)) ltac:(cbn; lia) ltac:(cbn; lia)).
      unfold allowance in *. cbn [bucket_count window_start] in *.
      destruct (Z.leb_spec T (window_start b)), (Z.ltb_spec T (window_start b + minute)),
        (Z.leb_spec T t), (Z.ltb_spec T (t + minute)); case_decide; lia.
  - destruct (Z.leb_spec limit (bucket_count b)); rewrite granted_in_cons; cbn [fst snd].
    + rewrite decide_False by (by intros []). by apply Next.
    + specialize (Next (mk_bucket (window_start b) (bucket_count b + 1)) ltac:(cbn; lia) ltac:(cbn; lia)).
      unfold allowance in *. cbn [bucket_count window_start] in *.
      destruct (Z.leb_spec T (window_start b)), (Z.ltb_spec T (window_start b + minute)); case_decide; lia.
Qed.

(** A request is refused only when the limit is used up within the minute. *)
Lemma bucket_run_refused limit b before times :
  0 <= bucket_count b <= asked_in (window_start b) (window_start b + minute) before -> 0 < window_start b ->
  Forall (fun t => window_start b <= t) times ->
  StronglySorted Z.le times -> (forall x y, x ∈ before -> y ∈ times -> x <= y) ->
  (forall T, asked_in T (T + minute) (before ++ times) <= limit) -> 0 < limit ->
  Forall (fun a => a.2 = true) (bucket_run limit b times).
Proof.
  intros Hb Hw Fp Hs. revert b before Hb Hw Fp; induction Hs as [|t times Hs IH Ft];
    intros b before Hb Hw Fp Hle Hl H0; [constructor|].
  apply Forall_cons in Fp as [Tp Fp].
  assert (Snoc : forall f u, asked_in f u (before ++ [t]) = asked_in f u before + (if decide (f <= t < u) then 1 else 0)).
  { intros f u. unfold asked_in. rewrite filter_app, length_app, filter_cons. cbn.
    case_decide; cbn [length]; lia. }
  assert (Next : forall b', 0 <= bucket_count b' <= asked_in (window_start b') (window_start b' + minute) (before ++ [t]) ->
    0 < window_start b' -> Forall (fun x => window_start b' <= x) times ->
    Forall (fun a => a.2 = true) (bucket_run limit b' times)).
  { intros b' H1 H2 H3. apply (IH b' (before ++ [t])); try done.
    - intros x y [Hx| ->%list_elem_of_singleton]%elem_of_app Hy; [apply Hle; [done|by right]|].
      rewrite Forall_forall in Ft. by apply Ft.
    - intros T. rewrite <- app_assoc. apply Hl. }
  cbn [bucket_run]. rewrite (proj2 (Z.eqb_neq (window_start b) 0)) by lia. cbn [orb].
  assert (M : 0 < minute) by done.
  destruct (Z.leb_spec minute (t - window_start b)) as [W|W]; cbn [bucket_count window_start].
  - rewrite (proj2 (Z.leb_gt _ _)) by lia. constructor; [done|].
    apply Next; cbn [window_start bucket_count]; [|lia|exact Ft].
    rewrite Snoc, decide_True by lia. unfold asked_in. lia.
  - assert (In : asked_in (window_start b) (window_start b + minute) (before ++ [t]) <= limit).
    { specialize (Hl (window_start b)). revert Hl. unfold asked_in.
      rewrite (app_assoc _ [t] times : before ++ t :: times = _), (filter_app _ (before ++ [t])), length_app. lia. }
    rewrite Snoc, decide_True in In by lia.
    rewrite (proj2 (Z.leb_gt _ _)) by lia. constructor; [done|].
    apply Next; cbn [window_start bucket_count]; [rewrite Snoc, decide_True by lia; lia|lia|].
    eapply Forall_impl; [exact Ft|]. cbn. lia.
Qed.

(** C31. The rate limiter neither lets a burst through nor punishes a client that
    keeps to its limit: of the requests of one address at non-decreasing times
    since a fresh state, at most twice the limit are granted within any minute
    (the windows are fixed, so two of them can meet), and if no minute contains
    more requests than the limit, all are granted. *)
Theorem rate_limit_bounds (ip : bytes) (config : ServerConfig) (times : list Z) :
  ip <> [] -> rate_limit_enabled config = true ->
  0 < rate_limit_requests_per_minute config < 2 ^ 31 ->
  StronglySorted Z.le times -> Forall (fun t => 0 < t) times ->
  let answers := rate_run ip config initial_security times in
  let limit := rate_limit_requests_per_minute config in
  (forall T, granted_in T (T + minute) answers <= 2 * limit) /\
  ((forall T, asked_in T (T + minute) times <= limit) -> Forall (fun a => a.2 = true) answers).
Proof.
  intros Hi He Hl Hs Hp. cbn zeta. rewrite rate_run_bucket by done.
  rewrite wrap_small by lia. set (limit := rate_limit_requests_per_minute config) in *.
  change (default _ _) with (mk_bucket 0 0). destruct times as [|t times].
  { split; [intros T; change (granted_in T (T + minute) _) with 0; lia|constructor]. }
  apply Forall_cons in Hp as [Ht Hp]. apply StronglySorted_inv in Hs as [Hs Ft].
  cbn [bucket_run window_start bucket_count]. change ((0 =? 0) || _) with true. cbn match.
  cbn [window_start bucket_count]. rewrite (proj2 (Z.leb_gt _ _)) by lia.
  assert (M : 0 < minute) by done. split.
  - intros T. rewrite granted_in_cons. cbn [fst snd].
    destruct (Z.le_gt_cases (T + minute) t) as [L|L].
    + rewrite decide_False by lia. replace T with (T + minute - minute) at 1 by lia.
      rewrite bucket_run_late; [lia|]. eapply Forall_impl; [exact Ft|]. cbn. lia.
    + pose proof (bucket_run_bound limit (mk_bucket t (0 + 1)) times T ltac:(cbn; lia) Ht Hs Ft) as B.
      unfold allowance in B. cbn [window_start bucket_count] in B.
      destruct (Z.leb_spec T t), (Z.ltb_spec T (t + minute)); case_decide; lia.
  - intros Ha. constructor; [done|]. apply (bucket_run_refused limit _ [t]); try done; cbn [window_start bucket_count].
    + unfold asked_in. rewrite filter_cons, decide_True by lia. cbn. lia.
    + intros x y ->%list_elem_of_singleton Hy. rewrite Forall_forall in Ft. by apply Ft.
    + lia.
Qed.

Lemma rate_limit_bounds_witness :
  let times := [1; 2; minute; minute + 1] in
  let answers := rate_run (str "10.0.0.1") default_config initial_security times in
  (forall T, granted_in T (T + minute) answers <= 2 * 600) /\
  ((forall T, asked_in T (T + minute) times <= 600) -> Forall (fun a => a.2 = true) answers).
Proof.
  apply (rate_limit_bounds (str "10.0.0.1") default_config [1; 2; minute; minute + 1]);
    [discriminate|reflexivity|done| |by_decide].
  repeat constructor; discriminate.
Defined.
