(* ===== verification/WebSocket.v ===== *)
(** * WebSocket: the upgrade and the echo service

    Models lines 356-372, 422-507 and the WebSocket part of [ClientConnection]
    (lines 4281-4487) of [src/src/core/server.cpp].  SHA-1 is OpenSSL's and a
    parameter.  The buffers and flags of the connection that this part uses are
    a state of their own; what the socket accepts of a write is an argument. *)

From S2P Require Import Prelude Text Numbers Request Response.

(** ** The upgrade *)

Definition connection_header_has_token (r : Request) (token : bytes) : bool :=
  match Request.header r (str "connection") with
  | None => false
  | Some h => existsb (fun item => bool_decide (lowercase (trim item) = token)) (getlines (chr ",") h)
  end.

Definition base64_table : bytes :=
  str "ABCDEFGHIJKLMNOPQRSTUVWXYZabcdefghijklmnopqrstuvwxyz0123456789+/".

Definition base64_char (triple shift : Z) : byte :=
  byte_at base64_table (Z.to_nat (Z.land (Z.shiftr triple shift) 0x3f)).

Definition base64_triple (a b c : Z) : Z := Z.lor (Z.lor (Z.shiftl a 16) (Z.shiftl b 8)) c.

(** The loop over [index], three bytes at a time. *)
Fixpoint base64_encode (data : bytes) : bytes :=
  match data with
  | [] => []
  | [a] =>
      let triple := base64_triple (val a) 0 0 in
      [base64_char triple 18; base64_char triple 12; chr "="; chr "="]
  | [a; b] =>
      let triple := base64_triple (val a) (val b) 0 in
      [base64_char triple 18; base64_char triple 12; base64_char triple 6; chr "="]
  | a :: b :: c :: data' =>
      let triple := base64_triple (val a) (val b) (val c) in
      [base64_char triple 18; base64_char triple 12; base64_char triple 6; base64_char triple 0]
      ++ base64_encode data'
  end.

Definition websocket_guid : bytes := str "258EAFA5-E914-47DA-95CA-C5AB0DC85B11".

Definition is_websocket_upgrade_request (request : Request) : bool :=
  let upgrade := Request.header request (str "upgrade") in
  let version := Request.header request (str "sec-websocket-version") in
  let key := Request.header request (str "sec-websocket-key") in
  bool_decide (method request = str "GET")
  && match upgrade with Some u => bool_decide (lowercase u = str "websocket") | None => false end
  && connection_header_has_token request (str "upgrade")
  && match version with Some v => bool_decide (trim v = str "13") | None => false end
  && match key with Some k => negb (bool_decide (trim k = [])) | None => false end.

Section handshake.
(** [EVP_Digest] with [EVP_sha1]; [None] is its failure. *)
Context (sha1 : bytes -> option bytes).

Definition websocket_accept_key (key : bytes) : outcome bytes :=
  match sha1 (key ++ websocket_guid) with
  | Some digest => Ret (base64_encode digest)
  | None => Raise "EVP_Digest SHA1 failed for WebSocket accept key"
  end.

Definition websocket_handshake_response (request : Request) : outcome Response :=
  match Request.header request (str "sec-websocket-key") with
  | None => Ret (text_response 400 (str "Missing Sec-WebSocket-Key" ++ [LF]) text_plain)
  | Some key =>
      accept ← websocket_accept_key (trim key);
      Ret (mk_response 101 (reason_phrase 101)
             (<[str "sec-websocket-accept" := accept]>
                (<[str "connection" := str "Upgrade"]> (<[str "upgrade" := str "websocket"]> ∅))) [])
  end.
End handshake.

(** ** Frames *)

(** [for (shift = 56; shift >= 0; shift -= 8)] *)
Definition be64 (n : Z) : bytes :=
  (fun shift => u8 (Z.land (Z.shiftr n shift) 0xff)) <$> [56; 48; 40; 32; 24; 16; 8; 0].

Definition websocket_frame (opcode : Z) (payload : bytes) : bytes :=
  [u8 (Z.lor 0x80 (Z.land opcode 0x0f))]
  ++ (if size payload <? 126 then [u8 (size payload)]
      else if size payload <=? 0xffff then
        [u8 126; u8 (Z.land (Z.shiftr (size payload) 8) 0xff); u8 (Z.land (size payload) 0xff)]
      else u8 127 :: be64 (size payload))
  ++ payload.

(** The buffers and the flag of [ClientConnection] that the echo service uses;
    the phase only as far as the connection may have been closed. *)
Record WebSocketState : Type := mk_ws {
  ws_input : bytes;
  ws_output : bytes;
  ws_offset : nat;
  websocket_close_after_write_ : bool;
  ws_closed : bool;
}.

Definition opened (input : bytes) : WebSocketState := mk_ws input [] 0 false false.

Definition queue_websocket_frame (opcode : Z) (payload : bytes) (s : WebSocketState) : WebSocketState :=
  mk_ws (ws_input s) (ws_output s ++ websocket_frame opcode payload) (ws_offset s)
    (websocket_close_after_write_ s) (ws_closed s).

Definition close_after_write (s : WebSocketState) : WebSocketState :=
  mk_ws (ws_input s) (ws_output s) (ws_offset s) true (ws_closed s).

Definition set_input (input : bytes) (s : WebSocketState) : WebSocketState :=
  mk_ws input (ws_output s) (ws_offset s) (websocket_close_after_write_ s) (ws_closed s).

(** The payload length and where the mask begins; [None] when its bytes have
    not arrived. *)
Definition frame_length (input : bytes) : option (Z * nat) :=
  let short := Z.land (val (byte_at input 1)) 0x7f in
  if short =? 126 then
    if (length input <? 4)%nat then None
    else Some (Z.lor (Z.shiftl (val (byte_at input 2)) 8) (val (byte_at input 3)), 4%nat)
  else if short =? 127 then
    if (length input <? 10)%nat then None
    else Some (fold_left (fun n index => u64 (Z.lor (Z.shiftl n 8) (val (byte_at input (2 + index))))) (seq 0 8) 0,
               10%nat)
  else Some (short, 2%nat).

Fixpoint unmask (mask : bytes) (index : nat) (masked : bytes) : bytes :=
  match masked with
  | [] => []
  | c :: masked' => u8 (Z.lxor (val c) (val (byte_at mask (index mod 4)))) :: unmask mask (S index) masked'
  end.

(** [while (request_buffer_.size() >= 2)]: a turn that does not return erases
    at least six bytes. *)
Fixpoint websocket_loop (fuel : nat) (max_frame_bytes : Z) (s : WebSocketState) : outcome WebSocketState :=
  let input := ws_input s in
  if (length input <? 2)%nat then Ret s
  else
    match fuel with
    | O => Timeout
    | S fuel' =>
        let first := val (byte_at input 0) in
        let second := val (byte_at input 1) in
        let fin := negb (Z.land first 0x80 =? 0) in
        let opcode := Z.land first 0x0f in
        let masked := negb (Z.land second 0x80 =? 0) in
        if negb fin || negb masked then Ret (close_after_write (queue_websocket_frame 0x8 [] s))
        else
          match frame_length input with
          | None => Ret s
          | Some (payload_length, cursor) =>
              if (max_frame_bytes <? payload_length) || (size input <? u64 (Z.of_nat cursor + 4 + payload_length)) then
                Ret (if (max_frame_bytes <? payload_length) || (u64 (max_frame_bytes + 14) <? size input)
                     then close_after_write (queue_websocket_frame 0x8 [] s) else s)
              else
                let mask := substr input cursor 4 in
                let cursor := (cursor + 4)%nat in
                let n := Z.to_nat payload_length in
                let payload := unmask mask 0 (substr input cursor n) in
                let s := set_input (drop (cursor + n) input) s in
                if (opcode =? 0x1) || (opcode =? 0x2)
                then websocket_loop fuel' max_frame_bytes (queue_websocket_frame opcode payload s)
                else if opcode =? 0x8 then Ret (close_after_write (queue_websocket_frame 0x8 payload s))
                else if opcode =? 0x9
                then websocket_loop fuel' max_frame_bytes (queue_websocket_frame 0xA payload s)
                else if opcode =? 0xA then websocket_loop fuel' max_frame_bytes s
                else Ret (close_after_write (queue_websocket_frame 0x8 [] s))
          end
    end.

Definition process_websocket_frames (max_frame_bytes : Z) (s : WebSocketState) : outcome WebSocketState :=
  websocket_loop (length (ws_input s)) max_frame_bytes s.

(** The body of [read_websocket] for one successful read. *)
Definition read_websocket (max_frame_bytes : Z) (chunk : bytes) (s : WebSocketState) : outcome WebSocketState :=
  process_websocket_frames max_frame_bytes (set_input (ws_input s ++ chunk) s).

(** [flush_websocket_writes] when the socket takes [accepted] bytes before it
    would block. *)
Definition flush_websocket_writes (accepted : nat) (s : WebSocketState) : WebSocketState :=
  let remaining := (length (ws_output s) - ws_offset s)%nat in
  if (accepted <? remaining)%nat then
    mk_ws (ws_input s) (ws_output s) (ws_offset s + accepted) (websocket_close_after_write_ s) (ws_closed s)
  else
    mk_ws (ws_input s) [] 0 (websocket_close_after_write_ s) (websocket_close_after_write_ s || ws_closed s).

(** ** Base64 *)

(** RFC 4648 decoding, as the client does it. *)
Fixpoint base64_decode (s : bytes) : option bytes :=
  match s with
  | [] => Some []
  | w :: x :: y :: z :: s' =>
      let v c := Z.of_nat <$> find_byte c base64_table in
      w ← v w; x ← v x;
      if decide (z = chr "=") then
        if decide (s' <> []) then None
        else if decide (y = chr "=") then Some [u8 (w * 4 + x / 16)]
        else y ← v y; Some [u8 (w * 4 + x / 16); u8 (x * 16 + y / 4)]
      else
        y ← v y; z ← v z; rest ← base64_decode s';
        Some ([u8 (w * 4 + x / 16); u8 (x * 16 + y / 4); u8 (y * 64 + z)] ++ rest)
  | _ => None
  end.

Lemma base64_triple_value a b c : 0 <= a < 256 -> 0 <= b < 256 -> 0 <= c < 256 ->
  base64_triple a b c = a * 2 ^ 16 + b * 2 ^ 8 + c.
Proof.
  intros Ha Hb Hc. unfold base64_triple.
  rewrite (shiftl_lor_add 16), Z.shiftl_mul_pow2 by (rewrite ?Z.shiftl_mul_pow2; lia).
  replace (a * 2 ^ 16 + b * 2 ^ 8) with ((a * 2 ^ 8 + b) * 2 ^ 8) by lia. rewrite lor_add by lia. lia.
Qed.

Definition sextet (n shift : Z) : Z := n / 2 ^ shift mod 64.

Lemma base64_char_index i : 0 <= i < 64 ->
  find_byte (byte_at base64_table (Z.to_nat i)) base64_table = Some (Z.to_nat i) /\
  byte_at base64_table (Z.to_nat i) <> chr "=".
Proof.
  intros Hi. assert (F : Forall (fun i => find_byte (byte_at base64_table (Z.to_nat i)) base64_table = Some (Z.to_nat i)
    /\ byte_at base64_table (Z.to_nat i) <> chr "=") (seqZ 0 64)) by by_decide.
  rewrite Forall_forall in F. apply F, elem_of_seqZ. lia.
Qed.

Lemma base64_char_value n shift : 0 <= shift ->
  Z.of_nat <$> find_byte (base64_char n shift) base64_table = Some (sextet n shift) /\
  base64_char n shift <> chr "=".
Proof.
  intros Hs. unfold base64_char, sextet. change 0x3f with (2 ^ 6 - 1).
  rewrite land_mask, Z.shiftr_div_pow2 by lia. change (2 ^ 6) with 64.
  pose proof (Z.mod_pos_bound (n / 2 ^ shift) 64 ltac:(lia)) as B.
  destruct (base64_char_index _ B) as [-> N]. split; [|exact N]. cbn. f_equal. lia.
Qed.

Lemma sextets_bytes a b c n :
  0 <= a < 256 -> 0 <= b < 256 -> 0 <= c < 256 -> n = a * 2 ^ 16 + b * 2 ^ 8 + c ->
  (sextet n 18 * 4 + sextet n 12 / 16) mod 256 = a /\
  (sextet n 12 * 16 + sextet n 6 / 4) mod 256 = b /\
  (sextet n 6 * 64 + sextet n 0) mod 256 = c.
Proof.
  intros Ha Hb Hc ->. unfold sextet. change (2 ^ 18) with 262144. change (2 ^ 12) with 4096.
  change (2 ^ 16) with 65536. change (2 ^ 8) with 256. change (2 ^ 6) with 64. change (2 ^ 0) with 1.
  repeat split; Z.to_euclidean_division_equations; lia.
Qed.

Lemma u8_mod_val n c : n mod 256 = val c -> u8 n = c.
Proof. intros H. by rewrite <- (u8_val c), <- H, u8_mod. Qed.

Lemma base64_group a b c rest :
  let n := base64_triple (val a) (val b) (val c) in
  base64_decode ([base64_char n 18; base64_char n 12; base64_char n 6; base64_char n 0] ++ rest)
  = (r ← base64_decode rest; Some ([a; b; c] ++ r)).
Proof.
  cbn zeta. set (n := base64_triple _ _ _). cbn [app base64_decode].
  pose proof (val_range a). pose proof (val_range b). pose proof (val_range c).
  destruct (base64_char_value n 18) as [-> _]; [lia|]. destruct (base64_char_value n 12) as [-> _]; [lia|].
  destruct (base64_char_value n 6) as [E6 _]; [lia|]. destruct (base64_char_value n 0) as [E0 N0]; [lia|].
  cbn [mbind option_bind]. rewrite decide_False by exact N0. rewrite E6, E0. cbn [mbind option_bind].
  destruct (sextets_bytes (val a) (val b) (val c) n) as (B1 & B2 & B3); [lia..|by apply base64_triple_value|].
  by rewrite (u8_mod_val _ _ B1), (u8_mod_val _ _ B2), (u8_mod_val _ _ B3).
Qed.

Lemma base64_last_one a : base64_decode (base64_encode [a]) = Some [a].
Proof.
  cbn [base64_encode base64_decode]. set (n := base64_triple _ _ _). pose proof (val_range a).
  destruct (base64_char_value n 18) as [-> _]; [lia|]. destruct (base64_char_value n 12) as [-> _]; [lia|].
  cbn [mbind option_bind]. rewrite decide_True, decide_False, decide_True by (done || by intros []).
  destruct (sextets_bytes (val a) 0 0 n) as (B1 & _); [lia..|by apply base64_triple_value|].
  by rewrite (u8_mod_val _ _ B1).
Qed.

Lemma base64_last_two a b : base64_decode (base64_encode [a; b]) = Some [a; b].
Proof.
  cbn [base64_encode base64_decode]. set (n := base64_triple _ _ _).
  pose proof (val_range a). pose proof (val_range b).
  destruct (base64_char_value n 18) as [-> _]; [lia|]. destruct (base64_char_value n 12) as [-> _]; [lia|].
  destruct (base64_char_value n 6) as [E6 N6]; [lia|].
  cbn [mbind option_bind]. rewrite decide_True, decide_False, decide_False by (done || by intros []).
  rewrite E6. cbn [mbind option_bind].
  destruct (sextets_bytes (val a) (val b) 0 n) as (B1 & B2 & _); [lia..|by apply base64_triple_value|].
  by rewrite (u8_mod_val _ _ B1), (u8_mod_val _ _ B2).
Qed.

Lemma base64_decode_encode : forall data, base64_decode (base64_encode data) = Some data.
Proof.
  fix IH 1. intros [|a [|b [|c data]]].
  - done.
  - apply base64_last_one.
  - apply base64_last_two.
  - change (base64_encode (a :: b :: c :: data)) with
      ([base64_char (base64_triple (val a) (val b) (val c)) 18; base64_char (base64_triple (val a) (val b) (val c)) 12;
        base64_char (base64_triple (val a) (val b) (val c)) 6; base64_char (base64_triple (val a) (val b) (val c)) 0]
       ++ base64_encode data).
    rewrite base64_group, IH. done.
Qed.

(** ** Frames of the client and of the server *)

(** What RFC 6455 lets a client send: a final, masked frame with the shortest
    length. *)
Definition frame_header (mask_bit opcode n : Z) : bytes :=
  u8 (128 + opcode) ::
  (if n <? 126 then [u8 (mask_bit + n)]
   else if n <=? 65535 then [u8 (mask_bit + 126); u8 (n / 256); u8 n]
   else u8 (mask_bit + 127) :: be64 n).

Definition client_header : Z -> Z -> bytes := frame_header 128.

Record Message : Type := mk_message {
  msg_opcode : Z;
  msg_mask : bytes;
  msg_payload : bytes;
}.

Definition client_frame (m : Message) : bytes :=
  client_header (msg_opcode m) (size (msg_payload m)) ++ msg_mask m ++ unmask (msg_mask m) 0 (msg_payload m).

Record wf_message (max_frame_bytes : Z) (m : Message) : Prop := {
  wf_opcode : msg_opcode m ∈ [1; 2; 8; 9; 10];
  wf_mask : length (msg_mask m) = 4%nat;
  wf_payload : size (msg_payload m) <= max_frame_bytes;
}.

Definition respond (m : Message) (s : WebSocketState) : WebSocketState :=
  if decide (msg_opcode m = 8) then close_after_write (queue_websocket_frame 8 (msg_payload m) s)
  else if decide (msg_opcode m = 9) then queue_websocket_frame 10 (msg_payload m) s
  else if decide (msg_opcode m = 10) then s
  else queue_websocket_frame (msg_opcode m) (msg_payload m) s.

Lemma length_unmask mask i p : length (unmask mask i p) = length p.
Proof. revert i; induction p as [|c p IH]; intros i; [done|]. cbn. by rewrite IH. Qed.

Lemma unmask_unmask mask i p : unmask mask i (unmask mask i p) = p.
Proof.
  revert i; induction p as [|c p IH]; intros i; [done|]. cbn [unmask]. rewrite IH. f_equal.
  pose proof (val_range c) as H1. pose proof (val_range (byte_at mask (i mod 4))) as H2.
  assert (B : 0 <= Z.lxor (val c) (val (byte_at mask (i mod 4))) < 256).
  { split; [apply Z.lxor_nonneg; lia|].
    destruct (Z.eq_dec (Z.lxor (val c) (val (byte_at mask (i mod 4)))) 0) as [-> |N]; [lia|].
    apply (Z.log2_lt_pow2 _ 8); [|eapply Z.le_lt_trans; [apply Z.log2_lxor; lia|]].
    - assert (0 <= Z.lxor (val c) (val (byte_at mask (i mod 4)))) by (apply Z.lxor_nonneg; lia). lia.
    - assert (L : forall x, 0 <= x < 256 -> Z.log2 x < 8).
      { intros x Hx. destruct (Z.eq_dec x 0) as [-> |]; [done|]. apply Z.log2_lt_pow2; lia. }
      apply Z.max_lub_lt; by apply L. }
  rewrite val_u8_small by done. rewrite Z.lxor_assoc, Z.lxor_nilpotent, Z.lxor_0_r. apply u8_val.
Qed.

Lemma be64_step n k k' : 0 <= n < 2 ^ 64 -> 0 <= k -> k' = k + 8 ->
  u64 (Z.lor (Z.shiftl (n / 2 ^ k') 8) (n / 2 ^ k mod 256)) = n / 2 ^ k.
Proof.
  intros Hn Hk ->. pose proof (Z.mod_pos_bound (n / 2 ^ k) 256 ltac:(lia)).
  rewrite (shiftl_lor_add 8) by lia. rewrite Z.pow_add_r, <- Z.div_div by lia. change (2 ^ 8) with 256.
  pose proof (Z.div_mod (n / 2 ^ k) 256 ltac:(lia)).
  assert (0 <= n / 2 ^ k) by (apply Z.div_pos; lia).
  assert (n / 2 ^ k <= n) by (apply Z.div_le_upper_bound; [lia|]; pose proof (Z.pow_pos_nonneg 2 k); nia).
  rewrite wrap_small; lia.
Qed.

Lemma be64_value n : 0 <= n < 2 ^ 64 ->
  fold_left (fun acc c => u64 (Z.lor (Z.shiftl acc 8) (val c))) (be64 n) 0 = n.
Proof.
  intros Hn. unfold be64. cbn [fmap list_fmap fold_left]. rewrite !u8_shiftr_land, !val_u8 by lia.
  replace 0 with (n / 2 ^ 64) at 1 by (apply Z.div_small; exact Hn).
  rewrite (be64_step n 56 64), (be64_step n 48 56), (be64_step n 40 48), (be64_step n 32 40), (be64_step n 24 32),
    (be64_step n 16 24), (be64_step n 8 16), (be64_step n 0 8) by lia.
  apply Z.div_1_r.
Qed.

Lemma byte_at_O x l : byte_at (x :: l) 0 = x.
Proof. done. Qed.
Lemma byte_at_S x l i : byte_at (x :: l) (S i) = byte_at l i.
Proof. done. Qed.

Lemma land_127 mask_bit x : mask_bit = 0 \/ mask_bit = 128 -> 0 <= x < 128 -> Z.land (mask_bit + x) 0x7f = x.
Proof.
  intros Hm Hx. change 0x7f with (2 ^ 7 - 1). rewrite land_mask by lia.
  destruct Hm as [-> | ->]; [by apply Z.mod_small|].
  replace (128 + x) with (x + 1 * 2 ^ 7) by lia. rewrite Z_mod_plus_full. apply Z.mod_small. lia.
Qed.

Lemma land_128 x : 128 <= x < 256 -> Z.land x 128 =? 0 = false.
Proof.
  intros Hx. assert (F : Forall (fun x => Z.land x 128 =? 0 = false) (seqZ 128 128)) by by_decide.
  rewrite Forall_forall in F. apply F, elem_of_seqZ. lia.
Qed.

Lemma land_15 x : 0 <= x < 16 -> Z.land (128 + x) 15 = x.
Proof.
  intros Hx. assert (F : Forall (fun x => Z.land (128 + x) 15 = x) (seqZ 0 16)) by by_decide.
  rewrite Forall_forall in F. apply F, elem_of_seqZ. lia.
Qed.

(** The frame reader on a header. *)
Lemma frame_length_header mask_bit opcode n rest :
  mask_bit = 0 \/ mask_bit = 128 -> 0 <= n < 2 ^ 63 -> 0 <= opcode < 16 ->
  frame_length (frame_header mask_bit opcode n ++ rest) = Some (n, length (frame_header mask_bit opcode n)) /\
  val (byte_at (frame_header mask_bit opcode n ++ rest) 0) = 128 + opcode /\
  mask_bit <= val (byte_at (frame_header mask_bit opcode n ++ rest) 1) < mask_bit + 128.
Proof.
  intros Hb Hn Ho. unfold frame_header, frame_length.
  destruct (Z.ltb_spec n 126) as [S|S]; [|destruct (Z.leb_spec n 65535) as [M|M]];
    cbn [app]; rewrite !byte_at_S, !byte_at_O, val_u8_small, (val_u8_small (128 + opcode)), land_127 by (done || lia).
  - rewrite (proj2 (Z.eqb_neq _ _)), (proj2 (Z.eqb_neq _ _)) by lia.
    split; [done|lia].
  - cbn [Z.eqb Pos.eqb length Nat.ltb Nat.leb].
    split; [|lia]. rewrite !val_u8, (shiftl_lor_add 8) by (Z.to_euclidean_division_equations; lia).
    do 2 f_equal. change (2 ^ 8) with 256. Z.to_euclidean_division_equations; lia.
  - change (127 =? 126) with false. change (127 =? 127) with true. cbn match.
    split; [|lia].
    assert (L : length (be64 n) = 8%nat) by done.
    rewrite (proj2 (Nat.ltb_ge _ _)) by (cbn [length]; rewrite length_app, L; lia).
    change (length (u8 (128 + opcode) :: u8 (mask_bit + 127) :: be64 n)) with 10%nat.
    pose proof (be64_value n ltac:(lia)) as B. f_equal. f_equal.
    etransitivity; [|exact B]. revert L. clear.
    generalize (be64 n). intros l L. do 8 (destruct l as [|? l]; [done|]). destruct l; [|done].
    cbn [seq fold_left Nat.add app]. rewrite !byte_at_S, !byte_at_O. reflexivity.
Qed.

Lemma frame_length_client opcode n rest :
  0 <= n < 2 ^ 63 -> 0 <= opcode < 16 ->
  frame_length (client_header opcode n ++ rest) = Some (n, length (client_header opcode n)) /\
  val (byte_at (client_header opcode n ++ rest) 0) = 128 + opcode /\
  128 <= val (byte_at (client_header opcode n ++ rest) 1) < 256.
Proof. intros Hn Ho. apply (frame_length_header 128); [by right|done|done]. Qed.

Lemma client_header_length opcode n : (2 <= length (client_header opcode n) <= 10)%nat.
Proof. unfold client_header, frame_header. destruct (n <? 126); [cbn; lia|]. destruct (n <=? 65535); cbn; lia. Qed.

(** The header tells how long the frame is, from its first ten bytes on. *)
Lemma frame_length_prefix p q :
  (2 <= length p)%nat -> frame_length (p ++ q) = None \/ frame_length p = frame_length (p ++ q) \/ frame_length p = None.
Proof.
  intros Hp. unfold frame_length.
  assert (B : forall i, (i < length p)%nat -> byte_at (p ++ q) i = byte_at p i)
    by (intros i Hi; unfold byte_at; by rewrite lookup_app_l).
  rewrite (B 1%nat) by lia. rewrite length_app.
  destruct (_ =? 126).
  - destruct (Nat.ltb_spec (length p) 4); [by right; right|]. right; left.
    rewrite (proj2 (Nat.ltb_ge _ _)) by lia. by rewrite !B by lia.
  - destruct (_ =? 127); [|by right; left].
    destruct (Nat.ltb_spec (length p) 10); [by right; right|]. right; left.
    rewrite (proj2 (Nat.ltb_ge _ _)) by lia. cbn [seq fold_left Nat.add]. by rewrite !B by lia.
Qed.

Section echo.
Context (max_frame_bytes : Z) (max_ok : 0 <= max_frame_bytes < 2 ^ 63 - 14).

Lemma client_frame_length m :
  wf_message max_frame_bytes m ->
  length (client_frame m) = (length (client_header (msg_opcode m) (size (msg_payload m))) + 4 + length (msg_payload m))%nat.
Proof using Type. intros [_ Hm _]. unfold client_frame. rewrite !length_app, length_unmask, Hm. lia. Qed.

Lemma opcode_range m : wf_message max_frame_bytes m -> 1 <= msg_opcode m <= 10.
Proof using Type.
  intros [H _ _]. assert (F : Forall (fun x => 1 <= x <= 10) [1; 2; 8; 9; 10]) by (repeat constructor; lia).
  rewrite Forall_forall in F. by apply F.
Qed.

(** A whole frame is answered and erased. *)
Lemma websocket_loop_frame fuel m rest s :
  wf_message max_frame_bytes m -> ws_input s = client_frame m ++ rest ->
  websocket_loop (S fuel) max_frame_bytes s =
  if decide (msg_opcode m = 8) then Ret (respond m (set_input rest s))
  else websocket_loop fuel max_frame_bytes (respond m (set_input rest s)).
Proof using max_ok.
  intros W E. pose proof (opcode_range m W) as Ho. pose proof W as [Hop Hm Hs].
  cbn [websocket_loop]. rewrite E. set (h := client_header (msg_opcode m) (size (msg_payload m))).
  set (p := msg_payload m) in *. unfold client_frame. fold p h. rewrite <- !app_assoc.
  pose proof (client_header_length (msg_opcode m) (size p)) as Lh. fold h in Lh.
  rewrite (proj2 (Nat.ltb_ge _ _)) by (rewrite length_app; lia).
  destruct (frame_length_client (msg_opcode m) (size p) (msg_mask m ++ unmask (msg_mask m) 0 p ++ rest))
    as (F & B0 & B1); [lia|lia|]. fold h in F, B0, B1. rewrite B0.
  rewrite !land_128, land_15 by lia. cbn [negb orb]. rewrite F.
  rewrite (proj2 (Z.ltb_ge _ _)) by lia. cbn [orb].
  rewrite wrap_small by lia.
  rewrite (proj2 (Z.ltb_ge _ _)) by (rewrite !length_app, length_unmask; lia).
  rewrite Nat2Z.id.
  assert (Sm : substr (h ++ msg_mask m ++ unmask (msg_mask m) 0 p ++ rest) (length h) 4 = msg_mask m)
    by (rewrite <- Hm; apply substr_middle).
  assert (Sp : substr (h ++ msg_mask m ++ unmask (msg_mask m) 0 p ++ rest) (length h + 4) (length p)
               = unmask (msg_mask m) 0 p).
  { rewrite app_assoc, <- Hm, <- length_app, <- (length_unmask (msg_mask m) 0 p). apply substr_middle. }
  assert (D : drop (length h + 4 + length p) (h ++ msg_mask m ++ unmask (msg_mask m) 0 p ++ rest) = rest).
  { rewrite !app_assoc. rewrite <- Hm, <- (length_unmask (msg_mask m) 0 p), <- !length_app. by rewrite drop_app_length. }
  rewrite Sm, Sp, D, unmask_unmask. unfold respond. fold p.
  set_unfold in Hop. destruct Hop as [Q|[Q|[Q|[Q|[Q|[]]]]]]; rewrite Q; cbn [Z.eqb Pos.eqb orb];
    repeat (rewrite decide_True by done || rewrite decide_False by done); done.
Qed.

Definition frames (ms : list Message) : bytes := ms ≫= client_frame.

Lemma frames_cons m ms : frames (m :: ms) = client_frame m ++ frames ms.
Proof using Type. done. Qed.

(** A part of a frame waits for the rest. *)
Lemma websocket_loop_partial fuel m p q s :
  wf_message max_frame_bytes m -> p ++ q = client_frame m -> q <> [] -> ws_input s = p -> (length p <= fuel)%nat ->
  websocket_loop fuel max_frame_bytes s = Ret s.
Proof using max_ok.
  intros W E Hq Hi Hf. destruct (Nat.lt_ge_cases (length p) 2) as [L|L].
  { destruct fuel; cbn [websocket_loop]; by rewrite Hi, (proj2 (Nat.ltb_lt _ _) L). }
  destruct fuel as [|fuel]; [lia|]. pose proof (opcode_range m W) as Ho. pose proof W as [_ Hm Hs].
  pose proof (client_frame_length m W) as Lf. rewrite <- E, length_app in Lf.
  assert (Lq : (0 < length q)%nat) by (destruct q; [done|cbn; lia]).
  pose proof (client_header_length (msg_opcode m) (size (msg_payload m))) as Lh.
  destruct (frame_length_client (msg_opcode m) (size (msg_payload m)) (msg_mask m ++ unmask (msg_mask m) 0 (msg_payload m)))
    as (F & B0 & B1); [lia|lia|]. fold (client_frame m) in F, B0, B1. rewrite <- E in F, B0, B1.
  assert (B : forall i, (i < 2)%nat -> byte_at (p ++ q) i = byte_at p i)
    by (intros i Hi'; unfold byte_at; rewrite lookup_app_l by lia; done).
  rewrite B in B0, B1 by lia.
  cbn [websocket_loop]. rewrite Hi, (proj2 (Nat.ltb_ge _ _)) by lia. rewrite B0, !land_128 by lia. cbn [negb orb].
  destruct (frame_length_prefix p q L) as [N|[N|N]]; [by rewrite F in N| |by rewrite N].
  rewrite N, F. rewrite (proj2 (Z.ltb_ge _ _)) by lia. cbn [orb]. rewrite !wrap_small by lia.
  rewrite (proj2 (Z.ltb_lt _ _)) by lia. by rewrite (proj2 (Z.ltb_ge _ _)) by lia.
Qed.

Fixpoint close_last (ms : list Message) : Prop :=
  match ms with
  | [] => True
  | m :: ms' => (msg_opcode m = 8 -> ms' = []) /\ close_last ms'
  end.

(** [p] is a part of the first frame. *)
Definition incomplete (p : bytes) (ms : list Message) : Prop :=
  match ms with
  | [] => p = []
  | m :: _ => exists q, q <> [] /\ p ++ q = client_frame m
  end.

Definition respond_all (ms : list Message) (s : WebSocketState) : WebSocketState :=
  foldl (fun s m => respond m s) s ms.

Lemma respond_set_input m p s : respond m (set_input p s) = set_input p (respond m s).
Proof using Type. unfold respond. by repeat case_decide. Qed.

Lemma websocket_loop_prefix ms fuel s b b' :
  Forall (wf_message max_frame_bytes) ms -> close_last ms -> ws_input s = b -> b ++ b' = frames ms ->
  (length b <= fuel)%nat ->
  exists ms1 ms2 p, ms = ms1 ++ ms2 /\ b = frames ms1 ++ p /\ p ++ b' = frames ms2 /\ incomplete p ms2 /\
    websocket_loop fuel max_frame_bytes s = Ret (set_input p (respond_all ms1 s)).
Proof using max_ok.
  intros F. revert fuel s b; induction F as [|m ms W F IH]; intros fuel s b Hc Hi E Hf.
  { apply app_eq_nil in E as [-> ->]. exists [], [], []. repeat split; try done.
    assert (I : set_input [] (respond_all [] s) = s) by (destruct s; cbn in *; by rewrite Hi). rewrite I.
    destruct fuel; cbn [websocket_loop]; by rewrite Hi. }
  rewrite frames_cons in E. destruct Hc as [Hc Hcs].
  destruct (Nat.le_gt_cases (length (client_frame m)) (length b)) as [L|L].
  - assert (S : exists r, b = client_frame m ++ r /\ r ++ b' = frames ms).
    { exists (drop (length (client_frame m)) b). apply (f_equal (take (length (client_frame m)))) in E as T.
      rewrite take_app_length, take_app_le in T by done.
      assert (Eb : b = client_frame m ++ drop (length (client_frame m)) b) by (rewrite <- T at 1; by rewrite take_drop).
      split; [done|]. rewrite Eb, <- app_assoc in E. by apply app_inv_head in E. }
    destruct S as (r & Eb & Er).
    assert (Lf : (0 < length (client_frame m))%nat) by (rewrite client_frame_length by done;
      pose proof (client_header_length (msg_opcode m) (size (msg_payload m))); lia).
    rewrite Eb, length_app in Hf. destruct fuel as [|fuel]; [lia|].
    rewrite (websocket_loop_frame fuel m r s W) by (by rewrite Hi). case_decide as D.
    + rewrite (Hc D) in *. apply app_eq_nil in Er as [-> ->]. exists [m], [], []. repeat split; try done.
      * rewrite Eb, frames_cons. change (frames []) with (@nil byte). by rewrite !app_nil_r.
      * by rewrite respond_set_input.
    + destruct (IH fuel (respond m (set_input r s)) r Hcs) as (ms1 & ms2 & p & E1 & E2 & E3 & E4 & E5); [|done|lia|].
      { by rewrite respond_set_input. }
      exists (m :: ms1), ms2, p. repeat split; [by rewrite E1|by rewrite Eb, E2, frames_cons, app_assoc|done|done|].
      rewrite E5, respond_set_input. f_equal.
      change (respond_all (m :: ms1) s) with (respond_all ms1 (respond m s)). generalize (respond m s). clear.
      intros s. revert s; induction ms1 as [|x ms1 IH]; intros s; [done|].
      change (respond_all (x :: ms1) ?s) with (respond_all ms1 (respond x s)). by rewrite respond_set_input, IH.
  - exists [], (m :: ms), b.
    assert (S : exists q, q <> [] /\ b ++ q = client_frame m).
    { exists (drop (length b) (client_frame m)). split.
      - intros N. apply (f_equal length) in N. rewrite length_drop in N. cbn [length] in N. lia.
      - apply (f_equal (take (length b))) in E. rewrite take_app_length, take_app_le in E by lia.
        rewrite E at 1. apply take_drop. }
    destruct S as (q & Hq & Eq). repeat split; [done|by exists q|].
    assert (I : set_input b (respond_all [] s) = s) by (destruct s; cbn in *; by rewrite Hi). rewrite I.
    by eapply websocket_loop_partial.
Qed.
End echo.

(** ** The connection as a sequence of events *)

Inductive WsEvent : Type :=
| Received (chunk : bytes)
| Writable (accepted : nat).

(** What the client has been sent, and the state; nothing happens once the
    connection is closed. *)
Definition ws_event (max_frame_bytes : Z) (st : bytes * WebSocketState) (e : WsEvent)
    : outcome (bytes * WebSocketState) :=
  let '(sent, s) := st in
  if ws_closed s then Ret st
  else
    match e with
    | Received chunk => s ← read_websocket max_frame_bytes chunk s; Ret (sent, s)
    | Writable accepted =>
        Ret (sent ++ take accepted (drop (ws_offset s) (ws_output s)), flush_websocket_writes accepted s)
    end.

Definition ws_run (max_frame_bytes : Z) (st : bytes * WebSocketState) (events : list WsEvent)
    : outcome (bytes * WebSocketState) := foldO (ws_event max_frame_bytes) st events.

Definition received_bytes (events : list WsEvent) : bytes :=
  events ≫= fun e => match e with Received chunk => chunk | Writable _ => [] end.

(** What the client has been sent or will be sent. *)
Definition wire (st : bytes * WebSocketState) : bytes := st.1 ++ drop (ws_offset st.2) (ws_output st.2).

Definition reply (m : Message) : list (Z * bytes) :=
  if decide (msg_opcode m = 8) then [(8, msg_payload m)]
  else if decide (msg_opcode m = 9) then [(10, msg_payload m)]
  else if decide (msg_opcode m = 10) then []
  else [(msg_opcode m, msg_payload m)].

Definition server_frames (fs : list (Z * bytes)) : bytes := fs ≫= fun f => websocket_frame f.1 f.2.

Lemma server_frames_app a b : server_frames (a ++ b) = server_frames a ++ server_frames b.
Proof. apply bind_app. Qed.

Lemma respond_output m s : ws_output (respond m s) = ws_output s ++ server_frames (reply m).
Proof.
  unfold respond, reply, server_frames. repeat case_decide; cbn; by rewrite ?app_nil_r.
Qed.

Lemma respond_all_spec ms s :
  ws_output (respond_all ms s) = ws_output s ++ server_frames (ms ≫= reply) /\
  ws_offset (respond_all ms s) = ws_offset s /\ ws_closed (respond_all ms s) = ws_closed s /\
  (websocket_close_after_write_ (respond_all ms s) = true ->
     websocket_close_after_write_ s = true \/ exists m, m ∈ ms /\ msg_opcode m = 8).
Proof.
  revert s; induction ms as [|m ms IH]; intros s.
  { cbn. rewrite app_nil_r. auto. }
  change (respond_all (m :: ms) s) with (respond_all ms (respond m s)).
  change ((m :: ms) ≫= reply) with (reply m ++ (ms ≫= reply)).
  destruct (IH (respond m s)) as (-> & -> & -> & C). rewrite respond_output, server_frames_app, app_assoc.
  assert (R : ws_offset (respond m s) = ws_offset s /\ ws_closed (respond m s) = ws_closed s /\
    (websocket_close_after_write_ (respond m s) = true ->
     websocket_close_after_write_ s = true \/ msg_opcode m = 8))
    by (unfold respond; repeat case_decide; cbn; auto).
  destruct R as (-> & -> & R). split; [done|]. split; [done|]. split; [done|].
  intros H. destruct (C H) as [H'|(x & Hx & Ex)].
  - destruct (R H') as [|E]; [by left|]. right. exists m. split; [left|done].
  - right. exists x. split; [by right|done].
Qed.

Lemma flush_wire sent n s :
  wire (sent ++ take n (drop (ws_offset s) (ws_output s)), flush_websocket_writes n s) = wire (sent, s).
Proof.
  unfold wire, flush_websocket_writes. cbn [fst snd].
  destruct (Nat.ltb_spec n (length (ws_output s) - ws_offset s)); cbn [ws_offset ws_output].
  - rewrite <- app_assoc. f_equal. by rewrite <- drop_drop, take_drop.
  - rewrite take_ge by (rewrite length_drop; lia). by rewrite drop_nil, app_nil_r.
Qed.

Section run.
Context (max_frame_bytes : Z) (max_ok : 0 <= max_frame_bytes < 2 ^ 63 - 14).

(** What has happened after the messages [ms1], with [ms2] to come. *)
Record echoed (ms1 ms2 : list Message) (st : bytes * WebSocketState) : Prop := {
  echoed_wire : wire st = server_frames (ms1 ≫= reply);
  echoed_offset : (ws_offset st.2 <= length (ws_output st.2))%nat;
  echoed_input : incomplete (ws_input st.2) ms2;
  echoed_closing : websocket_close_after_write_ st.2 = true \/ ws_closed st.2 = true ->
    exists m, m ∈ ms1 /\ msg_opcode m = 8;
}.

Lemma close_last_app ms1 ms2 m : close_last (ms1 ++ ms2) -> m ∈ ms1 -> msg_opcode m = 8 -> ms2 = [].
Proof using Type.
  induction ms1 as [|x ms1 IH]; intros H Hm Ho; [by apply not_elem_of_nil in Hm|].
  destruct H as [H1 H2]. apply elem_of_cons in Hm as [-> |Hm]; [|by apply IH].
  specialize (H1 Ho). by apply app_eq_nil in H1 as [_ ->].
Qed.

Lemma close_last_suffix ms1 ms2 : close_last (ms1 ++ ms2) -> close_last ms2.
Proof using Type. induction ms1 as [|x ms1 IH]; [done|]. intros [_ H]. by apply IH. Qed.

Lemma ws_run_echo ms1 ms2 st events future :
  Forall (wf_message max_frame_bytes) (ms1 ++ ms2) -> close_last (ms1 ++ ms2) -> echoed ms1 ms2 st ->
  ws_input st.2 ++ received_bytes events ++ future = frames ms2 ->
  exists st' new ms3, ws_run max_frame_bytes st events = Ret st' /\ ms2 = new ++ ms3 /\
    ws_input st.2 ++ received_bytes events = frames new ++ ws_input st'.2 /\ echoed (ms1 ++ new) ms3 st'.
Proof using max_ok.
  revert ms1 ms2 st; induction events as [|e events IH]; intros ms1 ms2 st F C H E.
  { exists st, [], ms2. change (received_bytes []) with (@nil byte). rewrite !app_nil_r.
    split; [done|]. split; [done|]. by split. }
  destruct st as [sent s]. cbn [snd] in *. pose proof H as [Hw Ho Hi Hc]. cbn [snd] in *.
  assert (Nil : ws_closed s = true -> ms2 = []).
  { intros Cl. destruct (Hc (or_intror Cl)) as (m & Hm & Om). by eapply close_last_app. }
  unfold ws_run. cbn [foldO ws_event].
  change (received_bytes (e :: events)) with
    (match e with Received chunk => chunk | Writable _ => [] end ++ received_bytes events) in *.
  destruct (ws_closed s) eqn:Cl.
  { specialize (Nil eq_refl). subst ms2. apply app_eq_nil in E as [Es E]. apply app_eq_nil in E as [E ->].
    apply app_eq_nil in E as [-> E]. cbn [mbind outcome_bind app].
    apply (IH ms1 [] (sent, s)); try done. cbn [snd]. by rewrite Es, E. }
  destruct e as [chunk|n].
  - unfold read_websocket, process_websocket_frames.
    destruct (websocket_loop_prefix max_frame_bytes max_ok ms2 (length (ws_input (set_input (ws_input s ++ chunk) s)))
      (set_input (ws_input s ++ chunk) s) (ws_input s ++ chunk) (received_bytes events ++ future))
      as (new & ms3 & p & E1 & E2 & E3 & E4 & E5).
    + by apply Forall_app in F as [_ F].
    + by apply close_last_suffix in C.
    + done.
    + by rewrite <- E, <- !app_assoc.
    + done.
    + rewrite E5. cbn [mbind outcome_bind]. set (s0 := set_input (ws_input s ++ chunk) s) in *.
      destruct (respond_all_spec new s0) as (R1 & R2 & R3 & R4).
      assert (H' : echoed (ms1 ++ new) ms3 (sent, set_input p (respond_all new s0))).
      { constructor; unfold wire in *; cbn [fst snd set_input ws_output ws_offset ws_input ws_closed websocket_close_after_write_] in *.
        - rewrite R1, R2. cbn [s0 set_input ws_output ws_offset].
          rewrite drop_app_le by done. rewrite app_assoc, Hw, bind_app, server_frames_app. done.
        - rewrite R1, R2, length_app. cbn. lia.
        - done.
        - rewrite R3. intros [Hf|Hf]; [|cbn in Hf; by rewrite Cl in Hf].
          destruct (R4 Hf) as [Hf'|(m & Hm & Om)].
          + destruct (Hc (or_introl Hf')) as (m & Hm & Om). exists m. split; [set_solver|done].
          + exists m. split; [set_solver|done]. }
      rewrite E1, app_assoc in F, C.
      destruct (IH (ms1 ++ new) ms3 _ F C H') as (st' & new' & ms4 & I1 & I2 & I3 & I4); [exact E3|].
      exists st', (new ++ new'), ms4. split; [exact I1|]. split; [by rewrite E1, I2, app_assoc|].
      cbn [snd set_input ws_input] in I3. split; [|by rewrite app_assoc].
      rewrite app_assoc, E2, <- app_assoc, I3. unfold frames. by rewrite bind_app, app_assoc.
  - cbn [mbind outcome_bind app] in *.
    assert (H' : echoed ms1 ms2 (sent ++ take n (drop (ws_offset s) (ws_output s)), flush_websocket_writes n s)).
    { constructor; [by rewrite flush_wire|..]; cbn [snd]; unfold flush_websocket_writes;
        destruct (Nat.ltb_spec n (length (ws_output s) - ws_offset s)); cbn; try done; try lia.
      - rewrite Cl. exact Hc.
      - rewrite Cl, orb_false_r. intros [Hf|Hf]; apply Hc; by left. }
    destruct (IH ms1 ms2 _ F C H') as (st' & new & ms3 & I).
    + cbn [snd]. unfold flush_websocket_writes. by destruct (_ <? _)%nat.
    + exists st', new, ms3. cbn [snd] in I. revert I. unfold flush_websocket_writes at 2. by destruct (_ <? _)%nat.
Qed.
End run.

(** ** Any input *)

Section safety.
Context (max_frame_bytes : Z) (max_ok : 0 <= max_frame_bytes < 2 ^ 63 - 14).

Definition server_frame_ok (f : Z * bytes) : Prop := f.1 ∈ [1; 2; 8; 10] /\ size f.2 <= max_frame_bytes.

Record served (s s' : WebSocketState) (fs : list (Z * bytes)) : Prop := {
  served_output : ws_output s' = ws_output s ++ server_frames fs;
  served_ok : Forall server_frame_ok fs;
  served_offset : ws_offset s' = ws_offset s;
  served_closed : ws_closed s' = ws_closed s;
  served_flag : websocket_close_after_write_ s = true -> websocket_close_after_write_ s' = true;
}.

Lemma served_trans a b c f g : served a b f -> served b c g -> served a c (f ++ g).
Proof using Type.
  clear max_ok. intros [A1 A2 A3 A4 A5] [B1 B2 B3 B4 B5]. constructor; try congruence; try tauto.
  - by rewrite B1, A1, server_frames_app, app_assoc.
  - by apply Forall_app.
Qed.

Lemma served_refl s : served s s [].
Proof using Type. constructor; [|constructor|..]; try done. by rewrite app_nil_r. Qed.

Lemma served_queue op p s :
  server_frame_ok (op, p) -> served s (queue_websocket_frame op p s) [(op, p)].
Proof using Type.
  intros H. constructor; try done; [|by constructor].
  cbn. by rewrite app_nil_r.
Qed.

Lemma served_close s s' fs : served s s' fs -> served s (close_after_write s') fs.
Proof using Type. by intros []. Qed.

Lemma served_set_input x s s' fs : served (set_input x s) s' fs -> served s s' fs.
Proof using Type. by intros []. Qed.

Lemma frame_length_bounds input n cursor :
  frame_length input = Some (n, cursor) -> 0 <= n < 2 ^ 64 /\ (cursor <= 10)%nat.
Proof using Type.
  clear max_ok. unfold frame_length. pose proof (val_range (byte_at input 1)) as H1.
  assert (S : 0 <= Z.land (val (byte_at input 1)) 127 < 128)
    by (change 127 with (2 ^ 7 - 1); rewrite land_mask by lia; apply Z.mod_pos_bound; lia).
  destruct (_ =? 126).
  - destruct (_ <? _)%nat; [done|]. intros [= <- <-]. split; [|lia].
    pose proof (val_range (byte_at input 2)). pose proof (val_range (byte_at input 3)).
    rewrite (shiftl_lor_add 8) by lia. lia.
  - destruct (_ =? 127); [|intros [= <- <-]; lia]. destruct (_ <? _)%nat; [done|].
    remember (fold_left _ (seq 0 8) 0) as v eqn:Ev. intros [= <- <-]. split; [|lia].
    rewrite Ev. cbn [seq fold_left]. apply wrap_range. lia.
Qed.

Lemma unmask_length mask i p : size (unmask mask i p) = size p.
Proof using Type. by rewrite length_unmask. Qed.

Lemma websocket_loop_safe fuel s :
  (length (ws_input s) <= fuel)%nat ->
  exists s' fs, websocket_loop fuel max_frame_bytes s = Ret s' /\ served s s' fs /\
    (websocket_close_after_write_ s' = true \/ size (ws_input s') <= max_frame_bytes + 14).
Proof using max_ok.
  revert s; induction fuel as [|fuel IH]; intros s Hf.
  { exists s, []. assert (L : length (ws_input s) = 0%nat) by lia. cbn [websocket_loop]. rewrite L.
    split; [done|]. split; [apply served_refl|right; lia]. }
  cbn [websocket_loop]. set (input := ws_input s) in *.
  assert (Ok8 : server_frame_ok (8, [])) by (split; [by_decide|cbn; lia]).
  assert (Close : exists s' fs, Ret (close_after_write (queue_websocket_frame 8 [] s)) = Ret s' /\ served s s' fs /\
    (websocket_close_after_write_ s' = true \/ size (ws_input s') <= max_frame_bytes + 14)).
  { eexists _, [(8, [])]. split; [done|]. split; [by apply served_close, served_queue|by left]. }
  destruct (Nat.ltb_spec (length input) 2) as [L2|L2].
  { exists s, []. split; [done|]. split; [apply served_refl|right; fold input; lia]. }
  destruct (_ || _); [exact Close|].
  destruct (frame_length input) as [[n cursor]|] eqn:FL.
  2: { exists s, []. split; [done|]. split; [apply served_refl|]. right. fold input.
       revert FL. unfold frame_length. destruct (_ =? 126).
       - destruct (Nat.ltb_spec (length input) 4); [lia|done].
       - destruct (_ =? 127); [|done]. destruct (Nat.ltb_spec (length input) 10); [lia|done]. }
  destruct (frame_length_bounds _ _ _ FL) as [Bn Bc].
  destruct (Z.ltb_spec max_frame_bytes n) as [Ln|Ln]; cbn [orb]; [exact Close|].
  rewrite !wrap_small by lia.
  destruct (Z.ltb_spec (size input) (Z.of_nat cursor + 4 + n)) as [Li|Li].
  { destruct (Z.ltb_spec (max_frame_bytes + 14) (size input)); [exact Close|].
    exists s, []. split; [done|]. split; [apply served_refl|by right]. }
  set (payload := unmask _ 0 _). set (s1 := set_input _ s).
  assert (Lp : size payload <= max_frame_bytes) by (unfold payload; rewrite unmask_length, length_substr; lia).
  assert (Step : forall s2 fs, served s s2 fs -> ws_input s2 = ws_input s1 ->
    exists s' fs, websocket_loop fuel max_frame_bytes s2 = Ret s' /\ served s s' fs /\
      (websocket_close_after_write_ s' = true \/ size (ws_input s') <= max_frame_bytes + 14)).
  { intros s2 fs S2 I2. destruct (IH s2) as (s' & gs & E & S' & B).
    - rewrite I2. unfold s1. cbn [ws_input set_input]. rewrite length_drop. lia.
    - exists s', (fs ++ gs). split; [done|]. split; [by eapply served_trans|done]. }
  set (opcode := Z.land _ 15).
  assert (Queue : forall op, op ∈ [1; 2; 8; 10] -> served s (queue_websocket_frame op payload s1) [(op, payload)])
    by (intros op Hop; apply (served_set_input (drop (cursor + 4 + Z.to_nat n) input)); by apply served_queue).
  destruct (Z.eqb_spec opcode 1) as [-> |]; cbn [orb]; [by eapply Step; [apply Queue; by_decide|]|].
  destruct (Z.eqb_spec opcode 2) as [-> |]; cbn [orb]; [by eapply Step; [apply Queue; by_decide|]|].
  destruct (opcode =? 8).
  { eexists _, _. split; [done|]. split; [apply served_close, Queue; by_decide|by left]. }
  destruct (opcode =? 9); [by eapply Step; [apply Queue; by_decide|]|].
  destruct (opcode =? 10).
  { eapply (Step s1 []); [|done]. apply (served_set_input (drop (cursor + 4 + Z.to_nat n) input)), served_refl. }
  eexists _, [(8, [])]. split; [done|]. split; [|by left].
  apply served_close. apply (served_set_input (drop (cursor + 4 + Z.to_nat n) input)). by apply served_queue.
Qed.

Lemma ws_run_safe st events fs0 :
  wire st = server_frames fs0 -> Forall server_frame_ok fs0 ->
  (ws_offset st.2 <= length (ws_output st.2))%nat ->
  (websocket_close_after_write_ st.2 = true \/ size (ws_input st.2) <= max_frame_bytes + 14) ->
  exists st' fs, ws_run max_frame_bytes st events = Ret st' /\ wire st' = server_frames fs /\
    Forall server_frame_ok fs /\
    (websocket_close_after_write_ st'.2 = true \/ size (ws_input st'.2) <= max_frame_bytes + 14).
Proof using max_ok.
  revert st fs0; induction events as [|e events IH]; intros [sent s] fs0 Hw Hk Ho Hb.
  { by exists (sent, s), fs0. }
  unfold ws_run. cbn [foldO ws_event]. destruct (ws_closed s); [by apply (IH (sent, s) fs0)|].
  destruct e as [chunk|n]; cbn [snd] in *.
  - destruct (websocket_loop_safe (length (ws_input (set_input (ws_input s ++ chunk) s))) (set_input (ws_input s ++ chunk) s))
      as (s' & fs & E & S & B); [done|].
    unfold read_websocket, process_websocket_frames. rewrite E. cbn [mbind outcome_bind].
    destruct S as [S1 S2 S3 S4 S5]. cbn [set_input ws_output ws_offset] in *.
    apply (IH (sent, s') (fs0 ++ fs)); cbn [snd].
    + unfold wire in *. cbn [fst snd] in *.
      by rewrite S1, S3, drop_app_le, app_assoc, Hw, server_frames_app by done.
    + by apply Forall_app.
    + rewrite S1, S3, length_app. lia.
    + done.
  - cbn [mbind outcome_bind]. apply (IH _ fs0); [by rewrite flush_wire|done|..];
      cbn [snd]; unfold flush_websocket_writes;
      destruct (Nat.ltb_spec n (length (ws_output s) - ws_offset s)); cbn; try done; try lia.
Qed.
End safety.

(** ** The client's reader *)

(** A final, unmasked frame, as the client reads it. *)
Definition read_server_frame (s : bytes) : option (Z * bytes * bytes) :=
  match frame_length s with
  | Some (n, cursor) =>
      if (val (byte_at s 0) <? 128) || (128 <=? val (byte_at s 1)) || (size s <? Z.of_nat cursor + n) then None
      else Some (Z.land (val (byte_at s 0)) 0x0f, substr s cursor (Z.to_nat n), drop (cursor + Z.to_nat n) s)
  | None => None
  end.

Lemma websocket_frame_header opcode p :
  0 <= opcode < 16 -> websocket_frame opcode p = frame_header 0 opcode (size p) ++ p.
Proof.
  intros Ho. unfold websocket_frame, frame_header. change 0x0f with (2 ^ 4 - 1). rewrite land_mask, Z.mod_small by lia.
  change 0x80 with (Z.shiftl 8 4). rewrite shiftl_lor_add by lia. change (8 * 2 ^ 4) with 128. cbn [app]. f_equal.
  destruct (_ <? 126); [done|]. change 0xffff with 65535. destruct (_ <=? 65535); [|done].
  by rewrite u8_shiftr_land, u8_land_0xff by lia.
Qed.

Lemma read_websocket_frame opcode p rest :
  0 <= opcode < 16 -> size p < 2 ^ 63 ->
  read_server_frame (websocket_frame opcode p ++ rest) = Some (opcode, p, rest).
Proof.
  intros Ho Hp. rewrite websocket_frame_header by done. rewrite <- app_assoc. unfold read_server_frame.
  destruct (frame_length_header 0 opcode (size p) (p ++ rest)) as (-> & -> & B); [by left|lia|done|].
  set (h := frame_header 0 opcode (size p)) in *.
  rewrite (proj2 (Z.ltb_ge _ _)), (proj2 (Z.leb_gt _ _)), (proj2 (Z.ltb_ge _ _)) by (rewrite ?length_app; lia).
  cbn [orb]. rewrite Nat2Z.id, land_15, substr_middle by lia.
  by rewrite app_assoc, <- length_app, drop_app_length.
Qed.

Fixpoint read_server_frames (n : nat) (s : bytes) : option (list (Z * bytes)) :=
  match n with
  | O => if bool_decide (s = []) then Some [] else None
  | S n' =>
      '(opcode, p, rest) ← read_server_frame s;
      fs ← read_server_frames n' rest;
      Some ((opcode, p) :: fs)
  end.

Lemma read_server_frames_ok max_frame_bytes fs :
  max_frame_bytes < 2 ^ 63 - 14 -> Forall (server_frame_ok max_frame_bytes) fs ->
  read_server_frames (length fs) (server_frames fs) = Some fs.
Proof.
  intros Hm. induction 1 as [|[op p] fs [Hop Hp] _ IH]; [done|].
  change (server_frames ((op, p) :: fs)) with (websocket_frame op p ++ server_frames fs).
  cbn [length read_server_frames fst snd] in *. rewrite read_websocket_frame; [|set_unfold in Hop; naive_solver lia|lia].
  cbn [mbind option_bind]. by rewrite IH.
Qed.

Lemma reply_ok max_frame_bytes m : wf_message max_frame_bytes m -> Forall (server_frame_ok max_frame_bytes) (reply m).
Proof.
  intros [Ho _ Hp]. unfold reply. set_unfold in Ho.
  destruct Ho as [Q|[Q|[Q|[Q|[Q|[]]]]]]; rewrite Q; cbn; repeat constructor; try done; by_decide.
Qed.

(** ** Properties *)

(** C40. The echo service answers every message exactly once, whatever the network
    does: for valid client frames (text, binary, ping, pong, and possibly a final
    close), cut into any segments and interleaved with writes of any sizes, after
    each step the messages that have arrived completely - and no others - are
    answered: a client reads from the wire, in order, the echo of each text and
    binary message, a pong for each ping, nothing for a pong and a close for the
    close, with the payloads it sent; the rest of the input is the part of a
    frame, and only a close ends the connection. *)
Theorem websocket_echo (max_frame_bytes : Z) (ms : list Message) (events : list WsEvent) (future : bytes) :
  0 <= max_frame_bytes < 2 ^ 63 - 14 ->
  Forall (wf_message max_frame_bytes) ms -> close_last ms ->
  received_bytes events ++ future = frames ms ->
  exists st ms1 ms2, ws_run max_frame_bytes ([], opened []) events = Ret st /\ ms = ms1 ++ ms2 /\
    received_bytes events = frames ms1 ++ ws_input st.2 /\ incomplete (ws_input st.2) ms2 /\
    read_server_frames (length (ms1 ≫= reply)) (wire st) = Some (ms1 ≫= reply) /\
    (ws_closed st.2 = true -> exists m, m ∈ ms1 /\ msg_opcode m = 8).
Proof.
  intros Hm F C E.
  assert (H0 : echoed [] ms ([], opened [])).
  { constructor; [done|cbn; lia| |by intros []]. destruct ms as [|m ms']; [done|].
    exists (client_frame m). split; [|done]. apply Forall_cons in F as [W _].
    intros N. apply (f_equal length) in N. rewrite (client_frame_length max_frame_bytes) in N by done. cbn [length] in N. lia. }
  destruct (ws_run_echo max_frame_bytes Hm [] ms _ events future F C H0 E) as (st & ms1 & ms2 & R & S & I & [Hw _ Hi Hc]).
  exists st, ms1, ms2. split; [done|]. split; [done|]. split; [done|]. split; [done|].
  split; [|intros Hcl; by apply Hc; right]. cbn [app] in Hw. rewrite Hw.
  apply (read_server_frames_ok max_frame_bytes); [lia|]. rewrite S in F. apply Forall_app in F as [F _].
  clear -F. induction F as [|m ms W F IH]; [constructor|].
  change ((m :: ms) ≫= reply) with (reply m ++ (ms ≫= reply)). apply Forall_app. split; [by apply reply_ok|done].
Qed.

Definition hello_message : Message := mk_message 1 [u8 1; u8 2; u8 3; u8 4] (str "hello").
Definition ping_message : Message := mk_message 9 [u8 255; u8 0; u8 7; u8 9] (str "p").

Lemma websocket_echo_witness :
  let wire_in := frames [hello_message; ping_message] in
  let events := [Received (take 3 wire_in); Writable 5; Received (drop 3 wire_in); Writable 2] in
  exists st ms1 ms2, ws_run 65536 ([], opened []) events = Ret st /\ [hello_message; ping_message] = ms1 ++ ms2 /\
    received_bytes events = frames ms1 ++ ws_input st.2 /\ incomplete (ws_input st.2) ms2 /\
    read_server_frames (length (ms1 ≫= reply)) (wire st) = Some (ms1 ≫= reply) /\
    (ws_closed st.2 = true -> exists m, m ∈ ms1 /\ msg_opcode m = 8).
Proof.
  apply (websocket_echo 65536 [hello_message; ping_message]
    [Received (take 3 (frames [hello_message; ping_message])); Writable 5;
     Received (drop 3 (frames [hello_message; ping_message])); Writable 2] []).
  - split; by vm_compute.
  - repeat constructor; by_decide.
  - by repeat split.
  - by vm_compute.
Defined.

(** No input can confuse the echo service: on any bytes, in any segments and
    interleaved with any writes, every step returns, what is sent is a sequence
    of whole frames (text, binary, close or pong) within the frame limit, which a
    client can read one by one, and unless the connection is being closed at most
    one frame with its header is buffered. *)
Theorem websocket_any_input (max_frame_bytes : Z) (events : list WsEvent) :
  0 <= max_frame_bytes < 2 ^ 63 - 14 ->
  exists st fs, ws_run max_frame_bytes ([], opened []) events = Ret st /\
    Forall (server_frame_ok max_frame_bytes) fs /\
    read_server_frames (length fs) (wire st) = Some fs /\
    (websocket_close_after_write_ st.2 = true \/ size (ws_input st.2) <= max_frame_bytes + 14).
Proof.
  intros Hm. destruct (ws_run_safe max_frame_bytes Hm ([], opened []) events []) as (st & fs & R & W & F & B);
    [done|constructor|cbn; lia|right; cbn; lia|].
  exists st, fs. split; [done|]. split; [done|]. split; [|done]. rewrite W.
  apply (read_server_frames_ok max_frame_bytes); [lia|done].
Qed.

Lemma websocket_any_input_witness :
  exists st fs, ws_run 16 ([], opened []) [Received (str "GET / HTTP/1.1"); Writable 9] = Ret st /\
    Forall (server_frame_ok 16) fs /\ read_server_frames (length fs) (wire st) = Some fs /\
    (websocket_close_after_write_ st.2 = true \/ size (ws_input st.2) <= 16 + 14).
Proof. apply websocket_any_input. split; by vm_compute. Defined.

(** A client whose upgrade request is accepted gets the answer it can verify:
    the request is a GET that asks for the websocket upgrade, version 13, with a
    key, and the response is 101 with the Upgrade and Connection headers and an
    accept value that decodes, as Base64, to the SHA-1 digest of the trimmed key
    followed by the GUID of RFC 6455. *)
Theorem websocket_handshake (sha1 : bytes -> option bytes) (request : Request) (r : Response) :
  is_websocket_upgrade_request request = true -> websocket_handshake_response sha1 request = Ret r ->
  method request = str "GET" /\ status r = 101 /\
  exists key digest accept, Request.header request (str "sec-websocket-key") = Some key /\ trim key <> [] /\
    sha1 (trim key ++ websocket_guid) = Some digest /\ base64_decode accept = Some digest /\
    Response.headers r = list_to_map [(str "upgrade", str "websocket"); (str "connection", str "Upgrade");
                                      (str "sec-websocket-accept", accept)].
Proof.
  unfold is_websocket_upgrade_request, websocket_handshake_response, websocket_accept_key.
  intros [[[[M%bool_decide_eq_true _]%andb_true_iff _]%andb_true_iff _]%andb_true_iff K]%andb_true_iff H.
  destruct (Request.header request (str "sec-websocket-key")) as [key|]; [|done].
  apply negb_true_iff, bool_decide_eq_false in K.
  destruct (sha1 (trim key ++ websocket_guid)) as [digest|] eqn:D; [|done]. cbn [mbind outcome_bind] in H.
  injection H as <-. split; [done|]. split; [done|]. exists key, digest, (base64_encode digest).
  split; [done|]. split; [done|]. split; [done|]. split; [apply base64_decode_encode|].
  cbn [Response.headers list_to_map fold_right fst snd foldr uncurry].
  rewrite (insert_insert_ne _ (str "sec-websocket-accept")) by done.
  rewrite (insert_insert_ne _ (str "sec-websocket-accept")) by done.
  by rewrite (insert_insert_ne _ (str "upgrade")).
Qed.

Definition upgrade_request : Request :=
  mk_request (str "GET") (str "/chat") (str "/chat") [] (str "HTTP/1.1")
    (list_to_map [(str "upgrade", str "WebSocket"); (str "connection", str "keep-alive, Upgrade");
                  (str "sec-websocket-version", str "13"); (str "sec-websocket-key", str "dGhlIHNhbXBsZSBub25jZQ==")])
    ∅ [] 0 None.

Lemma websocket_handshake_witness :
  exists r, websocket_handshake_response (fun s => Some (take 20 s)) upgrade_request = Ret r /\
  method upgrade_request = str "GET" /\ status r = 101 /\
  exists key digest accept, Request.header upgrade_request (str "sec-websocket-key") = Some key /\ trim key <> [] /\
    Some (take 20 (trim key ++ websocket_guid)) = Some digest /\ base64_decode accept = Some digest /\
    Response.headers r = list_to_map [(str "upgrade", str "websocket"); (str "connection", str "Upgrade");
                                      (str "sec-websocket-accept", accept)].
Proof.
  destruct (websocket_handshake_response (fun s => Some (take 20 s)) upgrade_request) as [r| |] eqn:E;
    [|discriminate E..].
  exists r. split; [reflexivity|].
  apply (websocket_handshake (fun s => Some (take 20 s))); [by vm_compute|exact E].
Defined.
