(* ===== verification/Tls.v ===== *)
(** * Tls: the TLS context of the listener

    Models [TlsContext] and its helpers ([src/src/core/server.cpp], lines
    671-942): the list of protocols for ALPN, the certificates for SNI, the
    set-up of an [SSL_CTX], and the callbacks with which OpenSSL asks for the
    protocol and the certificate of a handshake.  OpenSSL is a parameter: what
    its calls answer while a context is set up, and [SSL_select_next_proto]. *)

From S2P Require Import Prelude Text Numbers Waf VirtualHost Config.

Definition TLS1_2_VERSION : Z := 0x0303.
Definition TLS1_3_VERSION : Z := 0x0304.

Definition tls_version_number (version : bytes) : outcome Z :=
  if bool_decide (version = str "TLSv1.2") then Ret TLS1_2_VERSION
  else if bool_decide (version = str "TLSv1.3") then Ret TLS1_3_VERSION
  else raise_with "unsupported TLS version: " version.

(** ** ALPN *)

(** A protocol name behind its length. *)
Definition wire_protocol (protocol : bytes) : bytes := u8 (size protocol) :: protocol.

(** What one protocol of the list adds. *)
Definition alpn_entry (config : ServerConfig) (protocol : bytes) : outcome bytes :=
  if bool_decide (protocol = []) || (255 <? size protocol) then Raise "invalid ALPN protocol length"
  else if bool_decide (protocol = str "http/1.1") && http1_enabled config then Ret (wire_protocol protocol)
  else if bool_decide (protocol = str "h2") && http2_enabled config then Ret (wire_protocol protocol)
  else if bool_decide (protocol = str "h3") then
    raise_with "unsupported ALPN protocol until HTTP/3 serving is implemented: " protocol
  else if bool_decide (protocol = str "http/1.1") || bool_decide (protocol = str "h2") then Ret []
  else raise_with "unsupported ALPN protocol: " protocol.

Definition build_alpn_wire_list (config : ServerConfig) : outcome bytes :=
  entries ← mapO (alpn_entry config) (split_csv (tls_alpn_protocols config));
  throw_if (bool_decide (mjoin entries = []))
    "tls_alpn_protocols does not contain a protocol enabled by Rimau SQLite config";;
  Ret (mjoin entries).

Definition alpn_protocol_configured (protocols expected : bytes) : bool :=
  existsb (fun protocol => bool_decide (protocol = expected)) (split_csv protocols).

(** ** SNI certificates *)

Record SniCertificateSpec : Type := mk_spec {
  spec_pattern : bytes;
  certificate_file : bytes;
  private_key_file : bytes;
}.

Definition parse_sni_certificate_spec (entry : bytes) : outcome SniCertificateSpec :=
  let malformed := Raise
    "tls_sni_certificates must use hostname=certificate.pem|private-key.pem entries separated by semicolons" in
  match find_byte (chr "=") entry with
  | None => malformed
  | Some equals =>
      match find_byte (chr "|") (drop (S equals) entry) with
      | None => malformed
      | Some offset =>
          let separator := (S equals + offset)%nat in
          let pattern := trim (substr entry 0 equals) in
          let certificate := trim (substr entry (S equals) (separator - equals - 1)) in
          let private_key := trim (drop (S separator) entry) in
          throw_if (bool_decide (pattern = []) || bool_decide (certificate = []) || bool_decide (private_key = []))
            "tls_sni_certificates contains an empty hostname, certificate, or private key path";;
          Ret (mk_spec pattern certificate private_key)
      end
  end.

Definition parse_sni_certificate_specs (value : bytes) : outcome (list SniCertificateSpec) :=
  mapO parse_sni_certificate_spec (split_delimited value (chr ";")).

(** ** Contexts

    [OpenSsl] is what the calls answer when a context is set up: the text of
    [openssl_error()] for one that fails, and what the files hold. *)

Record OpenSsl : Type := mk_openssl {
  ssl_ctx_new : option bytes;
  ssl_ctx_set_min_proto_version : Z -> option bytes;
  ssl_ctx_set_max_proto_version : Z -> option bytes;
  ssl_ctx_set_cipher_list : bytes -> option bytes;
  ssl_ctx_set_ciphersuites : bytes -> option bytes;
  ssl_ctx_use_certificate_file : bytes -> bytes + bytes;
  ssl_ctx_use_private_key_file : bytes -> bytes + bytes;
  ssl_ctx_check_private_key : bytes -> bytes -> option bytes;
}.

(** An [SSL_CTX] with all that was set on it. *)
Record SslCtx : Type := mk_ssl_ctx {
  min_proto_version : Z;
  max_proto_version : Z;
  cipher_list : bytes;
  ciphersuites : bytes;
  certificate : bytes;
  private_key : bytes;
}.

(** A call that must succeed. *)
Definition demand (failure : option bytes) (what : bytes) : outcome unit :=
  match failure with
  | Some e => raise_with "" (what ++ str ": " ++ e)
  | None => Ret tt
  end.

(** The same for one that reads a file: the left is the error. *)
Definition demand_file (result : bytes + bytes) (what : bytes) : outcome bytes :=
  match result with
  | inl e => raise_with "" (what ++ str ": " ++ e)
  | inr contents => Ret contents
  end.

Record TlsSettings : Type := mk_tls_settings {
  tls_min_version_ : Z;
  tls_max_version_ : Z;
  tls_cipher_list_ : bytes;
  tls_ciphersuites_ : bytes;
}.

Definition make_ssl_context (ssl : OpenSsl) (settings : TlsSettings) (certificate_file private_key_file label : bytes)
  : outcome SslCtx :=
  demand (ssl_ctx_new ssl) (str "SSL_CTX_new failed for " ++ label) ;;
  demand (ssl_ctx_set_min_proto_version ssl (tls_min_version_ settings))
    (str "failed to set TLS minimum version for " ++ label) ;;
  demand (ssl_ctx_set_max_proto_version ssl (tls_max_version_ settings))
    (str "failed to set TLS maximum version for " ++ label) ;;
  demand (ssl_ctx_set_cipher_list ssl (c_str (tls_cipher_list_ settings)))
    (str "failed to set TLS 1.2 cipher list for " ++ label) ;;
  demand (ssl_ctx_set_ciphersuites ssl (c_str (tls_ciphersuites_ settings)))
    (str "failed to set TLS 1.3 cipher suites for " ++ label) ;;
  certificate ← demand_file (ssl_ctx_use_certificate_file ssl (c_str certificate_file)) (str "failed to load " ++ label);
  private_key ← demand_file (ssl_ctx_use_private_key_file ssl (c_str private_key_file))
    (str "failed to load private key for " ++ label);
  demand (ssl_ctx_check_private_key ssl certificate private_key) (str "TLS private key does not match " ++ label) ;;
  Ret (mk_ssl_ctx (tls_min_version_ settings) (tls_max_version_ settings) (c_str (tls_cipher_list_ settings))
         (c_str (tls_ciphersuites_ settings)) certificate private_key).

Record SniCertificate : Type := mk_sni_certificate {
  pattern : bytes;
  sni_ctx : SslCtx;
}.

Record TlsContext : Type := mk_tls_context {
  alpn_protocols_ : bytes;
  sni_hosts_ : list bytes;
  sni_certificates_ : list SniCertificate;
  sni_required_ : bool;
  tls_settings_ : TlsSettings;
  ctx_ : SslCtx;
}.

Definition make_sni_certificate (ssl : OpenSsl) (settings : TlsSettings) (spec : SniCertificateSpec)
  : outcome SniCertificate :=
  ctx ← make_ssl_context ssl settings (certificate_file spec) (private_key_file spec)
    (str "SNI certificate for " ++ spec_pattern spec);
  Ret (mk_sni_certificate (spec_pattern spec) ctx).

(** The constructor; members are initialized in the order in which they are
    declared. *)
Definition make_tls_context (ssl : OpenSsl) (config : ServerConfig) : outcome TlsContext :=
  alpn ← build_alpn_wire_list config;
  min_version ← tls_version_number (tls_min_version config);
  max_version ← tls_version_number (tls_max_version config);
  let settings := mk_tls_settings min_version max_version (tls_cipher_list config) (tls_ciphersuites config) in
  ctx ← make_ssl_context ssl settings (tls_certificate_file config) (tls_private_key_file config)
    (str "default TLS certificate");
  specs ← parse_sni_certificate_specs (tls_sni_certificates config);
  certificates ← mapO (make_sni_certificate ssl settings) specs;
  Ret (mk_tls_context alpn (split_csv (tls_sni_hosts config)) certificates (tls_sni_required config) settings ctx).

(** ** Callbacks *)

Inductive CallbackResult : Type :=
| SSL_TLSEXT_ERR_OK
| SSL_TLSEXT_ERR_ALERT_FATAL
| SSL_TLSEXT_ERR_NOACK.

(** The selected protocol is set with [SSL_TLSEXT_ERR_OK] only. *)
Definition select_alpn (select_next_proto : bytes -> bytes -> option bytes) (self : TlsContext)
    (client_protocols : bytes) : CallbackResult * option bytes :=
  match alpn_protocols_ self with
  | [] => (SSL_TLSEXT_ERR_NOACK, None)
  | server_protocols =>
      match select_next_proto server_protocols client_protocols with
      | Some selected => (SSL_TLSEXT_ERR_OK, Some selected)
      | None => (SSL_TLSEXT_ERR_NOACK, None)
      end
  end.

(** [selected_alpn_protocol]: empty when no protocol was selected. *)
Definition selected_alpn_protocol (selected : option bytes) : bytes := default [] selected.

Definition SSL_AD_UNRECOGNIZED_NAME : Z := 112.

(** What the callback returns, the alert and the context that it switches to. *)
Record ServerName : Type := mk_server_name {
  callback_result : CallbackResult;
  callback_alert : option Z;
  callback_ctx : option SslCtx;
}.

Definition servername_callback (self : TlsContext) (raw_name : option bytes) : ServerName :=
  let hostname := default [] raw_name in
  if bool_decide (hostname = []) then
    if sni_required_ self then mk_server_name SSL_TLSEXT_ERR_ALERT_FATAL (Some SSL_AD_UNRECOGNIZED_NAME) None
    else mk_server_name SSL_TLSEXT_ERR_OK None None
  else
    let matched := List.find (fun c => hostname_matches_pattern hostname (pattern c)) (sni_certificates_ self) in
    let ctx := sni_ctx <$> matched in
    let matched_host := existsb (hostname_matches_pattern hostname) (sni_hosts_ self) in
    if bool_decide (sni_hosts_ self = []) || matched_host || bool_decide (is_Some matched)
    then mk_server_name SSL_TLSEXT_ERR_OK None ctx
    else mk_server_name SSL_TLSEXT_ERR_ALERT_FATAL (Some SSL_AD_UNRECOGNIZED_NAME) ctx.
