(* ===== verification/TlsSpec.v ===== *)
(** * TlsSpec: what the TLS context promises

    A loaded configuration always yields a context unless OpenSSL refuses it;
    ALPN selects the first enabled protocol of the list that the client
    offers; SNI admits the listed names and presents the first certificate
    whose pattern matches. *)

From S2P Require Import Prelude Text Numbers Waf VirtualHost Config ConfigFacts Tls.

(** ** ALPN *)

Definition alpn_enabled (config : ServerConfig) (protocol : bytes) : Prop :=
  protocol = str "http/1.1" /\ http1_enabled config = true \/ protocol = str "h2" /\ http2_enabled config = true.

#[export] Instance alpn_enabled_dec config protocol : Decision (alpn_enabled config protocol).
Proof. unfold alpn_enabled. apply _. Defined.

(** The protocols that are offered. *)
Definition offered (config : ServerConfig) : list bytes :=
  filter (alpn_enabled config) (split_csv (tls_alpn_protocols config)).

Definition encode_alpn (protocols : list bytes) : bytes := mjoin (wire_protocol <$> protocols).

(** A name that fits the wire format. *)
Definition wire_name (protocol : bytes) : Prop := 1 <= size protocol <= 255.

Lemma encode_alpn_cons p ps : encode_alpn (p :: ps) = wire_protocol p ++ encode_alpn ps.
Proof. done. Qed.

Lemma encode_alpn_nil ps : encode_alpn ps = [] <-> ps = [].
Proof. destruct ps; [done|]. rewrite encode_alpn_cons. by split. Qed.

(** The reference: the first of the server's protocols that the client has. *)
Definition first_common (server client : list bytes) : option bytes := head (filter (fun p => p ∈ client) server).

(** The documented behaviour of [SSL_select_next_proto] on two lists of names. *)
Definition selects_next_proto (select : bytes -> bytes -> option bytes) : Prop :=
  forall server client, Forall wire_name server -> Forall wire_name client ->
    select (encode_alpn server) (encode_alpn client) = first_common server client.

Lemma alpn_entry_ok config p :
  p = str "http/1.1" \/ p = str "h2" ->
  alpn_entry config p = Ret (if decide (alpn_enabled config p) then wire_protocol p else []).
Proof.
  intros Hp. unfold alpn_entry. destruct (decide (alpn_enabled config p)) as [[[-> ->]|[-> ->]]|N]; [done|done|].
  destruct Hp as [-> | ->].
  - destruct (http1_enabled config) eqn:E; [|done]. destruct N. by left.
  - destruct (http2_enabled config) eqn:E; [|done]. destruct N. by right.
Qed.

Lemma alpn_entry_known config p wire : alpn_entry config p = Ret wire -> p = str "http/1.1" \/ p = str "h2".
Proof.
  unfold alpn_entry. destruct (_ || _); [done|]. destruct (decide (p = str "http/1.1")); [auto|].
  destruct (decide (p = str "h2")); [auto|]. rewrite !(bool_decide_false (p = str "http/1.1")) by done.
  rewrite !(bool_decide_false (p = str "h2")) by done. cbn [andb orb]. by destruct (bool_decide _).
Qed.

Lemma build_alpn_spec config wire :
  build_alpn_wire_list config = Ret wire ->
  wire = encode_alpn (offered config) /\ offered config <> [] /\
  Forall (fun p => p = str "http/1.1" \/ p = str "h2") (split_csv (tls_alpn_protocols config)).
Proof.
  unfold build_alpn_wire_list, offered. intros H. inv_ret. subst.
  match goal with H : bool_decide _ = false |- _ => apply bool_decide_eq_false in H as N end.
  match goal with H : mapO _ _ = _ |- _ => apply mapO_Ret in H as F end.
  assert (E : mjoin x = encode_alpn (filter (alpn_enabled config) (split_csv (tls_alpn_protocols config)))).
  { clear -F. induction F as [|p w ps ws Hp F IH]; [done|]. pose proof (alpn_entry_known _ _ _ Hp) as K.
    rewrite (alpn_entry_ok _ _ K) in Hp. injection Hp as <-.
    change (mjoin ((if decide (alpn_enabled config p) then wire_protocol p else []) :: ws))
      with ((if decide (alpn_enabled config p) then wire_protocol p else []) ++ mjoin ws).
    rewrite filter_cons, IH. by destruct (decide (alpn_enabled config p)). }
  split; [done|]. split; [intros Z; rewrite Z in E; by apply N|].
  clear -F. induction F as [|p w ps ws Hp F IH]; constructor; [by eapply alpn_entry_known|done].
Qed.

Lemma build_alpn_ok config :
  Forall (fun p => p = str "http/1.1" \/ p = str "h2") (split_csv (tls_alpn_protocols config)) ->
  offered config <> [] -> build_alpn_wire_list config = Ret (encode_alpn (offered config)).
Proof.
  unfold build_alpn_wire_list, offered. intros F N.
  assert (E : exists ws, mapO (alpn_entry config) (split_csv (tls_alpn_protocols config)) = Ret ws /\
    mjoin ws = encode_alpn (filter (alpn_enabled config) (split_csv (tls_alpn_protocols config)))).
  { clear N. induction F as [|p ps Hp F (ws & E & J)]; [by exists []|]. cbn [mapO].
    rewrite (alpn_entry_ok _ _ Hp), E. cbn [mbind outcome_bind mret outcome_ret]. eexists. split; [done|].
    change (mjoin ((if decide (alpn_enabled config p) then wire_protocol p else []) :: ws))
      with ((if decide (alpn_enabled config p) then wire_protocol p else []) ++ mjoin ws).
    rewrite filter_cons, J. by destruct (decide (alpn_enabled config p)); rewrite ?encode_alpn_cons. }
  destruct E as (ws & -> & J). cbn [mbind outcome_bind]. rewrite J, bool_decide_false by (by rewrite encode_alpn_nil). done.
Qed.

Lemma offered_names config : Forall (alpn_enabled config) (offered config).
Proof. apply Forall_forall. intros p. unfold offered. by intros [? _]%list_elem_of_filter. Qed.

Lemma enabled_wire_name config p : alpn_enabled config p -> wire_name p.
Proof. unfold wire_name. intros [[-> _]|[-> _]]; by vm_compute. Qed.

(** C16. The protocol of a TLS connection is negotiated by the operator's list:
    with a context built from a configuration, the callback selects the first
    protocol of [tls_alpn_protocols] that is enabled and that the client
    offers, and acknowledges nothing when there is none; so HTTP/2 is never
    selected unless it is configured and enabled. *)
Theorem alpn_negotiation (ssl : OpenSsl) (config : ServerConfig) (context : TlsContext)
    (select : bytes -> bytes -> option bytes) (client : list bytes) :
  make_tls_context ssl config = Ret context -> selects_next_proto select -> Forall wire_name client ->
  select_alpn select context (encode_alpn client) =
    match first_common (offered config) client with
    | Some p => (SSL_TLSEXT_ERR_OK, Some p)
    | None => (SSL_TLSEXT_ERR_NOACK, None)
    end /\
  Forall (alpn_enabled config) (offered config) /\ offered config <> [].
Proof.
  unfold make_tls_context. intros H Sel C. inv_ret. subst.
  match goal with H : build_alpn_wire_list _ = _ |- _ => apply build_alpn_spec in H as (-> & N & F) end.
  split; [|by split; [apply offered_names|]]. unfold select_alpn. cbn [alpn_protocols_].
  assert (Forall wire_name (offered config)) by (eapply Forall_impl; [apply offered_names|apply enabled_wire_name]).
  rewrite <- (Sel (offered config) client) by done.
  destruct (encode_alpn (offered config)) eqn:E; [by apply encode_alpn_nil in E|done].
Qed.

Lemma filter_id {A} (P : A -> Prop) `{forall x, Decision (P x)} (l : list A) :
  (forall x, x ∈ l -> P x) -> filter P l = l.
Proof.
  induction l as [|x l IH]; [done|]. intros F. rewrite filter_cons_True by (apply F; by left).
  f_equal. apply IH. intros y Hy. apply F. by right.
Qed.

(** ** Building a context *)

(** An [SSL_CTX] with the credentials of two files and the configured
    versions and ciphers. *)
Record presents (ssl : OpenSsl) (config : ServerConfig) (files : bytes * bytes) (ctx : SslCtx) : Prop := {
  presents_certificate : ssl_ctx_use_certificate_file ssl (c_str files.1) = inr (certificate ctx);
  presents_private_key : ssl_ctx_use_private_key_file ssl (c_str files.2) = inr (private_key ctx);
  presents_checked : ssl_ctx_check_private_key ssl (certificate ctx) (private_key ctx) = None;
  presents_min_version : tls_version_number (tls_min_version config) = Ret (min_proto_version ctx);
  presents_max_version : tls_version_number (tls_max_version config) = Ret (max_proto_version ctx);
  presents_ciphers : cipher_list ctx = c_str (tls_cipher_list config) /\ ciphersuites ctx = c_str (tls_ciphersuites config);
}.

Lemma demand_Ret failure what u : demand failure what = Ret u -> failure = None.
Proof. by destruct failure. Qed.

Lemma demand_file_Ret result what contents : demand_file result what = Ret contents -> result = inr contents.
Proof. destruct result; [done|]. by intros [= ->]. Qed.

Lemma make_ssl_context_presents ssl config lo hi cert key label ctx :
  tls_version_number (tls_min_version config) = Ret lo -> tls_version_number (tls_max_version config) = Ret hi ->
  make_ssl_context ssl (mk_tls_settings lo hi (tls_cipher_list config) (tls_ciphersuites config)) cert key label = Ret ctx ->
  presents ssl config (cert, key) ctx.
Proof.
  unfold make_ssl_context. intros Lo Hi H. inv_ret. subst.
  repeat match goal with
  | H : demand _ _ = Ret _ |- _ => apply demand_Ret in H
  | H : demand_file _ _ = Ret _ |- _ => apply demand_file_Ret in H
  end. by constructor.
Qed.

(** The files of an entry of [tls_sni_certificates]. *)
Definition spec_files (s : SniCertificateSpec) : bytes * bytes := (certificate_file s, private_key_file s).

(** What OpenSSL must accept for a configuration. *)
Record willing (ssl : OpenSsl) (config : ServerConfig) : Prop := {
  willing_new : ssl_ctx_new ssl = None;
  willing_versions : forall v, v = TLS1_2_VERSION \/ v = TLS1_3_VERSION ->
    ssl_ctx_set_min_proto_version ssl v = None /\ ssl_ctx_set_max_proto_version ssl v = None;
  willing_ciphers : ssl_ctx_set_cipher_list ssl (c_str (tls_cipher_list config)) = None /\
    ssl_ctx_set_ciphersuites ssl (c_str (tls_ciphersuites config)) = None;
  willing_files : forall specs, parse_sni_certificate_specs (tls_sni_certificates config) = Ret specs ->
    Forall (fun files => exists c k, ssl_ctx_use_certificate_file ssl (c_str files.1) = inr c /\
        ssl_ctx_use_private_key_file ssl (c_str files.2) = inr k /\ ssl_ctx_check_private_key ssl c k = None)
      ((tls_certificate_file config, tls_private_key_file config) :: (spec_files <$> specs));
}.

Lemma wf_sni_parses value :
  valid_sni_certificate_map value = true -> exists specs, parse_sni_certificate_specs value = Ret specs.
Proof.
  unfold valid_sni_certificate_map, parse_sni_certificate_specs. induction (split_delimited value (chr ";")) as [|e es IH].
  { by exists []. }
  cbn [forallb]. intros [He Hes]%andb_true_iff. destruct (IH Hes) as [specs E]. cbn [mapO].
  assert (S : exists s, parse_sni_certificate_spec e = Ret s).
  { unfold valid_sni_entry in He. unfold parse_sni_certificate_spec. destruct (find_byte (chr "=") e) as [i|]; [|done].
    cbn [mbind option_bind] in He. destruct (find_byte (chr "|") (drop (S i) e)) as [j|]; [|done].
    cbn [mbind option_bind] in He. apply negb_true_iff in He. cbv zeta in *.
    change (substr e 0 i) with (take i e). rewrite He.
    cbn [throw_if mbind outcome_bind]. by eexists. }
  destruct S as [s ->]. rewrite E. by eexists.
Qed.

Lemma version_number_known v :
  v = str "TLSv1.2" \/ v = str "TLSv1.3" ->
  exists n, tls_version_number v = Ret n /\ (n = TLS1_2_VERSION \/ n = TLS1_3_VERSION).
Proof. intros [-> | ->]; eexists; (split; [reflexivity|auto]). Qed.

Section loaded.
Context (is_regular_file : bytes -> outcome bool).

Lemma wf_offered config :
  config_wf is_regular_file config -> tls_enabled config = true ->
  offered config = split_csv (tls_alpn_protocols config) /\
  build_alpn_wire_list config = Ret (encode_alpn (split_csv (tls_alpn_protocols config))).
Proof.
  intros W T. destruct (wf_alpn _ _ W) as [N F]. destruct (wf_alpn_enabled _ _ W T) as [E1 E2].
  unfold alpn_protocols in *. fold (split_csv (tls_alpn_protocols config)) in *.
  assert (E : offered config = split_csv (tls_alpn_protocols config)).
  { unfold offered. apply filter_id. intros p Hp. unfold alpn_enabled.
    destruct (proj1 (Forall_forall _ _) F p Hp) as [-> | ->]; auto. }
  split; [done|]. rewrite <- E. apply build_alpn_ok; [done|by rewrite E].
Qed.

Lemma wf_tls_versions config :
  config_wf is_regular_file config ->
  exists lo hi, tls_version_number (tls_min_version config) = Ret lo /\ tls_version_number (tls_max_version config) = Ret hi /\
    (lo = TLS1_2_VERSION \/ lo = TLS1_3_VERSION) /\ (hi = TLS1_2_VERSION \/ hi = TLS1_3_VERSION).
Proof.
  intros W. pose proof (wf_versions _ _ W) as V. rewrite !elem_of_cons, elem_of_nil in V.
  destruct V as [[= -> ->]|[[= -> ->]|[[= -> ->]|[]]]]; do 2 eexists; (split; [reflexivity|split; [reflexivity|auto]]).
Qed.
End loaded.

Lemma settles_make_tls_context ssl c : settles (make_tls_context ssl c).
Proof.
  unfold make_tls_context, build_alpn_wire_list, alpn_entry, tls_version_number, parse_sni_certificate_specs,
    parse_sni_certificate_spec, make_sni_certificate, make_ssl_context, demand, demand_file, raise_with. settle.
Qed.

(** A loaded configuration with TLS enabled yields a context whenever
    OpenSSL accepts its settings and its files: none of the constructor's own
    checks can fail, every listed protocol is offered, and the context's
    default certificate is the configured one.  So a start, or a reload, fails
    for a reason in the files only. *)
Theorem tls_context_available (is_regular_file : bytes -> outcome bool) (ssl : OpenSsl) (config : ServerConfig) :
  config_wf is_regular_file config -> tls_enabled config = true -> willing ssl config ->
  exists context, make_tls_context ssl config = Ret context /\
    alpn_protocols_ context = encode_alpn (split_csv (tls_alpn_protocols config)) /\
    presents ssl config (tls_certificate_file config, tls_private_key_file config) (ctx_ context).
Proof.
  intros W T [New Versions [Ciphers Suites] Files].
  destruct (wf_offered _ _ W T) as [_ Alpn]. destruct (wf_tls_versions _ _ W) as (lo & hi & Lo & Hi & Vlo & Vhi).
  destruct (wf_sni_parses _ (wf_sni _ _ W)) as [specs Specs]. specialize (Files _ Specs).
  set (settings := mk_tls_settings lo hi (tls_cipher_list config) (tls_ciphersuites config)).
  assert (Make : forall files label,
    (exists c k, ssl_ctx_use_certificate_file ssl (c_str files.1) = inr c /\
      ssl_ctx_use_private_key_file ssl (c_str files.2) = inr k /\ ssl_ctx_check_private_key ssl c k = None) ->
    exists ctx, make_ssl_context ssl settings files.1 files.2 label = Ret ctx).
  { intros files label (c & k & C & K & Ch). unfold make_ssl_context. cbn [settings tls_min_version_ tls_max_version_
      tls_cipher_list_ tls_ciphersuites_]. rewrite New, (proj1 (Versions lo Vlo)), (proj2 (Versions hi Vhi)), Ciphers, Suites, C, K.
    cbn [demand demand_file mbind outcome_bind]. rewrite Ch. by eexists. }
  apply Forall_cons in Files as [Default Files]. destruct (Make _ (str "default TLS certificate") Default) as [ctx Ctx].
  assert (Sni : exists certificates, mapO (make_sni_certificate ssl settings) specs = Ret certificates).
  { clear Specs. induction specs as [|s specs IH]; [by exists []|]. rewrite fmap_cons in Files.
    apply Forall_cons in Files as [F Files]. destruct (IH Files) as [cs Cs].
    destruct (Make _ (str "SNI certificate for " ++ spec_pattern s) F) as [c C]. cbn [mapO].
    assert (M : make_sni_certificate ssl settings s = Ret (mk_sni_certificate (spec_pattern s) c))
      by (unfold make_sni_certificate; cbn [spec_files fst snd] in C; by rewrite C).
    rewrite M, Cs. by eexists. }
  destruct Sni as [certificates Sni]. unfold make_tls_context. rewrite Alpn, Lo, Hi. cbn [mbind outcome_bind]. fold settings.
  cbn [fst snd] in Ctx. rewrite Ctx. cbn [mbind outcome_bind]. rewrite Specs. cbn [mbind outcome_bind]. rewrite Sni. cbn [mbind outcome_bind].
  eexists. split; [reflexivity|]. split; [done|]. by eapply make_ssl_context_presents.
Qed.

(** ** SNI *)

(** A pattern names a host: both are the same in any case, or the pattern is
    [*.domain] and the host has something in front of it. *)
Definition names (pattern host : bytes) : Prop :=
  (is_wildcard (lowercase pattern) = false /\ lowercase host = lowercase pattern) \/
  exists domain label, lowercase pattern = str "*." ++ domain /\ label <> [] /\
    lowercase host = label ++ str "." ++ domain.

Lemma names_spec pattern host : hostname_matches_pattern host pattern = true <-> names pattern host.
Proof.
  assert (L : forall p h, hostname_matches_pattern h (lowercase p) = hostname_matches_pattern h p)
    by (intros; unfold hostname_matches_pattern; by rewrite lowercase_idem).
  unfold names. destruct (is_wildcard (lowercase pattern)) eqn:Wc.
  - unfold is_wildcard in Wc. apply starts_with_spec in Wc as [d E].
    assert (Ed : lowercase d = d).
    { pose proof (lowercase_idem pattern) as I. rewrite E, lowercase_app in I.
      change (lowercase (str "*.")) with (str "*.") in I. by apply app_inv_head in I. }
    rewrite <- L, E, wildcard_matches_spec, Ed. split.
    + intros (label & N & H). right. by exists d, label.
    + intros [[? _]|(d' & label & H & N & Hh)]; [done|]. apply app_inv_head in H as <-. by exists label.
  - rewrite (exact_matches_spec _ _ Wc). split; [by left|]. intros [[_ ?]|(d & label & H & _)]; [done|].
    unfold is_wildcard in Wc. by rewrite H, starts_with_app in Wc.
Qed.

#[export] Instance names_dec pattern host : Decision (names pattern host).
Proof. refine (cast_if (decide (hostname_matches_pattern host pattern = true))); by rewrite <- names_spec. Defined.

(** The files of the certificate for a host: those of the first entry that
    names it, or the default ones. *)
Definition chosen_files (config : ServerConfig) (specs : list SniCertificateSpec) (host : bytes) : bytes * bytes :=
  match list_find (fun s => names (spec_pattern s) host) specs with
  | Some (_, s) => spec_files s
  | None => (tls_certificate_file config, tls_private_key_file config)
  end.

(** The handshakes that are admitted; a client without SNI names nothing. *)
Definition admitted (config : ServerConfig) (specs : list SniCertificateSpec) (host : bytes) : Prop :=
  if decide (host = []) then tls_sni_required config = false
  else split_csv (tls_sni_hosts config) = [] \/
    Exists (fun pattern => names pattern host) (split_csv (tls_sni_hosts config)) \/
    Exists (fun s => names (spec_pattern s) host) specs.

Lemma find_certificate (ssl : OpenSsl) settings host specs certificates :
  mapO (make_sni_certificate ssl settings) specs = Ret certificates ->
  match list_find (fun s => names (spec_pattern s) host) specs with
  | Some (_, s) => exists ctx,
      sni_ctx <$> List.find (fun c => hostname_matches_pattern host (pattern c)) certificates = Some ctx /\
      make_ssl_context ssl settings (certificate_file s) (private_key_file s)
        (str "SNI certificate for " ++ spec_pattern s) = Ret ctx
  | None => List.find (fun c => hostname_matches_pattern host (pattern c)) certificates = None
  end.
Proof.
  revert certificates. induction specs as [|s specs IH]; intros cs H; cbn [mapO] in H.
  { injection H as <-. done. }
  apply bind_Ret in H as (c & Hc & H). apply bind_Ret in H as (cs' & Hcs & [= <-]). specialize (IH _ Hcs).
  unfold make_sni_certificate in Hc. apply bind_Ret in Hc as (ctx & Ctx & [= <-]).
  cbn [list_find List.find pattern]. destruct (decide (names (spec_pattern s) host)) as [N|N].
  - rewrite (proj2 (names_spec _ _) N). by exists ctx.
  - rewrite <- names_spec in N. apply not_true_is_false in N. rewrite N.
    by destruct (list_find _ specs) as [[? ?]|].
Qed.

Lemma find_names host specs :
  is_Some (list_find (fun s => names (spec_pattern s) host) specs) <-> Exists (fun s => names (spec_pattern s) host) specs.
Proof.
  split.
  - intros [[i s] (L & N & _)%list_find_Some]. apply Exists_exists. exists s. split; [by eapply list_elem_of_lookup_2|done].
  - intros (s & Hs & N)%Exists_exists. by eapply list_find_elem_of.
Qed.

(** C15. With SNI the operator's lists decide: a handshake is admitted exactly
    if it names no host and none is required, or if no host is listed or the
    name is listed or has a certificate, and it is refused with
    [unrecognized_name] otherwise; and an admitted one is presented with the
    certificate and the key read from the files of the first entry of
    [tls_sni_certificates] that names the host - the default ones when there
    is none - with the configured TLS versions and ciphers. *)
Theorem sni_selection (ssl : OpenSsl) (config : ServerConfig) (context : TlsContext) (name : option bytes) :
  make_tls_context ssl config = Ret context ->
  exists specs, parse_sni_certificate_specs (tls_sni_certificates config) = Ret specs /\
    let host := default [] name in
    let r := servername_callback context name in
    (admitted config specs host /\ callback_result r = SSL_TLSEXT_ERR_OK /\ callback_alert r = None /\
       (host <> [] -> presents ssl config (chosen_files config specs host) (default (ctx_ context) (callback_ctx r))) /\
       (host = [] -> presents ssl config (tls_certificate_file config, tls_private_key_file config)
                       (default (ctx_ context) (callback_ctx r))))
    \/ (~ admitted config specs host /\ callback_result r = SSL_TLSEXT_ERR_ALERT_FATAL /\
       callback_alert r = Some SSL_AD_UNRECOGNIZED_NAME).
Proof.
  unfold make_tls_context. intros H. inv_ret. subst.
  match goal with H : parse_sni_certificate_specs _ = Ret ?s |- _ => exists s end. split; [done|]. cbv zeta.
  set (host := default [] name). unfold servername_callback. fold host.
  cbn [sni_hosts_ sni_certificates_ sni_required_ ctx_].
  assert (Default : presents ssl config (tls_certificate_file config, tls_private_key_file config) x2)
    by (by eapply make_ssl_context_presents).
  unfold admitted. destruct (decide (host = [])) as [E|E].
  { rewrite (bool_decide_true _ E). destruct (tls_sni_required config); [right; by split_and!|left; by split_and!]. }
  rewrite (bool_decide_false _ E).
  match goal with H : mapO _ _ = Ret _ |- _ => pose proof (find_certificate _ _ host _ _ H) as Fc end.
  set (found := List.find _ _) in *. pose proof (find_names host x3) as Fn.
  assert (Host : existsb (hostname_matches_pattern host) (split_csv (tls_sni_hosts config)) = true <->
    Exists (fun p => names p host) (split_csv (tls_sni_hosts config))).
  { rewrite existsb_exists, Exists_exists. by setoid_rewrite names_spec; setoid_rewrite list_elem_of_In. }
  unfold chosen_files.
  assert (Cert : is_Some found <-> Exists (fun s => names (spec_pattern s) host) x3).
  { rewrite <- Fn. destruct (list_find _ x3) as [[i s]|]; [|by rewrite Fc]. destruct Fc as (ctx & Fc & _).
    destruct found; [split; intros _; by eexists|done]. }
  set (ok := bool_decide _ || _ || _).
  assert (Ok : ok = true <-> split_csv (tls_sni_hosts config) = [] \/
    Exists (fun pattern => names pattern host) (split_csv (tls_sni_hosts config)) \/
    Exists (fun s => names (spec_pattern s) host) x3).
  { unfold ok. rewrite !orb_true_iff, !bool_decide_eq_true, Host, Cert. tauto. }
  destruct ok; [left|right].
  - split; [by apply Ok|]. split; [done|]. split; [done|]. split; [intros _|by intros]. cbn [callback_ctx].
    destruct (list_find _ x3) as [[i s]|]; [|by rewrite Fc]. destruct Fc as (ctx & -> & Mk). cbn [default].
    by eapply make_ssl_context_presents.
  - split; [|done]. intros A. by apply Ok in A.
Qed.

(** ** Witnesses *)

(** [SSL_select_next_proto] on wire lists. *)
Fixpoint decode_alpn (fuel : nat) (wire : bytes) : list bytes :=
  match fuel, wire with
  | S fuel', n :: rest => take (Z.to_nat (val n)) rest :: decode_alpn fuel' (drop (Z.to_nat (val n)) rest)
  | _, _ => []
  end.

Lemma decode_encode_alpn fuel ps :
  (length ps <= fuel)%nat -> Forall wire_name ps -> decode_alpn fuel (encode_alpn ps) = ps.
Proof.
  revert fuel; induction ps as [|p ps IH]; intros fuel L F; [by destruct fuel|].
  destruct fuel as [|fuel]; [cbn in L; lia|]. apply Forall_cons in F as [Hp F]. rewrite encode_alpn_cons.
  unfold wire_protocol, wire_name in *. cbn [app decode_alpn]. rewrite val_u8_small, Nat2Z.id by lia.
  rewrite take_app_length, drop_app_length, IH; [done|cbn in L; lia|done].
Qed.

Lemma length_encode_alpn ps : (length ps <= length (encode_alpn ps))%nat.
Proof.
  induction ps as [|p ps IH]; [done|]. rewrite encode_alpn_cons, length_app. unfold wire_protocol. cbn [length]. lia.
Qed.

Definition example_select_next_proto (server client : bytes) : option bytes :=
  first_common (decode_alpn (length server) server) (decode_alpn (length client) client).

Lemma example_selects : selects_next_proto example_select_next_proto.
Proof.
  intros server client Fs Fc. unfold example_select_next_proto.
  by rewrite !decode_encode_alpn by (done || apply length_encode_alpn).
Qed.

Definition tls_database : outcome Database :=
  foldO (fun db '(key, value) => set_config_value (fun _ _ => None) db (str key) (str value)) empty_database
    [("tls_enabled", "true"); ("http2_enabled", "true"); ("tls_alpn_protocols", "h2, http/1.1");
     ("tls_sni_hosts", "www.example.test");
     ("tls_sni_certificates", "*.tenant.test = wild.pem | wild.key; a.tenant.test = a.pem | a.key")]%string.

Definition tls_config : ServerConfig :=
  match (db ← tls_database; load_config_from_database (fun _ _ => None) (fun _ => Ret true) (str "x.db") db) with
  | Ret (config, _) => config
  | _ => default_config
  end.

(** Files hold their names. *)
Definition example_ssl : OpenSsl :=
  mk_openssl None (fun _ => None) (fun _ => None) (fun _ => None) (fun _ => None) inr inr (fun _ _ => None).

Definition tls_context : TlsContext :=
  match make_tls_context example_ssl tls_config with
  | Ret context => context
  | _ => mk_tls_context [] [] [] false (mk_tls_settings 0 0 [] []) (mk_ssl_ctx 0 0 [] [] [] [])
  end.

Lemma tls_context_made : make_tls_context example_ssl tls_config = Ret tls_context.
Proof. vm_compute. reflexivity. Qed.

Lemma alpn_negotiation_witness :
  select_alpn example_select_next_proto tls_context (encode_alpn [str "spdy/3"; str "http/1.1"; str "h2"]) =
    (SSL_TLSEXT_ERR_OK, Some (str "h2")).
Proof.
  rewrite (proj1 (alpn_negotiation example_ssl tls_config tls_context example_select_next_proto
    [str "spdy/3"; str "http/1.1"; str "h2"] tls_context_made example_selects
    ltac:(repeat constructor; vm_compute; discriminate))).
  vm_compute. reflexivity.
Defined.

Lemma tls_config_wf : config_wf (fun _ => Ret true) tls_config.
Proof.
  assert (E : is_ret (db ← tls_database; load_config_from_database (fun _ _ => None) (fun _ => Ret true) (str "x.db") db) = true)
    by (vm_compute; reflexivity).
  apply is_ret_Ret in E as [[c db'] E]. unfold tls_config. rewrite E. apply bind_Ret in E as (db & _ & E).
  by eapply loaded_wf.
Qed.

Lemma tls_context_available_witness :
  exists context, make_tls_context example_ssl tls_config = Ret context /\
    alpn_protocols_ context = encode_alpn [str "h2"; str "http/1.1"] /\
    presents example_ssl tls_config (str "certs/rimau-dev.crt", str "certs/rimau-dev.key") (ctx_ context).
Proof.
  apply (tls_context_available (fun _ => Ret true) example_ssl tls_config tls_config_wf); [vm_compute; reflexivity|].
  constructor; [done|done|done|]. intros specs _. apply Forall_forall. intros files _. by exists (c_str files.1), (c_str files.2).
Defined.

(** The first entry that names the host is chosen, also when a later one is
    exact. *)
Lemma sni_selection_witness :
  callback_result (servername_callback tls_context (Some (str "A.tenant.test"))) = SSL_TLSEXT_ERR_OK /\
  certificate (default (ctx_ tls_context) (callback_ctx (servername_callback tls_context (Some (str "A.tenant.test"))))) =
    str "wild.pem".
Proof.
  destruct (sni_selection example_ssl tls_config tls_context (Some (str "A.tenant.test")) tls_context_made)
    as (specs & _ & [(_ & Ok & _)|(_ & R & _)]); [|vm_compute in R; discriminate R].
  split; [exact Ok|vm_compute; reflexivity].
Defined.
