(* ===== verification/Protocol.v ===== *)
(** * Protocol: what the server says of its protocols

    Models [src/src/protocol/protocol.cpp] and the status texts of
    [http2_gateway.cpp] and [http3_gateway.cpp]. *)

From S2P Require Import Prelude Text Numbers Config ConfigFacts Tls TlsSpec.

(** ** The gateways *)

Definition is_blank (c : byte) : bool := bool_decide (c = SP) || bool_decide (c = TAB).

(** The two loops over [token.front()] and [token.back()]. *)
Definition strip_blanks (token : bytes) : bytes :=
  reverse (drop_while is_blank (reverse (drop_while is_blank token))).

Definition alpn_contains (protocols expected : bytes) : bool :=
  existsb (fun token => bool_decide (strip_blanks token = expected)) (split_byte (chr ",") protocols).

Definition http2_status (config : ServerConfig) : bytes :=
  if negb (http2_enabled config) then
    str "disabled in SQLite config; native HTTP/2 h2c and TLS ALPN h2 request serving exist but are not enabled"
  else if negb (tls_enabled config) then
    str "enabled in SQLite config with native h2c prior-knowledge request serving: Rimau accepts client preface, parses SETTINGS/HEADERS/CONTINUATION/DATA, decodes HPACK Huffman/dynamic table entries, applies inbound flow-control accounting, and responds with HTTP/2 HEADERS/DATA frames through the shared handler pipeline"
  else if alpn_contains (tls_alpn_protocols config) (str "h2") then
    str "enabled in SQLite config with native TLS ALPN h2 request serving: Rimau negotiates h2, accepts the client preface, parses SETTINGS/HEADERS/CONTINUATION/DATA, decodes HPACK Huffman/dynamic table entries, applies inbound flow-control accounting, and responds with HTTP/2 HEADERS/DATA frames through the shared handler pipeline"
  else
    str "enabled in SQLite config, but TLS ALPN h2 is not advertised by tls_alpn_protocols; cleartext h2c request serving exists only when TLS is disabled".

Definition http3_status (config : ServerConfig) : bytes :=
  if negb (http3_enabled config) then
    str "disabled in SQLite config; HTTP/3 wire codec primitives exist but UDP/QUIC live serving is not integrated yet"
  else
    str "enabled in SQLite config but unavailable for clients: HTTP/3 frame codec exists, but UDP listener, QUIC transport, QPACK, TLS 1.3 handshake, and ALPN h3 routing are still pending".

(** ** The capabilities *)

Inductive ProtocolVersion : Type := http_1_1 | http_2 | http_3.

Record ProtocolCapability : Type := mk_capability {
  version : ProtocolVersion;
  name : bytes;
  implemented : bool;
  enabled : bool;
  transport : bytes;
  notes : bytes;
}.

Definition protocol_capabilities (config : ServerConfig) : list ProtocolCapability :=
  let http1_transport := if tls_enabled config then str "TCP with TLS" else str "TCP" in
  [mk_capability http_1_1 (str "HTTP/1.1") true (http1_enabled config) http1_transport
     (str "HTTP/1.1 supports GET/HEAD static files, OPTIONS, POST/PUT/PATCH/DELETE JSON scaffold, Content-Length, chunked decode, file-backed large-body spooling with handler pull reads, basic chunked response serialization, keep-alive, basic pipelining, single/multipart range with If-Range, gzip, configurable directory index and error page, basic WebSocket echo, WebSocket reverse proxy tunneling, configurable reverse proxy upstream selection policies, and baseline timeout/rate-limit/security controls.");
   mk_capability http_2 (str "HTTP/2") true (http2_enabled config)
     (str "TCP h2c prior-knowledge; TLS over TCP with ALPN h2") (http2_status config);
   mk_capability http_3 (str "HTTP/3") false (http3_enabled config)
     (str "QUIC over UDP with ALPN h3; wire codec partial") (http3_status config)].

(** ** The two readings of [tls_alpn_protocols]

    The gateway splits the list with a loop of its own, the TLS context with
    [split_csv]. *)

Lemma split_getlines d s : split_byte d s = getlines d s \/ split_byte d s = getlines d s ++ [[]].
Proof.
  assert (From : forall cur, (exists p ps, split_byte d s = p :: ps /\
    (getlines_from d cur s = (cur ++ p) :: ps \/ (cur ++ p) :: ps = getlines_from d cur s ++ [[]]))).
  { induction s as [|x s IH]; intros cur; cbn [split_byte getlines_from].
    { exists [], []. split; [done|]. rewrite app_nil_r. destruct cur; [by right|by left]. }
    destruct (decide (x = d)).
    - destruct (IH []) as (p & ps & -> & E). exists [], (p :: ps). split; [done|]. rewrite app_nil_r.
      destruct E as [-> | E]; [by left|right]. cbn [app] in E |- *. by rewrite E.
    - destruct (IH (cur ++ [x])) as (p & ps & -> & E). exists (x :: p), ps. split; [done|].
      by rewrite <- (assoc_L (++)) in E. }
  destruct (From []) as (p & ps & -> & [E|E]); unfold getlines; [left|right]; by rewrite ?E.
Qed.

Lemma blank_space s : no_control s = true -> Forall (fun c => is_blank c = isspace c) s.
Proof.
  unfold no_control, contains_control_character. rewrite negb_true_iff. intros N. apply Forall_forall. intros c Hc.
  assert (K : is_control c = false).
  { destruct (is_control c) eqn:E; [|done]. rewrite (proj2 (existsb_exists is_control s)) in N; [done|].
    exists c. split; [by apply list_elem_of_In|done]. }
  clear -K. by destruct c.
Qed.

Lemma drop_while_ext p q s : Forall (fun c => p c = q c) s -> drop_while p s = drop_while q s.
Proof. induction 1 as [|c s E _ IH]; [done|]. cbn. rewrite E. by destruct (q c). Qed.

Lemma strip_trim s : no_control s = true -> strip_blanks s = trim s.
Proof.
  intros N%blank_space. unfold strip_blanks, trim. rewrite (drop_while_ext is_blank isspace s) by done.
  f_equal. apply drop_while_ext, Forall_reverse. destruct (drop_while_suffix isspace s) as (a & E & _).
  rewrite E in N. by apply Forall_app in N as [_ N].
Qed.

Lemma no_control_part s l d : no_control s = true -> l ∈ getlines d s -> no_control l = true.
Proof.
  unfold no_control, contains_control_character. rewrite !negb_true_iff. intros N Hl.
  destruct (existsb is_control l) eqn:E; [|done]. apply existsb_exists in E as (c & Hc%list_elem_of_In & K).
  rewrite (proj2 (existsb_exists is_control s)) in N; [done|]. exists c. split; [|done].
  apply list_elem_of_In. by eapply getlines_elem_of.
Qed.

(** Both readings agree on lists without control characters. *)
Lemma alpn_contains_csv protocols expected :
  no_control protocols = true -> expected <> [] ->
  (alpn_contains protocols expected = true <-> expected ∈ split_csv protocols).
Proof.
  intros N Ne. unfold alpn_contains, split_csv, split_delimited. rewrite list_elem_of_filter, list_elem_of_fmap, existsb_exists.
  assert (Gl : forall l, l ∈ getlines (chr ",") protocols -> strip_blanks l = trim l)
    by (intros l Hl; apply strip_trim; by eapply no_control_part).
  split.
  - intros (l & Hl%list_elem_of_In & E%bool_decide_eq_true). split; [done|]. exists l.
    assert (I : l ∈ getlines (chr ",") protocols).
    { destruct (split_getlines (chr ",") protocols) as [S|S]; rewrite S in Hl; [done|].
      apply elem_of_app in Hl as [Hl|Hl]; [done|]. apply list_elem_of_singleton in Hl as ->. by rewrite <- E in Ne. }
    split; [|done]. by rewrite <- E, Gl.
  - intros (_ & l & -> & Hl). exists l. rewrite Gl by done. split; [|by apply bool_decide_eq_true].
    apply list_elem_of_In. destruct (split_getlines (chr ",") protocols) as [-> | ->]; [done|]. apply elem_of_app. by left.
Qed.

(** The texts of a protocol that clients can use. *)
Definition announces_http2 (config : ServerConfig) : Prop :=
  exists c, c ∈ protocol_capabilities config /\ version c = http_2 /\ implemented c = true /\ enabled c = true /\
    starts_with (notes c) (str "enabled in SQLite config with native") = true.

(** The report on the protocols is true: for a loaded configuration
    [--protocols] announces native HTTP/2 serving exactly if the server will
    serve it - in cleartext when it is enabled, and over TLS when the list of
    the TLS context offers it. *)
Theorem http2_report_true (is_regular_file : bytes -> outcome bool) (config : ServerConfig) :
  config_wf is_regular_file config ->
  (announces_http2 config <->
   http2_enabled config = true /\ (tls_enabled config = true -> str "h2" ∈ offered config)).
Proof.
  intros W. assert (N : no_control (tls_alpn_protocols config) = true).
  { pose proof (wf_texts _ _ W) as F. unfold controlled_fields in F. rewrite !Forall_cons in F. unfold no_control.
    decompose [and] F. cbn [snd] in *. by apply negb_true_iff. }
  pose proof (alpn_contains_csv _ (str "h2") N ltac:(done)) as Csv.
  assert (Ann : announces_http2 config <->
    http2_enabled config = true /\ starts_with (http2_status config) (str "enabled in SQLite config with native") = true).
  { unfold announces_http2, protocol_capabilities. split.
    - intros (c & Hc & V & _ & E & S). rewrite !elem_of_cons, elem_of_nil in Hc.
      by destruct Hc as [->|[->|[->|[]]]].
    - intros [E S]. eexists. split; [right; left|]. by split_and!. }
  rewrite Ann. clear Ann. unfold http2_status. destruct (http2_enabled config) eqn:H2; [|by split; intros []].
  cbn [negb]. destruct (tls_enabled config) eqn:T; cbn [negb].
  - destruct (wf_offered _ _ W T) as [-> _]. rewrite <- Csv. destruct (alpn_contains _ _).
    + by split.
    + split; [|by intros [_ ?]; auto]. intros [_ S]. vm_compute in S. discriminate S.
  - by split.
Qed.

Lemma http2_report_true_witness : announces_http2 tls_config.
Proof.
  apply (http2_report_true (fun _ => Ret true) tls_config tls_config_wf).
  split; [vm_compute; reflexivity|]. intros _. by_decide.
Defined.
