(* ===== verification/State.v ===== *)
(** * State: objects with mutable fields

    What the model of a C++ object with many fields shares: functional record
    update, the monad of member functions - they read and write the object,
    may throw, and what they wrote before they threw stays written - and its
    weakest preconditions, with which the event handlers are proved. *)

From S2P Require Import Prelude.

(** ** Records with many fields

    [r <| field := x |>] is [r] with one field replaced.  The update function
    of a field is derived from the eta expansion of the record, which every
    such record declares as its instance of [Eta]. *)

Class Eta (R : Type) : Type := eta_expand : R -> R.

Class Update {R T : Type} (field : R -> T) : Type := update : (T -> T) -> R -> R.
Arguments update {R T} field {_} f r.

Ltac derive_update :=
  match goal with
  | |- @Update ?R ?T ?field =>
      let e := eval hnf in (@eta_expand R _) in
      let e := eval pattern field in e in
      match e with
      | ?g _ =>
          let t := eval cbv beta in (fun (f : T -> T) (r : R) => g (fun r' : R => f (field r')) r) in
          exact t
      end
  end.

Declare Scope record_update_scope.
Open Scope record_update_scope.
Notation "r <| field := x |>" := (update field (fun _ => x) r)
  (at level 1, left associativity, x at level 200, format "r  <| field  :=  x |>") : record_update_scope.
Notation "r <| field ::= f |>" := (update field f r)
  (at level 1, left associativity, f at level 200, format "r  <| field  ::=  f |>") : record_update_scope.

(** ** Member functions *)

Definition M (S A : Type) : Type := S -> outcome A * S.

Section monad.
Context {S : Type}.

#[export] Instance state_ret : MRet (M S) := fun A a s => (Ret a, s).

#[export] Instance state_bind : MBind (M S) := fun A B f m s =>
  match m s with
  | (Ret a, s') => f a s'
  | (Raise e, s') => (Raise e, s')
  | (Timeout, s') => (Timeout, s')
  end.

Definition get {T} (field : S -> T) : M S T := fun s => (Ret (field s), s).
Definition modify (f : S -> S) : M S unit := fun s => (Ret tt, f s).
Definition throw {A} (what : string) : M S A := fun s => (Raise what, s).

(** A call of a function that does not touch the object. *)
Definition call {A} (o : outcome A) : M S A := fun s => (o, s).

(** [try { m } catch (const std::exception& error) { handler }] *)
Definition try_catch {A} (m : M S A) (handler : string -> M S A) : M S A := fun s =>
  match m s with
  | (Raise e, s') => handler e s'
  | r => r
  end.

(** Weakest precondition: [Q] holds of what [m] returns and of the state it
    leaves. *)
Definition wp {A} (m : M S A) (Q : outcome A -> S -> Prop) (s : S) : Prop := Q (m s).1 (m s).2.

(** [Q] for results and [E] for exceptions; a run without end has no state. *)
Definition post {A} (Q : A -> S -> Prop) (E : S -> Prop) (o : outcome A) (s : S) : Prop :=
  match o with Ret a => Q a s | Raise _ => E s | Timeout => True end.

Lemma wp_mono {A} (m : M S A) (Q Q' : outcome A -> S -> Prop) s :
  wp m Q s -> (forall o s', Q o s' -> Q' o s') -> wp m Q' s.
Proof using. unfold wp. auto. Qed.

Lemma wp_ret {A} (a : A) Q s : Q (Ret a) s -> wp (mret a) Q s.
Proof using. done. Qed.

Lemma wp_get {T} (field : S -> T) Q s : Q (Ret (field s)) s -> wp (get field) Q s.
Proof using. done. Qed.

Lemma wp_modify f Q s : Q (Ret tt) (f s) -> wp (modify f) Q s.
Proof using. done. Qed.

Lemma wp_throw {A} what (Q : outcome A -> S -> Prop) s : Q (Raise what) s -> wp (throw what) Q s.
Proof using. done. Qed.

Lemma wp_call {A} (o : outcome A) Q s : Q o s -> wp (call o) Q s.
Proof using. done. Qed.

Lemma wp_bind {A B} (m : M S A) (f : A -> M S B) Q s :
  wp m (fun o s' => match o with Ret a => wp (f a) Q s' | Raise e => Q (Raise e) s' | Timeout => Q Timeout s' end) s ->
  wp (m ≫= f) Q s.
Proof using. unfold wp, mbind, state_bind. cbn. by destruct (m s) as [[a|e|] s']. Qed.

Lemma wp_try {A} (m : M S A) h Q s :
  wp m (fun o s' => match o with Raise e => wp (h e) Q s' | _ => Q o s' end) s -> wp (try_catch m h) Q s.
Proof using. unfold wp, try_catch. cbn. by destruct (m s) as [[a|e|] s']. Qed.

Lemma wp_run {A} (m : M S A) Q s o s' : wp m Q s -> m s = (o, s') -> Q o s'.
Proof using. unfold wp. intros H E. by rewrite E in H. Qed.
End monad.

#[export] Typeclasses Opaque M.

(** [;;] for member functions that return nothing. *)
Notation "m ;; k" := (m ≫= fun _ : unit => k) (at level 100, k at level 200, right associativity, only parsing).

(** One step of symbolic execution. *)
Ltac wp_step :=
  lazymatch goal with
  | |- wp (mbind _ _) _ _ => apply wp_bind
  | |- wp (mret _) _ _ => apply wp_ret
  | |- wp (get _) _ _ => apply wp_get
  | |- wp (modify _) _ _ => apply wp_modify
  | |- wp (throw _) _ _ => apply wp_throw
  | |- wp (call _) _ _ => apply wp_call
  | |- wp (try_catch _ _) _ _ => apply wp_try
  end.

(** Projections of updated records.  The equation is proved for a record that
    is a variable, where it is immediate, and then used. *)
Ltac proj :=
  repeat match goal with
  | |- context [?p (@update ?R ?T ?q ?i ?f ?r)] =>
      is_const p;
      let E := fresh in
      first
        [ constr_eq p q;
          assert (E : forall (g : T -> T) (x : R), p (@update R T q i g x) = g (p x))
            by (intros g []; reflexivity)
        | assert (E : forall (g : T -> T) (x : R), p (@update R T q i g x) = p x)
            by (intros g []; reflexivity) ];
      rewrite !E; clear E; cbv beta
  end.

Lemma wp_post_bind {S A B} (m : M S A) (f : A -> M S B) Q E s :
  wp m (post (fun a => wp (f a) (post Q E)) E) s -> wp (m ≫= f) (post Q E) s.
Proof. intros W. apply wp_bind. apply (wp_mono _ _ _ _ W). by intros [a|e|] s'. Qed.

Lemma wp_post_try {S A} (m : M S A) h Q E E' s :
  wp m (post Q E') s -> (forall e s', E' s' -> wp (h e) (post Q E) s') -> wp (try_catch m h) (post Q E) s.
Proof. intros W Hh. apply wp_try. apply (wp_mono _ _ _ _ W). intros [a|e|] s'; cbn; auto. Qed.

Lemma wp_post_mono {S A} (m : M S A) (Q Q' : A -> S -> Prop) (E E' : S -> Prop) s :
  wp m (post Q E) s -> (forall a s', Q a s' -> Q' a s') -> (forall s', E s' -> E' s') -> wp m (post Q' E') s.
Proof. intros W HQ HE. apply (wp_mono _ _ _ _ W). intros [a|e|] s'; cbn; auto. Qed.

(** Chains a specification with what follows it. *)
Lemma wp_post_seq {S A B} (m : M S A) (f : A -> M S B) (R : A -> S -> Prop) Q E s :
  wp m (post R E) s -> (forall a s', R a s' -> wp (f a) (post Q E) s') -> wp (m ≫= f) (post Q E) s.
Proof. intros W K. apply wp_post_bind. apply (wp_post_mono _ _ _ _ _ _ W); auto. Qed.

(** ** Descriptors *)

(** The operating system hands out the lowest descriptor that is not open. *)
Definition lowest_free (fds : gset Z) : Z :=
  default 0 (head (filter (fun fd => fd ∉ fds) (Z.of_nat <$> seq 0 (S (base.size fds))))).

Lemma lowest_free_fresh fds : 0 <= lowest_free fds /\ lowest_free fds ∉ fds.
Proof.
  unfold lowest_free. set (candidates := Z.of_nat <$> seq 0 (S (base.size fds))).
  destruct (filter (fun fd => fd ∉ fds) candidates) as [|fd l] eqn:E.
  - assert (Sub : list_to_set candidates ⊆ fds).
    { intros x Hx%elem_of_list_to_set. destruct (decide (x ∈ fds)) as [|N]; [done|].
      assert (F : x ∈ filter (fun fd => fd ∉ fds) candidates) by by apply list_elem_of_filter.
      rewrite E in F. by apply elem_of_nil in F. }
    apply subseteq_size in Sub. rewrite size_list_to_set in Sub.
    + unfold candidates in Sub. rewrite length_fmap, length_seq in Sub. lia.
    + apply NoDup_fmap; [apply _|apply NoDup_seq].
  - assert (F : fd ∈ filter (fun fd => fd ∉ fds) candidates) by (rewrite E; left).
    apply list_elem_of_filter in F as [N F]. apply list_elem_of_fmap in F as (n & -> & _). cbn. split; [lia|done].
Qed.
