(* ===== verification/Upstream.v ===== *)
(** * Upstream: the blocking exchange with an upstream

    Models the transport of the reverse proxy handler
    ([src/src/http/virtual_host.cpp], lines 257-572 and 852-854), which HTTP/2
    requests use: resolving, connecting with a time limit, the TLS handshake,
    writing the request and reading the response until the upstream closes.
    What the system calls answer is given in order.  The loops of the source
    have no bound of their own: they go on as long as the upstream makes the
    descriptor ready, so an exchange whose answers run out is still in
    progress, which is a [Timeout] here.  [ReverseProxy.exchange] is what this
    file defines. *)

From S2P Require Import Prelude Text Numbers Request Response VirtualHost ReverseProxy State.

(** ** What the system answers *)

(** [poll]: the events it returns, a timeout, [EINTR] or another error. *)
Inductive PollResult : Type :=
| PollReady (matches : bool)
| PollTimeout
| PollInterrupted
| PollFailed.

Inductive ConnectAnswer : Type :=
| ConnectDone
| ConnectInProgress
| ConnectError (what : string).

(** One address of [getaddrinfo]: the errors of [socket] and of [fcntl], what
    [connect] says, and the error that [getsockopt] finds or is. *)
Record Address : Type := mk_address {
  socket_error : option string;
  nonblocking_error : option string;
  connect_answer : ConnectAnswer;
  pending_error : option string;
}.

(** [SSL_connect]; a finished handshake tells whether the certificate was
    verified. *)
Inductive HandshakeAnswer : Type :=
| HandshakeDone (verified : bool)
| HandshakeWants
| HandshakeFailed.

Inductive SendAnswer : Type :=
| Sent (n : nat)
| SendBlocked
| SendFailed (what : string).

(** [recv] or [SSL_read]: [ReadCut] are [SSL_ERROR_SYSCALL] and
    [SSL_ERROR_SSL]. *)
Inductive ReadAnswer : Type :=
| Received (chunk : bytes)
| ReadClosed
| ReadWants
| ReadCut
| ReadError (what : string).

(** The process as this code sees it: descriptors, the descriptors that were
    closed without being open, the future answers, and the traffic. *)
Record Line : Type := mk_line {
  line_fds : gset Z;
  line_misclosed : list Z;
  polls : list PollResult;
  resolution : string + list Address;
  tls_setup : option string;
  handshakes : list HandshakeAnswer;
  sends : list SendAnswer;
  reads : list ReadAnswer;
  line_sent : bytes;
  line_received : bytes;
}.

#[export] Instance eta_line : Eta Line := fun l =>
  mk_line (line_fds l) (line_misclosed l) (polls l) (resolution l) (tls_setup l) (handshakes l) (sends l) (reads l)
    (line_sent l) (line_received l).

#[export] Instance at_line_fds : Update line_fds := ltac:(derive_update).
#[export] Instance at_line_misclosed : Update line_misclosed := ltac:(derive_update).
#[export] Instance at_polls : Update polls := ltac:(derive_update).
#[export] Instance at_handshakes : Update handshakes := ltac:(derive_update).
#[export] Instance at_sends : Update sends := ltac:(derive_update).
#[export] Instance at_reads : Update reads := ltac:(derive_update).
#[export] Instance at_line_sent : Update line_sent := ltac:(derive_update).
#[export] Instance at_line_received : Update line_received := ltac:(derive_update).

Definition Up : Type -> Type := M Line.

(** ** Descriptors *)

Definition open_socket : Up Z := fun l =>
  let fd := lowest_free (line_fds l) in (Ret fd, l <| line_fds ::= union {[fd]} |>).

Definition close_socket (fd : Z) : Up unit := modify (fun l =>
  if decide (fd ∈ line_fds l) then l <| line_fds ::= fun fds => fds ∖ {[fd]} |>
  else l <| line_misclosed ::= cons fd |>).

(** ** Waiting *)

(** [timeout_ms]: an [int]. *)
Definition timeout_ms (seconds : Z) : Z :=
  if seconds <=? 0 then 1
  else if (2 ^ 31 - 1) / 1000 <? seconds then 2 ^ 31 - 1
  else seconds * 1000.

(** [poll] is called again, with the whole time limit, while a signal
    interrupts it. *)
Fixpoint wait_answer (l : list PollResult) : outcome bool * list PollResult :=
  match l with
  | [] => (Timeout, [])
  | PollReady matches :: l' => (Ret matches, l')
  | PollTimeout :: l' | PollFailed :: l' => (Ret false, l')
  | PollInterrupted :: l' => wait_answer l'
  end.

Definition wait_fd : Up bool := fun l =>
  let '(ready, rest) := wait_answer (polls l) in (ready, l <| polls := rest |>).

(** The next system call has not answered. *)
Definition in_progress {A} : Up A := call Timeout.

(** ** Connecting *)

(** One address: the connected socket, or the error to remember.  A
    [UniqueFd] closes its descriptor on every other way out. *)
Definition connect_address (a : Address) : Up (string + Z) :=
  match socket_error a with
  | Some e => mret (inl e)
  | None =>
      fd ← open_socket;
      match nonblocking_error a with
      | Some e => close_socket fd ;; throw e
      | None =>
          match connect_answer a with
          | ConnectDone => mret (inr fd)
          | ConnectError e => close_socket fd ;; mret (inl e)
          | ConnectInProgress =>
              ready ← wait_fd;
              if negb ready then close_socket fd ;; mret (inl "connect timeout"%string)
              else
                match pending_error a with
                | Some e => close_socket fd ;; mret (inl e)
                | None => mret (inr fd)
                end
          end
      end
  end.

Fixpoint connect_addresses (l : list Address) (last_error : string) : Up Z :=
  match l with
  | [] => throw ("upstream connect failed: " ++ last_error)%string
  | a :: l' =>
      r ← connect_address a;
      match r with
      | inr fd => mret fd
      | inl e => connect_addresses l' e
      end
  end.

Definition connect_tcp_upstream : Up Z :=
  addresses ← get resolution;
  match addresses with
  | inl e => throw ("upstream address resolution failed: " ++ e)%string
  | inr l => connect_addresses l "no upstream address"
  end.

(** ** TLS *)

Definition should_send_sni (host : bytes) : bool :=
  if bool_decide (host = []) || bool_decide (is_Some (find_byte (chr ":") host)) then false
  else existsb isalpha host.

(** The targets of the verification: an address or a name. *)
Definition verifies_address (host : bytes) : bool :=
  bool_decide (is_Some (find_byte (chr ":") host))
  || forallb (fun c => isdigit c || bool_decide (c = chr ".")) host.

Fixpoint handshake (answers : list HandshakeAnswer) (verify_upstream : bool) : Up unit :=
  modify (fun l => l <| handshakes := tail answers |>) ;;
  match answers with
  | [] => in_progress
  | HandshakeDone verified :: _ =>
      if verify_upstream && negb verified then throw "upstream TLS certificate verification failed" else mret tt
  | HandshakeWants :: rest =>
      ready ← wait_fd;
      if ready : bool then handshake rest verify_upstream else throw "upstream TLS handshake failed"
  | HandshakeFailed :: _ => throw "upstream TLS handshake failed"
  end.

(** The calls that set the connection up, any of which may fail. *)
Definition connect_tls_upstream (verify_upstream : bool) : Up unit :=
  failure ← get tls_setup;
  match failure with
  | Some e => throw e
  | None => answers ← get handshakes; handshake answers verify_upstream
  end.

Record UpstreamConnection : Type := mk_upstream {
  upstream_fd : Z;
  upstream_tls : bool;
}.

(** The destructor runs when an exception passes. *)
Definition owning {A} (fd : Z) (m : Up A) : Up A := try_catch m (fun e => close_socket fd ;; throw e).

Definition connect_upstream (upstream : ReverseProxyTarget) (verify_tls_upstream : bool) : Up UpstreamConnection :=
  fd ← connect_tcp_upstream;
  let tls := bool_decide (scheme upstream = str "https") in
  owning fd ((if tls then connect_tls_upstream verify_tls_upstream else mret tt) ;; mret (mk_upstream fd tls)).

(** ** Writing *)

(** Both versions of [write_all] send what is left until nothing is; they
    differ in their messages. *)
Fixpoint write_loop (tls : bool) (answers : list SendAnswer) (rest : bytes) : Up unit :=
  match rest with
  | [] => mret tt
  | _ =>
      modify (fun l => l <| sends := tail answers |>) ;;
      match answers with
      | [] => in_progress
      | Sent n :: answers' =>
          if (n =? 0)%nat then throw (if tls then "upstream TLS write failed" else "upstream write failed: ")%string
          else
            modify (fun l => l <| line_sent ::= fun s => s ++ take n rest |>) ;;
            write_loop tls answers' (drop n rest)
      | SendBlocked :: answers' =>
          ready ← wait_fd;
          if ready : bool then write_loop tls answers' rest
          else throw (if tls then "upstream TLS write failed" else "upstream write timeout")%string
      | SendFailed e :: _ =>
          throw (if tls then "upstream TLS write failed" else "upstream write failed: " ++ e)%string
      end
  end.

Definition write_all (connection : UpstreamConnection) (payload : bytes) : Up unit :=
  answers ← get sends; write_loop (upstream_tls connection) answers payload.

(** ** Reading *)

(** A read takes at most 8192 bytes; one of none is the end. *)
Fixpoint read_loop (tls : bool) (max_bytes : Z) (answers : list ReadAnswer) (response : bytes) : Up bytes :=
  modify (fun l => l <| reads := tail answers |>) ;;
  match answers with
  | [] => in_progress
  | Received chunk :: answers' =>
      let chunk := take 8192 chunk in
      if bool_decide (chunk = []) then mret response
      else
        modify (fun l => l <| line_received ::= fun s => s ++ chunk |>) ;;
        if max_bytes <? size (response ++ chunk) then throw "upstream response too large"
        else read_loop tls max_bytes answers' (response ++ chunk)
  | ReadClosed :: _ => mret response
  | ReadWants :: answers' =>
      ready ← wait_fd;
      if ready : bool then read_loop tls max_bytes answers' response
      else throw (if tls then "upstream TLS read failed" else "upstream read timeout")%string
  | ReadCut :: _ =>
      if tls && negb (bool_decide (response = [])) then mret response
      else throw (if tls then "upstream TLS read failed" else "upstream read failed: ")%string
  | ReadError e :: _ => throw (if tls then "upstream TLS read failed" else "upstream read failed: " ++ e)%string
  end.

Definition read_until_close (connection : UpstreamConnection) (max_bytes : Z) : Up bytes :=
  answers ← get reads; read_loop (upstream_tls connection) max_bytes answers [].

(** ** The exchange

    The [try] block of [reverse_proxy_response] up to the parsing; the
    connection is closed on every way out. *)
Definition blocking_exchange (upstream : ReverseProxyTarget) (settings : ReverseProxySettings) (request : bytes) : Up bytes :=
  connection ← connect_upstream upstream (verify_tls_upstream settings);
  response ← owning (upstream_fd connection)
    (write_all connection request ;;
     read_until_close connection (max_response_bytes settings));
  close_socket (upstream_fd connection) ;;
  mret response.

(** ** What the exchange does *)

(** Like [post], with [T] for a run that is still in progress. *)
Definition ends {A} (Q : A -> Line -> Prop) (E T : Line -> Prop) (o : outcome A) (l : Line) : Prop :=
  match o with Ret a => Q a l | Raise _ => E l | Timeout => T l end.

Lemma ends_bind {A B} (m : Up A) (f : A -> Up B) R Q E T l :
  wp m (ends R E T) l -> (forall a l', R a l' -> wp (f a) (ends Q E T) l') -> wp (m ≫= f) (ends Q E T) l.
Proof. intros W K. apply wp_bind. apply (wp_mono _ _ _ _ W). intros [a|e|] l'; cbn [ends]; auto. Qed.

Lemma ends_mono {A} (m : Up A) (Q Q' : A -> Line -> Prop) (E E' T T' : Line -> Prop) l :
  wp m (ends Q E T) l -> (forall a l', Q a l' -> Q' a l') -> (forall l', E l' -> E' l') -> (forall l', T l' -> T' l') ->
  wp m (ends Q' E' T') l.
Proof. intros W HQ HE HT. apply (wp_mono _ _ _ _ W). intros [a|e|] l'; cbn [ends]; auto. Qed.

Lemma ends_and {A} (m : Up A) (Q Q' : A -> Line -> Prop) (E E' T T' : Line -> Prop) l :
  wp m (ends Q E T) l -> wp m (ends Q' E' T') l ->
  wp m (ends (fun a l => Q a l /\ Q' a l) (fun l => E l /\ E' l) (fun l => T l /\ T' l)) l.
Proof. unfold wp. destruct (m l) as [[a|e|] l']; cbn; done. Qed.

(** An exception closes the descriptor. *)
Lemma ends_owning {A} (m : Up A) fd (Q : A -> Line -> Prop) (E E' T : Line -> Prop) l :
  wp m (ends Q E' T) l -> (forall l', E' l' -> E (close_socket fd l').2) -> wp (owning fd m) (ends Q E T) l.
Proof.
  intros W K. unfold owning. apply wp_try. apply (wp_mono _ _ _ _ W). intros [a|e|] l' H; cbn [ends] in *; try done.
  apply wp_bind. unfold wp at 1. cbn [close_socket modify fst snd]. apply wp_throw. by apply K.
Qed.

(** The descriptors of the process are [fds], and the traffic is what it was
    with [s] sent and [r] received. *)
Record between (l : Line) (fds : gset Z) (s r : bytes) (l' : Line) : Prop := {
  between_fds : line_fds l' = fds;
  between_misclosed : line_misclosed l' = line_misclosed l;
  between_sent : line_sent l' = line_sent l ++ s;
  between_received : line_received l' = line_received l ++ r;
}.

Ltac between := constructor; proj; try done.

Lemma between_start l : between l (line_fds l) [] [] l.
Proof. by constructor; rewrite ?app_nil_r. Qed.

Lemma ends_wait l0 fds s r l (Q : bool -> Line -> Prop) E (T : Line -> Prop) :
  between l0 fds s r l -> (forall b l', between l0 fds s r l' -> Q b l') -> (forall l', between l0 fds s r l' -> T l') ->
  wp wait_fd (ends Q E T) l.
Proof.
  intros [B1 B2 B3 B4] K KT. unfold wait_fd, wp.
  assert (N : forall e, (wait_answer (polls l)).1 <> Raise e) by (intros e; induction (polls l) as [|[]]; done).
  destruct (wait_answer (polls l)) as [[b|e|] rest]; cbn; [apply K|by destruct (N e)|apply KT]; by between.
Qed.

Lemma close_socket_between l0 fd fds s r l :
  between l0 ({[fd]} ∪ fds) s r l -> fd ∉ fds -> between l0 fds s r (close_socket fd l).2.
Proof.
  intros [B1 B2 B3 B4] N. cbn [close_socket modify snd]. rewrite decide_True by (rewrite B1; set_solver).
  between. rewrite B1. apply set_eq. intros x. set_solver.
Qed.

Lemma ends_close {A} l0 fd fds s r l (k : Up A) Q E T :
  between l0 ({[fd]} ∪ fds) s r l -> fd ∉ fds ->
  (forall l', between l0 fds s r l' -> wp k (ends Q E T) l') -> wp (close_socket fd ;; k) (ends Q E T) l.
Proof.
  intros B N K. apply wp_bind. unfold wp at 1. cbn [close_socket modify fst snd].
  apply K. by apply close_socket_between.
Qed.

(** One descriptor more than [fds] is open. *)
Definition holding (l0 : Line) (fds : gset Z) (s r : bytes) (l : Line) : Prop :=
  exists fd, fd ∉ fds /\ between l0 ({[fd]} ∪ fds) s r l.

(** A connected socket is one more descriptor, a failed one is none. *)
Lemma ends_connect_address a l0 fds s r l :
  between l0 fds s r l ->
  wp (connect_address a)
    (ends (fun c l' => match c with
       | inr fd => fd ∉ fds /\ between l0 ({[fd]} ∪ fds) s r l'
       | inl _ => between l0 fds s r l'
       end) (between l0 fds s r) (holding l0 fds s r)) l.
Proof.
  intros B. unfold connect_address. destruct (socket_error a); [by apply wp_ret|].
  apply wp_bind. unfold wp at 1, open_socket. cbn [fst snd]. set (fd := lowest_free (line_fds l)).
  assert (N : fd ∉ fds) by (unfold fd; rewrite (between_fds _ _ _ _ _ B); apply lowest_free_fresh).
  set (l1 := l <| line_fds ::= union {[fd]} |>).
  assert (B1 : between l0 ({[fd]} ∪ fds) s r l1) by (destruct B as [E1 E2 E3 E4]; unfold l1; between; by rewrite E1).
  clearbody l1 fd. destruct (nonblocking_error a); [by eapply ends_close; [exact B1|done|intros; apply wp_throw]|].
  destruct (connect_answer a).
  - by apply wp_ret.
  - apply (ends_bind _ _ (fun _ => between l0 ({[fd]} ∪ fds) s r)); [eapply ends_wait; [exact B1|done|by exists fd]|].
    intros [] l2 B2; cbn [negb].
    + destruct (pending_error a); [by eapply ends_close; [exact B2|done|intros; apply wp_ret]|by apply wp_ret].
    + by eapply ends_close; [exact B2|done|intros; apply wp_ret].
  - by eapply ends_close; [exact B1|done|intros; apply wp_ret].
Qed.

Lemma ends_connect_tcp l0 fds s r l :
  between l0 fds s r l ->
  wp connect_tcp_upstream (ends (fun fd l' => fd ∉ fds /\ between l0 ({[fd]} ∪ fds) s r l') (between l0 fds s r)
    (holding l0 fds s r)) l.
Proof.
  intros B. unfold connect_tcp_upstream. apply wp_bind, wp_get. destruct (resolution l) as [e|addresses]; [by apply wp_throw|].
  generalize "no upstream address"%string. revert l B.
  induction addresses as [|a addresses IH]; intros l B e; cbn [connect_addresses]; [by apply wp_throw|].
  eapply ends_bind; [by apply ends_connect_address|]. intros [e'|fd] l' H; [by apply IH|by apply wp_ret].
Qed.

Lemma ends_handshake answers verify l0 fds s r l :
  between l0 fds s r l ->
  wp (handshake answers verify) (ends (fun _ => between l0 fds s r) (between l0 fds s r) (between l0 fds s r)) l.
Proof.
  revert l; induction answers as [|[verified| |] answers IH]; intros l B; cbn [handshake tail]; apply wp_bind, wp_modify;
    match goal with |- wp _ _ ?l1 => assert (B1 : between l0 fds s r l1) by (destruct B; between) end.
  - by apply wp_call.
  - by destruct (_ && _); [apply wp_throw|apply wp_ret].
  - apply (ends_bind _ _ (fun _ => between l0 fds s r)); [by eapply ends_wait|].
    intros [] l2 B2; [by apply IH|by apply wp_throw].
  - by apply wp_throw.
Qed.

Lemma ends_connect upstream verify l0 fds s r l :
  between l0 fds s r l ->
  wp (connect_upstream upstream verify)
    (ends (fun c l' => upstream_fd c ∉ fds /\ between l0 ({[upstream_fd c]} ∪ fds) s r l') (between l0 fds s r)
       (holding l0 fds s r)) l.
Proof.
  intros B. unfold connect_upstream. eapply ends_bind; [by apply ends_connect_tcp|]. intros fd l1 [N B1].
  eapply (ends_owning _ fd _ _ (between l0 ({[fd]} ∪ fds) s r)); [|intros; by apply close_socket_between].
  apply (ends_bind _ _ (fun _ => between l0 ({[fd]} ∪ fds) s r)); [|by intros; apply wp_ret].
  destruct (bool_decide _); [|by apply wp_ret]. unfold connect_tls_upstream. apply wp_bind, wp_get.
  destruct (tls_setup l1); [by apply wp_throw|]. apply wp_bind, wp_get.
  eapply ends_mono; [by apply ends_handshake|done..|]. intros l' B'. by exists fd.
Qed.

(** What was sent is a beginning of the payload, and all of it in the end. *)
Lemma ends_write tls answers payload rest l0 fds s r l :
  between l0 fds (s ++ payload) r l ->
  wp (write_loop tls answers rest)
    (ends (fun _ => between l0 fds (s ++ payload ++ rest) r)
       (fun l' => exists k, between l0 fds (s ++ payload ++ take k rest) r l')
       (fun l' => exists k, between l0 fds (s ++ payload ++ take k rest) r l')) l.
Proof.
  assert (Stop : forall payload rest l, between l0 fds (s ++ payload) r l ->
    exists k, between l0 fds (s ++ payload ++ take k rest) r l) by (intros p r0 l1 B; exists 0%nat; by rewrite take_0, app_nil_r).
  revert payload rest l. induction answers as [|a answers IH]; intros payload rest l B;
    (destruct rest as [|c rest']; cbn [write_loop tail]; [apply wp_ret; by rewrite app_nil_r|];
     set (rest := c :: rest') in *; clearbody rest; apply wp_bind, wp_modify;
     match goal with |- wp _ _ ?l1 => assert (B1 : between l0 fds (s ++ payload) r l1) by (destruct B; between) end;
     revert B1; match goal with |- _ -> wp _ _ ?l1 => generalize l1 end; clear l B; intros l B).
  { apply wp_call. by apply Stop. }
  destruct a as [n| |e].
  - destruct (Nat.eqb_spec n 0); [apply wp_throw; by apply Stop|]. apply wp_bind, wp_modify.
    eapply (ends_mono _ _ _ (fun l' => exists k, between l0 fds (s ++ (payload ++ take n rest) ++ take k (drop n rest)) r l')).
    + apply (IH (payload ++ take n rest) (drop n rest)). destruct B as [B1 B2 B3 B4]. between. by rewrite B3, <- !(assoc_L (++)).
    + intros [] l' B'. by rewrite <- (assoc_L (++)), take_drop in B'.
    + intros l' [k B']. exists (n + k)%nat. by rewrite <- (assoc_L (++)), take_take_drop in B'.
    + intros l' [k B']. exists (n + k)%nat. by rewrite <- (assoc_L (++)), take_take_drop in B'.
  - apply (ends_bind _ _ (fun _ => between l0 fds (s ++ payload) r)).
    + eapply ends_wait; [exact B|done|by apply Stop].
    + intros [] l1 B1; [by apply IH|apply wp_throw; by apply Stop].
  - apply wp_throw. by apply Stop.
Qed.

(** The response is what was received, and is within the limit; a read that
    fails has received at most one chunk more. *)
Lemma ends_read tls max_bytes answers response l0 fds s r l :
  between l0 fds s (r ++ response) l -> size response <= Z.max 0 max_bytes ->
  wp (read_loop tls max_bytes answers response)
    (ends (fun raw l' => between l0 fds s (r ++ raw) l' /\ size raw <= Z.max 0 max_bytes)
       (fun l' => exists raw, between l0 fds s (r ++ raw) l' /\ size raw <= Z.max 0 max_bytes + 8192)
       (fun l' => exists raw, between l0 fds s (r ++ raw) l' /\ size raw <= Z.max 0 max_bytes)) l.
Proof.
  revert response l; induction answers as [|a answers IH]; intros response l B Sz; cbn [read_loop tail];
    apply wp_bind, wp_modify;
    match goal with |- wp _ _ ?l1 => assert (B1 : between l0 fds s (r ++ response) l1) by (destruct B; between) end;
    revert B1; match goal with |- _ -> wp _ _ ?l1 => generalize l1 end; clear l B; intros l B.
  { apply wp_call. by exists response. }
  assert (Stop : forall l, between l0 fds s (r ++ response) l ->
    exists raw, between l0 fds s (r ++ raw) l /\ size raw <= Z.max 0 max_bytes + 8192) by (intros; exists response; split; [done|lia]).
  destruct a as [chunk| | | |e].
  - case_bool_decide; [by apply wp_ret|]. set (part := take 8192 chunk) in *.
    assert (Lp : size part <= 8192) by (unfold part; rewrite length_take; change 8192 with (Z.of_nat 8192); apply inj_le, Nat.le_min_l). clearbody part.
    apply wp_bind, wp_modify. set (l1 := l <| line_received ::= _ |>).
    assert (B1 : between l0 fds s (r ++ response ++ part) l1).
    { destruct B as [B1 B2 B3 B4]. unfold l1. between. by rewrite B4, <- !(assoc_L (++)). }
    clearbody l1. destruct (Z.ltb_spec max_bytes (size (response ++ part))).
    + apply wp_throw. exists (response ++ part). split; [done|]. rewrite length_app. lia.
    + apply IH; [done|lia].
  - by apply wp_ret.
  - apply (ends_bind _ _ (fun _ => between l0 fds s (r ++ response))); [by eapply ends_wait; [exact B|done|exists response]|].
    intros [] l1 B1; [by apply IH|apply wp_throw; by apply Stop].
  - destruct (_ && _); [by apply wp_ret|apply wp_throw; by apply Stop].
  - apply wp_throw. by apply Stop.
Qed.

(** The whole exchange: a result, an exception, or the point where it waits. *)
Lemma ends_exchange upstream settings request l (limit := Z.max 0 (max_response_bytes settings)) :
  wp (blocking_exchange upstream settings request)
    (ends (fun raw l' => between l (line_fds l) request raw l' /\ size raw <= limit)
       (fun l' => exists k raw, between l (line_fds l) (take k request) raw l' /\ size raw <= limit + 8192)
       (fun l' => exists k raw, holding l (line_fds l) (take k request) raw l' /\ size raw <= limit)) l.
Proof.
  assert (L0 : 0 <= limit) by lia.
  unfold blocking_exchange.
  apply (ends_bind _ _ (fun c l' => upstream_fd c ∉ line_fds l /\ between l ({[upstream_fd c]} ∪ line_fds l) [] [] l')).
  { eapply (ends_mono _ _ _ _ _ _ _ _ (ends_connect _ _ _ _ _ _ _ (between_start l))); [done|..];
      intros l' B; exists 0%nat, []; rewrite take_0; (split; [done|]); cbn [length]; lia. }
  intros c l1 [N B1]. set (fd := upstream_fd c) in *.
  apply (ends_bind _ _ (fun raw l' => between l ({[fd]} ∪ line_fds l) request raw l' /\ size raw <= limit)).
  2: { intros raw l2 [B2 S2]. eapply ends_close; [exact B2|done|]. intros l3 B3. by apply wp_ret. }
  apply (ends_owning _ fd _ _ (fun l' => exists k raw, between l ({[fd]} ∪ line_fds l) (take k request) raw l' /\
    size raw <= limit + 8192)).
  2: { intros l' (k & raw & B & S). exists k, raw. split; [by apply close_socket_between|done]. }
  apply (ends_bind _ _ (fun _ => between l ({[fd]} ∪ line_fds l) request [])).
  - unfold write_all. apply wp_bind, wp_get.
    eapply (ends_mono _ _ _ _ _ _ _ _ (ends_write (upstream_tls c) (sends l1) [] request l ({[fd]} ∪ line_fds l) [] [] l1 B1)).
    + by intros [] l'.
    + intros l' [k B']. exists k, []. split; [done|]. cbn [length]. lia.
    + intros l' [k B']. exists k, []. split; [by exists fd|]. cbn [length]. lia.
  - intros [] l2 B2. unfold read_until_close. apply wp_bind, wp_get.
    eapply (ends_mono _ _ _ _ _ _ _ _ (ends_read _ _ (reads l2) [] l _ request [] l2 B2 ltac:(cbn [length]; lia))).
    + done.
    + intros l' (raw & B & S). exists (length request), raw. by rewrite firstn_all.
    + intros l' (raw & B & S). exists (length request), raw. rewrite firstn_all. split; [by exists fd|done].
Qed.

(** ** How long an exchange can take

    Every iteration of a loop that waits needs the descriptor to become ready;
    every other one moves at least one byte. *)

(** A wait that finds the descriptor ready, and one that gives up. *)
Definition wakes (p : PollResult) : nat := match p with PollReady true => 1 | _ => 0 end.
Definition gives_up (p : PollResult) : nat :=
  match p with PollTimeout | PollFailed | PollReady false => 1 | PollReady true | PollInterrupted => 0 end.

Definition wakeups (l : Line) : nat := sum_list_with wakes (polls l).
Definition give_ups (l : Line) : nat := sum_list_with gives_up (polls l).
Definition addresses (l : Line) : nat := match resolution l with inr a => length a | inl _ => 0 end.

(** The call an exchange of [n] bytes with at most [limit] in return waits
    for, of the answers of [l0]: a wait that neither expired nor was refused,
    though at most one per address was; a handshake that was woken each time;
    or a transfer of which each answer was a byte or a wake-up. *)
Inductive awaits (l0 : Line) (n limit : Z) (l : Line) : Prop :=
| awaits_poll (Empty : polls l = []) (Few : (give_ups l0 <= addresses l0)%nat)
| awaits_handshake (Empty : handshakes l = []) (Few : (length (handshakes l0) <= wakeups l0)%nat)
| awaits_send (Empty : sends l = []) (Few : size (sends l0) < n + Z.of_nat (wakeups l0))
| awaits_read (Empty : reads l = []) (Few : size (reads l0) <= limit + Z.of_nat (wakeups l0)).

(** The waits since [l0]: at least [w] were woken and at most [g] gave up. *)
Record waited (l0 : Line) (w g : nat) (l : Line) : Prop := {
  waited_wakeups : (w + wakeups l <= wakeups l0)%nat;
  waited_give_ups : (give_ups l0 <= g + give_ups l)%nat;
}.

(** The queues that a phase leaves alone. *)
Record untouched (l0 l : Line) : Prop := {
  untouched_sends : sends l = sends l0;
  untouched_reads : reads l = reads l0;
}.

Definition anything {A} (_ : A) : Prop := True.

Lemma ends_waited l0 w g l (Q : bool -> Line -> Prop) (T : Line -> Prop) :
  waited l0 w g l ->
  (forall p, waited l0 (S w) g (l <| polls := p |>) -> Q true (l <| polls := p |>)) ->
  (forall p, waited l0 w (S g) (l <| polls := p |>) -> Q false (l <| polls := p |>)) ->
  ((give_ups l0 <= g)%nat -> T (l <| polls := [] |>)) ->
  wp wait_fd (ends Q anything T) l.
Proof.
  intros [W G] Kt Kf KT. unfold wait_fd, wp, wakeups, give_ups in *.
  assert (C : match wait_answer (polls l) with
    | (Ret true, p) => sum_list_with wakes (polls l) = S (sum_list_with wakes p) /\ sum_list_with gives_up (polls l) = sum_list_with gives_up p
    | (Ret false, p) => sum_list_with wakes (polls l) = sum_list_with wakes p /\ sum_list_with gives_up (polls l) = S (sum_list_with gives_up p)
    | (Raise _, p) => True
    | (Timeout, p) => p = [] /\ sum_list_with gives_up (polls l) = 0%nat
    end) by (clear; induction (polls l) as [|[[]| | |] p IH]; try done; apply IH).
  destruct (wait_answer (polls l)) as [[[]|e|] p]; cbn; [apply Kt|apply Kf|done|destruct C as [-> C]; apply KT; lia];
    constructor; unfold wakeups, give_ups in *; change (polls (l <| polls := p |>)) with p; lia.
Qed.

(** An address that fails has given up at most once. *)
Lemma waited_connect_address a l0 g l :
  waited l0 0 g l ->
  wp (connect_address a)
    (ends (fun c l' => waited l0 0 (S g) l' /\ handshakes l' = handshakes l /\ untouched l l') anything
       (fun l' => polls l' = [] /\ (give_ups l0 <= S g)%nat)) l.
Proof.
  intros W. set (Q := fun l' => waited l0 0 (S g) l' /\ handshakes l' = handshakes l /\ untouched l l').
  assert (W' : waited l0 0 (S g) l) by (destruct W; constructor; lia).
  assert (Close : forall fd l1, Q l1 -> Q (close_socket fd l1).2).
  { intros fd l1 [[W1 W2] [H1 [H2 H3]]]. cbn. destruct (decide _); by split; [constructor|split; [|constructor]]. }
  unfold connect_address. destruct (socket_error a); [by apply wp_ret; split; [|split; [|constructor]]|].
  apply wp_bind. unfold wp at 1, open_socket. cbn [fst snd]. set (fd := lowest_free (line_fds l)). set (l1 := l <| line_fds ::= _ |>).
  assert (Q1 : Q l1) by (subst l1; destruct W' as [W1 W2]; by split; [constructor|split; [|constructor]]).
  assert (Fin : forall (r : string + Z) l1, Q l1 ->
    wp (close_socket fd ;; mret r) (ends (fun _ => Q) anything (fun l' => polls l' = [] /\ (give_ups l0 <= S g)%nat)) l1).
  { intros r l2 Q2. apply wp_bind. unfold wp at 1. cbn [close_socket modify fst snd]. apply wp_ret. by apply (Close fd l2). }
  destruct (nonblocking_error a); [by apply wp_bind; unfold wp at 1; cbn [close_socket modify fst snd]; apply wp_throw|].
  destruct (connect_answer a); [by apply wp_ret| |by apply Fin].
  apply (ends_bind _ _ (fun _ => Q)).
  - eapply (ends_waited l0 0 g); [by destruct W as [W1 W2]; constructor| | |].
    + intros p [W1 W2]. split; [by constructor; lia|by split; [|constructor]].
    + intros p W2. by split; [|split; [|constructor]].
    + intros G. split; [done|lia].
  - intros [] l2 Q2; cbn [negb]; [|by apply Fin]. destruct (pending_error a); [by apply Fin|by apply wp_ret].
Qed.

Lemma waited_connect_addresses list e l0 g n limit l :
  waited l0 0 g l -> handshakes l = handshakes l0 -> untouched l0 l -> addresses l0 = (g + length list)%nat ->
  wp (connect_addresses list e)
    (ends (fun _ l' => waited l0 0 (addresses l0) l' /\ handshakes l' = handshakes l0 /\ untouched l0 l') anything
       (awaits l0 n limit)) l.
Proof.
  revert g e l. induction list as [|a list IH]; intros g e l W Hs [U1 U2] A; cbn [connect_addresses length] in *; [by apply wp_throw|].
  apply (ends_bind _ _ (fun _ l' => waited l0 0 (S g) l' /\ handshakes l' = handshakes l /\ untouched l l')).
  - eapply ends_mono; [by apply waited_connect_address|done|done|]. intros l' [P F]. apply awaits_poll; [done|lia].
  - intros c l1 (W1 & Hs1 & [U3 U4]). assert (Un1 : untouched l0 l1) by (constructor; congruence).
    destruct c as [e'|fd]; [apply (IH (S g)); [done|congruence|done|lia]|].
    apply wp_ret. split; [|split; [congruence|done]]. destruct W1. constructor; lia.
Qed.

Lemma waited_connect_tcp l0 n limit :
  wp connect_tcp_upstream
    (ends (fun _ l' => waited l0 0 (addresses l0) l' /\ handshakes l' = handshakes l0 /\ untouched l0 l') anything
       (awaits l0 n limit)) l0.
Proof.
  unfold connect_tcp_upstream. apply wp_bind, wp_get.
  destruct (resolution l0) as [e|list] eqn:R; [by apply wp_throw|].
  apply (waited_connect_addresses _ _ _ 0); [constructor; lia|done|by constructor|]. unfold addresses. by rewrite R.
Qed.

Lemma waited_handshake answers verify l0 w g n limit l :
  waited l0 w g l -> untouched l0 l -> (g <= addresses l0)%nat -> length (handshakes l0) = (w + length answers)%nat ->
  wp (handshake answers verify)
    (ends (fun _ l' => waited l0 0 g l' /\ untouched l0 l') anything (awaits l0 n limit)) l.
Proof.
  intros W Un G. revert w l W Un. induction answers as [|a answers IH]; intros w l W Un Len;
    cbn [handshake tail length] in *; apply wp_bind, wp_modify; set (l1 := l <| handshakes := _ |>);
    (assert (W1 : waited l0 w g l1) by (subst l1; destruct W; by constructor));
    (assert (Un1 : untouched l0 l1) by (subst l1; destruct Un; by constructor)).
  - apply wp_call. apply awaits_handshake; [done|]. destruct W1. lia.
  - clearbody l1. destruct a as [verified| |]; [|apply (ends_bind _ _ (fun (ready : bool) l' =>
      ready = true -> waited l0 (S w) g l' /\ untouched l0 l'))|by apply wp_throw].
    + destruct (_ && _); [by apply wp_throw|]. apply wp_ret. split; [|done]. destruct W1. constructor; lia.
    + eapply (ends_waited l0 w g); [done| |done|intros Few; apply awaits_poll; [done|lia]].
      intros p W2 _. split; [done|]. destruct Un1. by constructor.
    + intros [] l2 K; [|by apply wp_throw]. destruct (K eq_refl) as [W2 Un2]. apply (IH (S w)); [done..|lia].
Qed.

Lemma waited_write tls answers rest l0 w g c n limit l :
  waited l0 w g l -> reads l = reads l0 -> (g <= addresses l0)%nat ->
  length (sends l0) = (c + length answers)%nat -> Z.of_nat c + size rest <= n + Z.of_nat w ->
  wp (write_loop tls answers rest)
    (ends (fun _ l' => waited l0 0 g l' /\ reads l' = reads l0) anything (awaits l0 n limit)) l.
Proof.
  intros W Rd G. revert w c rest l W Rd. induction answers as [|a answers IH]; intros w c rest l W Rd Len Few;
    (destruct rest as [|b rest']; cbn [write_loop tail length] in *;
     [apply wp_ret; split; [destruct W; constructor; lia|done]|];
     apply wp_bind, wp_modify; set (l1 := l <| sends := _ |>);
     assert (W1 : waited l0 w g l1) by (subst l1; destruct W; by constructor)).
  - apply wp_call. apply awaits_send; [done|]. destruct W1. lia.
  - assert (Rd1 : reads l1 = reads l0) by done. clearbody l1.
    destruct a as [k| |e]; [|apply (ends_bind _ _ (fun (ready : bool) l' =>
      ready = true -> waited l0 (S w) g l' /\ reads l' = reads l0))|by apply wp_throw].
    + destruct (Nat.eqb_spec k 0); [by apply wp_throw|]. apply wp_bind, wp_modify.
      apply (IH w (S c)); [destruct W1; by constructor|done|lia|].
      rewrite length_drop. cbn [length]. lia.
    + eapply (ends_waited l0 w g); [done|by intros p W2 _|done|intros F; apply awaits_poll; [done|lia]].
    + intros [] l2 K; [|by apply wp_throw]. destruct (K eq_refl). apply (IH (S w) (S c)); [done..|lia|]. cbn [length]. lia.
Qed.

Lemma waited_read tls max_bytes answers response l0 w g c n l :
  waited l0 w g l -> (g <= addresses l0)%nat -> length (reads l0) = (c + length answers)%nat ->
  Z.of_nat c <= size response + Z.of_nat w -> size response <= Z.max 0 max_bytes ->
  wp (read_loop tls max_bytes answers response)
    (ends (fun _ => anything) anything (awaits l0 n (Z.max 0 max_bytes))) l.
Proof.
  intros W G. revert w c response l W. induction answers as [|a answers IH]; intros w c response l W Len Few Sz;
    cbn [read_loop tail length] in *; apply wp_bind, wp_modify; set (l1 := l <| reads := _ |>);
    (assert (W1 : waited l0 w g l1) by (subst l1; destruct W; by constructor)).
  - apply wp_call. apply awaits_read; [done|]. destruct W1. lia.
  - clearbody l1. destruct a as [chunk| | | |e]; [|by apply wp_ret|apply (ends_bind _ _ (fun (ready : bool) l' =>
      ready = true -> waited l0 (S w) g l'))|by destruct (_ && _); [apply wp_ret|apply wp_throw]|by apply wp_throw].
    + case_bool_decide as N; [by apply wp_ret|]. set (part := take _ chunk) in *. clearbody part.
      apply wp_bind, wp_modify. destruct (Z.ltb_spec max_bytes (size (response ++ part))); [by apply wp_throw|].
      assert (size (response ++ part) = size response + size part) by (rewrite length_app; lia).
      assert (1 <= size part) by (destruct part; [done|cbn [length]; lia]).
      apply (IH w (S c)); [destruct W1; by constructor|lia..].
    + eapply (ends_waited l0 w g); [done|done|done|intros F; apply awaits_poll; [done|lia]].
    + intros [] l2 K; [|by apply wp_throw]. apply (IH (S w) (S c)); [by apply K|lia..].
Qed.

Lemma waited_owning {A} (m : Up A) fd (Q : A -> Line -> Prop) T l :
  wp m (ends Q anything T) l -> wp (owning fd m) (ends Q anything T) l.
Proof. intros W. by apply (ends_owning _ _ _ _ anything). Qed.

Lemma waited_exchange upstream settings request l :
  wp (blocking_exchange upstream settings request)
    (ends (fun _ => anything) anything (awaits l (size request) (Z.max 0 (max_response_bytes settings)))) l.
Proof.
  unfold blocking_exchange, connect_upstream.
  apply (ends_bind _ _ (fun _ l' => waited l 0 (addresses l) l' /\ untouched l l')).
  - eapply ends_bind; [apply waited_connect_tcp|]. intros fd l1 (W1 & Hs & Un). cbn beta zeta.
    apply waited_owning, (ends_bind _ _ (fun _ l' => waited l 0 (addresses l) l' /\ untouched l l'));
      [|by intros; apply wp_ret].
    destruct (bool_decide _); [|by apply wp_ret]. unfold connect_tls_upstream. apply wp_bind, wp_get.
    destruct (tls_setup l1); [by apply wp_throw|]. apply wp_bind, wp_get.
    apply (waited_handshake _ _ _ 0); [done..|lia|by rewrite Hs].
  - intros c l1 (W1 & [Un1 Un2]). eapply (ends_bind _ _ (fun _ => anything)).
    2: { intros raw l2 _. apply wp_bind. unfold wp at 1. cbn [close_socket modify fst snd]. by apply wp_ret. }
    apply waited_owning, (ends_bind _ _ (fun _ l' => waited l 0 (addresses l) l' /\ reads l' = reads l)).
    + unfold write_all. apply wp_bind, wp_get. apply (waited_write _ _ _ _ 0 _ 0); [done..|lia|by rewrite Un1|lia].
    + intros [] l2 [W2 Rd]. unfold read_until_close. apply wp_bind, wp_get.
      apply (waited_read _ _ _ _ _ 0 (addresses l) 0); [done|lia|by rewrite Rd|cbn [length]; lia..].
Qed.

(** So an exchange ends once the upstream goes silent: when more waits expire
    than there are addresses, and the transfers are answered. *)
Lemma silent_upstream_given_up upstream settings request l :
  let limit := Z.max 0 (max_response_bytes settings) in
  (addresses l < give_ups l)%nat -> (wakeups l < length (handshakes l))%nat ->
  size request + Z.of_nat (wakeups l) <= size (sends l) -> limit + Z.of_nat (wakeups l) < size (reads l) ->
  settles (blocking_exchange upstream settings request l).1.
Proof.
  intros limit Silent Hs Sd Rd. pose proof (waited_exchange upstream settings request l) as W. unfold wp in W.
  destruct (blocking_exchange upstream settings request l) as [[raw|e|] l']; [done..|]. cbn [fst snd ends] in *.
  destruct W; lia.
Qed.

(** C36. The exchange with an upstream is clean, whatever addresses, sockets,
    timeouts and the upstream do.  When it ends, every descriptor it opened is
    closed exactly once, on the way of a result as of an exception; a result
    means that exactly the request was sent and that the response is all that
    was received, within the configured limit; an exchange that fails has sent
    a beginning of the request and read at most one buffer more.  While it is
    in progress it holds one descriptor, has sent a beginning of the request
    and received no more than the limit, and nothing but the upstream keeps it
    going: at most one of its waits per address has expired (a wait that
    expires after the connection ends the exchange), and a TLS handshake, a
    write or a read has been answered at most once per wake-up and per byte of
    the request or of the limit.  There is no deadline for the whole: see
    [woken_forever]. *)
Theorem exchange_clean (upstream : ReverseProxyTarget) (settings : ReverseProxySettings) (request : bytes) (l : Line) :
  let limit := Z.max 0 (max_response_bytes settings) in
  match blocking_exchange upstream settings request l with
  | (Ret raw, l') => between l (line_fds l) request raw l' /\ size raw <= limit
  | (Raise _, l') =>
      exists k raw, between l (line_fds l) (take k request) raw l' /\ size raw <= limit + 8192
  | (Timeout, l') =>
      (exists k raw, holding l (line_fds l) (take k request) raw l' /\ size raw <= limit) /\
      awaits l (size request) limit l'
  end.
Proof.
  pose proof (ends_and _ _ _ _ _ _ _ _ (ends_exchange upstream settings request l) (waited_exchange upstream settings request l)) as W.
  unfold wp in W. destruct (blocking_exchange upstream settings request l) as [[raw|e|] l']; cbn in *; tauto.
Qed.

(** ** Examples *)

Definition example_upstream (s : string) : ReverseProxyTarget := mk_proxy_target (str s) (str "app.test") 8080 (str "/") (str "app.test:8080").

(** The first address refuses, the second connects after a signal interrupted
    the wait; the upstream closes after three of a hundred bytes. *)
Definition example_line : Line :=
  mk_line {[0; 1; 2]} [] [PollInterrupted; PollReady true; PollReady true]
    (inr [mk_address None None (ConnectError "refused") None; mk_address None None ConnectInProgress None]) None []
    [Sent 4; SendBlocked; Sent 100] [Received (str "HTTP/1.1 200 OK" ++ CRLF ++ str "content-length: 100" ++ CRLF2 ++ str "abc"); ReadClosed]
    [] [].

(** A response that the upstream cuts short passes for a whole one: its
    announced length is never compared with what arrived. *)
Lemma truncated_response_accepted :
  (fun r => (status r, body r)) <$>
    ((blocking_exchange (example_upstream "http") default_proxy_settings (str "GET /") example_line).1
       ≫= parse_reverse_proxy_upstream_response) = Ret (200, str "abc").
Proof. vm_compute. reflexivity. Qed.

(** An upstream that wakes every wait without a byte of the response (records
    of TLS that carry none do) holds the exchange, and the thread it runs on,
    for as long as it likes. *)
Definition drowsy_line (n : nat) : Line :=
  mk_line {[0; 1; 2]} [] (replicate n (PollReady true)) (inr [mk_address None None ConnectDone None]) None
    [HandshakeDone true] [Sent 5] (replicate n ReadWants) [] [].

Lemma drowsy_read tls limit n l :
  polls l = replicate n (PollReady true) -> (read_loop tls limit (replicate n ReadWants) [] l).1 = Timeout.
Proof.
  revert l; induction n as [|n IH]; intros l P; [done|].
  cbn [replicate read_loop tail]. unfold mbind, state_bind, modify, wait_fd. proj. rewrite P. cbn [replicate wait_answer]. by apply IH.
Qed.

Lemma woken_forever n :
  (blocking_exchange (example_upstream "https") default_proxy_settings (str "GET /") (drowsy_line n)).1 = Timeout.
Proof.
  set (request := str "GET /").
  assert (C : exists l1, connect_upstream (example_upstream "https") (verify_tls_upstream default_proxy_settings) (drowsy_line n)
    = (Ret (mk_upstream 3 true), l1) /\ polls l1 = replicate n (PollReady true) /\ sends l1 = [Sent 5] /\ reads l1 = replicate n ReadWants)
    by (eexists; split; [vm_compute; reflexivity|done]).
  destruct C as (l1 & E & P & S & R). unfold blocking_exchange, owning, try_catch, mbind, state_bind. rewrite E.
  unfold write_all, read_until_close, mbind, state_bind, get. rewrite S. cbn [upstream_tls].
  change (write_loop true [Sent 5] request l1) with (Ret tt, l1 <| sends := [] |> <| line_sent ::= fun s => s ++ take 5 request |>).
  cbv beta iota zeta. proj. rewrite R.
  match goal with |- context [read_loop ?t ?m ?a [] ?l] =>
    pose proof (drowsy_read t m n l P) as D; destruct (read_loop t m a [] l) as [o l'] end.
  cbn [fst] in D. by rewrite D.
Qed.
