(* ===== verification/Connection.v ===== *)
(** * Connection: the data of [ClientConnection]

    The fields of [ClientConnection] ([src/src/core/server.cpp], lines
    2219-2364 and 4809-4872), the world around it - clock, descriptors,
    shared state and what the operating system will answer - and the
    operations every part of the connection uses: accessors, responses, close
    and the preparation for the pool.  The parts that read the wire are in
    [ProxyExchange], [WebSocketProxy] and [Reactor].

    The fields of the HTTP/2 implementation that [ServerSession] replaced
    ([http2_streams_], [http2_last_client_stream_id_]) are left out: no code
    that runs reads them. *)

From S2P Require Import Prelude Text Numbers Request Http1Frame Response StaticFiles Handler BodyStream Waf VirtualHost ReverseProxy Http2Session Config Security WebSocket State.

(** ** Enumerations and epoll masks *)

Module ClientPhase.
Inductive t : Type :=
| tls_handshake | reading | writing | websocket | websocket_proxy | reverse_proxy | tls_shutdown | closed.

#[global] Instance eq_dec : EqDecision t.
Proof. solve_decision. Defined.
End ClientPhase.

Module ReverseProxyStage.
Inductive t : Type := idle | connecting | tls_handshake | writing_request | reading_response.

#[global] Instance eq_dec : EqDecision t.
Proof. solve_decision. Defined.
End ReverseProxyStage.

Definition EPOLLIN : Z := 0x1.
Definition EPOLLOUT : Z := 0x4.
Definition EPOLLERR : Z := 0x8.
Definition EPOLLHUP : Z := 0x10.
Definition EPOLLRDHUP : Z := 0x2000.

(** [(revents & mask) != 0] *)
Definition has (revents mask : Z) : bool := negb (Z.land revents mask =? 0).

(** ** The fields

    A [unique_ptr] to an OpenSSL object is whether it is set; time points are
    nanoseconds, 0 for [{}]. *)

Record ClientConnection : Type := mk_connection {
  fd_ : Z;
  epoll_fd_ : Z;
  config_ : option ServerConfig;
  tls_context_holder_ : bool;
  worker_id_ : Z;
  client_ip_ : bytes;
  security_state_ : bool;
  ssl_ : bool;
  negotiated_alpn_ : bytes;
  http2_tls_selected_ : bool;
  websocket_upstream_tls_ : bool;
  reverse_proxy_upstream_tls_ : bool;
  phase_ : ClientPhase.t;
  events_ : Z;
  websocket_upstream_fd_ : Z;
  websocket_upstream_registered_ : bool;
  reverse_proxy_upstream_fd_ : Z;
  reverse_proxy_upstream_registered_ : bool;
  request_buffer_ : bytes;
  response_buffer_ : bytes;
  response_offset_ : nat;
  keep_alive_after_response_ : bool;
  websocket_after_response_ : bool;
  websocket_proxy_after_response_ : bool;
  websocket_close_after_write_ : bool;
  websocket_proxy_client_to_upstream_ : bytes;
  websocket_proxy_upstream_to_client_ : bytes;
  websocket_proxy_client_to_upstream_offset_ : nat;
  websocket_proxy_upstream_to_client_offset_ : nat;
  websocket_proxy_client_extra_events_ : Z;
  websocket_proxy_upstream_extra_events_ : Z;
  reverse_proxy_request_ : option Request;
  reverse_proxy_ordered_upstreams_ : list ReverseProxyTarget;
  reverse_proxy_settings_ : ReverseProxySettings;
  reverse_proxy_current_upstream_ : ReverseProxyTarget;
  reverse_proxy_upstream_request_ : bytes;
  reverse_proxy_upstream_request_offset_ : nat;
  reverse_proxy_response_buffer_ : bytes;
  reverse_proxy_keep_alive_ : bool;
  reverse_proxy_body_mode_ : BodyMode;
  reverse_proxy_stage_ : ReverseProxyStage.t;
  reverse_proxy_attempt_index_ : nat;
  reverse_proxy_skipped_open_circuit_ : bool;
  reverse_proxy_attempted_upstream_ : bool;
  reverse_proxy_upstream_extra_events_ : Z;
  reverse_proxy_stage_started_at_ : Z;
  http2_active_ : bool;
  http2_session_ : ServerSession;
  http1_body_stream_ : option Http1BodyStreamState;
  requests_served_ : Z;
  last_activity_ : Z;
  request_started_at_ : Z;
  body_started_at_ : Z;
  waiting_for_body_ : bool;
}.

#[export] Instance eta_connection : Eta ClientConnection := fun c =>
  mk_connection (fd_ c) (epoll_fd_ c) (config_ c) (tls_context_holder_ c) (worker_id_ c) (client_ip_ c)
    (security_state_ c) (ssl_ c) (negotiated_alpn_ c) (http2_tls_selected_ c) (websocket_upstream_tls_ c)
    (reverse_proxy_upstream_tls_ c) (phase_ c) (events_ c) (websocket_upstream_fd_ c)
    (websocket_upstream_registered_ c) (reverse_proxy_upstream_fd_ c) (reverse_proxy_upstream_registered_ c)
    (request_buffer_ c) (response_buffer_ c) (response_offset_ c) (keep_alive_after_response_ c)
    (websocket_after_response_ c) (websocket_proxy_after_response_ c) (websocket_close_after_write_ c)
    (websocket_proxy_client_to_upstream_ c) (websocket_proxy_upstream_to_client_ c)
    (websocket_proxy_client_to_upstream_offset_ c) (websocket_proxy_upstream_to_client_offset_ c)
    (websocket_proxy_client_extra_events_ c) (websocket_proxy_upstream_extra_events_ c)
    (reverse_proxy_request_ c) (reverse_proxy_ordered_upstreams_ c) (reverse_proxy_settings_ c)
    (reverse_proxy_current_upstream_ c) (reverse_proxy_upstream_request_ c)
    (reverse_proxy_upstream_request_offset_ c) (reverse_proxy_response_buffer_ c) (reverse_proxy_keep_alive_ c)
    (reverse_proxy_body_mode_ c) (reverse_proxy_stage_ c) (reverse_proxy_attempt_index_ c)
    (reverse_proxy_skipped_open_circuit_ c) (reverse_proxy_attempted_upstream_ c)
    (reverse_proxy_upstream_extra_events_ c) (reverse_proxy_stage_started_at_ c) (http2_active_ c)
    (http2_session_ c) (http1_body_stream_ c) (requests_served_ c) (last_activity_ c) (request_started_at_ c)
    (body_started_at_ c) (waiting_for_body_ c).

#[export] Instance at_fd_ : Update fd_ := ltac:(derive_update).
#[export] Instance at_epoll_fd_ : Update epoll_fd_ := ltac:(derive_update).
#[export] Instance at_config_ : Update config_ := ltac:(derive_update).
#[export] Instance at_tls_context_holder_ : Update tls_context_holder_ := ltac:(derive_update).
#[export] Instance at_worker_id_ : Update worker_id_ := ltac:(derive_update).
#[export] Instance at_client_ip_ : Update client_ip_ := ltac:(derive_update).
#[export] Instance at_security_state_ : Update security_state_ := ltac:(derive_update).
#[export] Instance at_ssl_ : Update ssl_ := ltac:(derive_update).
#[export] Instance at_negotiated_alpn_ : Update negotiated_alpn_ := ltac:(derive_update).
#[export] Instance at_http2_tls_selected_ : Update http2_tls_selected_ := ltac:(derive_update).
#[export] Instance at_websocket_upstream_tls_ : Update websocket_upstream_tls_ := ltac:(derive_update).
#[export] Instance at_reverse_proxy_upstream_tls_ : Update reverse_proxy_upstream_tls_ := ltac:(derive_update).
#[export] Instance at_phase_ : Update phase_ := ltac:(derive_update).
#[export] Instance at_events_ : Update events_ := ltac:(derive_update).
#[export] Instance at_websocket_upstream_fd_ : Update websocket_upstream_fd_ := ltac:(derive_update).
#[export] Instance at_websocket_upstream_registered_ : Update websocket_upstream_registered_ := ltac:(derive_update).
#[export] Instance at_reverse_proxy_upstream_fd_ : Update reverse_proxy_upstream_fd_ := ltac:(derive_update).
#[export] Instance at_reverse_proxy_upstream_registered_ : Update reverse_proxy_upstream_registered_ := ltac:(derive_update).
#[export] Instance at_request_buffer_ : Update request_buffer_ := ltac:(derive_update).
#[export] Instance at_response_buffer_ : Update response_buffer_ := ltac:(derive_update).
#[export] Instance at_response_offset_ : Update response_offset_ := ltac:(derive_update).
#[export] Instance at_keep_alive_after_response_ : Update keep_alive_after_response_ := ltac:(derive_update).
#[export] Instance at_websocket_after_response_ : Update websocket_after_response_ := ltac:(derive_update).
#[export] Instance at_websocket_proxy_after_response_ : Update websocket_proxy_after_response_ := ltac:(derive_update).
#[export] Instance at_websocket_close_after_write_ : Update websocket_close_after_write_ := ltac:(derive_update).
#[export] Instance at_websocket_proxy_client_to_upstream_ : Update websocket_proxy_client_to_upstream_ := ltac:(derive_update).
#[export] Instance at_websocket_proxy_upstream_to_client_ : Update websocket_proxy_upstream_to_client_ := ltac:(derive_update).
#[export] Instance at_websocket_proxy_client_to_upstream_offset_ : Update websocket_proxy_client_to_upstream_offset_ := ltac:(derive_update).
#[export] Instance at_websocket_proxy_upstream_to_client_offset_ : Update websocket_proxy_upstream_to_client_offset_ := ltac:(derive_update).
#[export] Instance at_websocket_proxy_client_extra_events_ : Update websocket_proxy_client_extra_events_ := ltac:(derive_update).
#[export] Instance at_websocket_proxy_upstream_extra_events_ : Update websocket_proxy_upstream_extra_events_ := ltac:(derive_update).
#[export] Instance at_reverse_proxy_request_ : Update reverse_proxy_request_ := ltac:(derive_update).
#[export] Instance at_reverse_proxy_ordered_upstreams_ : Update reverse_proxy_ordered_upstreams_ := ltac:(derive_update).
#[export] Instance at_reverse_proxy_settings_ : Update reverse_proxy_settings_ := ltac:(derive_update).
#[export] Instance at_reverse_proxy_current_upstream_ : Update reverse_proxy_current_upstream_ := ltac:(derive_update).
#[export] Instance at_reverse_proxy_upstream_request_ : Update reverse_proxy_upstream_request_ := ltac:(derive_update).
#[export] Instance at_reverse_proxy_upstream_request_offset_ : Update reverse_proxy_upstream_request_offset_ := ltac:(derive_update).
#[export] Instance at_reverse_proxy_response_buffer_ : Update reverse_proxy_response_buffer_ := ltac:(derive_update).
#[export] Instance at_reverse_proxy_keep_alive_ : Update reverse_proxy_keep_alive_ := ltac:(derive_update).
#[export] Instance at_reverse_proxy_body_mode_ : Update reverse_proxy_body_mode_ := ltac:(derive_update).
#[export] Instance at_reverse_proxy_stage_ : Update reverse_proxy_stage_ := ltac:(derive_update).
#[export] Instance at_reverse_proxy_attempt_index_ : Update reverse_proxy_attempt_index_ := ltac:(derive_update).
#[export] Instance at_reverse_proxy_skipped_open_circuit_ : Update reverse_proxy_skipped_open_circuit_ := ltac:(derive_update).
#[export] Instance at_reverse_proxy_attempted_upstream_ : Update reverse_proxy_attempted_upstream_ := ltac:(derive_update).
#[export] Instance at_reverse_proxy_upstream_extra_events_ : Update reverse_proxy_upstream_extra_events_ := ltac:(derive_update).
#[export] Instance at_reverse_proxy_stage_started_at_ : Update reverse_proxy_stage_started_at_ := ltac:(derive_update).
#[export] Instance at_http2_active_ : Update http2_active_ := ltac:(derive_update).
#[export] Instance at_http2_session_ : Update http2_session_ := ltac:(derive_update).
#[export] Instance at_http1_body_stream_ : Update http1_body_stream_ := ltac:(derive_update).
#[export] Instance at_requests_served_ : Update requests_served_ := ltac:(derive_update).
#[export] Instance at_last_activity_ : Update last_activity_ := ltac:(derive_update).
#[export] Instance at_request_started_at_ : Update request_started_at_ := ltac:(derive_update).
#[export] Instance at_body_started_at_ : Update body_started_at_ := ltac:(derive_update).
#[export] Instance at_waiting_for_body_ : Update waiting_for_body_ := ltac:(derive_update).

(** [ReverseProxyTarget {}] *)
Definition no_target : ReverseProxyTarget := mk_proxy_target [] [] 0 [] [].

(** A connection as its constructor leaves it. *)
Definition new_connection : ClientConnection :=
  mk_connection (-1) (-1) None false 0 [] false false [] false false false ClientPhase.closed 0
    (-1) false (-1) false [] [] 0 false false false false [] [] 0 0 0 0
    None [] default_proxy_settings no_target [] 0 [] false include ReverseProxyStage.idle 0 false false 0 0
    false new_session None 0 0 0 0 false.

(** ** The world

    [Answers] holds what system calls will return, in order; an exhausted
    queue answers that a read or write would block, that an address has no
    host, that a wait times out and that any other call succeeds.  The other
    fields are the clock's future readings, the state shared with the other
    connections and workers, the open descriptors, what [epoll] was last told
    to wait for, and a record of the traffic. *)

Inductive ReadResult : Type :=
| ReadData (chunk : bytes)
| ReadEnd
| ReadBlocked (want_write : bool)
| ReadFailed.

Inductive WriteResult : Type :=
| Wrote (n : nat)
| WriteBlocked (want_write : bool)
| WriteFailed.

(** [SSL_accept] with the ALPN protocol, [SSL_connect] - whose peer may fail
    the verification - and [SSL_shutdown]. *)
Inductive TlsResult : Type :=
| TlsDone (alpn : bytes)
| TlsUnverified
| TlsBlocked (want_write : bool)
| TlsFailed.

(** [socket] and a non-blocking [connect], or the error of one of them. *)
Inductive ConnectResult : Type :=
| Connected
| InProgress
| ConnectFailed (what : string).

(** [getaddrinfo]: its error, or what each address answers. *)
Abbreviation AddressResult := (string + list ConnectResult)%type.

Record Answers : Type := mk_answers {
  client_reads : list ReadResult;
  client_writes : list WriteResult;
  client_tls : list TlsResult;
  upstream_reads : list ReadResult;
  upstream_writes : list WriteResult;
  upstream_tls : list TlsResult;
  connects : list AddressResult;
  waits : list bool;
  socket_errors : list (option string);
  tls_setups : list (option string);
  epoll_calls : list (option string);
}.

#[export] Instance eta_answers : Eta Answers := fun a =>
  mk_answers (client_reads a) (client_writes a) (client_tls a) (upstream_reads a) (upstream_writes a)
    (upstream_tls a) (connects a) (waits a) (socket_errors a) (tls_setups a) (epoll_calls a).

#[export] Instance at_client_reads : Update client_reads := ltac:(derive_update).
#[export] Instance at_client_writes : Update client_writes := ltac:(derive_update).
#[export] Instance at_client_tls : Update client_tls := ltac:(derive_update).
#[export] Instance at_upstream_reads : Update upstream_reads := ltac:(derive_update).
#[export] Instance at_upstream_writes : Update upstream_writes := ltac:(derive_update).
#[export] Instance at_upstream_tls : Update upstream_tls := ltac:(derive_update).
#[export] Instance at_connects : Update connects := ltac:(derive_update).
#[export] Instance at_waits : Update waits := ltac:(derive_update).
#[export] Instance at_socket_errors : Update socket_errors := ltac:(derive_update).
#[export] Instance at_tls_setups : Update tls_setups := ltac:(derive_update).
#[export] Instance at_epoll_calls : Update epoll_calls := ltac:(derive_update).

Definition silence : Answers := mk_answers [] [] [] [] [] [] [] [] [] [] [].

Record Server : Type := mk_server {
  connection : ClientConnection;
  clock : nat -> Z;
  security : SecurityState;
  proxies : ProxyState;
  proxy_turns : nat -> Attempt;
  answers : Answers;
  open_fds : gset Z;
  closed_unopened : list Z;
  client_interest : Z;
  upstream_interest : Z;
  client_in : bytes;
  client_out : bytes;
  upstream_in : bytes;
  upstream_out : bytes;
}.

#[export] Instance eta_server : Eta Server := fun s =>
  mk_server (connection s) (clock s) (security s) (proxies s) (proxy_turns s) (answers s) (open_fds s)
    (closed_unopened s) (client_interest s) (upstream_interest s) (client_in s) (client_out s) (upstream_in s) (upstream_out s).

#[export] Instance at_connection : Update connection := ltac:(derive_update).
#[export] Instance at_clock : Update clock := ltac:(derive_update).
#[export] Instance at_security : Update security := ltac:(derive_update).
#[export] Instance at_proxies : Update proxies := ltac:(derive_update).
#[export] Instance at_proxy_turns : Update proxy_turns := ltac:(derive_update).
#[export] Instance at_answers : Update answers := ltac:(derive_update).
#[export] Instance at_open_fds : Update open_fds := ltac:(derive_update).
#[export] Instance at_closed_unopened : Update closed_unopened := ltac:(derive_update).
#[export] Instance at_client_interest : Update client_interest := ltac:(derive_update).
#[export] Instance at_upstream_interest : Update upstream_interest := ltac:(derive_update).
#[export] Instance at_client_in : Update client_in := ltac:(derive_update).
#[export] Instance at_client_out : Update client_out := ltac:(derive_update).
#[export] Instance at_upstream_in : Update upstream_in := ltac:(derive_update).
#[export] Instance at_upstream_out : Update upstream_out := ltac:(derive_update).

Definition Handle : Type -> Type := M Server.

(** The functions that the connection calls and that are the environment's. *)
Record Environment : Type := mk_environment {
  env_files : bytes -> option bytes;
  env_file_system : FileSystem;
  env_http_date : Z -> bytes;
  env_gzip : bytes -> bytes;
  env_spool_error : bytes -> option string;
  env_spool_path : bytes;
  env_sha1 : bytes -> option bytes;
}.

(** ** Primitives *)

Definition field {T} (f : ClientConnection -> T) : Handle T := get (fun s => f (connection s)).

Definition assign {T} (f : ClientConnection -> T) `{!Update f} (x : T) : Handle unit :=
  modify (fun s => s <| connection ::= update f (fun _ => x) |>).

(** An operation on the shared state. *)
Definition shared {A} (f : Server -> A * Server) : Handle A := fun s => let '(a, s') := f s in (Ret a, s').

(** A call that works on the shared state and may throw. *)
Definition shared_call {A} (f : Server -> outcome A * Server) : Handle A := f.

(** [steady_clock::now()] *)
Definition now : Handle Z := fun s => (Ret (clock s 0%nat), s <| clock := fun n => clock s (S n) |>).

(** The next answer of a queue. *)
Definition ask {X} (queue : Answers -> list X) `{!Update queue} : Handle (option X) := fun s =>
  (Ret (head (queue (answers s))), s <| answers ::= update queue tail |>).

(** Takes a queue for a loop, which puts back what it does not use. *)
Definition take_all {X} (queue : Answers -> list X) `{!Update queue} : Handle (list X) := fun s =>
  (Ret (queue (answers s)), s <| answers ::= update queue (fun _ => []) |>).

Definition put_back {X} (queue : Answers -> list X) `{!Update queue} (l : list X) : Handle unit :=
  modify (fun s => s <| answers ::= update queue (fun _ => l) |>).

Definition new_descriptor : Handle Z := shared (fun s =>
  let fd := lowest_free (open_fds s) in (fd, s <| open_fds ::= union {[fd]} |>)).

(** [close(fd)]; a descriptor that is not open is recorded. *)
Definition close_fd (fd : Z) : Handle unit := modify (fun s => s
  <| open_fds := open_fds s ∖ {[fd]} |>
  <| closed_unopened := if decide (fd ∈ open_fds s) then closed_unopened s else fd :: closed_unopened s |>).

(** [if (fd >= 0) close(fd);] *)
Definition close_if_open (fd : Z) : Handle unit := if 0 <=? fd then close_fd fd else mret tt.

(** An open connection has a configuration ([connection_invariant]). *)
Definition the_config : Handle ServerConfig := get (fun s => default default_config (config_ (connection s))).

Definition in_phase (p : ClientPhase.t) : Handle bool := get (fun s => bool_decide (phase_ (connection s) = p)).

Definition closed (c : ClientConnection) : bool := bool_decide (phase_ c = ClientPhase.closed).

(** What the descriptor waits for after [SSL_ERROR_WANT_READ] or [_WRITE]. *)
Definition event_for_ssl_error (want_write : bool) : Z := if want_write then EPOLLOUT else EPOLLIN.

(** ** Closing *)

Definition close_websocket_upstream : Handle unit :=
  fd ← field websocket_upstream_fd_;
  close_if_open fd ;;
  assign websocket_upstream_fd_ (-1) ;;
  assign websocket_upstream_registered_ false ;;
  assign websocket_upstream_tls_ false.

Definition close_reverse_proxy_upstream : Handle unit :=
  fd ← field reverse_proxy_upstream_fd_;
  close_if_open fd ;;
  assign reverse_proxy_upstream_fd_ (-1) ;;
  assign reverse_proxy_upstream_registered_ false ;;
  assign reverse_proxy_upstream_tls_ false ;;
  assign reverse_proxy_upstream_extra_events_ 0.

Definition close_now : Handle unit :=
  close_websocket_upstream ;;
  close_reverse_proxy_upstream ;;
  assign phase_ ClientPhase.closed ;;
  assign events_ 0.

Definition prepare_for_pool : Handle unit :=
  close_websocket_upstream ;;
  close_reverse_proxy_upstream ;;
  fd ← field fd_;
  close_if_open fd ;;
  modify (fun s => s <| connection ::= fun c => c
    <| fd_ := -1 |> <| epoll_fd_ := -1 |> <| config_ := None |> <| ssl_ := false |>
    <| tls_context_holder_ := false |> <| negotiated_alpn_ := [] |> <| http2_tls_selected_ := false |>
    <| phase_ := ClientPhase.closed |> <| events_ := 0 |> <| client_ip_ := [] |> <| security_state_ := false |>
    <| request_buffer_ := [] |> <| http1_body_stream_ := None |> <| response_buffer_ := [] |>
    <| response_offset_ := 0%nat |> <| keep_alive_after_response_ := false |>
    <| websocket_after_response_ := false |> <| websocket_proxy_after_response_ := false |>
    <| websocket_close_after_write_ := false |> <| websocket_proxy_client_to_upstream_ := [] |>
    <| websocket_proxy_upstream_to_client_ := [] |> <| websocket_proxy_client_to_upstream_offset_ := 0%nat |>
    <| websocket_proxy_upstream_to_client_offset_ := 0%nat |> <| websocket_proxy_client_extra_events_ := 0 |>
    <| websocket_proxy_upstream_extra_events_ := 0 |> <| reverse_proxy_request_ := None |>
    <| reverse_proxy_ordered_upstreams_ := [] |> <| reverse_proxy_settings_ := default_proxy_settings |>
    <| reverse_proxy_current_upstream_ := no_target |> <| reverse_proxy_upstream_request_ := [] |>
    <| reverse_proxy_upstream_request_offset_ := 0%nat |> <| reverse_proxy_response_buffer_ := [] |>
    <| reverse_proxy_keep_alive_ := false |> <| reverse_proxy_body_mode_ := include |>
    <| reverse_proxy_stage_ := ReverseProxyStage.idle |> <| reverse_proxy_attempt_index_ := 0%nat |>
    <| reverse_proxy_skipped_open_circuit_ := false |> <| reverse_proxy_attempted_upstream_ := false |>
    <| reverse_proxy_upstream_extra_events_ := 0 |> <| reverse_proxy_stage_started_at_ := 0 |>
    <| http2_active_ := false |> <| http2_session_ ::= Http2Session.reset |> <| requests_served_ := 0 |>
    <| last_activity_ := 0 |> <| request_started_at_ := 0 |> <| body_started_at_ := 0 |>
    <| waiting_for_body_ := false |> |>).

(** A [tls_setups] answer is the error of [SSL_new]. *)
Definition reset (fd epoll_fd : Z) (config : ServerConfig) (tls_context : bool) (worker_id : Z)
    (client_ip : bytes) : Handle unit :=
  prepare_for_pool ;;
  t ← now;
  modify (fun s => s <| connection ::= fun c => c
    <| fd_ := fd |> <| epoll_fd_ := epoll_fd |> <| config_ := Some config |>
    <| tls_context_holder_ := tls_context |> <| worker_id_ := worker_id |> <| client_ip_ := client_ip |>
    <| security_state_ := true |>
    <| phase_ := if tls_context then ClientPhase.tls_handshake else ClientPhase.reading |>
    <| events_ := EPOLLIN |> <| last_activity_ := t |> <| request_started_at_ := 0 |>
    <| body_started_at_ := 0 |> <| waiting_for_body_ := false |> |>) ;;
  if tls_context then
    failure ← ask tls_setups;
    match failure with
    | Some (Some e) => throw ("SSL_new failed: " ++ e)%string
    | _ => assign ssl_ true
    end
  else mret tt.

(** ** Responses *)

Section responses.
Context `{MapOrder bytes}.

Definition security_headers_of (c : ServerConfig) : SecurityHeaders :=
  mk_security_headers (Config.security_headers_enabled c) (Config.tls_enabled c)
    (security_header_x_content_type_options c) (security_header_x_frame_options c)
    (security_header_referrer_policy c) (security_header_cross_origin_opener_policy c)
    (security_header_content_security_policy c) (security_header_strict_transport_security c)
    (Config.server_header_enabled c) (Config.server_name c).

Definition serialization_options (c : ServerConfig) : SerializationOptions :=
  response_serialization_options (security_headers_of c).

Definition set_serialized_response (payload : bytes) (keep_alive : bool) : Handle unit :=
  assign keep_alive_after_response_ keep_alive ;;
  assign response_buffer_ payload ;;
  assign response_offset_ 0%nat ;;
  assign phase_ ClientPhase.writing ;;
  assign events_ EPOLLOUT.

(** The text of a response, its connection headers included. *)
Definition response_text (config : ServerConfig) (requests_served : Z) (response : Response)
    (body_mode : BodyMode) (keep_alive : bool) : bytes :=
  let remaining_requests := Z.max 0 (http_keep_alive_max_requests config - requests_served) in
  to_http_string
    (mk_response (status response) (reason response)
       (payload_headers (Response.headers response) keep_alive (http_keep_alive_timeout_seconds config)
          remaining_requests)
       (Response.body response))
    (bool_decide (body_mode = include)) (serialization_options config).

Definition set_response (response : Response) (body_mode : BodyMode) (keep_alive : bool) : Handle unit :=
  config ← the_config;
  served ← field requests_served_;
  assign keep_alive_after_response_ keep_alive ;;
  assign response_buffer_ (response_text config served response body_mode keep_alive) ;;
  assign response_offset_ 0%nat ;;
  assign phase_ ClientPhase.writing ;;
  assign events_ EPOLLOUT.

(** [set_response(text_response(status, text), BodyMode::include, false)] *)
Definition refuse (status : Z) (text : bytes) : Handle unit :=
  set_response (text_response status text text_plain) include false.

(** [set_websocket_handshake_response] and its twin for the proxy. *)
Definition set_handshake_response (f : ClientConnection -> bool) `{!Update f} (response : Response)
    : Handle unit :=
  config ← the_config;
  assign f true ;;
  assign keep_alive_after_response_ false ;;
  assign response_buffer_ (to_http_string response true (serialization_options config)) ;;
  assign response_offset_ 0%nat ;;
  assign phase_ ClientPhase.writing ;;
  assign events_ EPOLLOUT.

Definition set_websocket_handshake_response : Response -> Handle unit :=
  set_handshake_response websocket_after_response_.

Definition set_websocket_proxy_handshake_response : Response -> Handle unit :=
  set_handshake_response websocket_proxy_after_response_.
End responses.

Definition update_client_epoll_events : Handle unit :=
  epoll_fd ← field epoll_fd_;
  fd ← field fd_;
  is_closed ← in_phase ClientPhase.closed;
  if (epoll_fd <? 0) || (fd <? 0) || is_closed then mret tt
  else
    failure ← ask epoll_calls;
    match failure with
    | Some (Some _) => close_now
    | _ => events ← field events_; modify (fun s => s <| client_interest := Z.lor events EPOLLRDHUP |>)
    end.

(** [config_ = std::move(config)] when there is one. *)
Definition update_config (config : option ServerConfig) : Handle unit :=
  match config with
  | Some config => assign config_ (Some config)
  | None => mret tt
  end.

(** ** Settings read from the configuration *)

Definition reverse_proxy_settings (c : ServerConfig) : outcome ReverseProxySettings :=
  policy ← parse_reverse_proxy_load_balancing_policy (reverse_proxy_load_balancing_policy c);
  Ret (mk_proxy_settings (reverse_proxy_connect_timeout_seconds c) (reverse_proxy_read_timeout_seconds c)
         (reverse_proxy_max_response_bytes c) (reverse_proxy_retry_count c) (reverse_proxy_tls_verify_upstream c)
         (reverse_proxy_circuit_breaker_enabled c) (reverse_proxy_circuit_breaker_failure_threshold c)
         (reverse_proxy_circuit_breaker_cooldown_seconds c) policy).

Definition static_file_options (c : ServerConfig) : StaticFileOptions :=
  mk_static_options (Config.directory_index c) (Config.error_page c).

Definition waf_settings (c : ServerConfig) (r : Request) : outcome WafSettings :=
  let settings := mk_settings (modsecurity_enabled c) (modsecurity_owasp_crs_enabled c)
    (modsecurity_blocking_enabled c) (modsecurity_anomaly_threshold c) (modsecurity_max_inspection_bytes c) [] in
  if virtual_hosts_enabled c && negb (bool_decide (virtual_host_waf_overrides c = [])) then
    overrides ← parse_virtual_host_waf_overrides (virtual_host_waf_overrides c);
    Ret (apply_virtual_host_waf_override settings (select_virtual_host_waf_override r overrides))
  else Ret settings.

(** Writing the audit log line has no effect on the connection. *)
Definition inspect_waf `{MapOrder bytes, MapOrder (list bytes)} (files : bytes -> option bytes) (c : ServerConfig) (r : Request) : outcome (option Response) :=
  settings ← waf_settings c r;
  result ← inspect_request files r settings;
  if negb (inspected result) || bool_decide (matches result = []) then Ret None
  else if negb (Waf.allowed result) then Ret (Some (waf_block_response result))
  else Ret None.

(** [websocket_proxy_upstreams_for_request] is the same function. *)
Definition reverse_proxy_upstreams_for_request (r : Request) (c : ServerConfig)
    : outcome (option (list ReverseProxyTarget)) :=
  if negb (virtual_hosts_enabled c) || bool_decide (virtual_hosts c = []) then Ret None
  else
    rules ← parse_virtual_host_rules (virtual_hosts c);
    match select_virtual_host_rule r rules with
    | Some rule =>
        if bool_decide (action rule = VirtualHost.reverse_proxy) then Ret (Some (upstreams rule)) else Ret None
    | None => Ret None
    end.

(** [security_state_ && !security_state_->allow_request(client_ip_, *config_)] *)
Definition rate_limited : Handle bool :=
  present ← field security_state_;
  if negb present then mret false
  else
    config ← the_config;
    ip ← field client_ip_;
    t ← now;
    shared (fun s =>
      let '(granted, sec) := allow_request ip config t (security s) in (negb granted, s <| security := sec |>)).

Definition circuit (f : gmap bytes CircuitBreakerEntry -> gmap bytes CircuitBreakerEntry) : Handle unit :=
  modify (fun s => s <| proxies ::= fun p => mk_proxy_state (next_proxy_upstream p) (f (circuit_breakers p)) |>).

Definition record_failure (upstream : ReverseProxyTarget) (settings : ReverseProxySettings) : Handle unit :=
  t ← now; circuit (record_reverse_proxy_upstream_failure upstream settings t).

Definition record_success (upstream : ReverseProxyTarget) (settings : ReverseProxySettings) : Handle unit :=
  circuit (record_reverse_proxy_upstream_success upstream settings).

Definition upstream_available (upstream : ReverseProxyTarget) (settings : ReverseProxySettings) : Handle bool :=
  t ← now;
  shared (fun s =>
    let '(available, breakers) :=
      reverse_proxy_upstream_available upstream settings t (circuit_breakers (proxies s)) in
    (available, s <| proxies := mk_proxy_state (next_proxy_upstream (proxies s)) breakers |>)).

Definition order_upstreams (r : Request) (ups : list ReverseProxyTarget) (settings : ReverseProxySettings)
    : Handle (list ReverseProxyTarget) := shared (fun s =>
  let '(ordered, p) := ordered_reverse_proxy_upstreams r ups settings (proxies s) in
  (ordered, s <| proxies := p |>)).
