(* ===== verification/AuditLog.v ===== *)
(** * AuditLog: the record of a firewall match

    [waf_audit_log_line] and the helpers next to it ([src/src/core/server.cpp],
    lines 1905-1985), the guards of [inspect_waf] under which it is written
    (3530-3548), and the line that [log] makes of it
    ([src/src/core/logger.cpp]).  Most of the record is text the client chose;
    the theorem says that it cannot forge one. *)

From S2P Require Import Prelude Text Numbers Request Response Waf Config Connection.

(** ** Escaping

    [json_escape] of [server.cpp] differs from the one of [response.cpp] in
    the treatment of DEL. *)

Definition json_escape_char (ch : byte) : bytes :=
  if decide (ch = quote) then [backslash; quote]
  else if decide (ch = backslash) then [backslash; backslash]
  else if decide (ch = Byte.x08) then [backslash; chr "b"]
  else if decide (ch = Byte.x0c) then [backslash; chr "f"]
  else if decide (ch = LF) then [backslash; chr "n"]
  else if decide (ch = CR) then [backslash; chr "r"]
  else if decide (ch = TAB) then [backslash; chr "t"]
  else if (val ch <? 0x20) || (val ch =? 0x7f) then
    [backslash; chr "u"; chr "0"; chr "0";
     digit_char (Z.land (val ch ≫ 4) 0x0f); digit_char (Z.land (val ch) 0x0f)]
  else [ch].

Definition json_escape (value : bytes) : bytes := value ≫= json_escape_char.

Definition max_audit_value_bytes : nat := 256.

Definition bounded_audit_value (value : bytes) : bytes :=
  if decide (max_audit_value_bytes < length value)%nat
  then take max_audit_value_bytes value ++ str "..." else value.

(** A literal of the source, written with an apostrophe for each quotation
    mark. *)
Definition literal (s : string) : bytes :=
  (fun c => if decide (c = Byte.x27) then quote else c) <$> str s.

Definition show_bool (b : bool) : bytes := if b then str "true" else str "false".

(** [result.matches.front()] is the argument [m]: the caller has tested that
    there is one. *)
Definition waf_audit_log_line (worker_id : Z) (client_ip : bytes) (request : Request)
    (settings : WafSettings) (result : WafResult) (m : WafMatch) : bytes :=
  let host := default [] (header request (str "host")) in
  literal "{'event':'rimau_waf_audit'" ++
  literal ",'worker':" ++ to_string worker_id ++
  literal ",'client_ip':'" ++ json_escape (bounded_audit_value client_ip) ++ literal "'" ++
  literal ",'outcome':'" ++ (if Waf.allowed result then str "matched" else str "blocked") ++ literal "'" ++
  literal ",'engine':'" ++ json_escape engine ++ literal "'" ++
  literal ",'ruleset':'" ++ json_escape ruleset ++ literal "'" ++
  literal ",'rule_id':" ++ to_string (rule_id m) ++
  literal ",'severity':'" ++ json_escape (str (match_severity m)) ++ literal "'" ++
  literal ",'tag':'" ++ json_escape (str (match_tag m)) ++ literal "'" ++
  literal ",'score':" ++ to_string (anomaly_score result) ++
  literal ",'threshold':" ++ to_string (anomaly_threshold settings) ++
  literal ",'blocking':" ++ show_bool (blocking_enabled settings) ++
  literal ",'matches':" ++ to_string (size (matches result)) ++
  literal ",'method':'" ++ json_escape (bounded_audit_value (method request)) ++ literal "'" ++
  literal ",'host':'" ++ json_escape (bounded_audit_value host) ++ literal "'" ++
  literal ",'path':'" ++ json_escape (bounded_audit_value (path request)) ++ literal "'" ++
  literal ",'variable':'" ++ json_escape (str (match_variable m)) ++ literal "'" ++
  literal "}".

(** The line that [inspect_waf] logs, if it logs one. *)
Definition waf_audit `{MapOrder bytes, MapOrder (list bytes)} (files : bytes -> option bytes)
    (worker_id : Z) (client_ip : bytes) (c : ServerConfig) (r : Request) : outcome (option bytes) :=
  settings ← waf_settings c r;
  result ← inspect_request files r settings;
  if negb (inspected result) then Ret None
  else match matches result with
       | [] => Ret None
       | m :: _ =>
           if modsecurity_audit_log_enabled c
           then Ret (Some (waf_audit_log_line worker_id client_ip r settings result m))
           else Ret None
       end.

(** ** The logger

    [log] writes one line; [timestamp] is the local time. *)

Inductive LogLevel : Type := info | warning | error.

Definition level_name (level : LogLevel) : bytes :=
  match level with
  | info => str "INFO"
  | warning => str "WARN"
  | error => str "ERROR"
  end.

Definition log (timestamp : bytes) (level : LogLevel) (message : bytes) : bytes :=
  timestamp ++ str " [" ++ level_name level ++ str "] " ++ message ++ [LF].

(** ** A reader of flat JSON objects *)

Inductive Json : Type := JString (s : bytes) | JNumber (n : Z) | JBool (b : bool).

Definition strip (p s : bytes) : option bytes :=
  if decide (take (length p) s = p) then Some (drop (length p) s) else None.

(** The digits at the front. *)
Fixpoint digits (s : bytes) : bytes * bytes :=
  match s with
  | c :: s' => if isdigit c then (c :: (digits s').1, (digits s').2) else ([], s)
  | [] => ([], [])
  end.

Definition json_natural (s : bytes) : option (Z * bytes) :=
  if decide ((digits s).1 = []) then None
  else n ← numeral dec_digit 10 0 (digits s).1; Some (n, (digits s).2).

Definition json_number (s : bytes) : option (Z * bytes) :=
  match strip (str "-") s with
  | Some s' => '(n, rest) ← json_natural s'; Some (- n, rest)
  | None => json_natural s
  end.

Definition json_value (s : bytes) : option (Json * bytes) :=
  match strip [quote] s, strip (str "true") s, strip (str "false") s with
  | Some s1, _, _ => '(v, rest) ← json_string s1; Some (JString v, rest)
  | _, Some rest, _ => Some (JBool true, rest)
  | _, _, Some rest => Some (JBool false, rest)
  | _, _, _ => '(n, rest) ← json_number s; Some (JNumber n, rest)
  end.

Fixpoint json_members (fuel : nat) (s : bytes) : option (list (bytes * Json) * bytes) :=
  match fuel with
  | O => None
  | S fuel =>
      s1 ← strip [quote] s;
      '(key, s2) ← json_string s1;
      s3 ← strip (str ":") s2;
      '(v, s4) ← json_value s3;
      match strip (str ",") s4, strip (str "}") s4 with
      | Some s5, _ => '(members, rest) ← json_members fuel s5; Some ((key, v) :: members, rest)
      | None, Some rest => Some ([(key, v)], rest)
      | None, None => None
      end
  end.

Definition json_object (s : bytes) : option (list (bytes * Json) * bytes) :=
  s1 ← strip (str "{") s; json_members (length s1) s1.

(** ** The line is the object of its members *)

(** How the members of an object are written. *)
Definition show_json (v : Json) : bytes :=
  match v with
  | JString s => quote :: json_escape s ++ [quote]
  | JNumber n => to_string n
  | JBool b => show_bool b
  end.

Definition show_member (kv : bytes * Json) : bytes :=
  quote :: json_escape kv.1 ++ quote :: str ":" ++ show_json kv.2.

Fixpoint show_members (members : list (bytes * Json)) : bytes :=
  match members with
  | [] => []
  | [kv] => show_member kv ++ str "}"
  | kv :: rest => show_member kv ++ str "," ++ show_members rest
  end.

(** What the record says. *)
Definition audit_members (worker_id : Z) (client_ip : bytes) (request : Request)
    (settings : WafSettings) (result : WafResult) (m : WafMatch) : list (bytes * Json) :=
  [(str "event", JString (str "rimau_waf_audit"));
   (str "worker", JNumber worker_id);
   (str "client_ip", JString (bounded_audit_value client_ip));
   (str "outcome", JString (if Waf.allowed result then str "matched" else str "blocked"));
   (str "engine", JString engine);
   (str "ruleset", JString ruleset);
   (str "rule_id", JNumber (rule_id m));
   (str "severity", JString (str (match_severity m)));
   (str "tag", JString (str (match_tag m)));
   (str "score", JNumber (anomaly_score result));
   (str "threshold", JNumber (anomaly_threshold settings));
   (str "blocking", JBool (blocking_enabled settings));
   (str "matches", JNumber (size (matches result)));
   (str "method", JString (bounded_audit_value (method request)));
   (str "host", JString (bounded_audit_value (default [] (header request (str "host")))));
   (str "path", JString (bounded_audit_value (path request)));
   (str "variable", JString (str (match_variable m)))].

Lemma json_escape_cons c value : json_escape (c :: value) = json_escape_char c ++ json_escape value.
Proof. done. Qed.

Lemma json_escape_app a b : json_escape (a ++ b) = json_escape a ++ json_escape b.
Proof. apply bind_app. Qed.

Lemma show_string_member k v :
  json_escape k = k -> show_member (k, JString v) = quote :: k ++ literal "':'" ++ json_escape v ++ [quote].
Proof. unfold show_member. cbn [fst snd]. by intros ->. Qed.

Lemma show_number_member k n :
  json_escape k = k -> show_member (k, JNumber n) = quote :: k ++ literal "':" ++ to_string n.
Proof. unfold show_member. cbn [fst snd]. by intros ->. Qed.

Lemma waf_audit_log_line_members worker_id client_ip request settings result m :
  waf_audit_log_line worker_id client_ip request settings result m
  = str "{" ++ show_members (audit_members worker_id client_ip request settings result m).
Proof.
  unfold waf_audit_log_line, audit_members.
  cbn [show_members].
  repeat first [rewrite show_number_member by (vm_compute; reflexivity)
               |rewrite show_string_member by (vm_compute; reflexivity)].
  unfold show_member, show_json; cbn [fst snd].
  rewrite <- ?app_assoc, <- ?app_comm_cons. rewrite <- ?app_assoc.
  destruct (Waf.allowed result), (blocking_enabled settings); reflexivity.
Qed.

(** ** Reading it back *)

Lemma strip_app p s : strip p (p ++ s) = Some s.
Proof. unfold strip. by rewrite take_app_length, drop_app_length, decide_True. Qed.

Lemma strip_other c p d s : d <> c -> strip (c :: p) (d :: s) = None.
Proof. intros N. unfold strip. rewrite decide_False; [done|]. by intros [= ? _]. Qed.

Lemma json_escape_char_response c :
  json_escape_char c = if decide (c = Byte.x7f) then str "\u007f" else Response.json_escape_char c.
Proof. by_byte c. Qed.

Lemma json_string_read (value rest : bytes) :
  json_string (json_escape value ++ quote :: rest) = Some (value, rest).
Proof.
  induction value as [|c value IH]; [done|].
  rewrite json_escape_cons, <- app_assoc, json_escape_char_response.
  case_decide as D; [|by apply json_escape_char_read].
  subst c. change (json_string (str "\u007f" ++ ?s)) with ('(v, rest) ← json_string s; Some (Byte.x7f :: v, rest)).
  by rewrite IH.
Qed.

(** What follows a value does not continue a number. *)
Definition ends_number (rest : bytes) : Prop :=
  match rest with [] => True | c :: _ => isdigit c = false end.

Lemma digits_app ds rest :
  Forall (fun c => isdigit c = true) ds -> ends_number rest -> digits (ds ++ rest) = (ds, rest).
Proof.
  intros Hd Hr. induction Hd as [|c ds E _ IH]; cbn.
  - destruct rest as [|c rest]; cbn; [done|]. by rewrite Hr.
  - by rewrite E, IH.
Qed.

Lemma print_base_digits n : Forall (fun c => isdigit c = true) (print_base 10 n).
Proof.
  apply print_digits_Forall; [lia| |constructor]. apply digits_forall. vm_compute. reflexivity.
Qed.

Lemma json_natural_read n rest :
  0 <= n -> ends_number rest -> json_natural (print_base 10 n ++ rest) = Some (n, rest).
Proof.
  intros Hn Hr. unfold json_natural. rewrite digits_app by (done || apply print_base_digits).
  cbn [fst snd]. rewrite decide_False by apply print_base_nonempty.
  by rewrite numeral_print_base by (done || lia || apply dec_digit_print).
Qed.

Lemma to_string_head n :
  exists c s, to_string n = c :: s /\ (isdigit c = true \/ c = chr "-") /\ (0 <= n -> isdigit c = true).
Proof.
  unfold to_string. destruct (Z.ltb_spec n 0); [exists (chr "-"), (print_base 10 (- n)); naive_solver lia|].
  pose proof (print_base_digits n) as D. pose proof (print_base_nonempty 10 n) as N.
  destruct (print_base 10 n) as [|c s]; [done|]. apply Forall_cons_1 in D as [D _]. naive_solver.
Qed.

Lemma json_number_read n rest :
  ends_number rest -> json_number (to_string n ++ rest) = Some (n, rest).
Proof.
  intros Hr. unfold json_number. destruct (to_string_head n) as (c & s & E & _ & P). revert E P.
  unfold to_string. destruct (Z.ltb_spec n 0) as [L|L]; intros E P.
  - change (chr "-" :: print_base 10 (- n)) with (str "-" ++ print_base 10 (- n)).
    rewrite <- app_assoc, strip_app, json_natural_read by (done || lia).
    cbn. by rewrite Z.opp_involutive.
  - pose proof (json_natural_read n rest L Hr) as R. rewrite E in R |- *. cbn [app] in *.
    change (str "-") with [chr "-"]. rewrite strip_other; [done|]. intros ->. by specialize (P L).
Qed.

Lemma json_value_read v rest :
  ends_number rest -> json_value (show_json v ++ rest) = Some (v, rest).
Proof.
  intros Hr. destruct v as [s|n|b]; unfold json_value; cbn [show_json].
  - change ((quote :: json_escape s ++ [quote]) ++ rest) with ([quote] ++ ((json_escape s ++ [quote]) ++ rest)).
    rewrite strip_app, <- app_assoc. cbn [app]. by rewrite json_string_read.
  - pose proof (json_number_read n rest Hr) as R. destruct (to_string_head n) as (c & s & E & D & _). rewrite E in *.
    assert (N : forall b : byte, isdigit b = false -> b <> chr "-" -> c <> b).
    { intros b B1 B2 ->. destruct D; congruence. }
    cbn [app] in *. change (str "true") with (chr "t" :: str "rue"). change (str "false") with (chr "f" :: str "alse").
    by rewrite !strip_other, R by (apply N; done).
  - destruct b; cbn [show_bool]; rewrite strip_app; reflexivity.
Qed.

Lemma json_members_read members rest fuel :
  members <> [] -> (length members <= fuel)%nat ->
  json_members fuel (show_members members ++ rest) = Some (members, rest).
Proof.
  revert fuel. induction members as [|[k v] members IH]; intros fuel N F; [done|].
  destruct fuel as [|fuel]; cbn [length] in F; [lia|].
  assert (R : forall tail, ends_number tail ->
    json_members (S fuel) (show_member (k, v) ++ tail) =
      match strip (str ",") tail, strip (str "}") tail with
      | Some s5, _ => '(members, rest) ← json_members fuel s5; Some ((k, v) :: members, rest)
      | None, Some rest => Some ([(k, v)], rest)
      | None, None => None
      end).
  { intros tail T. cbn [json_members]. unfold show_member. cbn [fst snd].
    change ((quote :: ?s) ++ tail) with ([quote] ++ (s ++ tail)). rewrite strip_app.
    cbn [mbind option_bind]. rewrite <- app_assoc. cbn [app]. rewrite json_string_read.
    cbn [mbind option_bind]. rewrite <- app_assoc, strip_app. cbn [mbind option_bind].
    by rewrite json_value_read. }
  destruct members as [|kv members]; cbn [show_members].
  - rewrite <- app_assoc, R by reflexivity.
    change (str "," ) with [chr ","]. cbn [app]. by rewrite strip_app.
  - rewrite <- !app_assoc, R by reflexivity. rewrite strip_app, IH by (done || cbn [length] in *; lia).
    done.
Qed.

Lemma show_members_length members : (length members <= length (show_members members))%nat.
Proof.
  assert (L : forall kv, (0 < length (show_member kv))%nat) by (intros; unfold show_member; cbn; lia).
  induction members as [|kv members IH]; [done|]. pose proof (L kv).
  destruct members as [|kv' members]; [cbn [show_members length]; rewrite length_app; lia|].
  change (show_members (kv :: kv' :: members)) with (show_member kv ++ str "," ++ show_members (kv' :: members)).
  rewrite !length_app. cbn [length] in *. lia.
Qed.

Lemma json_object_read members rest :
  members <> [] -> json_object (str "{" ++ show_members members ++ rest) = Some (members, rest).
Proof.
  intros N. unfold json_object. rewrite strip_app. cbn [mbind option_bind].
  apply json_members_read; [done|]. rewrite length_app. pose proof (show_members_length members). lia.
Qed.

(** ** A record cannot be forged *)

Definition printable (c : byte) : bool := (0x20 <=? val c) && negb (val c =? 0x7f).

Abbreviation Printable := (Forall (fun c => printable c = true)).

Lemma json_escape_char_printable c : Printable (json_escape_char c).
Proof.
  apply Forall_forall. intros x Hx.
  enough (E : forallb printable (json_escape_char c) = true).
  { rewrite forallb_forall in E. by apply E, list_elem_of_In. }
  clear x Hx. by_byte c.
Qed.

Lemma json_escape_printable value : Printable (json_escape value).
Proof.
  induction value as [|c value IH]; [constructor|].
  rewrite json_escape_cons. apply Forall_app. split; [apply json_escape_char_printable|done].
Qed.

Lemma digit_printable c : isdigit c = true -> printable c = true.
Proof.
  enough (implb (isdigit c) (printable c) = true) by (by destruct (isdigit c), (printable c)). by_byte c.
Qed.

Lemma to_string_printable n : Printable (to_string n).
Proof.
  assert (P : forall k, Printable (print_base 10 k)).
  { intros k. eapply Forall_impl; [apply print_base_digits|]. apply digit_printable. }
  unfold to_string. destruct (n <? 0); [constructor; [reflexivity|]|]; apply P.
Qed.

#[local] Hint Resolve json_escape_printable to_string_printable : core.

Lemma show_json_printable v : Printable (show_json v).
Proof.
  destruct v as [s|n|b]; cbn [show_json]; [|done|by destruct b; repeat constructor].
  constructor; [done|]. apply Forall_app. split; [done|by constructor].
Qed.

Lemma show_member_printable kv : Printable (show_member kv).
Proof.
  unfold show_member. constructor; [done|]. apply Forall_app. split; [done|]. constructor; [done|].
  apply Forall_app. split; [repeat constructor|apply show_json_printable].
Qed.

Lemma show_members_printable members : Printable (show_members members).
Proof.
  induction members as [|kv members IH]; [constructor|].
  destruct members as [|kv' members]; apply Forall_app; (split; [apply show_member_printable|]);
    [repeat constructor|]. apply Forall_app. split; [repeat constructor|exact IH].
Qed.

Lemma printable_no_newline s : Printable s -> LF ∉ s.
Proof. intros P I. rewrite Forall_forall in P. by specialize (P _ I). Qed.

Section audit.
Context `{MapOrder bytes, MapOrder (list bytes)}.
Context (files : bytes -> option bytes) (worker_id : Z) (client_ip : bytes).

Lemma waf_audit_inv c r line :
  waf_audit files worker_id client_ip c r = Ret (Some line) ->
  exists settings result m ms,
    waf_settings c r = Ret settings /\ inspect_request files r settings = Ret result /\
    matches result = m :: ms /\ line = waf_audit_log_line worker_id client_ip r settings result m.
Proof using Type.
  unfold waf_audit. destruct (waf_settings c r) as [settings| |]; [|done..]. cbn.
  destruct (inspect_request files r settings) as [result| |] eqn:I; [|done..]. cbn.
  destruct (inspected result); [|done]. cbn. destruct (matches result) as [|m ms] eqn:M; [done|].
  destruct (modsecurity_audit_log_enabled c); [|done]. intros [= <-]. by exists settings, result, m, ms.
Qed.

Lemma blocked_is_audited c r response :
  inspect_waf files c r = Ret (Some response) -> modsecurity_audit_log_enabled c = true ->
  exists settings result m, Waf.allowed result = false /\
    waf_audit files worker_id client_ip c r
    = Ret (Some (waf_audit_log_line worker_id client_ip r settings result m)).
Proof using Type.
  intros B E. revert B. unfold waf_audit, inspect_waf. destruct (waf_settings c r) as [settings| |]; [|done..]. cbn.
  destruct (inspect_request files r settings) as [result| |]; [|done..]. cbn.
  destruct (inspected result); [|done]. cbn. destruct (matches result) as [|m ms]; [done|].
  rewrite bool_decide_eq_false_2 by done. destruct (Waf.allowed result) eqn:A; [done|]. rewrite E. intros _.
  by exists settings, result, m.
Qed.

(** C32. A client cannot forge or hide a record of the audit log.  Whatever
    bytes the request holds, the record of a match is one line of printable
    characters - in the log it ends with its own line feed - and a JSON reader
    gets from it exactly the fields of this request, each with its bytes
    (at most 256, and then an ellipsis), and nothing after them.  And every
    request that the firewall blocks has such a record, which says so. *)
Theorem audit_record_faithful (c : ServerConfig) (r : Request) (timestamp : bytes)
    (T : LF ∉ timestamp) :
  (forall line, waf_audit files worker_id client_ip c r = Ret (Some line) ->
     Printable line /\
     (forall more, getline LF (log timestamp warning line ++ more)
                   = Some (timestamp ++ str " [WARN] " ++ line, more)) /\
     exists settings result m ms,
       waf_settings c r = Ret settings /\ inspect_request files r settings = Ret result /\
       matches result = m :: ms /\
       forall more, json_object (line ++ more)
         = Some (audit_members worker_id client_ip r settings result m, more)) /\
  (forall response, inspect_waf files c r = Ret (Some response) -> modsecurity_audit_log_enabled c = true ->
     exists line members, waf_audit files worker_id client_ip c r = Ret (Some line) /\
       json_object line = Some (members, []) /\ (str "outcome", JString (str "blocked")) ∈ members).
Proof using Type.
  split.
  - intros line L. apply waf_audit_inv in L as (settings & result & m & ms & S & I & M & ->).
    rewrite waf_audit_log_line_members.
    set (members := audit_members worker_id client_ip r settings result m).
    assert (P : Printable (str "{" ++ show_members members)).
    { apply Forall_app. split; [repeat constructor|apply show_members_printable]. }
    split; [exact P|]. split.
    + intros more. rewrite <- (getline_app LF (timestamp ++ str " [WARN] " ++ str "{" ++ show_members members) more).
      * unfold log. f_equal. rewrite <- !app_assoc. reflexivity.
      * apply not_elem_of_app. split; [done|]. apply not_elem_of_app.
        split; [by_decide|by apply printable_no_newline].
    + exists settings, result, m, ms. split_and!; [done..|]. intros more.
      rewrite <- app_assoc. by apply json_object_read.
  - intros response B E. destruct (blocked_is_audited c r response B E) as (settings & result & m & A & W).
    exists (waf_audit_log_line worker_id client_ip r settings result m),
      (audit_members worker_id client_ip r settings result m).
    split_and!; [done| |].
    + rewrite waf_audit_log_line_members, <- (app_nil_r (show_members _)). by apply json_object_read.
    + unfold audit_members. rewrite A. by do 3 right; left.
Qed.
End audit.

(** A request whose path holds the end of a record and the start of another. *)
Definition forging_request : Request :=
  mk_request (str "GET") (str "/") (literal "/'}" ++ [LF] ++ literal "{'event':'rimau_waf_audit'") [] (str "HTTP/1.1")
    {[str "user-agent" := str "sqlmap"]} {[str "q" := [str "<script"]]} [] 0 None.

Definition auditing_config : ServerConfig :=
  match read_fields {[str "modsecurity_enabled" := str "true"]} with
  | Ret config => config
  | _ => default_config
  end.

Lemma forging_request_blocked :
  match inspect_waf (fun _ => None) auditing_config forging_request with Ret (Some _) => true | _ => false end = true.
Proof. vm_compute. reflexivity. Qed.

Lemma auditing_config_audits : modsecurity_audit_log_enabled auditing_config = true.
Proof. vm_compute. reflexivity. Qed.

Lemma audit_record_faithful_witness :
  exists line members, waf_audit (fun _ => None) 0 (str "10.0.0.1") auditing_config forging_request = Ret (Some line) /\
    json_object line = Some (members, []) /\ (str "outcome", JString (str "blocked")) ∈ members.
Proof.
  destruct (audit_record_faithful (fun _ => None) 0 (str "10.0.0.1") auditing_config forging_request
    (str "2024-05-01 12:00:00") ltac:(by_decide)) as [_ B].
  pose proof forging_request_blocked as F.
  destruct (inspect_waf (fun _ => None) auditing_config forging_request) as [[response|]| |]; [|discriminate F..].
  exact (B response eq_refl auditing_config_audits).
Defined.
