(* ===== verification/ProxyExchange.v ===== *)
(** * ProxyExchange: the reverse proxy of the event loop

    Models lines 1838-1903 and 3677-4085 of [src/src/core/server.cpp]: a
    request is sent to the upstreams one after another without blocking, as a
    state machine driven by the events of the upstream's socket.  A failure
    starts the next attempt from wherever it is noticed, so the functions are
    written over [start_next] and the recursion is tied at the end; every
    attempt advances the index into the list of upstreams, whose length is
    the fuel. *)

From S2P Require Import Prelude Text Numbers Request Http1Frame Response StaticFiles Handler BodyStream Waf VirtualHost ReverseProxy Http2Session Config Security WebSocket State Connection.

(** ** Registration with epoll *)

Definition register_reverse_proxy_upstream (events : Z) : Handle unit :=
  fd ← field reverse_proxy_upstream_fd_;
  epoll_fd ← field epoll_fd_;
  if (fd <? 0) || (epoll_fd <? 0) then throw "reverse proxy upstream cannot be registered without an epoll fd"
  else
    failure ← ask epoll_calls;
    match failure with
    | Some (Some e) => throw ("epoll_ctl reverse proxy upstream failed: " ++ e)%string
    | _ =>
        modify (fun s => s <| upstream_interest := Z.lor events EPOLLRDHUP |>) ;;
        assign reverse_proxy_upstream_registered_ true
    end.

Definition reverse_proxy_stage_events (c : ClientConnection) : Z :=
  match reverse_proxy_stage_ c with
  | ReverseProxyStage.connecting => EPOLLOUT
  | ReverseProxyStage.tls_handshake => reverse_proxy_upstream_extra_events_ c
  | ReverseProxyStage.writing_request => Z.lor EPOLLOUT (reverse_proxy_upstream_extra_events_ c)
  | ReverseProxyStage.reading_response => Z.lor EPOLLIN (reverse_proxy_upstream_extra_events_ c)
  | ReverseProxyStage.idle => 0
  end.

Definition update_reverse_proxy_upstream_events : Handle unit :=
  proxying ← in_phase ClientPhase.reverse_proxy;
  fd ← field reverse_proxy_upstream_fd_;
  if negb proxying || (fd <? 0) then mret tt
  else events ← field reverse_proxy_stage_events; register_reverse_proxy_upstream events.

(** ** Connecting *)

(** The loop over the addresses of the upstream. *)
Fixpoint tcp_connect_loop (items : list ConnectResult) (last_error : string) : Handle (Z * bool) :=
  match items with
  | [] => throw ("reverse proxy upstream connect failed: " ++ last_error)%string
  | Connected :: _ => fd ← new_descriptor; mret (fd, true)
  | InProgress :: _ => fd ← new_descriptor; mret (fd, false)
  | ConnectFailed e :: items' => tcp_connect_loop items' e
  end.

(** [start_reverse_proxy_tcp_connect]: the descriptor and whether it is
    connected already. *)
Definition start_reverse_proxy_tcp_connect : Handle (Z * bool) :=
  addresses ← ask connects;
  match default (inr []) addresses with
  | inl e => throw ("reverse proxy upstream address resolution failed: " ++ e)%string
  | inr items => tcp_connect_loop items "no upstream address"
  end.

Section exchange.
Context `{MapOrder bytes} (env : Environment).

Definition finish_reverse_proxy_failure_response : Handle unit :=
  close_reverse_proxy_upstream ;;
  attempted ← field reverse_proxy_attempted_upstream_;
  skipped ← field reverse_proxy_skipped_open_circuit_;
  keep_alive ← field reverse_proxy_keep_alive_;
  settings ← field reverse_proxy_settings_;
  (if negb attempted && skipped then
     set_response (build_header (str "retry-after") (to_string (circuit_breaker_cooldown_seconds settings))
                     (text_response 503 (line_body "Service Unavailable") text_plain)) include keep_alive
   else set_response (text_response 502 (line_body "Bad Gateway") text_plain) include keep_alive) ;;
  update_client_epoll_events.

Definition enter_stage (stage : ReverseProxyStage.t) : Handle unit :=
  assign reverse_proxy_stage_ stage ;;
  t ← now;
  assign reverse_proxy_stage_started_at_ t.

Section attempt.
Context (start_next : Handle unit).

(** [fail_reverse_proxy_attempt]; the reason is only logged. *)
Definition fail_attempt : Handle unit :=
  proxying ← in_phase ClientPhase.reverse_proxy;
  if negb proxying then mret tt
  else
    upstream ← field reverse_proxy_current_upstream_;
    settings ← field reverse_proxy_settings_;
    record_failure upstream settings ;;
    close_reverse_proxy_upstream ;;
    start_next.

(** The loop of [flush_reverse_proxy_request]; a socket accepts at most what
    it is offered. *)
Fixpoint flush_request_loop (results : list WriteResult) : Handle unit :=
  request ← field reverse_proxy_upstream_request_;
  offset ← field reverse_proxy_upstream_request_offset_;
  if (offset <? length request)%nat then
    tls ← field reverse_proxy_upstream_tls_;
    let blocked (want_write : bool) :=
      if tls : bool then assign reverse_proxy_upstream_extra_events_ (event_for_ssl_error want_write) else mret tt in
    match results with
    | [] => blocked true
    | Wrote O :: results' => put_back upstream_writes results' ;; fail_attempt
    | Wrote n :: results' =>
        let n := Nat.min n (length request - offset) in
        modify (fun s => s <| upstream_out ::= fun out => out ++ take n (drop offset request) |>) ;;
        assign reverse_proxy_upstream_request_offset_ (offset + n)%nat ;;
        t ← now;
        assign last_activity_ t ;;
        assign reverse_proxy_upstream_extra_events_ 0 ;;
        flush_request_loop results'
    | WriteBlocked want_write :: results' => put_back upstream_writes results' ;; blocked want_write
    | WriteFailed :: results' => put_back upstream_writes results' ;; fail_attempt
    end
  else
    put_back upstream_writes results ;;
    enter_stage ReverseProxyStage.reading_response ;;
    assign reverse_proxy_upstream_extra_events_ 0.

Definition flush_request : Handle unit :=
  results ← take_all upstream_writes;
  flush_request_loop results.

(** [if (!closed() && phase_ == ClientPhase::reverse_proxy) update...] *)
Definition write_stage : Handle unit :=
  enter_stage ReverseProxyStage.writing_request ;;
  assign reverse_proxy_upstream_extra_events_ 0 ;;
  flush_request ;;
  proxying ← in_phase ClientPhase.reverse_proxy;
  if proxying : bool then update_reverse_proxy_upstream_events else mret tt.

Definition drive_tls_handshake : Handle unit :=
  result ← ask upstream_tls;
  settings ← field reverse_proxy_settings_;
  match default (TlsBlocked false) result with
  | TlsDone _ => write_stage
  | TlsUnverified => if verify_tls_upstream settings then fail_attempt else write_stage
  | TlsBlocked want_write =>
      assign reverse_proxy_upstream_extra_events_ (event_for_ssl_error want_write) ;;
      update_reverse_proxy_upstream_events
  | TlsFailed => fail_attempt
  end.

(** A [tls_setups] answer is the error of creating and configuring the TLS
    connection. *)
Definition start_tls_handshake : Handle unit :=
  failure ← ask tls_setups;
  match failure with
  | Some (Some e) => throw e
  | _ =>
      assign reverse_proxy_upstream_tls_ true ;;
      enter_stage ReverseProxyStage.tls_handshake ;;
      drive_tls_handshake
  end.

(** A [socket_errors] answer is the error of [getsockopt] or [SO_ERROR]. *)
Definition finish_tcp_connect : Handle unit :=
  failure ← ask socket_errors;
  match failure with
  | Some (Some _) => fail_attempt
  | _ =>
      upstream ← field reverse_proxy_current_upstream_;
      if bool_decide (scheme upstream = str "https")
      then try_catch start_tls_handshake (fun _ => fail_attempt)
      else write_stage
  end.
End attempt.

(** The body of the [try] block of [start_next_reverse_proxy_attempt];
    [dispatch_request] has stored the request. *)
Definition begin_attempt (start_next : Handle unit) (upstream : ReverseProxyTarget) : Handle unit :=
  close_reverse_proxy_upstream ;;
  assign reverse_proxy_current_upstream_ upstream ;;
  request ← field reverse_proxy_request_;
  text ← call (build_reverse_proxy_upstream_request (env_files env) (default empty_request request) upstream);
  assign reverse_proxy_upstream_request_ text ;;
  assign reverse_proxy_upstream_request_offset_ 0%nat ;;
  assign reverse_proxy_response_buffer_ [] ;;
  '(fd, connected) ← start_reverse_proxy_tcp_connect;
  assign reverse_proxy_upstream_fd_ fd ;;
  enter_stage ReverseProxyStage.connecting ;;
  register_reverse_proxy_upstream EPOLLOUT ;;
  if connected : bool then finish_tcp_connect start_next else mret tt.

Fixpoint start_next (fuel : nat) : Handle unit :=
  proxying ← in_phase ClientPhase.reverse_proxy;
  index ← field reverse_proxy_attempt_index_;
  ordered ← field reverse_proxy_ordered_upstreams_;
  match ordered !! index with
  | Some upstream =>
      if negb proxying then finish_reverse_proxy_failure_response
      else
        match fuel with
        | O => call Timeout
        | S fuel' =>
            assign reverse_proxy_attempt_index_ (S index) ;;
            settings ← field reverse_proxy_settings_;
            available ← upstream_available upstream settings;
            if negb available then
              assign reverse_proxy_skipped_open_circuit_ true ;;
              start_next fuel'
            else
              assign reverse_proxy_attempted_upstream_ true ;;
              started ← try_catch
                (begin_attempt (start_next fuel') upstream ;; mret true)
                (fun _ =>
                   record_failure upstream settings ;;
                   close_reverse_proxy_upstream ;;
                   mret false);
              if started : bool then mret tt else start_next fuel'
        end
  | None => finish_reverse_proxy_failure_response
  end.

Definition start_next_reverse_proxy_attempt : Handle unit :=
  ordered ← field reverse_proxy_ordered_upstreams_;
  start_next (length ordered).

Definition fail_reverse_proxy_attempt : Handle unit := fail_attempt start_next_reverse_proxy_attempt.
Definition flush_reverse_proxy_request : Handle unit := flush_request start_next_reverse_proxy_attempt.
Definition finish_reverse_proxy_tcp_connect : Handle unit := finish_tcp_connect start_next_reverse_proxy_attempt.
Definition drive_reverse_proxy_tls_handshake : Handle unit :=
  drive_tls_handshake start_next_reverse_proxy_attempt.

(** ** Reading the response *)

Definition append_reverse_proxy_response (chunk : bytes) : Handle bool :=
  buffer ← field reverse_proxy_response_buffer_;
  settings ← field reverse_proxy_settings_;
  if max_response_bytes settings <? size buffer + size chunk then
    fail_reverse_proxy_attempt ;; mret false
  else
    assign reverse_proxy_response_buffer_ (buffer ++ chunk) ;;
    t ← now;
    assign last_activity_ t ;;
    mret true.

(** The buffer is moved into the parser; here it is cleared when the parser
    returns or throws. *)
Definition finish_reverse_proxy_response : Handle unit :=
  try_catch
    (buffer ← field reverse_proxy_response_buffer_;
     response ← try_catch (call (parse_reverse_proxy_upstream_response buffer))
                  (fun e => assign reverse_proxy_response_buffer_ [] ;; throw e);
     assign reverse_proxy_response_buffer_ [] ;;
     upstream ← field reverse_proxy_current_upstream_;
     settings ← field reverse_proxy_settings_;
     record_success upstream settings ;;
     close_reverse_proxy_upstream ;;
     body_mode ← field reverse_proxy_body_mode_;
     keep_alive ← field reverse_proxy_keep_alive_;
     set_response response body_mode keep_alive ;;
     update_client_epoll_events)
    (fun _ => fail_reverse_proxy_attempt).

(** [read_plain_reverse_proxy_response] and [read_tls_reverse_proxy_response]:
    they differ in what a blocked read waits for and in a failed read, which
    under TLS ends a response that has begun. *)
Fixpoint read_response_loop (results : list ReadResult) : Handle unit :=
  proxying ← in_phase ClientPhase.reverse_proxy;
  if negb proxying then mret tt
  else
    tls ← field reverse_proxy_upstream_tls_;
    match results with
    | ReadData chunk :: results' =>
        modify (fun s => s <| upstream_in ::= fun got => got ++ chunk |>) ;;
        appended ← append_reverse_proxy_response chunk;
        if negb appended then mret tt
        else
          (if tls : bool then assign reverse_proxy_upstream_extra_events_ 0 else mret tt) ;;
          read_response_loop results'
    | ReadEnd :: _ => finish_reverse_proxy_response
    | ReadBlocked want_write :: _ =>
        assign reverse_proxy_upstream_extra_events_ (if tls : bool then event_for_ssl_error want_write else 0)
    | [] => assign reverse_proxy_upstream_extra_events_ (if tls : bool then EPOLLIN else 0)
    | ReadFailed :: _ =>
        buffer ← field reverse_proxy_response_buffer_;
        if tls && negb (bool_decide (buffer = [])) then finish_reverse_proxy_response
        else fail_reverse_proxy_attempt
    end.

Definition read_reverse_proxy_response : Handle unit :=
  results ← take_all upstream_reads;
  read_response_loop results.

(** ** The upstream's events *)

Definition handle_reverse_proxy_upstream (revents : Z) : Handle unit :=
  stage ← field reverse_proxy_stage_;
  if has revents EPOLLERR then fail_reverse_proxy_attempt
  else if bool_decide (stage = ReverseProxyStage.connecting) && has revents EPOLLOUT
  then finish_reverse_proxy_tcp_connect
  else if bool_decide (stage = ReverseProxyStage.tls_handshake) && has revents (Z.lor EPOLLIN EPOLLOUT)
  then drive_reverse_proxy_tls_handshake
  else
    (if bool_decide (stage = ReverseProxyStage.writing_request) && has revents (Z.lor EPOLLIN EPOLLOUT)
     then flush_reverse_proxy_request else mret tt) ;;
    proxying ← in_phase ClientPhase.reverse_proxy;
    if negb proxying then mret tt
    else
      stage ← field reverse_proxy_stage_;
      (if bool_decide (stage = ReverseProxyStage.reading_response)
          && has revents (Z.lor EPOLLIN (Z.lor EPOLLHUP EPOLLRDHUP))
       then read_reverse_proxy_response else mret tt) ;;
      update_reverse_proxy_upstream_events.

(** ** The start *)

Definition try_start_reverse_proxy (request : Request) (keep_alive : bool) : Handle bool :=
  config ← the_config;
  match reverse_proxy_upstreams_for_request request config with
  | Timeout => call Timeout
  | Raise _ => refuse 500 (line_body "Internal Server Error") ;; mret true
  | Ret None => mret false
  | Ret (Some upstreams) =>
      assign reverse_proxy_request_ (Some request) ;;
      settings ← call (reverse_proxy_settings config);
      assign reverse_proxy_settings_ settings ;;
      ordered ← order_upstreams request upstreams settings;
      assign reverse_proxy_ordered_upstreams_ ordered ;;
      assign reverse_proxy_keep_alive_ keep_alive ;;
      assign reverse_proxy_body_mode_ (if bool_decide (method request = str "HEAD") then headers_only else include) ;;
      assign reverse_proxy_attempt_index_ 0%nat ;;
      assign reverse_proxy_skipped_open_circuit_ false ;;
      assign reverse_proxy_attempted_upstream_ false ;;
      assign reverse_proxy_response_buffer_ [] ;;
      assign reverse_proxy_upstream_request_ [] ;;
      assign reverse_proxy_upstream_request_offset_ 0%nat ;;
      enter_stage ReverseProxyStage.idle ;;
      assign phase_ ClientPhase.reverse_proxy ;;
      assign events_ 0 ;;
      start_next_reverse_proxy_attempt ;;
      mret true
  end.
End exchange.
