(* ===== verification/WebSocketProxy.v ===== *)
(** * WebSocketProxy: upgraded connections of a virtual host

    Models the WebSocket side of the reverse proxy in
    [src/src/core/server.cpp]: the handshake with the upstream (lines
    1063-1347 and 1621-1819), which waits for the upstream with [poll], the
    start of the relay (3552-3675) and the relay itself (4487-4793).  Reading
    and writing are the same code for the client and for the upstream and for
    plain and TLS sockets; the model has it once. *)

From S2P Require Import Prelude Text Numbers Request Http1Frame Response StaticFiles Handler BodyStream Waf VirtualHost ReverseProxy Http2Session Config Security WebSocket State Connection.

(** ** The handshake *)

Definition csv_value_has_token (value token : bytes) : bool :=
  existsb (fun item => bool_decide (lowercase item = lowercase token)) (split_csv value).

Definition websocket_proxy_response_header_allowed (name : bytes) : bool :=
  negb (bool_decide (name ∈ str <$> ["content-length"; "transfer-encoding"; "keep-alive"; "proxy-authenticate";
                                     "proxy-authorization"; "te"; "trailer"]%string)).

(** What the loop over the response headers has seen. *)
Record Upgrade : Type := mk_upgrade {
  saw_upgrade : bool;
  saw_connection_upgrade : bool;
  saw_accept : bool;
  upgrade_headers : Headers;
}.

Definition upgrade_header (name value : bytes) (u : Upgrade) : Upgrade :=
  let h := upgrade_headers u in
  let h := if websocket_proxy_response_header_allowed name then <[name := value]> h else h in
  if bool_decide (name = str "upgrade") then
    mk_upgrade (bool_decide (lowercase value = str "websocket")) (saw_connection_upgrade u) (saw_accept u) h
  else if bool_decide (name = str "connection") then
    mk_upgrade (saw_upgrade u) (csv_value_has_token value (str "upgrade")) (saw_accept u) h
  else if bool_decide (name = str "sec-websocket-accept") then
    mk_upgrade (saw_upgrade u) (saw_connection_upgrade u) (negb (bool_decide (value = []))) h
  else mk_upgrade (saw_upgrade u) (saw_connection_upgrade u) (saw_accept u) h.

Fixpoint upgrade_header_lines (lines : list bytes) (u : Upgrade) : outcome Upgrade :=
  match lines with
  | [] => Ret u
  | line :: rest =>
      match strip_cr line with
      | [] => Ret u
      | line =>
          match find_byte (chr ":") line with
          | None => Raise "websocket upstream response header is invalid"
          | Some separator =>
              let name := lowercase (trim (take separator line)) in
              let value := trim (drop (S separator) line) in
              if negb (valid_header_name name) || header_value_has_invalid_control value
              then Raise "websocket upstream response header contains invalid bytes"
              else upgrade_header_lines rest (upgrade_header name value u)
          end
      end
  end.

Definition websocket_status_invalid : string := "websocket upstream response status line is invalid".

Definition parse_websocket_proxy_handshake_headers (raw_headers : bytes) : outcome Response :=
  match getline LF raw_headers with
  | None => Raise "websocket upstream response missing status line"
  | Some (status_line, input) =>
      match stream_word (strip_cr status_line) with
      | None => Raise websocket_status_invalid
      | Some (version, status_input) =>
          match stream_int status_input with
          | None => Raise websocket_status_invalid
          | Some (status_code, _) =>
              throw_if (negb (starts_with version (str "HTTP/"))) websocket_status_invalid;;
              throw_if (negb (status_code =? 101)) "websocket upstream did not switch protocols";;
              u ← upgrade_header_lines (getlines LF input) (mk_upgrade false false false ∅);
              throw_if (negb (saw_upgrade u) || negb (saw_connection_upgrade u) || negb (saw_accept u))
                "websocket upstream response missing required upgrade headers";;
              Ret (mk_response 101 (reason_phrase 101)
                     (<[str "connection" := str "Upgrade"]> (<[str "upgrade" := str "websocket"]> (upgrade_headers u)))
                     [])
          end
      end
  end.

Definition websocket_request_header_dropped (name : bytes) : bool :=
  bool_decide (name ∈ str <$> ["host"; "connection"; "upgrade"; "content-length"; "transfer-encoding"; "keep-alive";
                               "proxy-authenticate"; "proxy-authorization"; "te"; "trailer"]%string).

Definition build_websocket_proxy_request `{MapOrder bytes} (request : Request) (upstream : ReverseProxyTarget)
    (client_ip : bytes) (client_tls : bool) : bytes :=
  method request ++ str " " ++ reverse_proxy_target_path upstream (target request) ++ str " HTTP/1.1" ++ CRLF
  ++ str "host: " ++ authority upstream ++ CRLF
  ++ str "connection: Upgrade" ++ CRLF
  ++ str "upgrade: websocket" ++ CRLF
  ++ str "x-forwarded-for: " ++ client_ip ++ CRLF
  ++ str "x-forwarded-proto: " ++ str (if client_tls then "https" else "http") ++ CRLF
  ++ match Request.header request (str "host") with
     | Some original_host => str "x-forwarded-host: " ++ original_host ++ CRLF
     | None => []
     end
  ++ (order (Request.headers request) ≫= fun '(name, value) =>
        let normalized_name := lowercase name in
        if websocket_request_header_dropped normalized_name then []
        else normalized_name ++ str ": " ++ value ++ CRLF)
  ++ CRLF.

(** ** Blocking exchanges

    [wait_descriptor] is an answer of [waits]: whether the descriptor became
    ready before the timeout.  The loops of the source have no bound of their
    own; here a handshake whose answers run out has waited in vain. *)

Definition wait_descriptor : Handle bool := ready ← ask waits; mret (default false ready).

(** A [UniqueFd] closes its descriptor when an exception passes. *)
Definition owning {A} (fd : Z) (m : Handle A) : Handle A :=
  try_catch m (fun e => close_fd fd ;; throw e).

Fixpoint websocket_connect_loop (items : list ConnectResult) (last_error : string) : Handle Z :=
  match items with
  | [] => throw ("websocket upstream connect failed: " ++ last_error)%string
  | Connected :: _ => new_descriptor
  | InProgress :: items' =>
      fd ← new_descriptor;
      ready ← wait_descriptor;
      if negb ready then close_fd fd ;; websocket_connect_loop items' "connect timeout"
      else
        failure ← ask socket_errors;
        match failure with
        | Some (Some e) => close_fd fd ;; websocket_connect_loop items' e
        | _ => mret fd
        end
  | ConnectFailed e :: items' => websocket_connect_loop items' e
  end.

Definition connect_websocket_proxy_tcp : Handle Z :=
  addresses ← ask connects;
  match default (inr []) addresses with
  | inl e => throw ("websocket upstream address resolution failed: " ++ e)%string
  | inr items => websocket_connect_loop items "no upstream address"
  end.

Fixpoint websocket_tls_loop (verify_upstream : bool) (results : list TlsResult) : Handle unit :=
  match results with
  | TlsDone _ :: results' => put_back upstream_tls results'
  | TlsUnverified :: results' =>
      put_back upstream_tls results' ;;
      if verify_upstream then throw "websocket upstream TLS certificate verification failed" else mret tt
  | TlsBlocked _ :: results' =>
      ready ← wait_descriptor;
      if ready : bool then websocket_tls_loop verify_upstream results'
      else put_back upstream_tls results' ;; throw "websocket upstream TLS handshake failed"
  | TlsFailed :: results' =>
      put_back upstream_tls results' ;; throw "websocket upstream TLS handshake failed"
  | [] => throw "websocket upstream TLS handshake failed"
  end.

Definition connect_websocket_proxy_tls (verify_upstream : bool) : Handle unit :=
  failure ← ask tls_setups;
  match failure with
  | Some (Some e) => throw e
  | _ => results ← take_all upstream_tls; websocket_tls_loop verify_upstream results
  end.

Fixpoint websocket_write_loop (results : list WriteResult) (payload : bytes) : Handle unit :=
  match payload with
  | [] => put_back upstream_writes results
  | _ =>
      match results with
      | Wrote O :: results' => put_back upstream_writes results' ;; throw "websocket upstream write failed"
      | Wrote n :: results' =>
          modify (fun s => s <| upstream_out ::= fun out => out ++ take n payload |>) ;;
          websocket_write_loop results' (drop n payload)
      | WriteBlocked _ :: results' =>
          ready ← wait_descriptor;
          if ready : bool then websocket_write_loop results' payload
          else put_back upstream_writes results' ;; throw "websocket upstream write timeout"
      | WriteFailed :: results' => put_back upstream_writes results' ;; throw "websocket upstream write failed"
      | [] => throw "websocket upstream write timeout"
      end
  end.

Definition write_websocket_proxy (payload : bytes) : Handle unit :=
  results ← take_all upstream_writes;
  websocket_write_loop results payload.

Definition max_handshake_bytes : Z := 64 * 1024.

Definition split_websocket_proxy_handshake_buffer (buffer : bytes) : outcome (bytes * bytes) :=
  match find CRLF2 buffer with
  | None => Raise "websocket upstream response missing header terminator"
  | Some header_end => Ret (take (header_end + 4) buffer, drop (header_end + 4) buffer)
  end.

Fixpoint websocket_read_loop (results : list ReadResult) (buffer : bytes) : Handle (bytes * bytes) :=
  match find CRLF2 buffer with
  | Some _ =>
      put_back upstream_reads results ;;
      call (split_websocket_proxy_handshake_buffer buffer)
  | None =>
      match results with
      | ReadData chunk :: results' =>
          modify (fun s => s <| upstream_in ::= fun got => got ++ chunk |>) ;;
          if max_handshake_bytes <? size (buffer ++ chunk)
          then put_back upstream_reads results' ;; throw "websocket upstream handshake too large"
          else websocket_read_loop results' (buffer ++ chunk)
      | ReadBlocked _ :: results' =>
          ready ← wait_descriptor;
          if ready : bool then websocket_read_loop results' buffer
          else put_back upstream_reads results' ;; throw "websocket upstream read timeout"
      | ReadEnd :: results' => put_back upstream_reads results' ;; throw "websocket upstream closed during handshake"
      | ReadFailed :: results' => put_back upstream_reads results' ;; throw "websocket upstream read failed"
      | [] => throw "websocket upstream read timeout"
      end
  end.

Definition read_websocket_proxy_handshake : Handle (bytes * bytes) :=
  results ← take_all upstream_reads;
  websocket_read_loop results [].

Record WebSocketProxyUpstream : Type := mk_websocket_upstream {
  upstream_fd : Z;
  upstream_is_tls : bool;
  handshake_response : Response;
  pending_bytes : bytes;
}.

Definition connect_websocket_proxy_upstream `{MapOrder bytes} (request : Request) (upstream : ReverseProxyTarget)
    (settings : ReverseProxySettings) (client_ip : bytes) (client_tls : bool) : Handle WebSocketProxyUpstream :=
  fd ← connect_websocket_proxy_tcp;
  owning fd
    (let tls := bool_decide (scheme upstream = str "https") in
     (if tls then connect_websocket_proxy_tls (verify_tls_upstream settings) else mret tt) ;;
     write_websocket_proxy (build_websocket_proxy_request request upstream client_ip client_tls) ;;
     '(headers, extra) ← read_websocket_proxy_handshake;
     response ← call (parse_websocket_proxy_handshake_headers headers);
     mret (mk_websocket_upstream fd tls response extra)).

(** ** The relay *)

Definition websocket_proxy_buffer_limit (config : option ServerConfig) : Z :=
  let configured := match config with Some c => websocket_max_frame_bytes c | None => 64 * 1024 end in
  Z.max configured (64 * 1024).

Definition compact_websocket_proxy_buffer (buffer : bytes) (offset : nat) : bytes * nat :=
  if decide (offset = 0%nat) then (buffer, offset)
  else if (length buffer <=? offset)%nat then ([], 0%nat)
  else (drop offset buffer, 0%nat).

Section relay.
(** One direction: the buffer and its offset. *)
Context (buffer : ClientConnection -> bytes) `{!Update buffer}.
Context (offset : ClientConnection -> nat) `{!Update offset}.

Definition append_websocket_proxy_buffer (data : bytes) : Handle bool :=
  b ← field buffer;
  o ← field offset;
  config ← field config_;
  let '(b, o) := compact_websocket_proxy_buffer b o in
  assign buffer b ;;
  assign offset o ;;
  if websocket_proxy_buffer_limit config <? size b + size data then close_now ;; mret false
  else assign buffer (b ++ data) ;; mret true.

(** [flush_websocket_proxy_client] and [flush_websocket_proxy_upstream]: the
    socket that is written, whether it is TLS, what it accepts, what it
    additionally waits for, and the record of what it was sent. *)
Context (tls : ClientConnection -> bool).
Context (writes : Answers -> list WriteResult) `{!Update writes}.
Context (extra_events : ClientConnection -> Z) `{!Update extra_events}.
Context (traffic : Server -> bytes) `{!Update traffic}.

Fixpoint flush_relay_loop (results : list WriteResult) : Handle unit :=
  b ← field buffer;
  o ← field offset;
  if (o <? length b)%nat then
    is_tls ← field tls;
    let blocked (want_write : bool) :=
      if is_tls : bool then assign extra_events (event_for_ssl_error want_write) else mret tt in
    match results with
    | [] => blocked true
    | Wrote O :: results' => put_back writes results' ;; close_now
    | Wrote n :: results' =>
        let n := Nat.min n (length b - o) in
        modify (fun s => update traffic (fun out => out ++ take n (drop o b)) s) ;;
        assign offset (o + n)%nat ;;
        t ← now;
        assign last_activity_ t ;;
        assign extra_events 0 ;;
        flush_relay_loop results'
    | WriteBlocked want_write :: results' => put_back writes results' ;; blocked want_write
    | WriteFailed :: results' => put_back writes results' ;; close_now
    end
  else
    put_back writes results ;;
    assign buffer [] ;;
    assign offset 0%nat.

Definition flush_relay : Handle unit :=
  results ← take_all writes;
  flush_relay_loop results.
End relay.

Definition flush_websocket_proxy_client : Handle unit :=
  flush_relay websocket_proxy_upstream_to_client_ websocket_proxy_upstream_to_client_offset_ ssl_ client_writes
    websocket_proxy_client_extra_events_ client_out.

Definition flush_websocket_proxy_upstream : Handle unit :=
  flush_relay websocket_proxy_client_to_upstream_ websocket_proxy_client_to_upstream_offset_
    websocket_upstream_tls_ upstream_writes websocket_proxy_upstream_extra_events_ upstream_out.

(** [read_plain_websocket_proxy_client] and its three siblings: what is read
    goes to the buffer of the other socket, which is written at once. *)
Section relay_read.
Context (buffer : ClientConnection -> bytes) `{!Update buffer}.
Context (offset : ClientConnection -> nat) `{!Update offset}.
Context (tls : ClientConnection -> bool) (extra_events : ClientConnection -> Z) `{!Update extra_events}.
Context (traffic : Server -> bytes) `{!Update traffic} (flush_other : Handle unit).

Fixpoint read_relay_loop (results : list ReadResult) : Handle unit :=
  is_tls ← field tls;
  match results with
  | ReadData chunk :: results' =>
      modify (fun s => update traffic (fun got => got ++ chunk) s) ;;
      t ← now;
      assign last_activity_ t ;;
      assign extra_events 0 ;;
      appended ← append_websocket_proxy_buffer buffer offset chunk;
      if negb appended then mret tt
      else
        flush_other ;;
        is_closed ← in_phase ClientPhase.closed;
        if is_closed : bool then mret tt else read_relay_loop results'
  | ReadBlocked want_write :: _ =>
      assign extra_events (if is_tls : bool then event_for_ssl_error want_write else 0)
  | [] => assign extra_events (if is_tls : bool then EPOLLIN else 0)
  | ReadEnd :: _ | ReadFailed :: _ => close_now
  end.
End relay_read.

Definition read_websocket_proxy_client : Handle unit :=
  results ← take_all client_reads;
  read_relay_loop websocket_proxy_client_to_upstream_ websocket_proxy_client_to_upstream_offset_ ssl_
    websocket_proxy_client_extra_events_ client_in flush_websocket_proxy_upstream results.

Definition read_websocket_proxy_upstream : Handle unit :=
  results ← take_all upstream_reads;
  read_relay_loop websocket_proxy_upstream_to_client_ websocket_proxy_upstream_to_client_offset_
    websocket_upstream_tls_ websocket_proxy_upstream_extra_events_ upstream_in flush_websocket_proxy_client results.

(** What each socket waits for. *)
Definition pending_out (b : bytes) : Z := if bool_decide (b = []) then 0 else EPOLLOUT.

Definition update_websocket_proxy_events : Handle unit :=
  relaying ← in_phase ClientPhase.websocket_proxy;
  if negb relaying then mret tt
  else
    client_extra ← field websocket_proxy_client_extra_events_;
    to_client ← field websocket_proxy_upstream_to_client_;
    assign events_ (Z.lor (Z.lor EPOLLIN client_extra) (pending_out to_client)) ;;
    epoll_fd ← field epoll_fd_;
    fd ← field fd_;
    (if (0 <=? epoll_fd) && (0 <=? fd) then update_client_epoll_events else mret tt) ;;
    is_closed ← in_phase ClientPhase.closed;
    upstream_fd ← field websocket_upstream_fd_;
    registered ← field websocket_upstream_registered_;
    if negb is_closed && (0 <=? epoll_fd) && (0 <=? upstream_fd) && registered then
      upstream_extra ← field websocket_proxy_upstream_extra_events_;
      to_upstream ← field websocket_proxy_client_to_upstream_;
      failure ← ask epoll_calls;
      match failure with
      | Some (Some _) => close_now
      | _ =>
          modify (fun s => s <| upstream_interest :=
            Z.lor (Z.lor (Z.lor EPOLLIN EPOLLRDHUP) upstream_extra) (pending_out to_upstream) |>)
      end
    else mret tt.

Definition handle_websocket_proxy_client (revents : Z) : Handle unit :=
  (if has revents EPOLLIN then read_websocket_proxy_client else mret tt) ;;
  is_closed ← in_phase ClientPhase.closed;
  to_client ← field websocket_proxy_upstream_to_client_;
  (if negb is_closed && (negb (bool_decide (to_client = [])) || has revents EPOLLOUT)
   then flush_websocket_proxy_client else mret tt) ;;
  is_closed ← in_phase ClientPhase.closed;
  if is_closed : bool then mret tt else update_websocket_proxy_events.

(** The WebSocket part of [handle_upstream]. *)
Definition handle_websocket_proxy_upstream (revents : Z) : Handle unit :=
  (if has revents EPOLLIN then read_websocket_proxy_upstream else mret tt) ;;
  is_closed ← in_phase ClientPhase.closed;
  to_upstream ← field websocket_proxy_client_to_upstream_;
  (if negb is_closed && (negb (bool_decide (to_upstream = [])) || has revents EPOLLOUT)
   then flush_websocket_proxy_upstream else mret tt) ;;
  is_closed ← in_phase ClientPhase.closed;
  if is_closed : bool then mret tt else update_websocket_proxy_events.

(** ** The start of the relay *)

Definition register_websocket_upstream : Handle unit :=
  fd ← field websocket_upstream_fd_;
  epoll_fd ← field epoll_fd_;
  to_upstream ← field websocket_proxy_client_to_upstream_;
  if (fd <? 0) || (epoll_fd <? 0) then throw "websocket upstream cannot be registered without an epoll fd"
  else
    failure ← ask epoll_calls;
    match failure with
    | Some (Some e) => throw ("epoll_ctl ADD websocket upstream failed: " ++ e)%string
    | _ =>
        modify (fun s => s <| upstream_interest := Z.lor (Z.lor EPOLLIN EPOLLRDHUP) (pending_out to_upstream) |>) ;;
        assign websocket_upstream_registered_ true
    end.

Section start.
Context `{MapOrder bytes}.

(** The body of the [try] block of the loop over the upstreams. *)
Definition start_relay (request : Request) (upstream : ReverseProxyTarget) (settings : ReverseProxySettings)
    (client_early_bytes : bytes) : Handle unit :=
  client_ip ← field client_ip_;
  client_tls ← field ssl_;
  connection ← connect_websocket_proxy_upstream request upstream settings client_ip client_tls;
  assign websocket_upstream_fd_ (upstream_fd connection) ;;
  assign websocket_upstream_tls_ (upstream_is_tls connection) ;;
  record_success upstream settings ;;
  let append_if_any b (append : Handle bool) : Handle bool :=
    if bool_decide (b = []) then mret true else append in
  kept ← append_if_any (pending_bytes connection)
           (append_websocket_proxy_buffer websocket_proxy_upstream_to_client_
              websocket_proxy_upstream_to_client_offset_ (pending_bytes connection));
  if negb kept then mret tt
  else
    kept ← append_if_any client_early_bytes
             (append_websocket_proxy_buffer websocket_proxy_client_to_upstream_
                websocket_proxy_client_to_upstream_offset_ client_early_bytes);
    if negb kept then mret tt
    else
      register_websocket_upstream ;;
      set_websocket_proxy_handshake_response (handshake_response connection).

Fixpoint websocket_upstream_loop (request : Request) (settings : ReverseProxySettings) (early : bytes)
    (upstreams : list ReverseProxyTarget) (skipped_open_circuit attempted_upstream : bool) : Handle unit :=
  match upstreams with
  | [] =>
      if negb attempted_upstream && skipped_open_circuit then
        set_response (build_header (str "retry-after") (to_string (circuit_breaker_cooldown_seconds settings))
                        (text_response 503 (line_body "Service Unavailable") text_plain)) include false
      else refuse 502 (line_body "Bad Gateway")
  | upstream :: rest =>
      available ← upstream_available upstream settings;
      if negb available then websocket_upstream_loop request settings early rest true attempted_upstream
      else
        started ← try_catch
          (start_relay request upstream settings early ;; mret true)
          (fun _ =>
             record_failure upstream settings ;;
             close_websocket_upstream ;;
             assign websocket_proxy_client_to_upstream_ [] ;;
             assign websocket_proxy_upstream_to_client_ [] ;;
             assign websocket_proxy_client_to_upstream_offset_ 0%nat ;;
             assign websocket_proxy_upstream_to_client_offset_ 0%nat ;;
             mret false);
        if started : bool then mret tt
        else websocket_upstream_loop request settings early rest skipped_open_circuit true
  end.

Definition try_start_websocket_proxy (request : Request) : Handle bool :=
  config ← the_config;
  match reverse_proxy_upstreams_for_request request config with
  | Timeout => call Timeout
  | Raise _ =>
      assign request_buffer_ [] ;;
      refuse 500 (line_body "Internal Server Error") ;;
      mret true
  | Ret None => mret false
  | Ret (Some upstreams) =>
      served ← field requests_served_;
      assign requests_served_ (served + 1) ;;
      settings ← call (reverse_proxy_settings config);
      client_early_bytes ← field request_buffer_;
      assign request_buffer_ [] ;;
      ordered ← order_upstreams request upstreams settings;
      websocket_upstream_loop request settings client_early_bytes ordered false false ;;
      mret true
  end.
End start.
