(* ===== verification/Reactor.v ===== *)
(** * Reactor: the event handlers of a connection

    Models the rest of [ClientConnection] ([src/src/core/server.cpp]): reading
    requests (lines 2625-2836), body streams (2838-2994), upgrades
    (2996-3018), HTTP/2 (3020-3111, 3428-3491), dispatch (4087-4160), writing
    and what follows a response (4162-4279), WebSocket connections
    (4281-4485), timeouts (2403-2487) and the two event handlers (2489-2563).
    Plain and TLS sockets share one loop: they differ in what a blocked call
    waits for. *)

From S2P Require Import Prelude Text Numbers Request Http1Frame Response StaticFiles Handler BodyStream Waf VirtualHost ReverseProxy Http2Session Config Security WebSocket State Connection ProxyExchange WebSocketProxy.

Section reactor.
Context `{MapOrder bytes, MapOrder (list bytes)} (env : Environment).

(** What a blocked read or write of the client's socket waits for. *)
Definition read_blocked (want_write : bool) : Handle Z :=
  tls ← field ssl_; mret (if tls : bool then event_for_ssl_error want_write else EPOLLIN).

Definition write_blocked (want_write : bool) : Handle Z :=
  tls ← field ssl_; mret (if tls : bool then event_for_ssl_error want_write else EPOLLOUT).

(** ** Dispatch *)

Definition request_should_keep_alive (config : ServerConfig) (request : Request) : bool :=
  if negb (http_keep_alive_enabled config) then false
  else if connection_header_has_token request (str "close") then false
  else if bool_decide (version request = str "HTTP/1.1") then true
  else bool_decide (version request = str "HTTP/1.0") && connection_header_has_token request (str "keep-alive").

(** [VirtualHostHandlerFactory] and [Transaction::dispatch] with the
    connection's sink. *)
Definition run_transaction (request : Request) : Handle BufferedResponseSink :=
  config ← the_config;
  rules ← call (parse_virtual_host_rules (if virtual_hosts_enabled config then virtual_hosts config else []));
  settings ← call (reverse_proxy_settings config);
  shared_call (fun s =>
    let factory on_request (_ : Request) :=
      Value (Some (mk_handler (S := BufferedResponseSink) on_request (Value tt) default_on_error)) in
    match virtual_host_on_request (env_files env) (env_file_system env) (env_http_date env) (env_gzip env)
            (create_handler (Config.document_root config) rules request) settings (static_file_options config)
            (proxy_turns s) request new_sink (proxies s) with
    | Timeout => (Timeout, s)
    | Ret (sink, p) =>
        (Ret (dispatch (factory (fun _ _ => (sink, Value tt))) request new_sink).2, s <| proxies := p |>)
    | Raise e =>
        (Ret (dispatch (factory (fun _ sink => (sink, Threw (Some (str e))))) request new_sink).2, s)
    end).

Definition dispatch_request (request : Request) : Handle unit :=
  config ← the_config;
  limited ← rate_limited;
  if limited : bool then refuse 429 (line_body "Too Many Requests")
  else
    blocked ← call (inspect_waf (env_files env) config request);
    match blocked with
    | Some waf_response => set_response waf_response include false
    | None =>
        served ← field requests_served_;
        let served := served + 1 in
        assign requests_served_ served ;;
        let keep_alive := request_should_keep_alive config request
                          && negb (http_keep_alive_max_requests config <=? served) in
        proxied ← try_start_reverse_proxy env request keep_alive;
        if proxied : bool then mret tt
        else
          downstream ← run_transaction request;
          if negb (sent_ downstream) then refuse 500 (line_body "Internal Server Error")
          else
            let remaining_requests := Z.max 0 (http_keep_alive_max_requests config - served) in
            set_serialized_response
              (payload downstream (security_headers_of config) keep_alive
                 (http_keep_alive_timeout_seconds config) remaining_requests) keep_alive
    end.

Definition process_request (raw_request : bytes) : Handle unit :=
  match parse_request raw_request with
  | Rejected _ _ => refuse 400 bad_request
  | Parsed request => dispatch_request request
  end.

(** ** Streamed bodies

    [start_http1_body_stream], [process_http1_body_stream] and the ends of a
    stream; the streams themselves are those of [BodyStream]. *)

Definition start_http1_body_stream (request : Request) (frame : Http1FrameResult) : Handle unit :=
  config ← the_config;
  assign http1_body_stream_ (Some (start_body_stream request frame (Config.max_request_bytes config))) ;;
  buffer ← field request_buffer_;
  assign request_buffer_ (drop (Z.to_nat (Http1Frame.consumed frame)) buffer) ;;
  assign waiting_for_body_ true ;;
  started ← field body_started_at_;
  if started =? 0 then t ← now; assign body_started_at_ t else mret tt.

Definition fail_http1_body_stream (status : Z) (message : bytes) : Handle unit :=
  assign http1_body_stream_ None ;;
  assign request_buffer_ [] ;;
  assign waiting_for_body_ false ;;
  assign body_started_at_ 0 ;;
  refuse status message.

(** [request_buffer_.empty() ? time_point {} : now()] *)
Definition restart_request_clock : Handle unit :=
  buffer ← field request_buffer_;
  if bool_decide (buffer = []) then assign request_started_at_ 0
  else t ← now; assign request_started_at_ t.

Definition finish_http1_body_stream (stream : Http1BodyStreamState) : Handle unit :=
  assign http1_body_stream_ None ;;
  assign waiting_for_body_ false ;;
  assign body_started_at_ 0 ;;
  restart_request_clock ;;
  dispatch_request (BodyStream.finish (env_spool_path env) (stream_request stream) (accumulator stream)).

Definition process_http1_body_stream : Handle unit :=
  stream ← field http1_body_stream_;
  match stream with
  | None => mret tt
  | Some stream =>
      try_catch
        (buffer ← field request_buffer_;
         result ← call (BodyStream.process_http1_body_stream (env_spool_error env) stream buffer);
         match result with
         | Waiting stream rest =>
             assign http1_body_stream_ (Some stream) ;; assign request_buffer_ rest
         | BodyStream.Failed status message => fail_http1_body_stream status message
         | Finished stream rest => assign request_buffer_ rest ;; finish_http1_body_stream stream
         end)
        (fun _ =>
           assign http1_body_stream_ None ;;
           assign request_buffer_ [] ;;
           refuse 500 (line_body "Internal Server Error"))
  end.

(** ** Upgrades *)

Definition try_handle_websocket_upgrade (request : Request) (consumed : Z) : Handle bool :=
  if negb (is_websocket_upgrade_request request) then mret false
  else
    config ← the_config;
    buffer ← field request_buffer_;
    assign request_buffer_ (drop (Z.to_nat consumed) buffer) ;;
    restart_request_clock ;;
    limited ← rate_limited;
    if limited : bool then refuse 429 (line_body "Too Many Requests") ;; mret true
    else
      blocked ← call (inspect_waf (env_files env) config request);
      match blocked with
      | Some waf_response => set_response waf_response include false ;; mret true
      | None =>
          relayed ← try_start_websocket_proxy request;
          if relayed : bool then mret true
          else
            served ← field requests_served_;
            assign requests_served_ (served + 1) ;;
            response ← call (websocket_handshake_response (env_sha1 env) request);
            set_websocket_handshake_response response ;;
            mret true
      end.

(** ** HTTP/2 *)

Definition forget_request_clock : Handle unit :=
  assign request_started_at_ 0 ;; assign body_started_at_ 0 ;; assign waiting_for_body_ false.

Definition process_http2_prior_knowledge : Handle bool :=
  tls ← field ssl_;
  h2 ← field http2_tls_selected_;
  if tls && negb h2 then mret false
  else
    config ← the_config;
    limited ← (if Config.http2_enabled config then rate_limited else mret false);
    buffer ← field request_buffer_;
    session ← field http2_session_;
    let '(session, rest, result) :=
      accept_preface buffer (Config.max_request_bytes config) (Config.http2_enabled config) (negb limited) session in
    assign http2_session_ session ;;
    assign request_buffer_ rest ;;
    result ← call result;
    match preface_status result with
    | not_http2 => mret false
    | need_more => mret true
    | rejected =>
        forget_request_clock ;;
        set_serialized_response (preface_output result) (preface_keep_connection result) ;;
        mret true
    | accepted =>
        forget_request_clock ;;
        assign http2_active_ true ;;
        set_serialized_response (preface_output result) (preface_keep_connection result) ;;
        mret true
    end.

Definition h2_response (stream_id : Z) (response : Response) (body_mode : BodyMode) : Handle bytes :=
  config ← the_config;
  call (serialize_response stream_id response body_mode (serialization_options config)).

Definition dispatch_http2_request (stream_id : Z) (request : Request) (prefix : bytes) : Handle unit :=
  config ← the_config;
  let answer response :=
    text ← h2_response stream_id response include; set_serialized_response (prefix ++ text) true in
  limited ← rate_limited;
  if limited : bool then answer (text_response 429 (line_body "Too Many Requests") text_plain)
  else
    blocked ← call (inspect_waf (env_files env) config request);
    match blocked with
    | Some waf_response => answer waf_response
    | None =>
        served ← field requests_served_;
        let served := served + 1 in
        assign requests_served_ served ;;
        downstream ← run_transaction request;
        if negb (sent_ downstream) then answer (text_response 500 (line_body "Internal Server Error") text_plain)
        else
          text ← h2_response stream_id (response_ downstream) (body_mode_ downstream);
          if (0 <? http_keep_alive_max_requests config) && (http_keep_alive_max_requests config <=? served) then
            goaway ← call (goaway_frame error_no_error (str "Rimau HTTP/2 max requests reached"));
            set_serialized_response (prefix ++ text ++ goaway) false
          else set_serialized_response (prefix ++ text) true
    end.

Definition handle_http2_session_result (result : SessionResult) : Handle bool :=
  if Http2Session.close_now result then close_now ;; mret false
  else
    match error_response result, completed_stream result with
    | Some response, _ =>
        text ← h2_response (error_stream_id result) response include;
        set_serialized_response (output result ++ text) true ;;
        mret false
    | None, Some completed =>
        dispatch_http2_request (completed_id completed) (completed_request completed) (output result) ;;
        mret false
    | None, None =>
        if negb (bool_decide (output result = [])) then
          set_serialized_response (output result) (keep_connection result) ;;
          mret false
        else mret true
    end.

(** [while (phase_ == reading && !request_buffer_.empty())]: no turn is
    followed by another, since what [handle_http2_session_result] lets pass
    made no progress. *)
Fixpoint http2_loop (fuel : nat) : Handle unit :=
  is_reading ← in_phase ClientPhase.reading;
  buffer ← field request_buffer_;
  if negb is_reading || bool_decide (buffer = []) then mret tt
  else
    match fuel with
    | O => call Timeout
    | S fuel' =>
        config ← the_config;
        session ← field http2_session_;
        let '(session, rest, result) := process_input buffer (Config.max_request_bytes config) session in
        assign http2_session_ session ;;
        assign request_buffer_ rest ;;
        result ← call result;
        let no_progress := bool_decide (output result = []) && negb (Http2Session.close_now result)
          && bool_decide (completed_stream result = None) && bool_decide (error_response result = None) in
        continues ← handle_http2_session_result result;
        if negb continues || no_progress then mret tt else http2_loop fuel'
    end.

Definition process_http2_frames : Handle unit := http2_loop 1.

(** ** Requests *)

Definition process_http1_frame : Handle unit :=
  config ← the_config;
  buffer ← field request_buffer_;
  frame ← call (next_http1_request_frame buffer (Config.max_request_bytes config));
  match Http1Frame.state frame with
  | Http1Frame.incomplete => assign waiting_for_body_ (waiting_for_body frame)
  | Http1Frame.error =>
      (if discard_buffer frame then assign request_buffer_ []
       else if 0 <? Http1Frame.consumed frame
       then assign request_buffer_ (drop (Z.to_nat (Http1Frame.consumed frame)) buffer)
       else mret tt) ;;
      refuse (error_status frame) (error_message frame)
  | _ =>
      upgraded ← match Http1Frame.request frame with
                 | Some request => try_handle_websocket_upgrade request (Http1Frame.consumed frame)
                 | None => mret false
                 end;
      if upgraded : bool then mret tt
      else
        match Http1Frame.state frame, Http1Frame.request frame with
        | Http1Frame.header_complete, request =>
            match request, waiting_for_body frame with
            | Some request, true =>
                start_http1_body_stream request frame ;;
                process_http1_body_stream
            | _, waiting =>
                assign waiting_for_body_ waiting ;;
                started ← field body_started_at_;
                if waiting && (started =? 0) then t ← now; assign body_started_at_ t else mret tt
            end
        | _, _ =>
            assign request_buffer_ (drop (Z.to_nat (Http1Frame.consumed frame)) buffer) ;;
            assign waiting_for_body_ false ;;
            assign body_started_at_ 0 ;;
            restart_request_clock ;;
            process_request (Http1Frame.raw_request frame)
        end
  end.

Definition process_buffered_request : Handle unit :=
  is_reading ← in_phase ClientPhase.reading;
  configured ← field config_;
  match configured with
  | None => mret tt
  | Some config =>
      if negb is_reading then mret tt
      else
        active ← field http2_active_;
        if active : bool then process_http2_frames
        else
          handled ← process_http2_prior_knowledge;
          if handled : bool then mret tt
          else
            selected ← field http2_tls_selected_;
            if selected : bool then
              assign request_buffer_ [] ;;
              goaway ← call (goaway_frame error_protocol
                               (str "HTTP/2 TLS connection expected client connection preface"));
              set_serialized_response goaway false
            else if negb (http1_enabled config) then
              assign request_buffer_ [] ;;
              refuse 400 (line_body "HTTP/1.1 is disabled in Rimau SQLite config")
            else process_http1_frame
  end.

Definition append_request_bytes (chunk : bytes) : Handle unit :=
  buffer ← field request_buffer_;
  (if bool_decide (buffer = []) then
     t ← now;
     assign request_started_at_ t ;;
     assign body_started_at_ 0 ;;
     assign waiting_for_body_ false
   else mret tt) ;;
  assign request_buffer_ (buffer ++ chunk) ;;
  stream ← field http1_body_stream_;
  match stream with
  | Some _ => process_http1_body_stream
  | None => process_buffered_request
  end.

(** [read_plain_request] and [read_tls_request]; what is not asked for stays
    in the socket. *)
Fixpoint read_request_loop (results : list ReadResult) : Handle unit :=
  match results with
  | ReadData chunk :: results' =>
      modify (fun s => s <| client_in ::= fun got => got ++ chunk |>) ;;
      t ← now;
      assign last_activity_ t ;;
      append_request_bytes chunk ;;
      is_reading ← in_phase ClientPhase.reading;
      if is_reading : bool then read_request_loop results' else mret tt
  | ReadBlocked want_write :: _ => mask ← read_blocked want_write; assign events_ mask
  | [] => mask ← read_blocked false; assign events_ mask
  | ReadEnd :: _ | ReadFailed :: _ => close_now
  end.

Definition read_request : Handle unit :=
  results ← take_all client_reads;
  read_request_loop results.

(** ** WebSocket connections

    The part of the state that [WebSocket] works on. *)

Definition websocket_view (c : ClientConnection) : WebSocketState :=
  mk_ws (request_buffer_ c) (response_buffer_ c) (response_offset_ c) (websocket_close_after_write_ c) (closed c).

Definition put_websocket_view (w : WebSocketState) : Handle unit :=
  assign request_buffer_ (ws_input w) ;;
  assign response_buffer_ (ws_output w) ;;
  assign response_offset_ (ws_offset w) ;;
  assign websocket_close_after_write_ (WebSocket.websocket_close_after_write_ w).

(** [queue_websocket_frame] also sets [events_]. *)
Definition process_websocket_frames : Handle unit :=
  config ← the_config;
  view ← field websocket_view;
  view' ← call (WebSocket.process_websocket_frames (websocket_max_frame_bytes config) view);
  put_websocket_view view' ;;
  if bool_decide (ws_output view' = ws_output view) then mret tt else assign events_ (Z.lor EPOLLIN EPOLLOUT).

(** The loop over [response_buffer_], of responses and of WebSocket frames:
    [finish] follows when all is written; WebSocket connections also wait for
    input ([extra]). *)
Section write.
Context (extra : Z) (finish : Handle unit).

Fixpoint write_loop (results : list WriteResult) : Handle unit :=
  buffer ← field response_buffer_;
  offset ← field response_offset_;
  if (offset <? length buffer)%nat then
    match results with
    | [] => mask ← write_blocked true; assign events_ (Z.lor mask extra)
    | Wrote O :: results' => put_back client_writes results' ;; close_now
    | Wrote n :: results' =>
        let n := Nat.min n (length buffer - offset) in
        modify (fun s => s <| client_out ::= fun out => out ++ take n (drop offset buffer) |>) ;;
        assign response_offset_ (offset + n)%nat ;;
        write_loop results'
    | WriteBlocked want_write :: results' =>
        put_back client_writes results' ;; mask ← write_blocked want_write; assign events_ (Z.lor mask extra)
    | WriteFailed :: results' => put_back client_writes results' ;; close_now
    end
  else put_back client_writes results ;; finish.

Definition write_all : Handle unit :=
  results ← take_all client_writes;
  write_loop results.
End write.

Definition flush_websocket_writes : Handle unit :=
  write_all EPOLLIN
    (assign response_buffer_ [] ;;
     assign response_offset_ 0%nat ;;
     closing ← field websocket_close_after_write_;
     if closing : bool then close_now else assign events_ EPOLLIN).

Fixpoint read_websocket_loop (results : list ReadResult) : Handle unit :=
  match results with
  | ReadData chunk :: results' =>
      modify (fun s => s <| client_in ::= fun got => got ++ chunk |>) ;;
      t ← now;
      assign last_activity_ t ;;
      buffer ← field request_buffer_;
      assign request_buffer_ (buffer ++ chunk) ;;
      process_websocket_frames ;;
      is_closed ← in_phase ClientPhase.closed;
      if is_closed : bool then mret tt else read_websocket_loop results'
  | ReadBlocked want_write :: _ =>
      mask ← read_blocked want_write; out ← field response_buffer_; assign events_ (Z.lor mask (pending_out out))
  | [] => mask ← read_blocked false; out ← field response_buffer_; assign events_ (Z.lor mask (pending_out out))
  | ReadEnd :: _ | ReadFailed :: _ => close_now
  end.

Definition read_websocket : Handle unit :=
  results ← take_all client_reads;
  read_websocket_loop results.

Definition handle_websocket (revents : Z) : Handle unit :=
  (if has revents EPOLLIN then read_websocket else mret tt) ;;
  is_closed ← in_phase ClientPhase.closed;
  out ← field response_buffer_;
  if negb is_closed && (negb (bool_decide (out = [])) || has revents EPOLLOUT)
  then flush_websocket_writes else mret tt.

(** ** Writing a response, and what follows it *)

Definition do_tls_shutdown : Handle unit :=
  result ← ask client_tls;
  match result with
  | Some (TlsBlocked want_write) => assign events_ (event_for_ssl_error want_write)
  | _ => close_now
  end.

Definition clear_response : Handle unit :=
  assign response_buffer_ [] ;; assign response_offset_ 0%nat.

Definition finish_response : Handle unit :=
  to_websocket ← field websocket_after_response_;
  to_relay ← field websocket_proxy_after_response_;
  keep_alive ← field keep_alive_after_response_;
  tls ← field ssl_;
  if to_websocket : bool then
    assign websocket_after_response_ false ;;
    clear_response ;;
    assign phase_ ClientPhase.websocket ;;
    assign events_ EPOLLIN ;;
    t ← now;
    assign last_activity_ t ;;
    process_websocket_frames ;;
    out ← field response_buffer_;
    if bool_decide (out = []) then mret tt else flush_websocket_writes
  else if to_relay : bool then
    assign websocket_proxy_after_response_ false ;;
    clear_response ;;
    assign phase_ ClientPhase.websocket_proxy ;;
    t ← now;
    assign last_activity_ t ;;
    update_websocket_proxy_events ;;
    to_client ← field websocket_proxy_upstream_to_client_;
    (if bool_decide (to_client = []) then mret tt else flush_websocket_proxy_client) ;;
    is_closed ← in_phase ClientPhase.closed;
    to_upstream ← field websocket_proxy_client_to_upstream_;
    (if negb is_closed && negb (bool_decide (to_upstream = [])) then flush_websocket_proxy_upstream else mret tt) ;;
    is_closed ← in_phase ClientPhase.closed;
    if is_closed : bool then mret tt else update_websocket_proxy_events
  else if keep_alive : bool then
    assign keep_alive_after_response_ false ;;
    clear_response ;;
    assign phase_ ClientPhase.reading ;;
    assign events_ EPOLLIN ;;
    t ← now;
    assign last_activity_ t ;;
    buffer ← field request_buffer_;
    assign request_started_at_ (if bool_decide (buffer = []) then 0 else t) ;;
    assign body_started_at_ 0 ;;
    assign waiting_for_body_ false ;;
    process_buffered_request
  else if tls : bool then
    assign phase_ ClientPhase.tls_shutdown ;;
    assign events_ EPOLLOUT ;;
    do_tls_shutdown
  else close_now.

Definition write_response : Handle unit := write_all 0 finish_response.

(** ** Timeouts *)

Definition elapsed (now since seconds : Z) : bool := nanoseconds seconds <=? now - since.

Definition expire_if_timed_out (now : Z) : Handle bool :=
  configured ← field config_;
  c ← field (fun c => c);
  let close_if (b : bool) := if b then close_now ;; mret true else mret false in
  let request_timeout := refuse 408 (line_body "Request Timeout") ;; mret true in
  match configured, phase_ c with
  | None, _ | _, ClientPhase.closed => mret false
  | Some config, ClientPhase.tls_handshake => close_if (elapsed now (last_activity_ c) (request_timeout_seconds config))
  | Some config, ClientPhase.websocket | Some config, ClientPhase.websocket_proxy =>
      close_if (elapsed now (last_activity_ c) (idle_timeout_seconds config))
  | Some config, ClientPhase.reverse_proxy =>
      let timeout_seconds :=
        if bool_decide (reverse_proxy_stage_ c = ReverseProxyStage.reading_response)
        then reverse_proxy_read_timeout_seconds config else reverse_proxy_connect_timeout_seconds config in
      if negb (reverse_proxy_stage_started_at_ c =? 0)
         && elapsed now (reverse_proxy_stage_started_at_ c) timeout_seconds
      then fail_reverse_proxy_attempt env ;; mret true
      else mret false
  | Some config, ClientPhase.reading =>
      if http2_active_ c then
        if bool_decide (request_buffer_ c = [])
        then close_if (elapsed now (last_activity_ c) (idle_timeout_seconds config))
        else if negb (request_started_at_ c =? 0)
                && elapsed now (request_started_at_ c) (request_timeout_seconds config)
        then
          goaway ← call (goaway_frame error_enhance_your_calm (str "HTTP/2 request timeout"));
          set_serialized_response goaway false ;;
          mret true
        else mret false
      else if waiting_for_body_ c && negb (body_started_at_ c =? 0)
              && elapsed now (body_started_at_ c) (body_timeout_seconds config)
      then request_timeout
      else if (0 <? requests_served_ c) && bool_decide (request_buffer_ c = [])
      then close_if (negb (http_keep_alive_enabled config)
                     || elapsed now (last_activity_ c) (idle_timeout_seconds config))
      else if bool_decide (request_buffer_ c = []) || (request_started_at_ c =? 0) then mret false
      else if elapsed now (request_started_at_ c) (request_timeout_seconds config) then request_timeout
      else if negb (waiting_for_body_ c) && elapsed now (request_started_at_ c) (header_timeout_seconds config)
      then request_timeout
      else mret false
  | Some _, ClientPhase.writing | Some _, ClientPhase.tls_shutdown => mret false
  end.

(** ** Events *)

Definition do_tls_handshake : Handle unit :=
  result ← ask client_tls;
  match default (TlsBlocked false) result with
  | TlsDone alpn =>
      assign negotiated_alpn_ alpn ;;
      assign http2_tls_selected_ (bool_decide (alpn = str "h2")) ;;
      assign phase_ ClientPhase.reading ;;
      assign events_ EPOLLIN
  | TlsBlocked want_write => assign events_ (event_for_ssl_error want_write)
  | TlsUnverified | TlsFailed => close_now
  end.

(** Only an error, a hang-up or a half-close. *)
Definition hang_up (revents : Z) : bool :=
  has revents (Z.lor EPOLLERR (Z.lor EPOLLHUP EPOLLRDHUP)) && negb (has revents (Z.lor EPOLLIN EPOLLOUT)).

Definition handle (revents : Z) : Handle unit :=
  phase ← field phase_;
  let ready := has revents (Z.lor EPOLLIN (Z.lor EPOLLOUT EPOLLRDHUP)) in
  match phase with
  | ClientPhase.closed => mret tt
  | ClientPhase.reverse_proxy => mret tt
  | _ =>
      if hang_up revents then close_now
      else
        match phase with
        | ClientPhase.tls_handshake => do_tls_handshake
        | ClientPhase.reading => if ready then read_request else mret tt
        | ClientPhase.writing => if ready then write_response else mret tt
        | ClientPhase.websocket => handle_websocket revents
        | ClientPhase.websocket_proxy => handle_websocket_proxy_client revents
        | ClientPhase.tls_shutdown => do_tls_shutdown
        | ClientPhase.reverse_proxy | ClientPhase.closed => mret tt
        end
  end.

Definition handle_upstream (revents : Z) : Handle unit :=
  phase ← field phase_;
  match phase with
  | ClientPhase.websocket_proxy =>
      if hang_up revents then close_now else handle_websocket_proxy_upstream revents
  | ClientPhase.reverse_proxy =>
      if hang_up revents then close_now else handle_reverse_proxy_upstream env revents
  | _ => mret tt
  end.

(** ** The worker's loop, for one connection

    An event with what the system calls will answer: the client's socket or
    the upstream's is ready, the worker checks the timeouts, a new
    configuration is published; [Elsewhere] is what other connections and
    threads do to the shared state and to descriptors. *)

Inductive Event : Type :=
| ClientReady (revents : Z) (a : Answers)
| UpstreamReady (revents : Z) (a : Answers)
| CheckTimeouts (a : Answers)
| ConfigPublished (config : option ServerConfig)
| Elsewhere (sec : SecurityState) (p : ProxyState) (turns : nat -> Attempt) (fds : gset Z).

(** [modify_client_events] of [Worker]; an epoll failure is handled as an
    error event. *)
Definition modify_client_events : Handle unit :=
  failure ← ask epoll_calls;
  match failure with
  | Some (Some _) => handle EPOLLERR
  | _ => events ← field events_; modify (fun s => s <| client_interest := Z.lor events EPOLLRDHUP |>)
  end.

Definition unless_closed (m : Handle unit) : Handle unit :=
  is_closed ← in_phase ClientPhase.closed;
  if is_closed : bool then mret tt else m.

Definition descriptors (c : ClientConnection) : gset Z :=
  list_to_set (filter (fun fd => 0 <= fd) [fd_ c; websocket_upstream_fd_ c; reverse_proxy_upstream_fd_ c]).

Definition event (e : Event) : Handle unit :=
  match e with
  | ClientReady revents a =>
      modify (fun s => s <| answers := a |>) ;; handle revents ;; unless_closed modify_client_events
  | UpstreamReady revents a => modify (fun s => s <| answers := a |>) ;; handle_upstream revents
  | CheckTimeouts a =>
      modify (fun s => s <| answers := a |>) ;;
      t ← now;
      expired ← expire_if_timed_out t;
      if expired : bool then unless_closed modify_client_events else mret tt
  | ConfigPublished config => update_config config
  | Elsewhere sec p turns fds =>
      modify (fun s => s <| security := sec |> <| proxies := p |> <| proxy_turns := turns |>
                         <| open_fds := descriptors (connection s) ∪ fds |>)
  end.

(** A connection that is closed is released after the event that closed it. *)
Fixpoint run (events : list Event) : Handle unit :=
  match events with
  | [] => mret tt
  | e :: events' => unless_closed (event e ;; run events')
  end.
End reactor.
