(* ===== verification/Worker.v ===== *)
(** * Worker: one thread of the server

    Models [ConnectionPool], [RuntimeControl] and [Worker]
    ([src/src/core/server.cpp], lines 4874-5250): the listener, the clients of
    a worker with the descriptors and counters they share, the pool of
    connection objects, the timeouts and the graceful shutdown.  A client is a
    connection of [Connection] that runs in the worker's world; what the
    system calls answer and what other threads do is given with each turn of
    the loop. *)

From S2P Require Import Prelude Text Numbers Request Http1Frame Response StaticFiles Handler BodyStream Waf VirtualHost ReverseProxy Http2Session Config Security WebSocket State Connection ProxyExchange WebSocketProxy Reactor Tls.

(** ** The control block that the threads share

    The generation is 64 bits wide. *)

Record RuntimeControl : Type := mk_control {
  shutdown_requested : bool;
  worker_failed : bool;
  live_config : option ServerConfig;
  live_tls_context : option TlsContext;
  config_generation : Z;
}.

#[export] Instance eta_control : Eta RuntimeControl := fun c =>
  mk_control (shutdown_requested c) (worker_failed c) (live_config c) (live_tls_context c) (config_generation c).

#[export] Instance at_shutdown_requested : Update shutdown_requested := ltac:(derive_update).
#[export] Instance at_worker_failed : Update worker_failed := ltac:(derive_update).
#[export] Instance at_live_config : Update live_config := ltac:(derive_update).
#[export] Instance at_live_tls_context : Update live_tls_context := ltac:(derive_update).
#[export] Instance at_config_generation : Update config_generation := ltac:(derive_update).

Definition new_control : RuntimeControl := mk_control false false None None 0.

Definition publish_config (config : ServerConfig) (c : RuntimeControl) : RuntimeControl :=
  c <| live_config := Some config |> <| config_generation ::= fun n => (n + 1) mod 2 ^ 64 |>.

Definition publish_tls_context (tls_context : option TlsContext) (c : RuntimeControl) : RuntimeControl :=
  c <| live_tls_context := tls_context |>.

(** ** Clients

    The state of one client, and the part of [Server] that all of them share. *)

Record Traffic : Type := mk_traffic {
  traffic_client_interest : Z;
  traffic_upstream_interest : Z;
  traffic_client_in : bytes;
  traffic_client_out : bytes;
  traffic_upstream_in : bytes;
  traffic_upstream_out : bytes;
}.

Definition no_traffic : Traffic := mk_traffic 0 0 [] [] [] [].

Record Client : Type := mk_client {
  client : ClientConnection;
  traffic : Traffic;
}.

Record World : Type := mk_world {
  world_clock : nat -> Z;
  world_security : SecurityState;
  world_proxies : ProxyState;
  world_turns : nat -> Attempt;
  world_fds : gset Z;
  world_unopened : list Z;
}.

#[export] Instance eta_world : Eta World := fun w =>
  mk_world (world_clock w) (world_security w) (world_proxies w) (world_turns w) (world_fds w) (world_unopened w).

#[export] Instance at_world_security : Update world_security := ltac:(derive_update).
#[export] Instance at_world_fds : Update world_fds := ltac:(derive_update).

Definition view (w : World) (c : Client) (a : Answers) : Server :=
  mk_server (client c) (world_clock w) (world_security w) (world_proxies w) (world_turns w) a (world_fds w)
    (world_unopened w) (traffic_client_interest (traffic c)) (traffic_upstream_interest (traffic c))
    (traffic_client_in (traffic c)) (traffic_client_out (traffic c))
    (traffic_upstream_in (traffic c)) (traffic_upstream_out (traffic c)).

Definition world_of (s : Server) : World :=
  mk_world (clock s) (security s) (proxies s) (proxy_turns s) (open_fds s) (closed_unopened s).

Definition client_of (s : Server) : Client :=
  mk_client (connection s)
    (mk_traffic (client_interest s) (upstream_interest s) (client_in s) (client_out s) (upstream_in s) (upstream_out s)).

(** ** The pool *)

Record ConnectionPool : Type := mk_pool {
  max_idle_ : Z;
  idle_ : list ClientConnection;
}.

(** ** The worker

    [calls_] is what the calls that set up the listener will answer. *)

Record Worker : Type := mk_worker {
  id_ : Z;
  listener_config_ : ServerConfig;
  control_ : RuntimeControl;
  config_generation_ : Z;
  worker_epoll_fd_ : Z;
  listener_ : Z;
  connection_pool_ : ConnectionPool;
  clients_ : gmap Z Client;
  world : World;
  calls_ : list (option string);
}.

#[export] Instance eta_worker : Eta Worker := fun w =>
  mk_worker (id_ w) (listener_config_ w) (control_ w) (config_generation_ w) (worker_epoll_fd_ w) (listener_ w)
    (connection_pool_ w) (clients_ w) (world w) (calls_ w).

#[export] Instance at_control_ : Update control_ := ltac:(derive_update).
#[export] Instance at_config_generation_ : Update config_generation_ := ltac:(derive_update).
#[export] Instance at_worker_epoll_fd_ : Update worker_epoll_fd_ := ltac:(derive_update).
#[export] Instance at_listener_ : Update listener_ := ltac:(derive_update).
#[export] Instance at_connection_pool_ : Update connection_pool_ := ltac:(derive_update).
#[export] Instance at_clients_ : Update clients_ := ltac:(derive_update).
#[export] Instance at_world : Update world := ltac:(derive_update).
#[export] Instance at_calls_ : Update calls_ := ltac:(derive_update).

Definition new_worker (id : Z) (config : ServerConfig) (control : RuntimeControl) (w : World)
    (calls : list (option string)) : Worker :=
  mk_worker id config control 0 (-1) (-1) (mk_pool (connection_pool_size config) []) ∅ w calls.

Definition Work : Type -> Type := M Worker.

(** A member function of a client's connection; the result tells what became
    of the client. *)
Definition on_connection {A} (c : Client) (a : Answers) (m : Handle A) : Work (outcome A * Client) := fun w =>
  let '(o, s) := m (view (world w) c a) in (Ret (o, client_of s), w <| world := world_of s |>).

(** A call on a registered client. *)
Definition on_client {A} (fd : Z) (c : Client) (a : Answers) (m : Handle A) : Work A := fun w =>
  let '(o, s) := m (view (world w) c a) in
  (o, w <| world := world_of s |> <| clients_ ::= insert fd (client_of s) |>).

(** A system call on behalf of the worker itself. *)
Definition on_world {A} (m : Handle A) : Work A := fun w =>
  let '(o, s) := m (view (world w) (mk_client new_connection no_traffic) silence) in (o, w <| world := world_of s |>).

(** An operation of [SecurityState]. *)
Definition on_security {A} (f : SecurityState -> A * SecurityState) : Work A := fun w =>
  let '(a, s) := f (world_security (world w)) in (Ret a, w <| world ::= fun x => x <| world_security := s |> |>).

Definition next_call : Work (option string) := fun w =>
  (Ret (default None (head (calls_ w))), w <| calls_ ::= tail |>).

(** [for (auto x : l) f(x)] *)
Fixpoint for_each {A} (l : list A) (f : A -> Work unit) : Work unit :=
  match l with
  | [] => mret tt
  | x :: l' => f x ;; for_each l' f
  end.

(** ** The pool's operations *)

(** [std::make_unique<ClientConnection>()] when none is idle. *)
Definition acquire : Work ClientConnection := fun w =>
  match last (idle_ (connection_pool_ w)) with
  | None => (Ret new_connection, w)
  | Some c => (Ret c, w <| connection_pool_ ::= fun p => mk_pool (max_idle_ p) (removelast (idle_ p)) |>)
  end.

Definition release (c : Client) : Work unit :=
  '(o, c) ← on_connection c silence prepare_for_pool;
  call o ;;
  modify (fun w => w <| connection_pool_ ::= fun p =>
    if size (idle_ p) <? max_idle_ p then mk_pool (max_idle_ p) (idle_ p ++ [client c]) else p |>).

(** The locals of [run]: [draining] and the deadline, set when it starts. *)
Abbreviation Draining := (option Z).

(** ** The listener *)

Section worker.
Context `{MapOrder bytes, MapOrder (list bytes)} (env : Environment).
Context (inet_pton : Family -> bytes -> option bytes) (inet_ntop : Family -> bytes -> option bytes).

(** The order in which the clients, an [std::unordered_map], are visited. *)
Context (client_order : gmap Z Client -> list Z).

Record SocketAddress : Type := mk_socket_address {
  address_family : Family;
  address_bytes : bytes;
  address_port : Z;
}.

Definition make_bind_address (host : bytes) (port : Z) : outcome SocketAddress :=
  match inet_pton AF_INET (c_str host) with
  | Some a => Ret (mk_socket_address AF_INET a port)
  | None =>
      match inet_pton AF_INET6 (c_str host) with
      | Some a => Ret (mk_socket_address AF_INET6 a port)
      | None => Raise ("host must be an IPv4 or IPv6 address for the current scaffold: " ++ String.string_of_list_byte host)%string
      end
  end.

(** The address of a peer. *)
Inductive PeerAddress : Type :=
| PeerIpv4 (a : bytes)
| PeerIpv6 (a : bytes)
| PeerOther.

(** [::ffff:a.b.c.d] *)
Definition is_v4_mapped (a : bytes) : bool :=
  bool_decide (take 12 a = replicate 10 Byte.x00 ++ [Byte.xff; Byte.xff]).

Definition render_client_ip (address : PeerAddress) : bytes :=
  match address with
  | PeerIpv4 a => default (str "0.0.0.0") (inet_ntop AF_INET a)
  | PeerIpv6 a =>
      if is_v4_mapped a then default (str "0.0.0.0") (inet_ntop AF_INET (drop 12 a))
      else default (str "::") (inet_ntop AF_INET6 a)
  | PeerOther => str "unknown"
  end.

(** A call that must succeed; the error is its name with [strerror]'s. *)
Definition required (what : string) : Work unit :=
  failure ← next_call;
  match failure with
  | Some e => throw (what ++ e)%string
  | None => mret tt
  end.

(** A [UniqueFd] closes its descriptor when an exception passes. *)
Definition owning_fd {A} (fd : Z) (m : Work A) : Work A :=
  try_catch m (fun e => on_world (close_fd fd) ;; throw e).

Definition create_listener : Work Z :=
  config ← get listener_config_;
  call (make_bind_address (host config) (port config)) ≫= fun _ : SocketAddress =>
  required "socket failed: " ;;
  fd ← on_world new_descriptor;
  owning_fd fd
    (required "setsockopt(SO_REUSEADDR) failed: " ;;
     (if reuse_port_enabled config then required "setsockopt(SO_REUSEPORT) failed: " else mret tt) ;;
     required "bind failed: " ;;
     required "listen failed: " ;;
     mret fd).

Definition add_listener_to_epoll : Work unit := required "epoll_ctl ADD listener failed: ".

(** What [run] does before its loop. *)
Definition start : Work unit :=
  required "epoll_create1 failed: " ;;
  epoll_fd ← on_world new_descriptor;
  modify (fun w => w <| worker_epoll_fd_ := epoll_fd |>) ;;
  listener ← create_listener;
  modify (fun w => w <| listener_ := listener |>) ;;
  add_listener_to_epoll.

Definition stop_accepting : Work unit :=
  fd ← get listener_;
  if fd <? 0 then mret tt
  else on_world (close_fd fd) ;; modify (fun w => w <| listener_ := -1 |>).

(** ** Accepting clients *)

(** The answers of [accept4], with those of the calls that follow; none means
    that it would block. *)
Inductive AcceptResult : Type :=
| Accepted (address : PeerAddress) (a : Answers)
| AcceptInterrupted
| AcceptFailed.

Definition add_client_to_epoll : Handle unit :=
  failure ← ask epoll_calls;
  match failure with
  | Some (Some e) => throw ("epoll_ctl ADD client failed: " ++ e)%string
  | _ => events ← field events_; modify (fun s => s <| client_interest := Z.lor events EPOLLRDHUP |>)
  end.

(** An accepted client whose address was admitted: the [try] block.  The
    socket options that [configure_client_socket] sets are optional. *)
Definition adopt_client (client_fd : Z) (config : ServerConfig) (client_ip : bytes) (a : Answers) : Work unit :=
  connection ← acquire;
  epoll_fd ← get worker_epoll_fd_;
  tls_context ← get (fun w => bool_decide (is_Some (live_tls_context (control_ w))));
  worker_id ← get id_;
  '(o, c) ← on_connection (mk_client connection no_traffic) a
    (reset client_fd epoll_fd config tls_context worker_id client_ip ;;
     add_client_to_epoll);
  match o with
  | Timeout => call Timeout
  | Ret _ => modify (fun w => w <| clients_ ::= insert client_fd c |>)
  | Raise _ =>
      on_security (fun s => (tt, close_connection client_ip s)) ;;
      release c
  end.

Fixpoint accept_ready_clients (results : list AcceptResult) : Work unit :=
  match results with
  | [] | AcceptFailed :: _ => mret tt
  | AcceptInterrupted :: results' => accept_ready_clients results'
  | Accepted address a :: results' =>
      client_fd ← on_world new_descriptor;
      config ← get (fun w => live_config (control_ w));
      match config with
      | None => on_world (close_fd client_fd)
      | Some config =>
          let client_ip := render_client_ip address in
          decision ← on_security (try_open_connection inet_pton client_ip config);
          (if bool_decide (decision = allowed) then adopt_client client_fd config client_ip a
           else on_world (close_fd client_fd)) ;;
          accept_ready_clients results'
      end
  end.

(** ** Releasing clients *)

Definition release_client (fd : Z) : Work unit :=
  found ← get (fun w => clients_ w !! fd);
  match found with
  | None => mret tt
  | Some c =>
      modify (fun w => w <| clients_ ::= delete fd |>) ;;
      on_security (fun s => (tt, close_connection (client_ip_ (client c)) s)) ;;
      release c
  end.

Definition close_all_clients : Work unit :=
  fds ← get (fun w => client_order (clients_ w));
  for_each fds release_client.

(** ** Configurations and timeouts *)

Definition set_client_config (config : ServerConfig) (c : Client) : Client :=
  mk_client ((client c) <| config_ := Some config |>) (traffic c).

Definition refresh_client_configs_if_needed : Work unit :=
  generation ← get (fun w => config_generation (control_ w));
  current ← get config_generation_;
  if generation =? current then mret tt
  else
    config ← get (fun w => live_config (control_ w));
    match config with
    | None => mret tt
    | Some config =>
        modify (fun w => w <| clients_ ::= fmap (set_client_config config) |> <| config_generation_ := generation |>)
    end.

(** One client in [enforce_client_timeouts]: whether it closed. *)
Definition enforce_timeout (now : Z) : Handle bool :=
  expired ← expire_if_timed_out env now;
  if expired : bool then
    unless_closed (modify_client_events env) ;;
    field closed
  else mret false.

(** The closed among [fds] after [m] has run on each. *)
Fixpoint visit_clients (m : Z -> Handle bool) (answers : Z -> Answers) (fds : list Z) : Work (list Z) :=
  match fds with
  | [] => mret []
  | fd :: fds' =>
      found ← get (fun w => clients_ w !! fd);
      match found with
      | None => visit_clients m answers fds'
      | Some c =>
          is_closed ← on_client fd c (answers fd) (m fd);
          rest ← visit_clients m answers fds';
          mret (if is_closed : bool then fd :: rest else rest)
      end
  end.

Definition enforce_client_timeouts (answers : Z -> Answers) : Work unit :=
  t ← on_world now;
  fds ← get (fun w => client_order (clients_ w));
  closed_clients ← visit_clients (fun _ => enforce_timeout t) answers fds;
  for_each closed_clients release_client.

(** ** The loop *)

(** The tokens that [epoll_wait] returns: a connection's is named by the
    descriptor of its client. *)
Inductive Token : Type :=
| ListenerToken (accepts : list AcceptResult)
| ClientToken (fd revents : Z) (a : Answers)
| UpstreamToken (fd revents : Z) (a : Answers).

(** What a token makes its connection do: whether it is closed afterwards. *)
Definition handle_token (t : Token) : Handle bool :=
  match t with
  | ListenerToken _ => mret false
  | ClientToken _ revents _ =>
      handle env revents ;;
      unless_closed (modify_client_events env) ;;
      field closed
  | UpstreamToken _ revents _ =>
      handle_upstream env revents ;;
      field closed
  end.

Fixpoint handle_tokens (ready : list Token) : Work (list Z) :=
  match ready with
  | [] => mret []
  | (ClientToken fd _ a as t) :: ready' | (UpstreamToken fd _ a as t) :: ready' =>
      found ← get (fun w => clients_ w !! fd);
      match found with
      | None => handle_tokens ready'
      | Some c =>
          is_closed ← on_client fd c a (handle_token t);
          rest ← handle_tokens ready';
          mret (if is_closed : bool then fd :: rest else rest)
      end
  | ListenerToken _ :: ready' => handle_tokens ready'
  end.

Definition accept_token (t : Token) : Work unit :=
  match t with
  | ListenerToken accepts => accept_ready_clients accepts
  | _ => mret tt
  end.

(** What happens while the worker sleeps in [epoll_wait]: other threads change
    the control block and the shared state, and hold the descriptors [fds]. *)
Record Elsewhere : Type := mk_elsewhere {
  elsewhere_control : RuntimeControl;
  elsewhere_security : SecurityState;
  elsewhere_proxies : ProxyState;
  elsewhere_turns : nat -> Attempt;
  elsewhere_fds : gset Z;
}.

Inductive Wait : Type :=
| Interrupted
| WaitFailed (what : string)
| Woken (ready : list Token).

(** One turn: whether the thread was asked to stop, what other threads do and
    what [epoll_wait] returns, and what calls answer while timeouts are
    enforced. *)
Record Turn : Type := mk_turn {
  stop_requested : bool;
  elsewhere : Elsewhere;
  wait : Wait;
  timeout_answers : Z -> Answers;
}.

(** The descriptors of the worker itself, and all that it holds. *)
Definition own_fds (w : Worker) : gset Z :=
  list_to_set (filter (fun fd => 0 <= fd) [worker_epoll_fd_ w; listener_ w]).

Definition client_fds (m : gmap Z Client) : gset Z :=
  ⋃ ((fun x => descriptors (client x.2)) <$> map_to_list m).

Definition sleep (e : Elsewhere) : Work unit := modify (fun w => w
  <| control_ := elsewhere_control e |>
  <| world := mk_world (world_clock (world w)) (elsewhere_security e) (elsewhere_proxies e) (elsewhere_turns e)
                (own_fds w ∪ client_fds (clients_ w) ∪ elsewhere_fds e) (world_unopened (world w)) |>).

Definition begin_draining : Work Z :=
  config ← get (fun w => live_config (control_ w));
  listener_config ← get listener_config_;
  let timeout_seconds := graceful_shutdown_timeout_seconds (default listener_config config) in
  t ← on_world now;
  stop_accepting ;;
  mret (t + nanoseconds timeout_seconds).

(** After [epoll_wait] has returned. *)
Definition serve (draining : Draining) (t : Turn) : Work unit :=
  match wait t with
  | Interrupted => mret tt
  | WaitFailed what => throw ("epoll_wait failed: " ++ what)%string
  | Woken ready =>
      refresh_client_configs_if_needed ;;
      (if decide (draining = None) then for_each ready accept_token else mret tt) ;;
      closed_clients ← handle_tokens ready;
      for_each closed_clients release_client ;;
      enforce_client_timeouts (timeout_answers t)
  end.

(** One turn of the loop: [None] to leave it. *)
Definition turn (draining : Draining) (t : Turn) : Work (option Draining) :=
  requested ← get (fun w => shutdown_requested (control_ w) || stop_requested t);
  draining ← (match draining with
              | None => if requested : bool then deadline ← begin_draining; mret (Some deadline) else mret None
              | Some deadline => mret (Some deadline)
              end : Work Draining);
  no_clients ← get (fun w => bool_decide (clients_ w = ∅));
  match draining with
  | Some deadline =>
      if no_clients : bool then mret None
      else
        t_now ← on_world now;
        if deadline <=? t_now then close_all_clients ;; mret None
        else sleep (elsewhere t) ;; serve draining t ;; mret (Some draining)
  | None => sleep (elsewhere t) ;; serve draining t ;; mret (Some draining)
  end.

(** The loop runs for as long as there are turns. *)
Fixpoint work_loop (turns : list Turn) (draining : Draining) : Work unit :=
  match turns with
  | [] => call Timeout
  | t :: turns' =>
      next ← turn draining t;
      match next with
      | None => mret tt
      | Some draining' => work_loop turns' draining'
      end
  end.

Definition work (turns : list Turn) : Work unit :=
  start ;;
  work_loop turns None ;;
  close_all_clients ;;
  stop_accepting.
End worker.
