(* ===== verification/Daemon.v ===== *)
(** * Daemon: the life of the server process

    Models [Server::run] and its helpers ([src/src/core/server.cpp], lines
    61-92, 509-566 and 5255-5360): the signal flags, the checks of the start,
    what a failed worker does, the loop that serves SIGHUP and SIGTERM, and
    the exit status.  What happens around the process - signals, the database
    file, OpenSSL, the workers that returned - is given with each pass of the
    loop; log lines are left out, but for the outcome of a reload. *)

From S2P Require Import Prelude Text Numbers Request Http1Frame Response StaticFiles Waf VirtualHost Config State Tls Security Worker.

(** ** Signals *)

Inductive Signal : Type := SIGTERM | SIGINT | SIGHUP.

#[export] Instance signal_eq_dec : EqDecision Signal.
Proof. solve_decision. Defined.

Definition signal_number (s : Signal) : Z := match s with SIGHUP => 1 | SIGINT => 2 | SIGTERM => 15 end.

(** The variables that the handler sets. *)
Record Flags : Type := mk_flags {
  g_shutdown_signal_requested : bool;
  g_reload_signal_requested : bool;
  g_last_signal : Z;
}.

Definition no_flags : Flags := mk_flags false false 0.

Definition handle_runtime_signal (f : Flags) (s : Signal) : Flags :=
  if bool_decide (s = SIGTERM) || bool_decide (s = SIGINT)
  then mk_flags true (g_reload_signal_requested f) (signal_number s)
  else if bool_decide (s = SIGHUP) then mk_flags (g_shutdown_signal_requested f) true (signal_number s)
  else mk_flags (g_shutdown_signal_requested f) (g_reload_signal_requested f) (signal_number s).

(** ** Comparing configurations *)

Definition add_changed_key {V} `{EqDecision V} (keys : list string) (key : string) (current next : V) : list string :=
  if bool_decide (current = next) then keys else keys ++ [key].

Fixpoint join_keys (keys : list string) : string :=
  match keys with
  | [] => ""
  | [key] => key
  | key :: keys' => (key ++ ", " ++ join_keys keys')%string
  end.

Definition live_reload_blockers (current next : ServerConfig) : list string :=
  let blockers := [] in
  let blockers := add_changed_key blockers "host" (host current) (host next) in
  let blockers := add_changed_key blockers "port" (port current) (port next) in
  let blockers := add_changed_key blockers "listen_backlog" (listen_backlog current) (listen_backlog next) in
  let blockers := add_changed_key blockers "worker_threads" (worker_threads current) (worker_threads next) in
  let blockers := add_changed_key blockers "epoll_max_events" (epoll_max_events current) (epoll_max_events next) in
  let blockers := add_changed_key blockers "reuse_port_enabled" (reuse_port_enabled current) (reuse_port_enabled next) in
  let blockers := add_changed_key blockers "connection_pool_size" (connection_pool_size current) (connection_pool_size next) in
  let blockers := add_changed_key blockers "http1_enabled" (http1_enabled current) (http1_enabled next) in
  add_changed_key blockers "tls_enabled" (tls_enabled current) (tls_enabled next).

(** The two files are [std::filesystem::path]s. *)
Definition tls_runtime_settings_changed (current next : ServerConfig) : bool :=
  negb (bool_decide (path_of (tls_certificate_file current) = path_of (tls_certificate_file next)))
  || negb (bool_decide (path_of (tls_private_key_file current) = path_of (tls_private_key_file next)))
  || negb (bool_decide (tls_min_version current = tls_min_version next))
  || negb (bool_decide (tls_max_version current = tls_max_version next))
  || negb (bool_decide (tls_cipher_list current = tls_cipher_list next))
  || negb (bool_decide (tls_ciphersuites current = tls_ciphersuites next))
  || negb (bool_decide (tls_alpn_protocols current = tls_alpn_protocols next))
  || negb (bool_decide (tls_sni_hosts current = tls_sni_hosts next))
  || negb (bool_decide (tls_sni_certificates current = tls_sni_certificates next))
  || negb (bool_decide (tls_sni_required current = tls_sni_required next)).

(** ** The process *)

Record Daemon : Type := mk_daemon {
  config_ : ServerConfig;
  flags : Flags;
  tls_context : option TlsContext;
  control : RuntimeControl;
}.

#[export] Instance eta_daemon : Eta Daemon := fun d => mk_daemon (config_ d) (flags d) (tls_context d) (control d).

#[export] Instance at_daemon_config : Update config_ := ltac:(derive_update).
#[export] Instance at_flags : Update flags := ltac:(derive_update).
#[export] Instance at_tls_context : Update tls_context := ltac:(derive_update).
#[export] Instance at_control : Update control := ltac:(derive_update).

(** What a pass of the loop finds around the process: the database file, or
    the error of SQLite if it cannot be opened, the file system and OpenSSL. *)
Record Surroundings : Type := mk_surroundings {
  database_file : bytes -> string + Database;
  regular_file : bytes -> outcome bool;
  openssl : OpenSsl;
}.

Section daemon.
Context (inet_pton : Family -> bytes -> option bytes).
Context (hardware_concurrency : Z).

Definition resolve_worker_count (config : ServerConfig) : Z :=
  if 0 <? worker_threads config then worker_threads config
  else if hardware_concurrency =? 0 then 1 else hardware_concurrency.

(** Whether some protocol is served to clients. *)
Definition serves_clients (config : ServerConfig) : bool :=
  let http2_transport_enabled :=
    http2_enabled config && (negb (tls_enabled config) || alpn_protocol_configured (tls_alpn_protocols config) (str "h2")) in
  http1_enabled config || http2_transport_enabled.

(** [run] up to the start of the workers. *)
Definition start_server (config : ServerConfig) (s : Surroundings) : outcome Daemon :=
  throw_if (negb (serves_clients config))
    "no client-served protocol is enabled: HTTP/1.1 is disabled, HTTP/2 is not available for the configured transport, and HTTP/3 is not implemented yet" ;;
  throw_if ((1 <? resolve_worker_count config) && negb (reuse_port_enabled config))
    "reuse_port_enabled=false cannot run multiple per-worker listeners; set worker_threads=1 or enable SO_REUSEPORT" ;;
  context ← (if tls_enabled config then Some <$> make_tls_context (openssl s) config else Ret None);
  Ret (mk_daemon config no_flags context (publish_tls_context context (publish_config config new_control))).

(** The body of a worker's thread, after [Worker::run] returned or threw. *)
Definition worker_returned (r : outcome unit) (c : RuntimeControl) : RuntimeControl :=
  match r with
  | Raise _ => c <| worker_failed := true |> <| shutdown_requested := true |>
  | _ => c
  end.

(** ** Reloading *)

Inductive Reload : Type :=
| Ignored (changed_keys : string)
| Applied
| ReloadFailed (what : string).

Definition load (s : Surroundings) (path : bytes) : outcome ServerConfig :=
  match database_file s path with
  | inl e => Raise e
  | inr db => fst <$> load_config_from_database inet_pton (regular_file s) path db
  end.

Definition reload (s : Surroundings) : M Daemon Reload :=
  try_catch
    (current ← get config_;
     next_config ← call (load s (database_path current));
     match live_reload_blockers current next_config with
     | (_ :: _) as blockers => mret (Ignored (join_keys blockers))
     | [] =>
         (if tls_enabled current && tls_runtime_settings_changed current next_config then
            context ← call (make_tls_context (openssl s) next_config);
            modify (fun d => d <| tls_context := Some context |> <| control ::= publish_tls_context (Some context) |>)
          else mret tt) ;;
         modify (fun d => d <| config_ := next_config |> <| control ::= publish_config next_config |>) ;;
         mret Applied
     end)
    (fun what => mret (ReloadFailed what)).

(** ** The loop

    One pass: the workers that returned and the signals that arrived since the
    last one, what the reload finds, and the signals that arrive until the
    flag for the shutdown is read. *)
Record Pass : Type := mk_pass {
  returned : list (outcome unit);
  signals : list Signal;
  surroundings : Surroundings;
  later_signals : list Signal;
}.

Definition deliver (l : list Signal) : M Daemon unit :=
  modify (fun d => d <| flags ::= fun f => foldl handle_runtime_signal f l |>).

Definition workers_return (l : list (outcome unit)) : M Daemon unit :=
  modify (fun d => d <| control ::= fun c => foldl (fun c r => worker_returned r c) c l |>).

(** What one pass did about SIGHUP; [None] leaves the loop. *)
Definition pass (p : Pass) : M Daemon (option (option Reload)) :=
  workers_return (returned p) ;;
  deliver (signals p) ;;
  stop ← get (fun d => shutdown_requested (control d));
  if stop : bool then mret None
  else
    requested ← get (fun d => g_reload_signal_requested (flags d));
    done ← (if requested : bool then
              modify (fun d => d <| flags ::= fun f => mk_flags (g_shutdown_signal_requested f) false (g_last_signal f) |>) ;;
              report ← reload (surroundings p);
              mret (Some report)
            else mret None : M Daemon (option Reload));
    deliver (later_signals p) ;;
    shutdown ← get (fun d => g_shutdown_signal_requested (flags d));
    if shutdown : bool then
      modify (fun d => d <| control ::= fun c => c <| shutdown_requested := true |> |>) ;;
      mret None
    else mret (Some done).

(** The loop runs for as long as there are passes. *)
Fixpoint serve_signals (passes : list Pass) : M Daemon unit :=
  match passes with
  | [] => call Timeout
  | p :: passes' =>
      next ← pass p;
      match next with
      | None => mret tt
      | Some _ => serve_signals passes'
      end
  end.

(** The status is read before the threads are joined: [last_returned] are the
    workers that return between the loop and the [return] statement. *)
Definition finish (last_returned : list (outcome unit)) : M Daemon Z :=
  workers_return last_returned ;;
  failed ← get (fun d => worker_failed (control d));
  mret (if failed : bool then 1 else 0).

Definition run (config : ServerConfig) (s : Surroundings) (passes : list Pass) (last_returned : list (outcome unit))
  : outcome Z :=
  d ← start_server config s;
  ((serve_signals passes ;; finish last_returned) d).1.
End daemon.
