(* ===== verification/Main.v ===== *)
(** * Main: the command line

    Models [src/src/main.cpp]: reading the arguments, writing configuration
    values, the reports, and the exit status.  The databases are a map from
    paths to their contents; SQLite creates a file that does not exist, and
    every statement is a transaction of its own, so what was written before an
    exception stays.  [Config] has the same operations as functions on the
    contents, without what a failed one leaves behind. *)

From S2P Require Import Prelude Text Numbers Config ConfigFacts State Protocol Tls Worker Daemon.

Definition project_name : bytes := str "Rimau Web Server".
Definition version : bytes := str "0.1.0".

Definition line (s : bytes) : bytes := s ++ [LF].

(** ** Reports *)

Definition print_help : bytes :=
  mjoin (line <$> ([project_name ++ str " " ++ version; [];
    str "Usage:";
    str "  rimau-server [--database path] [--check-config] [--protocols]";
    str "  rimau-server [--database path] --set key=value [--set key=value ...]"; [];
    str "Options:";
    str "  --database path  Load SQLite config database. Default: " ++ default_database_path;
    str "  --set key=value  Write a supported config value to SQLite, then exit.";
    str "  --check-config   Initialize, validate, and print SQLite config, then exit.";
    str "  --protocols      Print protocol implementation status, then exit.";
    str "  --version        Print version, then exit.";
    str "  --help           Print this help."; [];
    str "Supported config keys:"] ++ ((fun key => str "  " ++ key) <$> supported_config_keys))).

Definition print_capability (c : ProtocolCapability) : bytes :=
  let partial := negb (implemented c) && (contains (transport c) (str "partial") || contains (notes c) (str "partial")) in
  line (name c ++ str ": "
    ++ (if implemented c then str "implemented" else if partial then str "partial" else str "not implemented")
    ++ str ", configured=" ++ (if enabled c then str "enabled" else str "disabled")
    ++ str ", target_transport=" ++ transport c ++ str " - " ++ notes c).

Definition print_protocols (config : ServerConfig) : bytes :=
  mjoin (print_capability <$> protocol_capabilities config).

(** ** Arguments *)

Record Options : Type := mk_options {
  database_path : bytes;
  check_config : bool;
  show_protocols : bool;
  config_updates : list (bytes * bytes);
}.

Definition default_options : Options := mk_options default_database_path false false [].

(** The process ends while the arguments are read, with a status and what
    [std::cout] and [std::cerr] got, or goes on. *)
Inductive Parsed : Type :=
| Finished (status : Z) (out err : bytes)
| Command (options : Options).

Fixpoint parse_arguments (o : Options) (arguments : list bytes) : Parsed :=
  match arguments with
  | [] => Command o
  | argument :: rest =>
      if bool_decide (argument = str "--help") then Finished 0 print_help []
      else if bool_decide (argument = str "--version") then Finished 0 (line (project_name ++ str " " ++ version)) []
      else if bool_decide (argument = str "--protocols") then
        parse_arguments (mk_options (database_path o) (check_config o) true (config_updates o)) rest
      else if bool_decide (argument = str "--check-config") then
        parse_arguments (mk_options (database_path o) true (show_protocols o) (config_updates o)) rest
      else if bool_decide (argument = str "--database") then
        match rest with
        | [] => Finished 2 [] (line (str "--database requires a path"))
        | path :: rest' =>
            parse_arguments (mk_options path (check_config o) (show_protocols o) (config_updates o)) rest'
        end
      else if bool_decide (argument = str "--config") then
        Finished 2 [] (line (str "--config has been removed. Use --database with a SQLite database."))
      else if bool_decide (argument = str "--set") then
        match rest with
        | [] => Finished 2 [] (line (str "--set requires key=value"))
        | update :: rest' =>
            match find_byte (chr "=") update with
            | None | Some O => Finished 2 [] (line (str "--set requires key=value"))
            | Some separator =>
                parse_arguments (mk_options (database_path o) (check_config o) (show_protocols o)
                  (config_updates o ++ [(substr update 0 separator, drop (S separator) update)])) rest'
            end
        end
      else Finished 2 print_help (line (str "unknown argument: " ++ argument))
  end.

(** ** The program *)

Record Console : Type := mk_console {
  out : bytes;
  err : bytes;
  databases : gmap bytes Database;
}.

#[export] Instance eta_console : Eta Console := fun c => mk_console (out c) (err c) (databases c).

#[export] Instance at_out : Update out := ltac:(derive_update).
#[export] Instance at_databases : Update databases := ltac:(derive_update).

Definition print (s : bytes) : M Console unit := modify (fun c => c <| out ::= fun o => o ++ s |>).

Definition contents (path : bytes) (c : Console) : Database := default empty_database (databases c !! path).

(** Each connection to it has a database of its own. *)
Definition memory_path : bytes := str ":memory:".

Section main.
Context (inet_pton : Family -> bytes -> option bytes) (is_regular_file : bytes -> outcome bool).

(** What [create_directories] or [sqlite3_open_v2] say of a path. *)
Context (open_failure : bytes -> option string).

(** The server that runs on a configuration. *)
Context (server_run : ServerConfig -> outcome Z).

(** The constructor of [Database]. *)
Definition open_database (path : bytes) : M Console Database :=
  if bool_decide (path = []) then throw "database path is empty"
  else
    match open_failure path with
    | Some e => throw e
    | None =>
        if bool_decide (path = memory_path) then mret empty_database
        else
          db ← get (contents path);
          modify (fun c => c <| databases ::= insert path db |>) ;;
          mret db
    end.

(** What a statement wrote. *)
Definition commit (path : bytes) (db : Database) : M Console unit :=
  if bool_decide (path = memory_path) then mret tt else modify (fun c => c <| databases ::= insert path db |>).

Definition initialize_database (path : bytes) : M Console unit :=
  db ← open_database path;
  let db := create_schema db in
  commit path db ;;
  call (validate_schema_version db) ;;
  commit path (foldl insert_default db config_defaults).

(** A second connection, and the first statement on it: a database in memory
    is a new one, without the table. *)
Definition reopen_database (path : bytes) : M Console Database :=
  db ← open_database path;
  if bool_decide (path = memory_path) then throw "sqlite prepare failed: no such table: rimau_config"
  else mret db.

(** [UPDATE rimau_config SET value = ? WHERE key = ?] *)
Definition update_value (db : Database) (key value : bytes) : Database :=
  mk_database (alter (fun row => (c_str value, row.2)) (c_str key) (config_rows db)) (migrations db).

Definition store_value (path : bytes) (update : bytes * bytes) : M Console unit :=
  call (validate_config_value inet_pton update.1 update.2) ;;
  initialize_database path ;;
  db ← reopen_database path;
  commit path (update_value db update.1 update.2).

Fixpoint store_values (path : bytes) (updates : list (bytes * bytes)) : M Console unit :=
  match updates with
  | [] => mret tt
  | update :: updates' => store_value path update ;; store_values path updates'
  end.

Definition load_config (path : bytes) : M Console ServerConfig :=
  initialize_database path ;;
  db ← reopen_database path;
  config ← call (build_config inet_pton is_regular_file (read_config_values db));
  mret (set_database_path path config).

(** The [try] block. *)
Definition run_command (o : Options) : M Console Z :=
  store_values (database_path o) (config_updates o) ;;
  config ← load_config (database_path o);
  if negb (bool_decide (config_updates o = [])) then
    (if show_protocols o then print (print_protocols config) else print (line (describe_config config))) ;; mret 0
  else if show_protocols o then print (print_protocols config) ;; mret 0
  else if check_config o then print (line (describe_config config)) ;; mret 0
  else call (server_run config).

Definition main (arguments : list bytes) : M Console Z :=
  match parse_arguments default_options arguments with
  | Finished status o e => fun c => (Ret status, mk_console (out c ++ o) (err c ++ e) (databases c))
  | Command o => try_catch (run_command o) (fun _ => mret 1)
  end.
End main.

(** With the server process of [Daemon]. *)
Definition program (inet_pton : Family -> bytes -> option bytes) (open_failure : bytes -> option string)
    (hardware_concurrency : Z) (s : Surroundings) (passes : list Pass) (last_returned : list (outcome unit)) :
    list bytes -> M Console Z :=
  main inet_pton (regular_file s) open_failure (fun config => run inet_pton hardware_concurrency config s passes last_returned).
