(* ===== verification/MainSpec.v ===== *)
(** * MainSpec: what a command line does

    The grammar of the arguments, and the effects of the program on the
    databases, its output and its status. *)

From S2P Require Import Prelude Text Numbers Config ConfigFacts State Protocol Tls Worker Daemon Main.

(** ** The grammar *)

Inductive Item : Type :=
| Protocols
| CheckConfig
| DatabasePath (path : bytes)
| SetValue (key value : bytes).

Definition render (i : Item) : list bytes :=
  match i with
  | Protocols => [str "--protocols"]
  | CheckConfig => [str "--check-config"]
  | DatabasePath path => [str "--database"; path]
  | SetValue key value => [str "--set"; key ++ str "=" ++ value]
  end.

(** A key is not empty and has no equals sign. *)
Definition item_ok (i : Item) : Prop :=
  match i with SetValue key _ => key <> [] /\ chr "=" ∉ key | _ => True end.

Definition add_item (o : Options) (i : Item) : Options :=
  match i with
  | Protocols => mk_options (Main.database_path o) (check_config o) true (config_updates o)
  | CheckConfig => mk_options (Main.database_path o) true (show_protocols o) (config_updates o)
  | DatabasePath path => mk_options path (check_config o) (show_protocols o) (config_updates o)
  | SetValue key value => mk_options (Main.database_path o) (check_config o) (show_protocols o) (config_updates o ++ [(key, value)])
  end.

Definition options_of (items : list Item) : Options := foldl add_item default_options items.

(** A well-formed command line and its options. *)
Definition understood (arguments : list bytes) (o : Options) : Prop :=
  exists items, Forall item_ok items /\ arguments = mjoin (render <$> items) /\ o = options_of items.

Lemma parse_item o i rest :
  item_ok i -> parse_arguments o (render i ++ rest) = parse_arguments (add_item o i) rest.
Proof.
  destruct i as [| |path|key value]; intros Ok; [done..|]. destruct Ok as [Ne N].
  cbn [render app parse_arguments]. rewrite (bool_decide_true (str "--set" = str "--set")) by done.
  rewrite !bool_decide_false by done. cbn [add_item].
  change (str "=" ++ value) with (chr "=" :: value). rewrite (find_byte_app _ _ _ N).
  destruct key as [|x key]; [done|]. cbn [length]. unfold substr. rewrite drop_0.
  rewrite (take_app_length' (x :: key)) by done. by rewrite (drop_app_ge (x :: key)), Nat.sub_succ_l, Nat.sub_diag by (cbn [length]; lia).
Qed.

Lemma parse_understood items o : Forall item_ok items -> parse_arguments o (mjoin (render <$> items)) = Command (foldl add_item o items).
Proof.
  intros F. revert o. induction F as [|i items Ok F IH]; intros o; [done|].
  change (mjoin (render <$> i :: items)) with (render i ++ mjoin (render <$> items)). rewrite parse_item by done. apply IH.
Qed.

(** An argument that goes on is the beginning of an item. *)
Lemma parse_command n o arguments o' :
  (length arguments <= n)%nat -> parse_arguments o arguments = Command o' ->
  exists items, Forall item_ok items /\ arguments = mjoin (render <$> items) /\ o' = foldl add_item o items.
Proof.
  revert o arguments. induction n as [|n IH]; intros o arguments L.
  { destruct arguments; [|cbn in L; lia]. intros [= <-]. by exists []. }
  destruct arguments as [|a rest]; [intros [= <-]; by exists []|]. cbn in L.
  assert (Step : forall i rest', item_ok i -> a :: rest = render i ++ rest' -> (length rest' <= n)%nat ->
    parse_arguments (add_item o i) rest' = Command o' ->
    exists items, Forall item_ok items /\ a :: rest = mjoin (render <$> items) /\ o' = foldl add_item o items).
  { intros i rest' Ok E L' P. apply IH in P as (items & F & E' & ->); [|done]. exists (i :: items).
    split; [by constructor|]. split; [|done]. by rewrite E, E'. }
  cbn [parse_arguments]. do 2 (case_bool_decide; [done|]).
  case_bool_decide as A; [subst a; by apply (Step Protocols); [done|done|lia]|].
  case_bool_decide as A1; [subst a; by apply (Step CheckConfig); [done|done|lia]|].
  case_bool_decide as A2.
  { subst a. destruct rest as [|path rest]; [done|]. apply (Step (DatabasePath path)); [done|done|cbn in L; lia]. }
  case_bool_decide; [done|]. case_bool_decide as A3; [|done]. subst a. destruct rest as [|update rest]; [done|].
  destruct (find_byte (chr "=") update) as [[|i]|] eqn:Fb; [done| |done].
  apply (Step (SetValue (substr update 0 (S i)) (drop (S (S i)) update))).
  - cbn [item_ok]. apply find_byte_Some in Fb as [E N]. unfold substr. rewrite drop_0. split; [|done].
    intros Z. rewrite Z in E. destruct update as [|x u]; [done|]. cbn [take] in Z. done.
  - cbn [render app]. apply find_byte_Some in Fb as [E _]. unfold substr. rewrite drop_0. do 2 f_equal. exact E.
  - cbn in L. lia.
Qed.

Lemma understood_spec arguments o : parse_arguments default_options arguments = Command o <-> understood arguments o.
Proof.
  split.
  - intros P. apply (parse_command (length arguments)) in P as (items & F & E & ->); [|done]. by exists items.
  - intros (items & F & -> & ->). by apply parse_understood.
Qed.

Lemma parse_finished n o arguments status out err :
  (length arguments <= n)%nat -> parse_arguments o arguments = Finished status out err -> status = 0 \/ status = 2.
Proof.
  revert o arguments. induction n as [|n IH]; intros o arguments L; (destruct arguments as [|a rest]; [done|cbn in L]); [lia|].
  cbn [parse_arguments]. do 2 (destruct (bool_decide _); [intros [= <- _ _]; by left|]).
  destruct (bool_decide _); [apply IH; lia|]. destruct (bool_decide _); [apply IH; lia|].
  destruct (bool_decide _).
  { destruct rest; [intros [= <- _ _]; by right|]. apply IH. cbn in L. lia. }
  destruct (bool_decide _); [intros [= <- _ _]; by right|]. destruct (bool_decide _).
  { destruct rest as [|u rest]; [intros [= <- _ _]; by right|].
    destruct (find_byte _ u) as [[|i]|]; [intros [= <- _ _]; by right| |intros [= <- _ _]; by right]. apply IH. cbn in L. lia. }
  intros [= <- _ _]. by right.
Qed.

(** ** The effects *)

Section main.
Context (inet_pton : Family -> bytes -> option bytes) (is_regular_file : bytes -> outcome bool).
Context (open_failure : bytes -> option string) (server_run : ServerConfig -> outcome Z).
Abbreviation main := (main inet_pton is_regular_file open_failure server_run).
Abbreviation initialize_database := (initialize_database open_failure).
Abbreviation store_value := (store_value inet_pton open_failure).
Abbreviation store_values := (store_values inet_pton open_failure).
Abbreviation load_config := (load_config inet_pton is_regular_file open_failure).
Abbreviation load_from path := (load_config_from_database inet_pton is_regular_file path).

(** A path that a database can be opened at, other than one in memory. *)
Definition usable (path : bytes) : Prop := path <> [] /\ path <> memory_path /\ open_failure path = None.

(** Values stored one after the other. *)
Definition stored_all (db : Database) (updates : list (bytes * bytes)) : outcome Database :=
  foldO (fun db u => set_config_value inet_pton db u.1 u.2) db updates.

(** The contents after the initialization: all of it, or what preceded the
    check of the version. *)
Definition initialized (db : Database) : Database :=
  match initialize_config_database db with Ret db' => db' | _ => create_schema db end.

(** And after a value: one that is not valid changes nothing. *)
Definition after_value (db : Database) (key value : bytes) : Database :=
  match validate_config_value inet_pton key value, set_config_value inet_pton db key value with
  | Ret _, Ret db' => db'
  | Ret _, _ => initialized db
  | _, _ => db
  end.

(** Only the database of the command may change. *)
Record only (path : bytes) (db : Database) (c c' : Console) : Prop := {
  only_contents : contents path c' = db;
  only_others path' : path' <> path -> databases c' !! path' = databases c !! path';
}.

(** What the reports print; nothing is printed when the server runs. *)
Definition report (o : Options) (config : ServerConfig) : bytes :=
  if show_protocols o then print_protocols config
  else if check_config o || negb (bool_decide (config_updates o = [])) then line (describe_config config) else [].

(** The server runs when nothing else was asked for. *)
Definition serves (o : Options) : bool :=
  bool_decide (config_updates o = []) && negb (show_protocols o) && negb (check_config o).

(** What a command does to a usable database, with [k] of its values accepted. *)
Inductive effects (o : Options) (c : Console) : Z -> Console -> Prop :=
| value_refused k key value db e c' :
    stored_all (contents (Main.database_path o) c) (take k (config_updates o)) = Ret db ->
    config_updates o !! k = Some (key, value) -> set_config_value inet_pton db key value = Raise e ->
    only (Main.database_path o) (after_value db key value) c c' -> out c' = out c -> effects o c 1 c'
| config_refused db e c' :
    stored_all (contents (Main.database_path o) c) (config_updates o) = Ret db ->
    load_from (Main.database_path o) db = Raise e ->
    only (Main.database_path o) (initialized db) c c' -> out c' = out c -> effects o c 1 c'
| command_done db config db' status c' :
    stored_all (contents (Main.database_path o) c) (config_updates o) = Ret db ->
    load_from (Main.database_path o) db = Ret (config, db') ->
    only (Main.database_path o) db' c c' -> out c' = out c ++ report o config ->
    (if serves o then server_run config = Ret status \/ status = 1 /\ exists e, server_run config = Raise e
     else status = 0) ->
    effects o c status c'.

(** *** One operation *)

Lemma only_insert path db c c' : only path (contents path c') c c' -> only path db c (c' <| databases ::= insert path db |>).
Proof.
  intros [_ O]. constructor; [unfold contents; proj; by rewrite lookup_insert_eq|].
  intros path' N. proj. by rewrite lookup_insert_ne, O.
Qed.

Lemma only_trans path db db' c c1 c2 : only path db c c1 -> only path db' c1 c2 -> only path db' c c2.
Proof. intros [_ O1] [E O2]. constructor; [done|]. intros path' N. by rewrite O2, O1. Qed.

Lemma only_refl path c : only path (contents path c) c c.
Proof. by constructor. Qed.

Lemma open_usable path c :
  usable path -> exists c', open_database open_failure path c = (Ret (contents path c), c') /\
    only path (contents path c) c c' /\ out c' = out c.
Proof.
  intros (N & M & O). unfold open_database. rewrite bool_decide_false, O, bool_decide_false by done.
  unfold mbind, state_bind, get, modify. eexists. split; [reflexivity|]. split; [|by proj].
  apply only_insert, only_refl.
Qed.

Lemma commit_usable path db c : usable path -> commit path db c = (Ret tt, c <| databases ::= insert path db |>).
Proof. intros (_ & M & _). unfold commit. by rewrite bool_decide_false. Qed.

Lemma initialize_run path c :
  usable path -> exists c', initialize_database path c = ((fun _ => tt) <$> initialize_config_database (contents path c), c') /\
    only path (initialized (contents path c)) c c' /\ out c' = out c.
Proof.
  intros U. destruct (open_usable path c U) as (c1 & E1 & O1 & U1). unfold Main.initialize_database, mbind, state_bind.
  rewrite E1. cbv zeta. rewrite commit_usable by done. unfold call, initialized, initialize_config_database.
  assert (S1 : forall db, only path db c (c1 <| databases ::= insert path db |>))
    by (intros db; apply only_insert; by destruct O1; constructor).
  destruct (validate_schema_version _) as [[]|e|]; cbn [mbind outcome_bind fmap outcome_fmap].
  - rewrite commit_usable by done. eexists. split; [reflexivity|]. split; [|by proj]. apply only_insert.
    specialize (S1 (create_schema (contents path c))). by destruct S1; constructor.
  - eexists. split; [reflexivity|]. split; [apply S1|by proj].
  - eexists. split; [reflexivity|]. split; [apply S1|by proj].
Qed.

Lemma reopen_usable path c :
  usable path -> exists c', reopen_database open_failure path c = (Ret (contents path c), c') /\
    only path (contents path c) c c' /\ out c' = out c.
Proof.
  intros U. destruct (open_usable path c U) as (c' & E & O). exists c'. split; [|done].
  unfold reopen_database, mbind, state_bind. rewrite E. destruct U as (_ & M & _). by rewrite bool_decide_false.
Qed.

(** A value, as [Config] has it. *)
Lemma store_value_run path key value c :
  usable path -> exists c', store_value path (key, value) c
      = ((fun _ => tt) <$> set_config_value inet_pton (contents path c) key value, c') /\
    only path (after_value (contents path c) key value) c c' /\ out c' = out c.
Proof.
  intros U. unfold Main.store_value, mbind, state_bind, call. cbn [fst snd]. unfold after_value, set_config_value.
  destruct (validate_config_value inet_pton key value) as [[]|e|]; cbn [mbind outcome_bind fmap outcome_fmap];
    [|exists c; by split; [|split; [apply only_refl|]]..].
  destruct (initialize_run path c U) as (c1 & -> & O1 & U1). unfold initialized in *.
  destruct (initialize_config_database (contents path c)) as [db|e|]; cbn [mbind outcome_bind fmap outcome_fmap]; [|by exists c1..].
  destruct (reopen_usable path c1 U) as (c2 & -> & O2 & U2). rewrite (only_contents _ _ _ _ O1) in *.
  rewrite commit_usable by done. eexists. split; [reflexivity|]. split; [|proj; congruence].
  apply only_insert. pose proof (only_trans _ _ _ _ _ _ O1 O2) as [_ O]. by constructor.
Qed.

(** The configuration, as [Config] has it. *)
Lemma load_config_run path c :
  usable path -> exists c', load_config path c = (fst <$> load_from path (contents path c), c') /\
    only path (initialized (contents path c)) c c' /\ out c' = out c.
Proof.
  intros U. unfold Main.load_config, mbind, state_bind, call, load_config_from_database.
  destruct (initialize_run path c U) as (c1 & -> & O1 & U1). unfold initialized in *.
  destruct (initialize_config_database (contents path c)) as [db|e|]; cbn [mbind outcome_bind fmap outcome_fmap]; [|by exists c1..].
  destruct (reopen_usable path c1 U) as (c2 & -> & O2 & U2). rewrite (only_contents _ _ _ _ O1) in *.
  exists c2. split; [|split; [by eapply only_trans|congruence]].
  by destruct (build_config inet_pton is_regular_file (read_config_values db)).
Qed.

(** No operation succeeds on another path, or changes anything. *)
Lemma unusable_open path c :
  ~ usable path -> (exists e, open_database open_failure path c = (Raise e, c)) \/
    path = memory_path /\ open_database open_failure path c = (Ret empty_database, c).
Proof.
  intros N. unfold open_database. case_bool_decide as E; [left; by eexists|].
  destruct (open_failure path) as [e|] eqn:O; [left; by exists e|].
  case_bool_decide as M; [right; done|]. by destruct N.
Qed.

Lemma unusable_initialize path c :
  ~ usable path -> exists o, initialize_database path c = (o, c) /\
    (o = Ret tt -> forall c', exists e, reopen_database open_failure path c' = (Raise e, c')).
Proof.
  intros N. unfold Main.initialize_database, mbind, state_bind.
  destruct (unusable_open path c N) as [[e ->]|[-> ->]]; [by exists (Raise e)|].
  exists (Ret tt). split; [reflexivity|]. intros _ c'. unfold reopen_database, mbind, state_bind.
  destruct (unusable_open memory_path c' N) as [[e ->]|[_ ->]]; by eexists.
Qed.

Lemma unusable_value path update c :
  ~ usable path -> exists o, store_value path update c = (o, c) /\ o <> Ret tt.
Proof.
  intros N. unfold Main.store_value, mbind, state_bind, call.
  destruct (validate_config_value _ _ _); [|by eexists..].
  destruct (unusable_initialize path c N) as ([[]|e|] & -> & R); [|by eexists..].
  destruct (R eq_refl c) as [e ->]. by eexists.
Qed.

Lemma unusable_load path c :
  ~ usable path -> exists o, load_config path c = (o, c) /\ forall config, o <> Ret config.
Proof.
  intros N. unfold Main.load_config, mbind, state_bind.
  destruct (unusable_initialize path c N) as ([[]|e|] & -> & R); [|by eexists..].
  destruct (R eq_refl c) as [e ->]. by eexists.
Qed.

(** *** A command *)

Lemma store_values_run path updates c :
  usable path ->
  match store_values path updates c with
  | (Ret _, c') => exists db, stored_all (contents path c) updates = Ret db /\ only path db c c' /\ out c' = out c
  | (Raise e, c') =>
      exists k key value db, stored_all (contents path c) (take k updates) = Ret db /\
        updates !! k = Some (key, value) /\ set_config_value inet_pton db key value = Raise e /\
        only path (after_value db key value) c c' /\ out c' = out c
  | (Timeout, _) => True
  end.
Proof.
  intros U. revert c. induction updates as [|[key value] updates IH]; intros c; cbn [Main.store_values].
  { exists (contents path c). by split; [|split; [apply only_refl|]]. }
  unfold mbind, state_bind. destruct (store_value_run path key value c U) as (c1 & -> & O1 & U1).
  assert (V : forall db, set_config_value inet_pton (contents path c) key value = Ret db ->
    after_value (contents path c) key value = db).
  { intros db E. unfold after_value. rewrite E. unfold set_config_value in E. inv_ret. by rewrite Hx. }
  destruct (set_config_value inet_pton (contents path c) key value) as [db|e|] eqn:Set1; cbn [fmap outcome_fmap]; [| |done].
  - rewrite (V db eq_refl) in O1. specialize (IH c1). rewrite (only_contents _ _ _ _ O1) in IH.
    destruct (store_values path updates c1) as [[[]|e|] c2]; [| |done].
    + destruct IH as (db' & St & O2 & U2). exists db'. split; [unfold stored_all; cbn [foldO fst snd]; by rewrite Set1|].
      split; [by eapply only_trans|congruence].
    + destruct IH as (k & key' & value' & db' & St & Lk & Set2 & O2 & U2). exists (S k), key', value', db'.
      split; [unfold stored_all; cbn [take foldO fst snd]; by rewrite Set1|].
      split; [done|]. split; [done|]. split; [by eapply only_trans|congruence].
  - exists 0%nat, key, value, (contents path c). by split_and!.
Qed.

(** The rest of a command, once its configuration is loaded. *)
Lemma reported o c db config db' c1 status c' :
  stored_all (contents (Main.database_path o) c) (config_updates o) = Ret db ->
  load_from (Main.database_path o) db = Ret (config, db') ->
  only (Main.database_path o) db' c c1 -> out c1 = out c ->
  try_catch
    (if negb (bool_decide (config_updates o = [])) then
       (if show_protocols o then print (print_protocols config) else print (line (describe_config config))) ;; mret 0
     else if show_protocols o then print (print_protocols config) ;; mret 0
     else if check_config o then print (line (describe_config config)) ;; mret 0
     else call (server_run config)) (fun _ => mret 1) c1 = (Ret status, c') ->
  effects o c status c'.
Proof.
  intros St L On U R.
  assert (Say : forall s, only (Main.database_path o) db' c (c1 <| out ::= fun x => x ++ s |>) /\
    out (c1 <| out ::= fun x => x ++ s |>) = out c ++ s).
  { intros s. split; [|proj; by rewrite U]. destruct On as [On1 On2]. constructor; [|done]. by rewrite <- On1. }
  unfold try_catch, mbind, state_bind in R.
  destruct (Say (report o config)) as [Say1 Say2].
  apply (command_done o c db config db'); try done; unfold report, serves, print, modify in *;
    destruct (bool_decide (config_updates o = [])); cbn [negb andb orb] in *; destruct (show_protocols o); cbn [negb andb orb] in *;
    try destruct (check_config o); cbn [negb andb orb] in *; unfold call in R.
  all: try (injection R as <- <-; done).
  all: destruct (server_run config) as [s|e|]; [| |done]; injection R as <- <-; rewrite ?app_nil_r; try done; auto.
  right. by split; [|exists e].
Qed.

(** C28. A command line does what it says, and nothing when it is not
    understood.  A line that is not a sequence of known options with their
    operands leaves every database as it was and ends with status 2 - or 0,
    for help and version.  Otherwise, with a database that can be opened, the
    values are stored in order up to the first that is refused, in the named
    database only; the configuration is loaded, which first gives the database
    its schema and the defaults it lacks, and leaves them there when the
    configuration is then refused; the report that was asked for is printed;
    the server runs when nothing else was asked for; and the status is 1 for
    whatever failed.  With an empty path, one that cannot be opened or
    [:memory:] every command fails with status 1 and changes nothing. *)
Theorem command_line_effects (arguments : list bytes) (c c' : Console) (status : Z) :
  main arguments c = (Ret status, c') ->
  (exists o, understood arguments o /\
     (usable (Main.database_path o) /\ effects o c status c' \/
      ~ usable (Main.database_path o) /\ status = 1 /\ c' = c)) \/
  ((forall o, ~ understood arguments o) /\ databases c' = databases c /\ (status = 0 \/ status = 2)).
Proof.
  unfold Main.main. destruct (parse_arguments default_options arguments) as [s o e|o] eqn:P.
  { intros [= <- <-]. right. split; [intros o' U%understood_spec; congruence|]. split; [done|].
    by eapply (parse_finished (length arguments)). }
  intros R. left. exists o. split; [by apply understood_spec|].
  assert (D : Decision (usable (Main.database_path o))) by (unfold usable; apply _).
  destruct D as [Us|Us]; [left|right]; (split; [exact Us|]).
  - pose proof (store_values_run (Main.database_path o) (config_updates o) c Us) as St.
    unfold run_command, try_catch, mbind, state_bind in R.
    destruct (store_values (Main.database_path o) (config_updates o) c) as [[[]|e|] c1]; [| |done].
    2: { destruct St as (k & key & value & db & St & Lk & Set1 & On & U). injection R as <- <-. by eapply value_refused. }
    destruct St as (db & St & On & U). destruct (load_config_run (Main.database_path o) c1 Us) as (c2 & L & On2 & U2).
    rewrite L, (only_contents _ _ _ _ On) in *. pose proof (only_trans _ _ _ _ _ _ On On2) as On3.
    destruct (load_from (Main.database_path o) db) as [[config db']|e|] eqn:E; cbn [fmap outcome_fmap fst] in R; [| |done].
    + eapply (reported o c db config db' c2); [done|done| |congruence|exact R].
      unfold initialized in On3. unfold load_config_from_database in E. inv_ret. subst. by rewrite Hx in On3.
    + injection R as <- <-. eapply config_refused; [done|done|done|congruence].
  - unfold run_command, try_catch, mbind, state_bind in R. destruct (config_updates o) as [|u updates]; cbn [Main.store_values] in R.
    + cbn [mret state_ret] in R. destruct (unusable_load (Main.database_path o) c Us) as (r & L & F). rewrite L in R.
      destruct r as [config|e|]; [by destruct (F config)| |done]. by injection R as <- <-.
    + unfold mbind, state_bind in R. destruct (unusable_value (Main.database_path o) u c Us) as (r & L & F). rewrite L in R.
      destruct r as [[]|e|]; [done| |done]. by injection R as <- <-.
Qed.
End main.

(** ** Witness *)

(** The second value is refused; the first stays. *)
Definition two_values : list bytes := str <$> ["--database"; "x.db"; "--set"; "server_name=renamed"; "--set"; "port=none"]%string.

(** A valid value with which the configuration is refused: it stays as well,
    with the defaults of the other keys. *)
Definition refused_configuration : list bytes := str <$> ["--database"; "x.db"; "--set"; "tls_alpn_protocols=h3"]%string.

Definition no_path : list bytes := str <$> ["--database"; ""; "--check-config"]%string.
Definition in_memory : list bytes := str <$> ["--check-config"; "--database"; ":memory:"]%string.

Definition empty_console : Console := mk_console [] [] ∅.

Abbreviation example_main := (main (fun _ _ => None) (fun _ => Ret true) (fun _ => None) (fun _ => Ret 0)).
Abbreviation example_effects := (effects (fun _ _ => None) (fun _ => Ret true) (fun _ => Ret 0)).

(** What the run left in a row of [x.db]. *)
Definition row_left (arguments : list bytes) (key : string) : option bytes :=
  fst <$> (config_rows (contents (str "x.db") (example_main arguments empty_console).2) !! str key).

Lemma in_memory_fails : example_main in_memory empty_console = (Ret 1, empty_console).
Proof. vm_compute. reflexivity. Qed.

Lemma command_line_effects_witness :
  (exists o, understood two_values o /\ example_effects o empty_console 1 (example_main two_values empty_console).2) /\
  row_left two_values "server_name" = Some (str "renamed") /\
  (exists o, understood refused_configuration o /\
     example_effects o empty_console 1 (example_main refused_configuration empty_console).2) /\
  row_left refused_configuration "tls_alpn_protocols" = Some (str "h3") /\
  row_left refused_configuration "port" = Some (str "8080") /\
  (example_main no_path empty_console).2 = empty_console.
Proof.
  assert (E1 : (example_main two_values empty_console).1 = Ret 1) by (vm_compute; reflexivity).
  assert (E2 : (example_main refused_configuration empty_console).1 = Ret 1) by (vm_compute; reflexivity).
  assert (E3 : (example_main no_path empty_console).1 = Ret 1) by (vm_compute; reflexivity).
  pose proof (fun arguments => command_line_effects (fun _ _ => None) (fun _ => Ret true) (fun _ => None) (fun _ => Ret 0)
    arguments empty_console (example_main arguments empty_console).2 1) as Effects.
  assert (Run : forall arguments, (example_main arguments empty_console).1 = Ret 1 ->
    example_main arguments empty_console = (Ret 1, (example_main arguments empty_console).2))
    by (intros arguments <-; by destruct (example_main arguments empty_console)).
  assert (Changed : forall arguments, row_left arguments "server_name" <> None ->
    (example_main arguments empty_console).2 <> empty_console).
  { intros arguments N E. apply N. unfold row_left. rewrite E. vm_compute. reflexivity. }
  assert (Some1 : row_left two_values "server_name" <> None) by (vm_compute; discriminate).
  assert (Some2 : row_left refused_configuration "server_name" <> None) by (vm_compute; discriminate).
  apply Changed in Some1, Some2. apply Run in E1, E2, E3.
  split; [|split; [vm_compute; reflexivity|split; [|split; [vm_compute; reflexivity|split; [vm_compute; reflexivity|]]]]].
  - destruct (Effects two_values E1) as [(o & U & [[_ F]|(_ & _ & S)])|(_ & _ & [|])];
      [exists o; split; [exact U|exact F]|destruct (Some1 S)|discriminate|discriminate].
  - destruct (Effects refused_configuration E2) as [(o & U & [[_ F]|(_ & _ & S)])|(_ & _ & [|])];
      [exists o; split; [exact U|exact F]|destruct (Some2 S)|discriminate|discriminate].
  - destruct (Effects no_path E3) as [(o & U & [[[Ne _] _]|(_ & _ & S)])|(_ & _ & [|])]; [|exact S|discriminate|discriminate].
    apply understood_spec in U. assert (P : parse_arguments default_options no_path = Command (mk_options [] true false [])) by reflexivity.
    rewrite P in U. injection U as <-. by destruct Ne.
Defined.
