(* ===== verification/ConnectionFacts.v ===== *)
(** * ConnectionFacts: what holds of a connection in every reachable state *)

From S2P Require Import Prelude Text Numbers Request Http1Frame Response StaticFiles Handler BodyStream Waf VirtualHost ReverseProxy Http2Session Config Security WebSocket State Connection ProxyExchange WebSocketProxy Reactor.

(** ** Operations that touch neither the connection nor its descriptors *)

Record same_core (s s' : Server) : Prop := {
  same_connection : connection s' = connection s;
  same_fds : open_fds s' = open_fds s;
  same_unopened : closed_unopened s' = closed_unopened s;
  same_out : client_out s' = client_out s;
}.

#[export] Instance same_core_refl : Reflexive same_core.
Proof. by intros s. Qed.

#[export] Instance same_core_trans : Transitive same_core.
Proof. intros s1 s2 s3 [] []. constructor; congruence. Qed.

Definition neutral {A} (m : Handle A) : Prop := forall s, same_core s (m s).2.

Create HintDb neutral.

Lemma neutral_ret {A} (a : A) : neutral (mret a).
Proof. by intros s. Qed.
Lemma neutral_throw {A} e : neutral (@throw Server A e).
Proof. by intros s. Qed.
Lemma neutral_call {A} (o : outcome A) : neutral (call o).
Proof. by intros s. Qed.
Lemma neutral_field {T} (f : ClientConnection -> T) : neutral (field f).
Proof. by intros s. Qed.
Lemma neutral_config : neutral the_config.
Proof. by intros s. Qed.
Lemma neutral_in_phase p : neutral (in_phase p).
Proof. by intros s. Qed.
Lemma neutral_now : neutral now.
Proof. by intros s. Qed.
Lemma neutral_ask {X} (q : Answers -> list X) `{!Update q} : neutral (ask q).
Proof. by intros s. Qed.
Lemma neutral_take_all {X} (q : Answers -> list X) `{!Update q} : neutral (take_all q).
Proof. by intros s. Qed.
Lemma neutral_put_back {X} (q : Answers -> list X) `{!Update q} l : neutral (put_back q l).
Proof. by intros s. Qed.
Lemma neutral_bind {A B} (m : Handle A) (f : A -> Handle B) :
  neutral m -> (forall a, neutral (f a)) -> neutral (m ≫= f).
Proof.
  intros Hm Hf s. specialize (Hm s). unfold mbind, state_bind. destruct (m s) as [[a|e|] s']; [|done..].
  cbn in *. etransitivity; [exact Hm|apply Hf].
Qed.
Lemma neutral_circuit f : neutral (circuit f).
Proof. by intros s. Qed.
#[export] Hint Resolve neutral_ret neutral_throw neutral_call neutral_field neutral_config neutral_in_phase
  neutral_now @neutral_ask @neutral_take_all @neutral_put_back neutral_circuit : neutral.
#[export] Hint Extern 2 (neutral (mbind _ _)) => apply neutral_bind; [|intros ?] : neutral.
#[export] Hint Extern 3 (neutral (if ?c then _ else _)) => destruct c : neutral.
#[export] Hint Extern 3 (neutral (match ?c with _ => _ end)) => destruct c : neutral.

Lemma neutral_rate_limited : neutral rate_limited.
Proof.
  apply neutral_bind; [auto with neutral|]. intros [].
  2: auto with neutral. cbn. do 3 (apply neutral_bind; [auto with neutral|]; intros ?).
  intros s. unfold shared. destruct (allow_request _ _ _ _). done.
Qed.
Lemma neutral_upstream_available u settings : neutral (upstream_available u settings).
Proof.
  apply neutral_bind; [auto with neutral|]. intros t s. unfold shared.
  by destruct (reverse_proxy_upstream_available _ _ _ _).
Qed.
Lemma neutral_order r ups settings : neutral (order_upstreams r ups settings).
Proof. intros s. unfold order_upstreams, shared. by destruct (ordered_reverse_proxy_upstreams _ _ _ _). Qed.
Lemma neutral_record_failure u settings : neutral (record_failure u settings).
Proof. unfold record_failure. auto with neutral. Qed.
Lemma neutral_record_success u settings : neutral (record_success u settings).
Proof. apply neutral_circuit. Qed.
#[export] Hint Resolve neutral_rate_limited neutral_upstream_available neutral_order neutral_record_failure
  neutral_record_success : neutral.

Lemma neutral_run_transaction `{MapOrder bytes, MapOrder (list bytes)} env r : neutral (run_transaction env r).
Proof.
  do 3 (apply neutral_bind; [auto with neutral|]; intros ?). intros s. unfold shared_call.
  by destruct (virtual_host_on_request _ _ _ _ _ _ _ _ _ _ _) as [[]| |].
Qed.
#[export] Hint Resolve neutral_run_transaction : neutral.

Lemma wp_neutral {A} (m : Handle A) (Q : A -> Server -> Prop) (E : Server -> Prop) s :
  neutral m -> (forall a s', same_core s s' -> Q a s') -> (forall s', same_core s s' -> E s') -> wp m (post Q E) s.
Proof. intros N HQ HE. unfold wp. specialize (N s). destruct (m s) as [[a|e|] s']; cbn in *; auto. Qed.

(** ** The states of a connection

    [limit] bounds [http_keep_alive_max_requests] in every configuration that
    is published; [P] is what the client has been promised so far: what was
    sent, followed by what waits to be sent. *)

Section states.
Context (limit : Z) (P : bytes).

Definition config_ok (config : ServerConfig) : Prop := 0 < http_keep_alive_max_requests config <= limit.

(** What holds of every connection between [reset] and [prepare_for_pool]. *)
Record live (s : Server) : Prop := {
  live_config : exists config, config_ (connection s) = Some config /\ config_ok config;
  live_unopened : closed_unopened s = [];
  live_fd : 0 <= fd_ (connection s) /\ fd_ (connection s) ∈ open_fds s;
  live_served : 0 <= requests_served_ (connection s) <= limit;
}.

(** A descriptor that is not in use, or is open and nobody else's. *)
Definition owned (fd : Z) (s : Server) : Prop := fd = -1 \/ (0 <= fd /\ fd ∈ open_fds s /\ fd <> fd_ (connection s)).

Record no_response (c : ClientConnection) : Prop := {
  no_response_buffer : response_buffer_ c = [];
  no_response_offset : response_offset_ c = 0%nat;
  no_keep_alive : keep_alive_after_response_ c = false;
  no_websocket : websocket_after_response_ c = false;
  no_websocket_proxy : websocket_proxy_after_response_ c = false;
}.

Record no_relay (c : ClientConnection) : Prop := {
  no_websocket_upstream : websocket_upstream_fd_ c = -1;
  no_to_client : websocket_proxy_upstream_to_client_ c = [];
  no_to_client_offset : websocket_proxy_upstream_to_client_offset_ c = 0%nat;
}.

Definition no_proxy (c : ClientConnection) : Prop := reverse_proxy_upstream_fd_ c = -1.

(** Another request may follow. *)
Definition budget (c : ClientConnection) : Prop := requests_served_ c = 0 \/ requests_served_ c < limit.

(** Nothing to send and nobody to forward to. *)
Record silent (s : Server) : Prop := {
  silent_live : live s;
  silent_response : no_response (connection s);
  silent_relay : no_relay (connection s);
  silent_proxy : no_proxy (connection s);
  silent_sent : P `prefix_of` client_out s;
}.

Definition plain_http (c : ClientConnection) : Prop :=
  http1_body_stream_ c <> None -> http2_active_ c = false.

Record reading (s : Server) : Prop := {
  reading_phase : phase_ (connection s) = ClientPhase.reading;
  reading_silent : silent s;
  reading_budget : budget (connection s);
  reading_stream : plain_http (connection s);
}.

(** Proxying, with an upstream or between two. *)
Record proxying (s : Server) : Prop := {
  proxying_phase : phase_ (connection s) = ClientPhase.reverse_proxy;
  proxying_live : live s;
  proxying_response : no_response (connection s);
  proxying_relay : no_relay (connection s);
  proxying_upstream : owned (reverse_proxy_upstream_fd_ (connection s)) s;
  proxying_sent : P `prefix_of` client_out s;
  proxying_budget : reverse_proxy_keep_alive_ (connection s) = true -> budget (connection s);
  proxying_stream : http1_body_stream_ (connection s) = None;
  proxying_http1 : http2_active_ (connection s) = false;
  proxying_request : is_Some (reverse_proxy_request_ (connection s));
  proxying_index : (reverse_proxy_attempt_index_ (connection s)
                      <= length (reverse_proxy_ordered_upstreams_ (connection s)))%nat;
}.

(** Waiting for the current upstream. *)
Record exchanging (s : Server) : Prop := {
  exchanging_proxying : proxying s;
  exchanging_upstream : 0 <= reverse_proxy_upstream_fd_ (connection s);
  exchanging_registered : reverse_proxy_upstream_registered_ (connection s) = true;
  exchanging_stage : reverse_proxy_stage_ (connection s) <> ReverseProxyStage.idle;
  exchanging_offset : (reverse_proxy_upstream_request_offset_ (connection s)
                         <= length (reverse_proxy_upstream_request_ (connection s)))%nat;
  exchanging_written : reverse_proxy_stage_ (connection s) = ReverseProxyStage.reading_response ->
    reverse_proxy_upstream_request_offset_ (connection s) = length (reverse_proxy_upstream_request_ (connection s));
}.

Definition rest_of_response (c : ClientConnection) : bytes := drop (response_offset_ c) (response_buffer_ c).
Definition rest_of_relay (c : ClientConnection) : bytes :=
  drop (websocket_proxy_upstream_to_client_offset_ c) (websocket_proxy_upstream_to_client_ c).

(** What the client has been sent or will be sent. *)
Definition promised (s : Server) : bytes :=
  client_out s ++ rest_of_response (connection s) ++ rest_of_relay (connection s).

(** Sending a response: at most one continuation is chosen. *)
Record sending (s : Server) : Prop := {
  sending_live : live s;
  sending_offset : (response_offset_ (connection s) <= length (response_buffer_ (connection s)))%nat;
  sending_promised : P `prefix_of` promised s;
  sending_proxy : no_proxy (connection s);
  sending_budget : keep_alive_after_response_ (connection s) = true -> budget (connection s);
  sending_stream : keep_alive_after_response_ (connection s) = true -> http1_body_stream_ (connection s) = None;
  sending_once : keep_alive_after_response_ (connection s) = true ->
    websocket_after_response_ (connection s) = false /\ websocket_proxy_after_response_ (connection s) = false;
  sending_websocket : websocket_after_response_ (connection s) = true ->
    websocket_proxy_after_response_ (connection s) = false;
  sending_relay : if websocket_proxy_after_response_ (connection s)
    then owned (websocket_upstream_fd_ (connection s)) s /\ 0 <= websocket_upstream_fd_ (connection s)
         /\ websocket_upstream_registered_ (connection s) = true
    else no_relay (connection s);
}.

Record on_websocket (s : Server) : Prop := {
  on_websocket_live : live s;
  on_websocket_offset : (response_offset_ (connection s) <= length (response_buffer_ (connection s)))%nat;
  on_websocket_promised : P `prefix_of` promised s;
  on_websocket_proxy : no_proxy (connection s);
  on_websocket_relay : no_relay (connection s);
  on_websocket_flags : websocket_after_response_ (connection s) = false /\
    websocket_proxy_after_response_ (connection s) = false;
}.

Record relaying (s : Server) : Prop := {
  relaying_live : live s;
  relaying_response : response_buffer_ (connection s) = [];
  relaying_proxy : no_proxy (connection s);
  relaying_promised : P `prefix_of` promised s;
  relaying_upstream : owned (websocket_upstream_fd_ (connection s)) s /\ 0 <= websocket_upstream_fd_ (connection s);
  relaying_registered : websocket_upstream_registered_ (connection s) = true;
  relaying_flags : websocket_after_response_ (connection s) = false /\
    websocket_proxy_after_response_ (connection s) = false;
}.

Record ending (s : Server) : Prop := {
  ending_live : live s;
  ending_websocket_upstream : websocket_upstream_fd_ (connection s) = -1;
  ending_proxy : no_proxy (connection s);
}.

Definition wf (s : Server) : Prop :=
  match phase_ (connection s) with
  | ClientPhase.tls_handshake =>
      silent s /\ budget (connection s) /\ http1_body_stream_ (connection s) = None
      /\ http2_active_ (connection s) = false
  | ClientPhase.reading => reading s
  | ClientPhase.writing => sending s
  | ClientPhase.websocket => on_websocket s
  | ClientPhase.websocket_proxy => relaying s
  | ClientPhase.reverse_proxy => exchanging s
  | ClientPhase.tls_shutdown => ending s /\ promised s = client_out s /\ P `prefix_of` client_out s
  | ClientPhase.closed => ending s
  end.
End states.

(** ** Symbolic execution *)

Definition never (s : Server) : Prop := False.

(** Neutral and without exceptions. *)
Definition harmless {A} (m : Handle A) : Prop := forall s, wp m (post (fun _ => same_core s) never) s.

Lemma harmless_run {A} (m : Handle A) : (forall s, exists a, (m s).1 = Ret a) -> neutral m -> harmless m.
Proof. intros R N s. unfold wp. destruct (R s) as [a ->]. apply N. Qed.

Lemma harmless_ask {X} (q : Answers -> list X) `{!Update q} : harmless (ask q).
Proof. apply harmless_run; [by eexists|auto with neutral]. Qed.
Lemma harmless_take_all {X} (q : Answers -> list X) `{!Update q} : harmless (take_all q).
Proof. apply harmless_run; [by eexists|auto with neutral]. Qed.
Lemma harmless_now : harmless now.
Proof. apply harmless_run; [by eexists|auto with neutral]. Qed.
Lemma harmless_rate_limited : harmless rate_limited.
Proof.
  apply harmless_run; [|auto with neutral]. intros s. unfold rate_limited, mbind, state_bind, field, get, shared. cbn.
  destruct (security_state_ (connection s)); cbn; [|by eexists]. destruct (allow_request _ _ _ _). by eexists.
Qed.
Lemma harmless_upstream_available u settings : harmless (upstream_available u settings).
Proof.
  apply harmless_run; [|auto with neutral]. intros s. unfold upstream_available, mbind, state_bind, shared. cbn.
  destruct (reverse_proxy_upstream_available _ _ _ _). by eexists.
Qed.
Lemma harmless_order r ups settings : harmless (order_upstreams r ups settings).
Proof.
  apply harmless_run; [|auto with neutral]. intros s. unfold order_upstreams, shared.
  destruct (ordered_reverse_proxy_upstreams _ _ _ _). by eexists.
Qed.
Lemma harmless_record_failure u settings : harmless (record_failure u settings).
Proof. apply harmless_run; [by eexists|auto with neutral]. Qed.
Lemma harmless_record_success u settings : harmless (record_success u settings).
Proof. apply harmless_run; [by eexists|auto with neutral]. Qed.

Create HintDb harmless.
#[export] Hint Resolve @harmless_ask @harmless_take_all harmless_now harmless_rate_limited
  harmless_upstream_available harmless_order harmless_record_failure harmless_record_success : harmless.

Lemma wp_harmless {A B} (m : Handle A) (f : A -> Handle B) Q E s :
  harmless m -> (forall a s', same_core s s' -> wp (f a) (post Q E) s') -> wp (m ≫= f) (post Q E) s.
Proof.
  intros Hm K. apply (wp_post_seq _ _ (fun _ => same_core s)); [|done].
  eapply wp_post_mono; [apply Hm|done|]. intros s' [].
Qed.

Lemma wp_assume_never {A} (m : Handle A) Q E s : wp m (post Q never) s -> wp m (post Q E) s.
Proof. intros W. eapply wp_post_mono; [exact W|done|]. intros s' []. Qed.

Lemma wp_seq {A B} (m : Handle A) (f : A -> Handle B) (R : A -> Server -> Prop) Q E s :
  wp m (post R never) s -> (forall a s', R a s' -> wp (f a) (post Q E) s') -> wp (m ≫= f) (post Q E) s.
Proof. intros W K. apply (wp_post_seq _ _ R); [by apply wp_assume_never|done]. Qed.

Lemma wp_now Q s : Q (Ret (clock s 0%nat)) (s <| clock := fun n => clock s (S n) |>) -> wp now Q s.
Proof. done. Qed.

Lemma wp_take_all {X} (q : Answers -> list X) `{!Update q} Q s :
  Q (Ret (q (answers s))) (s <| answers ::= update q (fun _ => []) |>) -> wp (take_all q) Q s.
Proof. done. Qed.

Lemma wp_ask {X} (q : Answers -> list X) `{!Update q} Q s :
  Q (Ret (head (q (answers s)))) (s <| answers ::= update q tail |>) -> wp (ask q) Q s.
Proof. done. Qed.

Ltac exec_prim :=
  lazymatch goal with
  | |- wp now _ _ => apply wp_now
  | |- wp (take_all _) _ _ => apply wp_take_all
  | |- wp (ask _) _ _ => apply wp_ask
  | |- wp (mret _) _ _ => apply wp_ret
  | |- wp (assign _ _) _ _ => apply wp_modify
  | |- wp (modify _) _ _ => apply wp_modify
  | |- wp (field _) _ _ => apply wp_get
  | |- wp the_config _ _ => apply wp_get
  | |- wp (in_phase _) _ _ => apply wp_get
  | |- wp (close_fd _) _ _ => apply wp_modify
  | |- wp (put_back _ _) _ _ => apply wp_modify
  | |- wp (throw _) _ _ => apply wp_throw
  | |- wp (call _) _ _ => apply wp_call
  | |- wp (mbind _ _) _ _ => apply wp_bind; exec_prim
  end.
Ltac exec := unfold close_if_open, enter_stage; repeat (exec_prim; cbv beta iota).

Section triples.
Context (limit : Z) (P : bytes).
Abbreviation silent := (silent limit P).
Abbreviation sending := (sending limit P).

Lemma wp_set_serialized_response payload keep_alive s :
  silent s ->
  (keep_alive = true -> budget limit (connection s) /\ http1_body_stream_ (connection s) = None) ->
  wp (set_serialized_response payload keep_alive)
     (post (fun _ s' => phase_ (connection s') = ClientPhase.writing /\ sending s') never) s.
Proof using.
  intros [[L1 L2 L3 L4] [R1 R2 R3 R4 R5] [W1 W2 W3] Px O] K. unfold set_serialized_response. exec. cbv [post].
  split; [by proj|]. constructor.
  - constructor; proj; done.
  - proj. lia.
  - unfold promised, rest_of_response, rest_of_relay. proj. by apply prefix_app_r.
  - unfold no_proxy. by proj.
  - unfold budget. proj. intros HK. by apply K in HK as [HK _].
  - proj. intros HK. by apply K.
  - proj. done.
  - by proj.
  - proj. rewrite R5. constructor; by proj.
Qed.

Lemma set_response_text `{MapOrder bytes} response body_mode keep_alive s :
  set_response response body_mode keep_alive s =
  set_serialized_response
    (response_text (default default_config (config_ (connection s))) (requests_served_ (connection s)) response
       body_mode keep_alive) keep_alive s.
Proof using. reflexivity. Qed.

Lemma wp_set_response `{MapOrder bytes} response body_mode keep_alive s :
  silent s ->
  (keep_alive = true -> budget limit (connection s) /\ http1_body_stream_ (connection s) = None) ->
  wp (set_response response body_mode keep_alive)
     (post (fun _ s' => phase_ (connection s') = ClientPhase.writing /\ sending s') never) s.
Proof using. intros S K. unfold wp. rewrite set_response_text. by apply wp_set_serialized_response. Qed.

Lemma wp_refuse `{MapOrder bytes} code text s :
  silent s -> wp (refuse code text)
    (post (fun _ s' => phase_ (connection s') = ClientPhase.writing /\ sending s') never) s.
Proof using. intros S. by apply wp_set_response. Qed.

Lemma wp_set_websocket_handshake `{MapOrder bytes} response s :
  silent s -> wp (set_websocket_handshake_response response)
    (post (fun _ s' => phase_ (connection s') = ClientPhase.writing /\ sending s') never) s.
Proof using.
  intros [[L1 L2 L3 L4] [R1 R2 R3 R4 R5] [W1 W2 W3] Px O].
  unfold set_websocket_handshake_response, set_handshake_response. exec. cbv [post].
  split; [by proj|]. constructor; try (proj; done).
  - proj. lia.
  - unfold promised, rest_of_response, rest_of_relay. proj. by apply prefix_app_r.
  - proj. rewrite R5. constructor; by proj.
Qed.

(** ** Closing *)

(** Closing the descriptor [fd] and updating the connection with [f]. *)
Record released (fd : Z) (f : ClientConnection -> ClientConnection) (s s' : Server) : Prop := {
  released_connection : connection s' = f (connection s);
  released_open : forall x, (0 <= fd -> x <> fd) -> x ∈ open_fds s -> x ∈ open_fds s';
  released_unopened : fd = -1 \/ fd ∈ open_fds s -> closed_unopened s' = closed_unopened s;
  released_out : client_out s' = client_out s;
  released_only : forall x, x ∈ open_fds s' -> x ∈ open_fds s /\ (0 <= fd -> x <> fd);
}.

Lemma wp_close_reverse_proxy_upstream s :
  wp close_reverse_proxy_upstream
    (post (fun _ s' => released (reverse_proxy_upstream_fd_ (connection s)) (fun c => c
        <| reverse_proxy_upstream_fd_ := -1 |> <| reverse_proxy_upstream_registered_ := false |>
        <| reverse_proxy_upstream_tls_ := false |> <| reverse_proxy_upstream_extra_events_ := 0 |>) s s') never) s.
Proof using.
  unfold close_reverse_proxy_upstream. exec. destruct (Z.leb_spec 0 (reverse_proxy_upstream_fd_ (connection s))).
  all: exec; cbv [post]; constructor; proj; try done.
  - intros x Hx Hin. set_solver.
  - intros [?|?]; [lia|]. by rewrite decide_True.
  - intros x Hx. set_solver.
  - intros x Hx. split; [done|lia].
Qed.

Lemma wp_close_websocket_upstream s :
  wp close_websocket_upstream
    (post (fun _ s' => released (websocket_upstream_fd_ (connection s)) (fun c => c
        <| websocket_upstream_fd_ := -1 |> <| websocket_upstream_registered_ := false |>
        <| websocket_upstream_tls_ := false |>) s s') never) s.
Proof using.
  unfold close_websocket_upstream. exec. destruct (Z.leb_spec 0 (websocket_upstream_fd_ (connection s))).
  all: exec; cbv [post]; constructor; proj; try done.
  - intros x Hx Hin. set_solver.
  - intros [?|?]; [lia|]. by rewrite decide_True.
  - intros x Hx. set_solver.
  - intros x Hx. split; [done|lia].
Qed.

(** What [close_now] needs. *)
Record closable (s : Server) : Prop := {
  closable_live : live limit s;
  closable_websocket : owned (websocket_upstream_fd_ (connection s)) s;
  closable_proxy : owned (reverse_proxy_upstream_fd_ (connection s)) s;
  closable_one : websocket_upstream_fd_ (connection s) = -1 \/ reverse_proxy_upstream_fd_ (connection s) = -1;
}.

Lemma wp_close_now s :
  closable s -> wp close_now (post (fun _ s' => phase_ (connection s') = ClientPhase.closed /\ ending limit s') never) s.
Proof using.
  intros [[L1 L2 [L3 L3'] L4] W Px One]. unfold close_now.
  eapply wp_post_seq; [apply wp_close_websocket_upstream|]. intros [] s1 [C1 O1 U1 _].
  eapply wp_post_seq; [apply wp_close_reverse_proxy_upstream|]. intros [] s2 [C2 O2 U2 _].
  exec. cbv [post]. split; [by proj|]. rewrite C1 in *. revert O2 U2 C2. proj. intros O2 U2 C2.
  constructor; [constructor|..]; proj; unfold no_proxy; proj; rewrite ?C2; proj; try done.
  - rewrite U2, U1; [done| |].
    + destruct W as [?|(? & ? & ?)]; auto.
    + destruct Px as [?|(? & Px & ?)]; [auto|]. right. apply O1; [|done]. destruct One; lia.
  - split; [done|]. apply O2; [|apply O1; [|done]].
    + destruct Px as [?|(? & ? & ?)]; lia.
    + destruct W as [?|(? & ? & ?)]; lia.
Qed.
End triples.

(** ** States that agree on what an assertion reads *)

Lemma live_ext limit s s' :
  config_ (connection s') = config_ (connection s) -> fd_ (connection s') = fd_ (connection s) ->
  requests_served_ (connection s') = requests_served_ (connection s) -> open_fds s' = open_fds s ->
  closed_unopened s' = closed_unopened s -> live limit s -> live limit s'.
Proof. intros E1 E2 E3 E4 E5 []. by constructor; rewrite ?E1, ?E2, ?E3, ?E4, ?E5. Qed.

Lemma no_response_ext c c' :
  response_buffer_ c' = response_buffer_ c -> response_offset_ c' = response_offset_ c ->
  keep_alive_after_response_ c' = keep_alive_after_response_ c ->
  websocket_after_response_ c' = websocket_after_response_ c ->
  websocket_proxy_after_response_ c' = websocket_proxy_after_response_ c -> no_response c -> no_response c'.
Proof. intros E1 E2 E3 E4 E5 []. by constructor; rewrite ?E1, ?E2, ?E3, ?E4, ?E5. Qed.

Lemma no_relay_ext c c' :
  websocket_upstream_fd_ c' = websocket_upstream_fd_ c ->
  websocket_proxy_upstream_to_client_ c' = websocket_proxy_upstream_to_client_ c ->
  websocket_proxy_upstream_to_client_offset_ c' = websocket_proxy_upstream_to_client_offset_ c ->
  no_relay c -> no_relay c'.
Proof. intros E1 E2 E3 []. by constructor; rewrite ?E1, ?E2, ?E3. Qed.

Lemma owned_ext fd s s' :
  fd_ (connection s') = fd_ (connection s) -> open_fds s' = open_fds s -> owned fd s -> owned fd s'.
Proof. unfold owned. by intros -> ->. Qed.

Lemma proxying_ext limit P s s' :
  phase_ (connection s') = phase_ (connection s) -> live limit s' -> no_response (connection s') ->
  no_relay (connection s') -> owned (reverse_proxy_upstream_fd_ (connection s')) s' ->
  client_out s' = client_out s ->
  reverse_proxy_keep_alive_ (connection s') = reverse_proxy_keep_alive_ (connection s) ->
  requests_served_ (connection s') = requests_served_ (connection s) ->
  http1_body_stream_ (connection s') = http1_body_stream_ (connection s) ->
  http2_active_ (connection s') = http2_active_ (connection s) ->
  reverse_proxy_request_ (connection s') = reverse_proxy_request_ (connection s) ->
  (reverse_proxy_attempt_index_ (connection s') <= length (reverse_proxy_ordered_upstreams_ (connection s')))%nat ->
  proxying limit P s -> proxying limit P s'.
Proof.
  intros E1 L R W O E2 E3 E4 E5 E6 E7 Ix []. constructor; rewrite ?E1, ?E2, ?E3, ?E5, ?E6, ?E7; try done.
  unfold budget. by rewrite E4.
Qed.

(** An update that touches none of the fields that [proxying] reads, apart
    from the descriptor and the index. *)
Ltac keep_proxying_with Px tac :=
  eapply proxying_ext; [..|exact Px]; proj;
  [ done
  | eapply live_ext; [..|exact (proxying_live _ _ _ Px)]; by proj
  | eapply no_response_ext; [..|exact (proxying_response _ _ _ Px)]; by proj
  | eapply no_relay_ext; [..|exact (proxying_relay _ _ _ Px)]; by proj
  | tac
  | done | done | done | done | done | done
  | first [exact (proxying_index _ _ _ Px) | tac] ].
Ltac keep_proxying Px :=
  keep_proxying_with Px ltac:(eapply owned_ext; [..|exact (proxying_upstream _ _ _ Px)]; by proj).

Ltac keep_exchanging Px := constructor; [keep_proxying Px|proj; try done..].

(** ** States that agree on the connection *)

Section transport.
Context (limit : Z) (P : bytes) (s s' : Server) (same : same_core s s').

Ltac transport := destruct same as [E1 E2 E3 E4]; constructor; rewrite ?E1, ?E2, ?E3, ?E4; try done.

Lemma live_same : live limit s -> live limit s'.
Proof using same. intros []. transport. Qed.
Lemma owned_same fd : owned fd s -> owned fd s'.
Proof using same. unfold owned. destruct same as [E1 E2 E3 E4]. by rewrite E1, E2. Qed.
Lemma silent_same : silent limit P s -> silent limit P s'.
Proof using same. intros []. transport. by apply live_same. Qed.
Lemma reading_same : reading limit P s -> reading limit P s'.
Proof using same. intros []. transport. by apply silent_same. Qed.
Lemma proxying_same : proxying limit P s -> proxying limit P s'.
Proof using same. intros []. transport; [by apply live_same|]. by apply owned_same. Qed.
Lemma exchanging_same : exchanging limit P s -> exchanging limit P s'.
Proof using same. intros []. transport. by apply proxying_same. Qed.
Lemma closable_same : closable limit s -> closable limit s'.
Proof using same. intros []. transport; [by apply live_same|by apply owned_same..]. Qed.
Lemma sending_same : sending limit P s -> sending limit P s'.
Proof using same.
  intros []. transport; [by apply live_same| |].
  - unfold promised. by rewrite E1, E4.
  - destruct (websocket_proxy_after_response_ _); [|done]. destruct sending_relay0. split; [by apply owned_same|done].
Qed.
Lemma on_websocket_same : on_websocket limit P s -> on_websocket limit P s'.
Proof using same.
  intros []. transport; [by apply live_same|]. unfold promised. by rewrite E1, E4.
Qed.
Lemma relaying_same : relaying limit P s -> relaying limit P s'.
Proof using same.
  intros []. transport; [by apply live_same| |].
  - unfold promised. by rewrite E1, E4.
  - destruct relaying_upstream0. split; [by apply owned_same|done].
Qed.
Lemma ending_same : ending limit s -> ending limit s'.
Proof using same. intros []. transport. by apply live_same. Qed.
Lemma wf_same : wf limit P s -> wf limit P s'.
Proof using same.
  unfold wf. rewrite (same_connection _ _ same). destruct (phase_ (connection s)).
  - intros (? & ? & ? & ?). split; [by apply silent_same|]. by rewrite ?(same_connection _ _ same).
  - apply reading_same.
  - apply sending_same.
  - apply on_websocket_same.
  - apply relaying_same.
  - apply exchanging_same.
  - intros (? & D & ?). split; [by apply ending_same|].
    unfold promised in *. by rewrite (same_connection _ _ same), (same_out _ _ same), D.
  - apply ending_same.
Qed.
End transport.

(** ** Descriptors *)

(** The state after a descriptor was opened. *)
Record opened_fd (fd : Z) (s s' : Server) : Prop := {
  opened_nonneg : 0 <= fd;
  opened_fresh : fd ∉ open_fds s;
  opened_fds : open_fds s' = {[fd]} ∪ open_fds s;
  opened_connection : connection s' = connection s;
  opened_unopened : closed_unopened s' = closed_unopened s;
  opened_out : client_out s' = client_out s;
}.

Lemma wp_new_descriptor s : wp new_descriptor (post (fun fd s' => opened_fd fd s s') never) s.
Proof. unfold wp, new_descriptor, shared. cbn. destruct (lowest_free_fresh (open_fds s)). by constructor. Qed.

Lemma wp_tcp_connect_loop items e s :
  wp (tcp_connect_loop items e) (post (fun r s' => opened_fd r.1 s s') (same_core s)) s.
Proof.
  revert e; induction items as [|[| |e'] items IH]; intros e; cbn [tcp_connect_loop]; [by exec| | |apply IH].
  all: eapply wp_seq; [apply wp_new_descriptor|]; intros fd s1 O; by exec.
Qed.

Lemma wp_start_tcp_connect s :
  wp start_reverse_proxy_tcp_connect (post (fun r s' => opened_fd r.1 s s') (same_core s)) s.
Proof.
  unfold start_reverse_proxy_tcp_connect. exec. destruct (default _ _) as [e|items]; [by exec|].
  eapply wp_post_mono; [apply wp_tcp_connect_loop| |].
  - intros r s' []. constructor; try done.
  - intros s' []. by constructor.
Qed.

(** ** The proxy *)

Section proxy_triples.
Context (limit : Z) (P : bytes).
Context `{MapOrder bytes} (env : Environment).

Definition good {A} (_ : A) (s : Server) : Prop := wf limit P s.

(** Between two upstreams. *)
Definition seeking (s : Server) : Prop := proxying limit P s /\ no_proxy (connection s).

Lemma proxying_closable s : proxying limit P s -> closable limit s.
Proof using. intros []. constructor; [done|left; apply proxying_relay0|done|left; apply proxying_relay0]. Qed.

Lemma exchanging_wf s : exchanging limit P s -> wf limit P s.
Proof using. intros E. unfold wf. by rewrite (proxying_phase _ _ _ (exchanging_proxying _ _ _ E)). Qed.

Lemma sending_wf s : phase_ (connection s) = ClientPhase.writing -> sending limit P s -> wf limit P s.
Proof using. intros E S. unfold wf. by rewrite E. Qed.

Lemma ending_wf s : phase_ (connection s) = ClientPhase.closed -> ending limit s -> wf limit P s.
Proof using. intros E S. unfold wf. by rewrite E. Qed.

Lemma wp_proxy_close s : proxying limit P s -> wp close_reverse_proxy_upstream (post (fun _ => seeking) never) s.
Proof using.
  intros [Ph [L1 L2 [L3 L3'] L4] R W Up O B St H1 Rq Ix].
  eapply wp_post_mono; [apply wp_close_reverse_proxy_upstream| |done].
  intros [] s' [C O' U' T]. assert (F : fd_ (connection s') = fd_ (connection s)) by (rewrite C; by proj).
  split; [|unfold no_proxy; rewrite C; by proj].
  constructor; rewrite ?C; proj; try done.
  - constructor; rewrite ?C; proj; try done.
    + rewrite U'; [done|]. destruct Up as [?|(? & ? & ?)]; auto.
    + split; [done|]. apply O'; [|done]. destruct Up as [?|(? & ? & ?)]; [lia|congruence].
  - destruct R. constructor; by proj.
  - destruct W. constructor; by proj.
  - by left.
  - by rewrite T.
Qed.

Lemma wp_update_client_epoll_events s :
  closable limit s -> wf limit P s -> wp update_client_epoll_events (post good never) s.
Proof using.
  intros C W. unfold update_client_epoll_events. exec. destruct (_ || _); [by exec|].
  apply wp_harmless; [auto with harmless|]. intros failure s1 SC.
  pose proof (closable_same limit s s1 SC C) as C1. pose proof (wf_same limit P s s1 SC W) as W1.
  destruct failure as [[e|]|].
  - eapply wp_post_mono; [by apply (wp_close_now limit)| |done]. intros [] s2 [Ph En]. by apply ending_wf.
  - exec. by apply (wf_same limit P s1).
  - exec. by apply (wf_same limit P s1).
Qed.

Lemma sending_closable s : sending limit P s -> closable limit s.
Proof using.
  intros []. constructor; [done| |by left|by right]. destruct (websocket_proxy_after_response_ _).
  - apply sending_relay0.
  - left. apply sending_relay0.
Qed.

Lemma seeking_silent s : seeking s -> silent limit P s.
Proof using. intros [[] ?]. by constructor. Qed.

(** The end of the exchange: a response is set and [epoll] is told. *)
Lemma wp_answer response body_mode s :
  seeking s ->
  wp (set_response response body_mode (reverse_proxy_keep_alive_ (connection s)) ;; update_client_epoll_events)
    (post good never) s.
Proof using.
  intros S. eapply wp_seq; [apply (wp_set_response limit P); [by apply seeking_silent|]|].
  - destruct S as [[] _]. auto.
  - intros [] s1 [Ph Se]. apply wp_update_client_epoll_events; [by apply sending_closable|by apply sending_wf].
Qed.

(** Updates that a proxying connection does not notice. *)
Lemma wp_register_upstream events s :
  proxying limit P s ->
  wp (register_reverse_proxy_upstream events) (post (fun _ s' =>
      proxying limit P s' /\ 0 <= reverse_proxy_upstream_fd_ (connection s) /\
      connection s' = (connection s) <| reverse_proxy_upstream_registered_ := true |>) (proxying limit P)) s.
Proof using.
  intros Px. unfold register_reverse_proxy_upstream. exec.
  destruct (Z.ltb_spec (reverse_proxy_upstream_fd_ (connection s)) 0); cbn [orb]; [by exec|].
  destruct (_ <? 0); [by exec|]. apply wp_harmless; [auto with harmless|]. intros failure s1 SC.
  pose proof (proxying_same limit P s s1 SC Px) as Px1. destruct SC as [C1 O1 U1 T1].
  assert (G : wp (modify (fun s => s <| upstream_interest := Z.lor events EPOLLRDHUP |>) ;;
                  assign reverse_proxy_upstream_registered_ true)
                (post (fun _ s' => proxying limit P s' /\ 0 <= reverse_proxy_upstream_fd_ (connection s) /\
                   connection s' = (connection s) <| reverse_proxy_upstream_registered_ := true |>) (proxying limit P)) s1).
  { exec. cbv [post]. split; [|split; [done|by rewrite <- C1]].
    keep_proxying Px1. }
  destruct failure as [[e|]|]; [by exec|done..].
Qed.

Lemma wp_update_upstream_events s :
  exchanging limit P s ->
  wp update_reverse_proxy_upstream_events (post (fun _ => exchanging limit P) (proxying limit P)) s.
Proof using.
  intros Ex. unfold update_reverse_proxy_upstream_events. exec. destruct (_ || _); [by exec|]. exec.
  eapply wp_post_mono; [apply wp_register_upstream, Ex| |done].
  intros [] s' (Px & _ & C). destruct Ex. constructor; rewrite ?C; by proj.
Qed.

Lemma wp_update_events s :
  wf limit P s -> wp update_reverse_proxy_upstream_events (post good (proxying limit P)) s.
Proof using.
  intros W. destruct (decide (phase_ (connection s) = ClientPhase.reverse_proxy)) as [Ph|Ph].
  - unfold wf in W. rewrite Ph in W. eapply wp_post_mono; [by apply wp_update_upstream_events| |done].
    intros [] s' Ex. by apply exchanging_wf.
  - unfold update_reverse_proxy_upstream_events. exec. rewrite bool_decide_false by done. by exec.
Qed.

Section attempt.
Context (start_next : Handle unit).
Context (start_next_spec : forall s, seeking s -> wp start_next (post good never) s).

Lemma wp_fail_attempt s : proxying limit P s -> wp (fail_attempt start_next) (post good never) s.
Proof using start_next_spec.
  intros Px. unfold fail_attempt. exec. rewrite bool_decide_true by apply Px. cbn [negb]. exec.
  apply wp_harmless; [auto with harmless|]. intros [] s1 SC.
  eapply wp_seq; [apply wp_proxy_close; by apply (proxying_same limit P s s1)|]. intros [] s2. apply start_next_spec.
Qed.

Lemma wp_put_back_fail {X} (q : Answers -> list X) `{!Update q} l s :
  proxying limit P s -> wp (put_back q l ;; fail_attempt start_next) (post good never) s.
Proof using start_next_spec.
  intros Px. apply wp_bind. apply wp_modify. apply wp_fail_attempt. by apply (proxying_same limit P s).
Qed.

Lemma wp_flush_request_loop results s :
  exchanging limit P s -> reverse_proxy_stage_ (connection s) = ReverseProxyStage.writing_request ->
  wp (flush_request_loop start_next results) (post good never) s.
Proof using start_next_spec.
  revert s; induction results as [|r results IH]; intros s [Px Up Rg St Of Wr] Stage; cbn [flush_request_loop]; exec.
  all: destruct (Nat.ltb_spec (reverse_proxy_upstream_request_offset_ (connection s))
                   (length (reverse_proxy_upstream_request_ (connection s)))) as [Lt|Ge]; exec.
  - destruct (reverse_proxy_upstream_tls_ (connection s)); exec; apply exchanging_wf; keep_exchanging Px.
  - apply exchanging_wf. keep_exchanging Px. intros _. lia.
  - destruct r as [[|n]|w|].
    + by apply wp_put_back_fail.
    + exec. apply IH; [|by proj]. keep_exchanging Px; [lia|]. congruence.
    + exec. destruct (reverse_proxy_upstream_tls_ (connection s)); exec; apply exchanging_wf; keep_exchanging Px.
    + by apply wp_put_back_fail.
  - apply exchanging_wf. keep_exchanging Px. intros _. lia.
Qed.

Lemma wp_flush_request s :
  exchanging limit P s -> reverse_proxy_stage_ (connection s) = ReverseProxyStage.writing_request ->
  wp (flush_request start_next) (post good never) s.
Proof using start_next_spec.
  intros [Px Up Rg St Of Wr] Stage. unfold flush_request. exec.
  apply wp_flush_request_loop; [keep_exchanging Px|by proj].
Qed.

Lemma wp_write_stage s :
  exchanging limit P s -> reverse_proxy_stage_ (connection s) <> ReverseProxyStage.reading_response ->
  wp (write_stage start_next) (post good (proxying limit P)) s.
Proof using start_next_spec.
  intros [Px Up Rg St Of Wr] Stage. unfold write_stage. exec.
  eapply wp_seq; [apply wp_flush_request; [keep_exchanging Px|by proj]|]. intros [] s1 W. exec.
  case_bool_decide; [by apply wp_update_events|by exec].
Qed.

Lemma wp_drive_tls_handshake s :
  exchanging limit P s -> reverse_proxy_stage_ (connection s) <> ReverseProxyStage.reading_response ->
  wp (drive_tls_handshake start_next) (post good (proxying limit P)) s.
Proof using start_next_spec.
  intros [Px Up Rg St Of Wr] Stage. unfold drive_tls_handshake. exec.
  set (s1 := s <| answers ::= _ |>).
  assert (Ex : exchanging limit P s1) by (subst s1; keep_exchanging Px).
  assert (Stage1 : reverse_proxy_stage_ (connection s1) <> ReverseProxyStage.reading_response) by (subst s1; by proj).
  destruct (default _ _).
  - by apply wp_write_stage.
  - destruct (verify_tls_upstream _); [apply wp_assume_never, wp_fail_attempt, Ex|by apply wp_write_stage].
  - exec. clearbody s1. destruct Ex as [Px1 Up1 Rg1 St1 Of1 Wr1].
    eapply wp_post_mono; [apply wp_update_upstream_events; keep_exchanging Px1| |done].
    intros [] s2 Ex2. by apply exchanging_wf.
  - apply wp_assume_never, wp_fail_attempt, Ex.
Qed.

Lemma wp_start_tls_handshake s :
  exchanging limit P s -> reverse_proxy_stage_ (connection s) = ReverseProxyStage.connecting ->
  wp (start_tls_handshake start_next) (post good (proxying limit P)) s.
Proof using start_next_spec.
  intros [Px Up Rg St Of Wr] Stage. unfold start_tls_handshake. exec.
  destruct (head _) as [[e|]|]; exec; [cbv [post]; keep_proxying Px|apply wp_drive_tls_handshake..].
  all: try (proj; congruence). all: keep_exchanging Px.
Qed.

Lemma wp_finish_tcp_connect s :
  exchanging limit P s -> reverse_proxy_stage_ (connection s) = ReverseProxyStage.connecting ->
  wp (finish_tcp_connect start_next) (post good (proxying limit P)) s.
Proof using start_next_spec.
  intros [Px Up Rg St Of Wr] Stage. unfold finish_tcp_connect. exec.
  set (s1 := s <| answers ::= _ |>).
  assert (Ex : exchanging limit P s1) by (subst s1; keep_exchanging Px).
  assert (Stage1 : reverse_proxy_stage_ (connection s1) = ReverseProxyStage.connecting) by (subst s1; by proj).
  destruct (head _) as [[e|]|]; [apply wp_assume_never, wp_fail_attempt, Ex|exec..].
  all: case_bool_decide; [|apply wp_write_stage; [done|congruence]].
  all: eapply wp_post_try; [by apply wp_start_tls_handshake|]; intros e s2 Px2; by apply wp_assume_never, wp_fail_attempt.
Qed.
End attempt.

Lemma opened_proxying fd s s' :
  seeking s -> opened_fd fd s s' ->
  proxying limit P s' /\ owned fd s' /\ fd <> -1.
Proof using.
  intros [Px N] [O1 O2 O3 O4 O5 O6]. pose proof (live_fd _ _ (proxying_live _ _ _ Px)) as [F1 F2].
  assert (L : live limit s').
  { destruct (proxying_live _ _ _ Px). constructor; rewrite ?O4, ?O3, ?O5; try done. split; [done|set_solver]. }
  split; [|split; [|lia]].
  - eapply proxying_ext; [..|exact Px]; rewrite ?O4; try done; try apply Px. left. exact N.
  - right. rewrite O3, O4. split; [done|]. split; [set_solver|]. set_solver.
Qed.

Lemma wp_begin_attempt start_next upstream s :
  (forall s, seeking s -> wp start_next (post good never) s) -> proxying limit P s ->
  wp (begin_attempt env start_next upstream) (post good (proxying limit P)) s.
Proof using.
  intros Sp Px. unfold begin_attempt.
  eapply wp_seq; [by apply wp_proxy_close|]. clear s Px. intros [] s [Px N]. exec.
  destruct (build_reverse_proxy_upstream_request _ _ _) as [text|e|]; [|cbn; keep_proxying Px|done]. exec.
  set (s1 := update connection _ _).
  assert (S1 : seeking s1) by (split; [subst s1; keep_proxying Px|unfold no_proxy; subst s1; by proj]).
  assert (Of : reverse_proxy_upstream_request_offset_ (connection s1) = 0%nat) by (subst s1; by proj).
  clearbody s1. eapply wp_post_seq.
  { eapply wp_post_mono; [apply wp_start_tcp_connect|intros r s2 O; exact O|].
    intros s2 SC. apply (proxying_same limit P s1); [done|apply S1]. }
  intros [fd connected] s2 O. cbn [fst] in O. pose proof (opened_proxying _ _ _ S1 O) as (Px2 & Ow & Nf).
  assert (Of2 : reverse_proxy_upstream_request_offset_ (connection s2) = 0%nat) by by rewrite (opened_connection _ _ _ O).
  exec. set (s3 := update connection _ _).
  assert (Px3 : proxying limit P s3).
  { subst s3. keep_proxying_with Px2 ltac:(eapply owned_ext; [..|exact Ow]; by proj). }
  assert (F3 : reverse_proxy_upstream_request_offset_ (connection s3) = 0%nat /\
               reverse_proxy_stage_ (connection s3) = ReverseProxyStage.connecting) by (subst s3; by proj).
  clearbody s3. eapply wp_post_seq; [by apply wp_register_upstream|]. intros [] s4 (Px4 & Up & C4).
  destruct F3 as [F31 F32].
  assert (Ex : exchanging limit P s4) by (constructor; rewrite ?C4; proj; rewrite ?F31, ?F32; try done; lia).
  destruct connected; [|exec; by apply exchanging_wf].
  apply wp_finish_tcp_connect; [done..|]. rewrite C4. by proj.
Qed.

Lemma wp_failure_response s :
  proxying limit P s -> wp finish_reverse_proxy_failure_response (post good never) s.
Proof using.
  intros Px. unfold finish_reverse_proxy_failure_response.
  eapply wp_seq; [by apply wp_proxy_close|]. intros [] s1 S1. exec.
  destruct (_ && _); by apply wp_answer.
Qed.

Lemma wp_start_next fuel s : seeking s -> wp (start_next env fuel) (post good never) s.
Proof using.
  revert s; induction fuel as [|fuel IH]; intros s Sk; cbn [start_next]; exec.
  all: rewrite bool_decide_true by apply Sk; cbn [negb].
  all: destruct (_ !! _) as [upstream|] eqn:Lk; [|apply wp_failure_response, Sk]; exec; try done.
  apply lookup_lt_Some in Lk. destruct Sk as [Px N].
  apply wp_harmless; [auto with harmless|]. intros available s1 SC.
  assert (Px1 : proxying limit P s1).
  { apply (proxying_same _ _ _ _ SC). keep_proxying_with Px ltac:(first [by left|lia]). }
  assert (N1 : no_proxy (connection s1)) by (unfold no_proxy; rewrite (same_connection _ _ SC); by proj).
  generalize (reverse_proxy_settings_ (connection (s <| connection ::= update reverse_proxy_attempt_index_
    (fun _ => S (reverse_proxy_attempt_index_ (connection s))) |>))). intros settings. clear dependent s.
  destruct available; cbn [negb]; exec.
  - set (s2 := update connection _ _). assert (Px2 : proxying limit P s2) by (subst s2; keep_proxying Px1). clearbody s2.
    eapply wp_seq with (R := fun (started : bool) s' => if started then wf limit P s' else seeking s').
    + eapply wp_post_try.
      * eapply wp_post_seq; [apply wp_begin_attempt; [apply IH|exact Px2]|]. intros [] s3 W. by exec.
      * intros e s3 Px3. apply wp_harmless; [auto with harmless|]. intros [] s4 SC4.
        eapply wp_seq; [apply wp_proxy_close; by apply (proxying_same _ _ _ _ SC4)|]. intros [] s5 S5. by exec.
    + intros [] s3 S3; [by exec|by apply IH].
  - apply IH. split; [keep_proxying Px1|unfold no_proxy in *; by proj].
Qed.

Lemma wp_start_next_attempt s : seeking s -> wp (start_next_reverse_proxy_attempt env) (post good never) s.
Proof using. intros S. unfold start_next_reverse_proxy_attempt. exec. by apply wp_start_next. Qed.

(** Reading the response *)

Definition awaiting (s : Server) : Prop :=
  exchanging limit P s /\ reverse_proxy_stage_ (connection s) = ReverseProxyStage.reading_response.

Lemma wp_fail_reverse_proxy_attempt s :
  proxying limit P s -> wp (fail_reverse_proxy_attempt env) (post good never) s.
Proof using. apply wp_fail_attempt. apply wp_start_next_attempt. Qed.

Lemma wp_append_response chunk s :
  awaiting s ->
  wp (append_reverse_proxy_response env chunk)
    (post (fun (more : bool) s' => if more then awaiting s' else wf limit P s') never) s.
Proof using.
  intros [[Px Up Rg St Of Wr] Stage]. unfold append_reverse_proxy_response. exec.
  destruct (_ <? _).
  - eapply wp_seq; [by apply wp_fail_reverse_proxy_attempt|]. intros [] s1 W. by exec.
  - exec. cbv [post]. split; [keep_exchanging Px|by proj].
Qed.

Lemma wp_finish_response_exchange s :
  proxying limit P s -> wp (finish_reverse_proxy_response env) (post good never) s.
Proof using.
  intros Px. unfold finish_reverse_proxy_response. eapply wp_post_try with (E' := proxying limit P).
  - exec. apply wp_bind, wp_try, wp_call.
    destruct (parse_reverse_proxy_upstream_response _) as [response|e|]; [exec|exec; keep_proxying Px|done].
    set (s1 := update connection _ _). assert (Px1 : proxying limit P s1) by (subst s1; keep_proxying Px).
    clearbody s1. apply wp_harmless; [auto with harmless|]. intros [] s2 SC.
    eapply wp_seq; [apply wp_proxy_close; by apply (proxying_same _ _ _ _ SC)|]. intros [] s3 S3. exec.
    by apply wp_assume_never, wp_answer.
  - intros e s'. apply wp_fail_reverse_proxy_attempt.
Qed.

Lemma wp_read_response_loop results s :
  awaiting s -> wp (read_response_loop env results) (post good never) s.
Proof using.
  revert s; induction results as [|r results IH]; intros s [Ex Stage]; cbn [read_response_loop]; exec.
  all: rewrite bool_decide_true by apply Ex; cbn [negb]; exec; pose proof Ex as [Px Up Rg St Of Wr].
  - apply exchanging_wf. keep_exchanging Px.
  - destruct r as [chunk| |w|]; [exec| |exec; apply exchanging_wf; keep_exchanging Px|exec].
    + eapply wp_seq; [apply wp_append_response; split; [keep_exchanging Px|by proj]|]. intros [] s1 W; cbn [negb]; exec.
      * destruct W as [Ex1 Stage1]. pose proof Ex1 as [Px1 Up1 Rg1 St1 Of1 Wr1].
        destruct (reverse_proxy_upstream_tls_ (connection s)); exec; apply IH; (split; [keep_exchanging Px1|by proj]).
      * exact W.
    + by apply wp_finish_response_exchange.
    + destruct (_ && _); [by apply wp_finish_response_exchange|by apply wp_fail_reverse_proxy_attempt].
Qed.

Lemma wp_handle_reverse_proxy_upstream revents s :
  exchanging limit P s -> wp (handle_reverse_proxy_upstream env revents) (post good (proxying limit P)) s.
Proof using.
  intros Ex. pose proof Ex as [Px Up Rg St Of Wr]. unfold handle_reverse_proxy_upstream. exec.
  destruct (has revents EPOLLERR); [by apply wp_assume_never, wp_fail_reverse_proxy_attempt|].
  destruct (bool_decide_reflect (reverse_proxy_stage_ (connection s) = ReverseProxyStage.connecting)) as [Stage|Stage].
  { destruct (has revents EPOLLOUT); cbn [andb]; [apply wp_finish_tcp_connect; auto using wp_start_next_attempt|].
    rewrite !bool_decide_false by congruence. cbn [andb]. exec.
    rewrite bool_decide_true by apply Px. cbn [negb]. exec. rewrite bool_decide_false by congruence. cbn [andb]. exec.
    by apply wp_update_events, exchanging_wf. }
  cbn [andb].
  destruct (bool_decide_reflect (reverse_proxy_stage_ (connection s) = ReverseProxyStage.tls_handshake)) as [Stage2|Stage2].
  { destruct (has revents _); cbn [andb]; [apply wp_drive_tls_handshake; auto using wp_start_next_attempt; congruence|].
    rewrite !bool_decide_false by congruence. cbn [andb]. exec.
    rewrite bool_decide_true by apply Px. cbn [negb]. exec. rewrite bool_decide_false by congruence. cbn [andb]. exec.
    by apply wp_update_events, exchanging_wf. }
  cbn [andb].
  eapply wp_seq with (R := fun _ => wf limit P).
  { destruct (_ && _) eqn:W; [|exec; by apply exchanging_wf]. apply andb_prop in W as [W%bool_decide_eq_true _].
    by apply wp_flush_request; [apply wp_start_next_attempt|..]. }
  intros [] s1 W. exec. case_bool_decide as Ph; cbn [negb]; [|by exec].
  unfold wf in W. rewrite Ph in W. exec. eapply wp_seq with (R := fun _ => wf limit P).
  { case_bool_decide as Stage3; cbn [andb]; [|exec; by apply exchanging_wf].
    destruct (has revents _); [|exec; by apply exchanging_wf].
    unfold read_reverse_proxy_response. exec. apply wp_read_response_loop.
    destruct W as [Px1 Up1 Rg1 St1 Of1 Wr1]. split; [keep_exchanging Px1|by proj]. }
  intros [] s2 W2. by apply wp_update_events.
Qed.
End proxy_triples.
