(* ===== verification/FrameFacts.v ===== *)
(** * FrameFacts: what a connection leaves alone

    Whatever happens to one connection, the descriptors of the others stay
    open, no descriptor is opened that the connection does not hold
    afterwards, and its identity and the connection counters do not change.
    With the invariant of [ConnectionSpec] this is what a worker needs of its
    clients. *)

From S2P Require Import Prelude Text Numbers Request Http1Frame Response StaticFiles Handler BodyStream Waf VirtualHost ReverseProxy Http2Session Config Security WebSocket State Connection ProxyExchange WebSocketProxy Reactor ConnectionFacts.

(** ** The frame of a connection

    Its identity, the descriptors of everyone else and the counters. *)

Record Frame : Type := mk_frame {
  frame_fd : Z;
  frame_epoll : Z;
  frame_ip : bytes;
  frame_config : option ServerConfig;
  frame_others : gset Z;
  frame_active : gmap bytes Z;
  frame_total : Z;
}.

Section frame.
Context (F : Frame).

(** [loose] are descriptors that a function holds in a local variable; with
    [relay_free] the connection has no WebSocket upstream. *)
Record framed (relay_free : bool) (loose : gset Z) (s : Server) : Prop := {
  framed_fd : fd_ (connection s) = frame_fd F;
  framed_epoll : epoll_fd_ (connection s) = frame_epoll F;
  framed_ip : client_ip_ (connection s) = frame_ip F;
  framed_config : config_ (connection s) = frame_config F;
  framed_active : active_connections_by_ip_ (security s) = frame_active F;
  framed_total : total_connections_ (security s) = frame_total F;
  framed_nonneg : forall x, x ∈ open_fds s -> 0 <= x;
  framed_open : frame_others F ⊆ open_fds s;
  framed_held : open_fds s ⊆ frame_others F ∪ loose ∪
    {[fd_ (connection s); websocket_upstream_fd_ (connection s); reverse_proxy_upstream_fd_ (connection s)]};
  framed_loose : loose ## frame_others F;
  framed_websocket : websocket_upstream_fd_ (connection s) ∉ frame_others F;
  framed_proxy : reverse_proxy_upstream_fd_ (connection s) ∉ frame_others F;
  framed_free : relay_free = true -> websocket_upstream_fd_ (connection s) = -1;
}.

Definition keeps {A} (b : bool) (X : gset Z) (m : Handle A) : Prop :=
  forall s, framed b X s -> wp m (post (fun _ => framed b X) (framed b X)) s.

(** The parts of the state that the frame speaks of. *)
Record same_frame (s s' : Server) : Prop := {
  same_frame_fd : fd_ (connection s') = fd_ (connection s);
  same_frame_epoll : epoll_fd_ (connection s') = epoll_fd_ (connection s);
  same_frame_ip : client_ip_ (connection s') = client_ip_ (connection s);
  same_frame_config : config_ (connection s') = config_ (connection s);
  same_frame_websocket : websocket_upstream_fd_ (connection s') = websocket_upstream_fd_ (connection s);
  same_frame_proxy : reverse_proxy_upstream_fd_ (connection s') = reverse_proxy_upstream_fd_ (connection s);
  same_frame_open : open_fds s' = open_fds s;
  same_frame_active : active_connections_by_ip_ (security s') = active_connections_by_ip_ (security s);
  same_frame_total : total_connections_ (security s') = total_connections_ (security s);
}.

Lemma framed_same b X s s' : same_frame s s' -> framed b X s -> framed b X s'.
Proof using.
  intros [E1 E2 E3 E4 E5 E6 E7 E8 E9] []. constructor; rewrite ?E1, ?E2, ?E3, ?E4, ?E5, ?E6, ?E7, ?E8, ?E9; auto.
Qed.

(** ** Composition *)

Lemma keeps_ret {A} b X (a : A) : keeps b X (mret a).
Proof using. by intros s W. Qed.
Lemma keeps_throw {A} b X e : keeps b X (@throw Server A e).
Proof using. by intros s W. Qed.
Lemma keeps_call {A} b X (o : outcome A) : keeps b X (call o).
Proof using. intros s W. by destruct o. Qed.
Lemma keeps_get {T} b X (f : Server -> T) : keeps b X (get f).
Proof using. by intros s W. Qed.

Lemma keeps_bind {A B} b X (m : Handle A) (f : A -> Handle B) :
  keeps b X m -> (forall a, keeps b X (f a)) -> keeps b X (m ≫= f).
Proof using. intros Hm Hf s W. eapply wp_post_seq; [by apply Hm|]. intros a s'. apply Hf. Qed.

Lemma keeps_try {A} b X (m : Handle A) h : keeps b X m -> (forall e, keeps b X (h e)) -> keeps b X (try_catch m h).
Proof using. intros Hm Hh s W. eapply wp_post_try; [by apply Hm|]. intros e s'. apply Hh. Qed.

Lemma keeps_modify b X f : (forall s, same_frame s (f s)) -> keeps b X (modify f).
Proof using. intros Hf s W. apply wp_modify. exact (framed_same _ _ _ _ (Hf s) W). Qed.

Lemma keeps_same {A} b X (m : Handle A) : (forall s, same_frame s (m s).2) -> keeps b X m.
Proof using.
  intros Hm s W. unfold wp. specialize (Hm s). destruct (m s) as [[a|e|] s']; cbn in *; try done; by eapply framed_same.
Qed.

Lemma keeps_assign {T} b X (f : ClientConnection -> T) `{!Update f} x :
  (forall c, fd_ (update f (fun _ => x) c) = fd_ c) -> (forall c, epoll_fd_ (update f (fun _ => x) c) = epoll_fd_ c) ->
  (forall c, client_ip_ (update f (fun _ => x) c) = client_ip_ c) ->
  (forall c, config_ (update f (fun _ => x) c) = config_ c) ->
  (forall c, websocket_upstream_fd_ (update f (fun _ => x) c) = websocket_upstream_fd_ c) ->
  (forall c, reverse_proxy_upstream_fd_ (update f (fun _ => x) c) = reverse_proxy_upstream_fd_ c) ->
  keeps b X (assign f x).
Proof using. intros E1 E2 E3 E4 E5 E6. apply keeps_modify. intros s. by constructor; proj. Qed.
End frame.

Create HintDb keeps.
#[export] Hint Resolve keeps_ret keeps_throw keeps_call keeps_get : keeps.
#[export] Hint Extern 1 (keeps _ _ _ (assign _ _)) => apply keeps_assign; intros []; reflexivity : keeps.
#[export] Hint Extern 1 (keeps _ _ _ (modify _)) => apply keeps_modify; intros []; by constructor : keeps.
#[export] Hint Extern 1 (keeps _ _ _ now) => by apply keeps_same : keeps.
#[export] Hint Extern 1 (keeps _ _ _ (ask _)) => by apply keeps_same : keeps.
#[export] Hint Extern 1 (keeps _ _ _ (take_all _)) => by apply keeps_same : keeps.
#[export] Hint Extern 1 (keeps _ _ _ (put_back _ _)) => by apply keeps_same : keeps.
#[export] Hint Extern 1 (keeps _ _ _ (field _)) => apply keeps_get : keeps.
#[export] Hint Extern 1 (keeps _ _ _ the_config) => apply keeps_get : keeps.
#[export] Hint Extern 1 (keeps _ _ _ (in_phase _)) => apply keeps_get : keeps.

Ltac keep_step :=
  lazymatch goal with
  | |- keeps _ _ _ (mbind _ _) => apply keeps_bind; [|intros ?]
  | |- keeps _ _ _ (try_catch _ _) => apply keeps_try; [|intros ?]
  | |- keeps _ _ _ (if ?c then _ else _) => destruct c
  | |- keeps _ _ _ (match ?c with _ => _ end) => destruct c
  | |- keeps _ _ _ _ => solve [auto with keeps]
  end.
Ltac keep := repeat keep_step.

Section shared.
Context (F : Frame).

Lemma keeps_rate_limited b X : keeps F b X rate_limited.
Proof using.
  unfold rate_limited. keep. apply keeps_same. intros s. unfold shared, allow_request.
  destruct (_ || _); [by constructor; proj|]. by destruct (_ <=? _); constructor; proj.
Qed.

Lemma keeps_circuit b X f : keeps F b X (circuit f).
Proof using. unfold circuit. keep. Qed.

Lemma keeps_upstream_available b X u settings : keeps F b X (upstream_available u settings).
Proof using.
  unfold upstream_available. keep. apply keeps_same. intros s. unfold shared.
  destruct (reverse_proxy_upstream_available _ _ _ _). by constructor; proj.
Qed.

Lemma keeps_order b X r ups settings : keeps F b X (order_upstreams r ups settings).
Proof using.
  apply keeps_same. intros s. unfold order_upstreams, shared.
  destruct (ordered_reverse_proxy_upstreams _ _ _ _). by constructor; proj.
Qed.

Lemma keeps_run_transaction `{MapOrder bytes, MapOrder (list bytes)} env b X r : keeps F b X (run_transaction env r).
Proof using.
  unfold run_transaction. keep. apply keeps_same. intros s. unfold shared_call.
  destruct (virtual_host_on_request _ _ _ _ _ _ _ _ _ _ _) as [[]| |]; by constructor; proj.
Qed.
End shared.
#[export] Hint Resolve keeps_rate_limited keeps_circuit keeps_upstream_available keeps_order keeps_run_transaction : keeps.

(** ** Descriptors *)

Section descriptors.
Context (F : Frame).

Lemma framed_weaken b X s : framed F true X s -> framed F b X s.
Proof using. intros []. constructor; auto. Qed.

Lemma wp_close_fd_framed b X fd s : fd ∉ frame_others F ->
  framed F b ({[fd]} ∪ X) s -> wp (close_fd fd) (post (fun _ => framed F b X) never) s.
Proof using.
  intros N []. apply wp_modify. constructor; proj; try done; [|set_solver..].
  intros x [Hx _]%elem_of_difference. auto.
Qed.

Lemma framed_negative b X s x : framed F b X s -> x < 0 -> x ∉ frame_others F /\ x ∉ open_fds s.
Proof using.
  intros [] L. assert (N : x ∉ open_fds s) by (intros E%framed_nonneg0; lia). split; [set_solver|done].
Qed.

(** Closing an upstream: its descriptor is closed if there is one, and forgotten. *)
Lemma framed_without_websocket b X s fds :
  framed F b X s -> fds = open_fds s ∖ {[websocket_upstream_fd_ (connection s)]} ->
  framed F true X (s <| open_fds := fds |> <| connection ::= fun c => c <| websocket_upstream_fd_ := -1 |> |>).
Proof using.
  intros W ->. destruct (framed_negative _ _ _ (-1) W); [done|]. destruct W.
  constructor; proj; try done; set_solver.
Qed.

Lemma framed_without_proxy b X s fds :
  framed F b X s -> fds = open_fds s ∖ {[reverse_proxy_upstream_fd_ (connection s)]} ->
  framed F b X (s <| open_fds := fds |> <| connection ::= fun c => c <| reverse_proxy_upstream_fd_ := -1 |> |>).
Proof using.
  intros W ->. destruct (framed_negative _ _ _ (-1) W); [done|]. destruct W.
  constructor; proj; try done; set_solver.
Qed.

Lemma wp_close_websocket_framed b X s :
  framed F b X s -> wp close_websocket_upstream (post (fun _ => framed F true X) never) s.
Proof using.
  intros W. unfold close_websocket_upstream. exec. destruct (Z.leb_spec 0 (websocket_upstream_fd_ (connection s))); exec.
  - eapply framed_same; [|exact (framed_without_websocket _ _ _ _ W eq_refl)]. by constructor; proj.
  - destruct (framed_negative _ _ _ _ W H).
    eapply framed_same; [|apply (framed_without_websocket _ _ _ (open_fds s) W)]; [by constructor; proj|set_solver].
Qed.

Lemma wp_close_proxy_framed b X s :
  framed F b X s ->
  wp close_reverse_proxy_upstream
    (post (fun _ s' => framed F b X s' /\ reverse_proxy_upstream_fd_ (connection s') = -1) never) s.
Proof using.
  intros W. unfold close_reverse_proxy_upstream. exec. destruct (Z.leb_spec 0 (reverse_proxy_upstream_fd_ (connection s))); exec.
  all: split; [|by proj].
  - eapply framed_same; [|exact (framed_without_proxy _ _ _ _ W eq_refl)]. by constructor; proj.
  - destruct (framed_negative _ _ _ _ W H).
    eapply framed_same; [|apply (framed_without_proxy _ _ _ (open_fds s) W)]; [by constructor; proj|set_solver].
Qed.

Lemma keeps_close_websocket b X : keeps F b X close_websocket_upstream.
Proof using.
  intros s W. eapply wp_post_mono; [by eapply wp_close_websocket_framed| |intros ? []].
  intros []. by apply framed_weaken.
Qed.

Lemma keeps_close_proxy b X : keeps F b X close_reverse_proxy_upstream.
Proof using. intros s W. eapply wp_post_mono; [by eapply wp_close_proxy_framed|by intros ? ? []|intros ? []]. Qed.

Lemma wp_new_descriptor_framed b X s :
  framed F b X s ->
  wp new_descriptor (post (fun fd s' => 0 <= fd /\ fd ∉ frame_others F /\ framed F b ({[fd]} ∪ X) s') never) s.
Proof using.
  intros []. unfold wp, new_descriptor, shared. cbn. destruct (lowest_free_fresh (open_fds s)) as [L N].
  set (fd := lowest_free _) in *. clearbody fd. split_and!; [done|set_solver|].
  constructor; proj; try done; set_solver by lia.
Qed.

(** A descriptor is stored in the connection. *)
Lemma framed_store_proxy b X fd s :
  fd ∉ frame_others F -> reverse_proxy_upstream_fd_ (connection s) = -1 ->
  framed F b ({[fd]} ∪ X) s -> framed F b X (s <| connection ::= update reverse_proxy_upstream_fd_ (fun _ => fd) |>).
Proof using.
  intros N E W. destruct (framed_negative _ _ _ (-1) W); [done|]. destruct W. rewrite E in *.
  constructor; proj; try done; set_solver.
Qed.

Lemma framed_store_websocket X fd s :
  fd ∉ frame_others F -> framed F true ({[fd]} ∪ X) s ->
  framed F false X (s <| connection ::= update websocket_upstream_fd_ (fun _ => fd) |>).
Proof using.
  intros N W. destruct (framed_negative _ _ _ (-1) W); [done|]. destruct W. rewrite framed_free0 in * by done.
  constructor; proj; try done; set_solver.
Qed.
End descriptors.
#[export] Hint Resolve keeps_close_websocket keeps_close_proxy : keeps.

(** ** Responses and the reverse proxy *)

Section exchange.
Context (F : Frame) `{MapOrder bytes} (env : Environment).

Lemma keeps_close_now b X : keeps F b X close_now.
Proof using. unfold close_now. keep. Qed.

Lemma keeps_set_serialized b X payload k : keeps F b X (set_serialized_response payload k).
Proof using. unfold set_serialized_response. keep. Qed.

Lemma keeps_set_response b X r m k : keeps F b X (set_response r m k).
Proof using. unfold set_response. keep. Qed.

Lemma keeps_refuse b X st text : keeps F b X (refuse st text).
Proof using. apply keeps_set_response. Qed.

Lemma keeps_update_epoll b X : keeps F b X update_client_epoll_events.
Proof using. unfold update_client_epoll_events. keep. apply keeps_close_now. Qed.
#[local] Hint Resolve keeps_close_now keeps_set_serialized keeps_set_response keeps_refuse keeps_update_epoll : keeps.

Lemma keeps_register b X events : keeps F b X (register_reverse_proxy_upstream events).
Proof using. unfold register_reverse_proxy_upstream. keep. Qed.
#[local] Hint Resolve keeps_register : keeps.

Lemma keeps_update_upstream b X : keeps F b X update_reverse_proxy_upstream_events.
Proof using. unfold update_reverse_proxy_upstream_events. keep. Qed.
#[local] Hint Resolve keeps_update_upstream : keeps.

Lemma wp_connect_framed b X s :
  framed F b X s ->
  wp start_reverse_proxy_tcp_connect
    (post (fun r s' => r.1 ∉ frame_others F /\ framed F b ({[r.1]} ∪ X) s'
             /\ reverse_proxy_upstream_fd_ (connection s') = reverse_proxy_upstream_fd_ (connection s))
          (framed F b X)) s.
Proof using.
  intros W. unfold start_reverse_proxy_tcp_connect. exec.
  set (s1 := s <| answers ::= _ |>). assert (W1 : framed F b X s1) by (eapply framed_same; [|exact W]; by constructor).
  change (reverse_proxy_upstream_fd_ (connection s)) with (reverse_proxy_upstream_fd_ (connection s1)). clearbody s1. clear W.
  destruct (default _ _) as [e|items]; [by exec|]. generalize "no upstream address"%string.
  induction items as [|[| |e] items IH]; intros what; cbn [tcp_connect_loop]; [by exec| | |apply IH].
  all: pose proof (wp_new_descriptor_framed F b X s1 W1) as D.
  all: apply wp_bind; unfold wp, new_descriptor, shared in *; cbn in *; by destruct D as (_ & N & D).
Qed.

Lemma keeps_enter b X stage : keeps F b X (enter_stage stage).
Proof using. unfold enter_stage. keep. Qed.
#[local] Hint Resolve keeps_enter : keeps.

Lemma keeps_finish_failure b X : keeps F b X finish_reverse_proxy_failure_response.
Proof using. unfold finish_reverse_proxy_failure_response. keep. Qed.

Section attempt.
Context (b : bool) (X : gset Z) (start_next : Handle unit) (Hnext : keeps F b X start_next).

Lemma keeps_fail_attempt : keeps F b X (fail_attempt start_next).
Proof using Hnext. unfold fail_attempt, record_failure. keep. Qed.
#[local] Hint Resolve keeps_fail_attempt : keeps.

Lemma keeps_flush_request : keeps F b X (flush_request start_next).
Proof using Hnext.
  unfold flush_request. keep. rename a into results.
  induction results as [|[[|n]|w|] results IH]; cbn [flush_request_loop]; keep.
Qed.
#[local] Hint Resolve keeps_flush_request : keeps.

Lemma keeps_write_stage : keeps F b X (write_stage start_next).
Proof using Hnext. unfold write_stage. keep. Qed.
#[local] Hint Resolve keeps_write_stage : keeps.

Lemma keeps_drive_tls : keeps F b X (drive_tls_handshake start_next).
Proof using Hnext. unfold drive_tls_handshake. keep. Qed.
#[local] Hint Resolve keeps_drive_tls : keeps.

Lemma keeps_finish_connect : keeps F b X (finish_tcp_connect start_next).
Proof using Hnext. unfold finish_tcp_connect, start_tls_handshake. keep. Qed.

Lemma keeps_begin_attempt u : keeps F b X (begin_attempt env start_next u).
Proof using Hnext.
  intros s W. unfold begin_attempt. eapply wp_seq; [by apply wp_close_proxy_framed|]. intros [] s1 [W1 E1]. exec.
  destruct (build_reverse_proxy_upstream_request _ _ _) as [text|e|]; exec; try done.
  2: { refine (framed_same F b X _ _ _ W1). by constructor; proj. }
  eapply wp_post_seq.
  { apply (wp_connect_framed b X). refine (framed_same F b X _ _ _ W1). by constructor; proj. }
  intros [fd connected] s2 (N & W2 & E2). revert E2. proj. rewrite E1. intros E2. cbn [fst] in *.
  apply wp_bind, wp_modify. set (s3 := s2 <| connection ::= _ |>).
  assert (W3 : framed F b X s3) by (by apply framed_store_proxy). clearbody s3. revert s3 W3.
  refine (_ : keeps F b X _). keep. apply keeps_finish_connect.
Qed.
End attempt.

Lemma keeps_start_next b X fuel : keeps F b X (start_next env fuel).
Proof using.
  induction fuel as [|fuel IH]; cbn [start_next]; unfold record_failure; keep;
    solve [apply keeps_finish_failure | apply (keeps_begin_attempt b X _ IH)].
Qed.

Lemma keeps_start_attempt b X : keeps F b X (start_next_reverse_proxy_attempt env).
Proof using. unfold start_next_reverse_proxy_attempt. keep. apply keeps_start_next. Qed.
#[local] Hint Resolve keeps_start_attempt : keeps.

Lemma keeps_fail b X : keeps F b X (fail_reverse_proxy_attempt env).
Proof using. apply keeps_fail_attempt. keep. Qed.
#[local] Hint Resolve keeps_fail : keeps.

Lemma keeps_append_response b X chunk : keeps F b X (append_reverse_proxy_response env chunk).
Proof using. unfold append_reverse_proxy_response. keep. Qed.
#[local] Hint Resolve keeps_append_response : keeps.

Lemma keeps_finish_response b X : keeps F b X (finish_reverse_proxy_response env).
Proof using. unfold finish_reverse_proxy_response, record_success. keep. Qed.
#[local] Hint Resolve keeps_finish_response : keeps.

Lemma keeps_read_response b X : keeps F b X (read_reverse_proxy_response env).
Proof using.
  unfold read_reverse_proxy_response. keep. rename a into results.
  induction results as [|[chunk| |w|] results IH]; cbn [read_response_loop]; keep.
Qed.
#[local] Hint Resolve keeps_read_response : keeps.

Lemma keeps_handle_proxy b X revents : keeps F b X (handle_reverse_proxy_upstream env revents).
Proof using.
  unfold handle_reverse_proxy_upstream, finish_reverse_proxy_tcp_connect, drive_reverse_proxy_tls_handshake, flush_reverse_proxy_request.
  pose proof (keeps_start_attempt b X) as S. keep;
    solve [by apply keeps_finish_connect | by apply keeps_drive_tls | by apply keeps_flush_request].
Qed.

Lemma keeps_try_proxy b X r k : keeps F b X (try_start_reverse_proxy env r k).
Proof using. unfold try_start_reverse_proxy. keep. Qed.
End exchange.
#[export] Hint Resolve keeps_close_now keeps_set_serialized keeps_set_response keeps_refuse keeps_update_epoll
  keeps_fail keeps_handle_proxy keeps_try_proxy : keeps.

(** ** The relay *)

Section relay.
Context `{MapOrder bytes} (F : Frame) (b : bool) (X : gset Z).

Lemma keeps_append_to_client data : keeps F b X
  (append_websocket_proxy_buffer websocket_proxy_upstream_to_client_ websocket_proxy_upstream_to_client_offset_ data).
Proof using. unfold append_websocket_proxy_buffer. keep. Qed.

Lemma keeps_append_to_upstream data : keeps F b X
  (append_websocket_proxy_buffer websocket_proxy_client_to_upstream_ websocket_proxy_client_to_upstream_offset_ data).
Proof using. unfold append_websocket_proxy_buffer. keep. Qed.
#[local] Hint Resolve keeps_append_to_client keeps_append_to_upstream : keeps.

Lemma keeps_flush_relay_client : keeps F b X flush_websocket_proxy_client.
Proof using.
  unfold flush_websocket_proxy_client, flush_relay. keep. rename a into results.
  induction results as [|[[|n]|w|] results IH]; cbn [flush_relay_loop]; keep.
Qed.

Lemma keeps_flush_relay_upstream : keeps F b X flush_websocket_proxy_upstream.
Proof using.
  unfold flush_websocket_proxy_upstream, flush_relay. keep. rename a into results.
  induction results as [|[[|n]|w|] results IH]; cbn [flush_relay_loop]; keep.
Qed.
#[local] Hint Resolve keeps_flush_relay_client keeps_flush_relay_upstream : keeps.

Lemma keeps_read_relay_client : keeps F b X read_websocket_proxy_client.
Proof using.
  unfold read_websocket_proxy_client. keep. rename a into results.
  induction results as [|[chunk| |w|] results IH]; cbn [read_relay_loop]; keep.
Qed.

Lemma keeps_read_relay_upstream : keeps F b X read_websocket_proxy_upstream.
Proof using.
  unfold read_websocket_proxy_upstream. keep. rename a into results.
  induction results as [|[chunk| |w|] results IH]; cbn [read_relay_loop]; keep.
Qed.
#[local] Hint Resolve keeps_read_relay_client keeps_read_relay_upstream : keeps.

Lemma keeps_update_relay : keeps F b X update_websocket_proxy_events.
Proof using. unfold update_websocket_proxy_events. keep. Qed.
#[local] Hint Resolve keeps_update_relay : keeps.

Lemma keeps_relay_client revents : keeps F b X (handle_websocket_proxy_client revents).
Proof using. unfold handle_websocket_proxy_client. keep. Qed.

Lemma keeps_relay_upstream revents : keeps F b X (handle_websocket_proxy_upstream revents).
Proof using. unfold handle_websocket_proxy_upstream. keep. Qed.

Lemma keeps_wait : keeps F b X wait_descriptor.
Proof using. unfold wait_descriptor. keep. Qed.
#[local] Hint Resolve keeps_wait : keeps.

Lemma keeps_relay_tls verify : keeps F b X (connect_websocket_proxy_tls verify).
Proof using.
  unfold connect_websocket_proxy_tls. keep.
  all: match goal with results : list TlsResult |- _ => induction results as [|[alpn| |w|] results IH]; cbn [websocket_tls_loop]; keep end.
Qed.

Lemma keeps_relay_write payload : keeps F b X (write_websocket_proxy payload).
Proof using.
  unfold write_websocket_proxy. keep. rename a into results. revert payload.
  induction results as [|[[|n]|w|] results IH]; intros [|c payload]; cbn [websocket_write_loop]; keep; apply IH.
Qed.

Lemma keeps_relay_read : keeps F b X read_websocket_proxy_handshake.
Proof using.
  unfold read_websocket_proxy_handshake. keep. rename a into results. generalize (@nil Byte.byte) as buffer.
  induction results as [|[chunk| |w|] results IH]; intros buffer; cbn [websocket_read_loop]; keep; apply IH.
Qed.

Lemma keeps_register_websocket : keeps F b X register_websocket_upstream.
Proof using. unfold register_websocket_upstream. keep. Qed.

Lemma keeps_handshake_response r : keeps F b X (set_websocket_proxy_handshake_response r).
Proof using. unfold set_websocket_proxy_handshake_response, set_handshake_response. keep. Qed.

Lemma keeps_websocket_handshake r : keeps F b X (set_websocket_handshake_response r).
Proof using. unfold set_websocket_handshake_response, set_handshake_response. keep. Qed.

End relay.
#[export] Hint Resolve keeps_append_to_client keeps_append_to_upstream keeps_flush_relay_client keeps_flush_relay_upstream
  keeps_update_relay keeps_relay_client keeps_relay_upstream keeps_wait keeps_relay_tls keeps_relay_write keeps_relay_read
  keeps_register_websocket keeps_handshake_response keeps_websocket_handshake : keeps.

(** ** The start of a relay *)

Section start.
Context (F : Frame) `{MapOrder bytes, MapOrder (list bytes)} (env : Environment) (X : gset Z).

Lemma wp_kept {A B} b (m : Handle A) (f : A -> Handle B) Q s :
  keeps F b X m -> framed F b X s -> (forall a s', framed F b X s' -> wp (f a) (post Q (framed F b X)) s') ->
  wp (m ≫= f) (post Q (framed F b X)) s.
Proof using. intros Hm W K. by apply (wp_post_seq _ _ (fun _ => framed F b X)); [apply Hm|]. Qed.

Lemma wp_relay_connect_framed b s :
  framed F b X s ->
  wp connect_websocket_proxy_tcp
    (post (fun fd s' => fd ∉ frame_others F /\ framed F b ({[fd]} ∪ X) s') (framed F b X)) s.
Proof using.
  intros W. unfold connect_websocket_proxy_tcp. apply (wp_kept b); [keep|done|]. clear s W. intros addresses s W.
  destruct (default _ _) as [e|items]; [by exec|]. generalize "no upstream address"%string. revert s W.
  induction items as [|[| |e] items IH]; intros s W what; cbn [websocket_connect_loop]; [by exec| | |by apply IH].
  - eapply wp_post_mono; [by eapply wp_new_descriptor_framed|by intros fd s' (_ & N & W')|by intros ? []].
  - eapply wp_seq; [by eapply wp_new_descriptor_framed|]. intros fd s1 (_ & N & W1).
    assert (Retry : forall what s2, framed F b ({[fd]} ∪ X) s2 ->
      wp (close_fd fd ;; websocket_connect_loop items what)
        (post (fun fd s' => fd ∉ frame_others F /\ framed F b ({[fd]} ∪ X) s') (framed F b X)) s2).
    { intros e s2 W2. eapply wp_seq; [by eapply wp_close_fd_framed|]. intros [] s3 W3. by apply IH. }
    unfold wait_descriptor. apply wp_bind, wp_bind, wp_ask, wp_ret.
    destruct (negb _); [apply Retry; refine (framed_same F _ _ _ _ _ W1); by constructor|].
    apply wp_bind, wp_ask.
    destruct (head _) as [[e|]|]; [apply Retry|apply wp_ret; split; [done|]..]; refine (framed_same F _ _ _ _ _ W1); by constructor.
Qed.

(** A relay was started, or there is still none. *)
Definition launched (s : Server) : Prop :=
  framed F true X s \/ (framed F false X s /\ phase_ (connection s) <> ClientPhase.reading).

Lemma launched_framed s : launched s -> framed F false X s.
Proof using. intros [W|[W _]]; [by apply framed_weaken|done]. Qed.

Definition launches {A} (m : Handle A) : Prop :=
  forall s, framed F true X s -> wp m (post (fun _ => launched) (framed F false X)) s.

Lemma launches_keeps {A} (m : Handle A) : keeps F true X m -> launches m.
Proof using. intros K s W. eapply wp_post_mono; [by apply K|by left|apply framed_weaken]. Qed.

Lemma launches_bind {A B} (m : Handle A) (f : A -> Handle B) :
  keeps F true X m -> (forall a, launches (f a)) -> launches (m ≫= f).
Proof using.
  intros K Hf s W. eapply wp_post_seq; [|intros a s'; apply Hf].
  eapply wp_post_mono; [by apply K|done|apply framed_weaken].
Qed.

Lemma wp_connect_upstream_framed b r u settings ip tls s :
  framed F b X s ->
  wp (connect_websocket_proxy_upstream r u settings ip tls)
    (post (fun up s' => upstream_fd up ∉ frame_others F /\ framed F b ({[upstream_fd up]} ∪ X) s') (framed F b X)) s.
Proof using.
  intros W. unfold connect_websocket_proxy_upstream. eapply wp_post_seq; [by apply wp_relay_connect_framed|].
  intros fd s1 [N W1]. unfold owning.
  eapply wp_post_try; [|intros e s2 W2; eapply wp_seq; [by eapply wp_close_fd_framed|intros [] s3 W3; by exec]].
  set (Y := {[fd]} ∪ X) in *.
  assert (K : forall {A B} (m : Handle A) (f : A -> Handle B) Q s, keeps F b Y m -> framed F b Y s ->
    (forall a s', framed F b Y s' -> wp (f a) (post Q (framed F b Y)) s') -> wp (m ≫= f) (post Q (framed F b Y)) s).
  { intros A B m f Q s2 Hm W2 Hf. by apply (wp_post_seq _ _ (fun _ => framed F b Y)); [apply Hm|]. }
  apply K; [keep|done|]. intros [] s2 W2. apply K; [keep|done|]. intros [] s3 W3.
  apply K; [keep|done|]. intros [headers extra] s4 W4. apply K; [keep|done|]. intros response s5 W5. by exec.
Qed.

(** When nothing more fits the connection is closed. *)
Lemma append_phase f `{!Update f} g `{!Update g} data s :
  ((append_websocket_proxy_buffer f g data) s).1 = Ret false ->
  phase_ (connection ((append_websocket_proxy_buffer f g data) s).2) = ClientPhase.closed.
Proof using.
  unfold append_websocket_proxy_buffer, mbind, state_bind, field, get, assign, modify. cbn -[close_now].
  destruct (compact_websocket_proxy_buffer _ _) as [d o]. cbn -[close_now]. destruct (_ <? _); [|done].
  intros _. unfold close_now, close_websocket_upstream, close_reverse_proxy_upstream, close_if_open, close_fd,
    mbind, state_bind, field, get, assign, modify. cbn -[Z.leb]. destruct (0 <=? _); cbn -[Z.leb]; by destruct (0 <=? _).
Qed.

Lemma wp_append_if (c : bool) f `{!Update f} g `{!Update g} data s :
  keeps F false X (append_websocket_proxy_buffer f g data) -> framed F false X s ->
  wp (if c then mret true else append_websocket_proxy_buffer f g data)
    (post (fun r s' => framed F false X s' /\ (r = false -> phase_ (connection s') = ClientPhase.closed))
          (framed F false X)) s.
Proof using.
  intros K W. destruct c; [by apply wp_ret|]. specialize (K s W). pose proof (append_phase f g data s) as Ph.
  unfold wp in *. destruct (append_websocket_proxy_buffer f g data s) as [[a|e|] s']; cbn in *; try done.
  split; [done|]. intros ->. by apply Ph.
Qed.

Lemma wp_start_relay_framed r u settings early s :
  framed F true X s -> wp (start_relay r u settings early) (post (fun _ => launched) (framed F false X)) s.
Proof using.
  intros W. unfold start_relay. exec. apply (wp_post_seq _ _ (fun up s' => upstream_fd up ∉ frame_others F /\ framed F true ({[upstream_fd up]} ∪ X) s')).
  { eapply wp_post_mono; [by apply (wp_connect_upstream_framed true)|done|apply framed_weaken]. }
  intros up s1 [N W1]. apply wp_bind, wp_modify. apply (framed_store_websocket _ _ _ _ N) in W1. revert W1.
  generalize (s1 <| connection ::= update websocket_upstream_fd_ (fun _ => upstream_fd up) |>). clear s1. intros s1 W1.
  apply (wp_kept false); [keep|done|]. intros [] s2 W2. apply (wp_kept false); [unfold record_success; keep|done|]. intros [] s3 W3.
  eapply wp_post_seq; [apply wp_append_if; [keep|done]|]. intros [] s4 [W4 Ph]; cbn [negb].
  2: { exec. right. split; [done|]. by rewrite Ph. }
  clear Ph. eapply wp_post_seq; [apply wp_append_if; [keep|done]|]. intros [] s5 [W5 Ph]; cbn [negb].
  2: { exec. right. split; [done|]. by rewrite Ph. }
  apply (wp_kept false); [keep|done|]. intros [] s6 W6.
  pose proof (keeps_handshake_response F false X (handshake_response up) s6 W6) as W7.
  unfold wp, set_websocket_proxy_handshake_response, set_handshake_response, mbind, state_bind, assign, the_config, get, modify in *.
  cbv [post fst snd] in *. right. split; [exact W7|]. by proj.
Qed.

Lemma launches_upstream_loop r settings early ups skipped attempted :
  launches (websocket_upstream_loop r settings early ups skipped attempted).
Proof using.
  revert skipped attempted; induction ups as [|u ups IH]; intros skipped attempted; cbn [websocket_upstream_loop].
  { apply launches_keeps. keep. }
  apply launches_bind; [keep|]. intros available. destruct (negb available); [apply IH|].
  intros s W. apply (wp_post_seq _ _ (fun (started : bool) s' => if started then launched s' else framed F true X s')).
  - eapply wp_post_try.
    + eapply wp_post_seq; [by apply wp_start_relay_framed|]. intros [] s1 W1. by exec.
    + intros e s1 W1. unfold record_failure. apply (wp_post_seq _ _ (fun _ => framed F false X)).
      { by apply (keeps_bind F false X); [keep|intros; keep|]. }
      intros [] s2 W2. eapply wp_seq; [by eapply wp_close_websocket_framed|]. intros [] s3 W3.
      revert s3 W3. clear. intros s3 W3. exec. eapply framed_same; [|exact W3]. by constructor; proj.
  - intros [] s1 W1; [by exec|]. by apply IH.
Qed.

Lemma wp_framed_launch {A B} (m : Handle A) (f : A -> Handle B) Q s :
  keeps F true X m -> framed F true X s ->
  (forall a s', framed F true X s' -> wp (f a) (post Q (framed F false X)) s') ->
  wp (m ≫= f) (post Q (framed F false X)) s.
Proof using.
  intros K W Hf. eapply wp_post_seq; [|exact Hf]. eapply wp_post_mono; [by apply K|done|apply framed_weaken].
Qed.

(** Whether the request was taken; if not, nothing happened. *)
Definition taken (r : bool) (s : Server) : Prop := if r then launched s else framed F true X s.

Lemma wp_try_relay_framed r s :
  framed F true X s -> wp (try_start_websocket_proxy r) (post taken (framed F false X)) s.
Proof using.
  intros W. unfold try_start_websocket_proxy. apply wp_framed_launch; [keep|done|]. clear s W. intros config s W.
  destruct (reverse_proxy_upstreams_for_request _ _) as [[ups|]|e|]; [| |..].
  - do 6 (apply wp_framed_launch; [keep|done|]; clear s W; intros ? s W).
    eapply wp_post_seq; [by apply launches_upstream_loop|]. intros [] s1 W1. by exec.
  - by apply wp_ret.
  - do 2 (apply wp_framed_launch; [keep|done|]; clear s W; intros ? s W). apply wp_ret. by left.
  - by apply wp_call.
Qed.
End start.

(** ** Requests *)

Section requests.
Context (F : Frame) `{MapOrder bytes, MapOrder (list bytes)} (env : Environment) (X : gset Z).

Section any.
Context (b : bool).

Lemma keeps_dispatch r : keeps F b X (dispatch_request env r).
Proof using. unfold dispatch_request. keep. Qed.
#[local] Hint Resolve keeps_dispatch : keeps.

Lemma keeps_process_request raw : keeps F b X (process_request env raw).
Proof using. unfold process_request. keep. Qed.

Lemma keeps_restart_clock : keeps F b X restart_request_clock.
Proof using. unfold restart_request_clock. keep. Qed.
#[local] Hint Resolve keeps_restart_clock : keeps.

Lemma keeps_process_body_stream : keeps F b X (process_http1_body_stream env).
Proof using. unfold process_http1_body_stream, fail_http1_body_stream, finish_http1_body_stream. keep. Qed.

Lemma keeps_start_body_stream r frame : keeps F b X (start_http1_body_stream r frame).
Proof using. unfold start_http1_body_stream. keep. Qed.

Lemma keeps_prior_knowledge : keeps F b X process_http2_prior_knowledge.
Proof using. unfold process_http2_prior_knowledge, forget_request_clock. keep. Qed.

Lemma keeps_http2 : keeps F b X (process_http2_frames env).
Proof using.
  assert (K : forall result, keeps F b X (handle_http2_session_result env result)).
  { intros result. unfold handle_http2_session_result, dispatch_http2_request, h2_response. keep. }
  unfold process_http2_frames. generalize 1%nat as fuel. induction fuel as [|fuel IH]; cbn [http2_loop]; keep; apply K.
Qed.

Lemma keeps_websocket_frames : keeps F b X process_websocket_frames.
Proof using. unfold process_websocket_frames, put_websocket_view. keep. Qed.
#[local] Hint Resolve keeps_websocket_frames : keeps.

Lemma keeps_read_blocked w : keeps F b X (read_blocked w).
Proof using. unfold read_blocked. keep. Qed.
Lemma keeps_write_blocked w : keeps F b X (write_blocked w).
Proof using. unfold write_blocked. keep. Qed.
#[local] Hint Resolve keeps_read_blocked keeps_write_blocked : keeps.

Lemma keeps_write_all extra finish : keeps F b X finish -> keeps F b X (write_all extra finish).
Proof using.
  intros K. unfold write_all. keep. rename a into results.
  induction results as [|[[|n]|w|] results IH]; cbn [write_loop]; keep.
Qed.

Lemma keeps_flush_websocket : keeps F b X flush_websocket_writes.
Proof using. apply keeps_write_all. keep. Qed.
#[local] Hint Resolve keeps_flush_websocket : keeps.

Lemma keeps_handle_websocket revents : keeps F b X (handle_websocket revents).
Proof using.
  unfold handle_websocket. keep. unfold read_websocket. keep.
  match goal with results : list ReadResult |- _ => induction results as [|[chunk| |w|] results IH] end;
    cbn [read_websocket_loop]; keep.
Qed.

Lemma keeps_tls_shutdown : keeps F b X do_tls_shutdown.
Proof using. unfold do_tls_shutdown. keep. Qed.

Lemma keeps_tls_handshake : keeps F b X do_tls_handshake.
Proof using. unfold do_tls_handshake. keep. Qed.

Lemma keeps_expire t : keeps F b X (expire_if_timed_out env t).
Proof using. unfold expire_if_timed_out. keep. Qed.
End any.
#[local] Hint Resolve keeps_dispatch keeps_process_request keeps_restart_clock keeps_process_body_stream
  keeps_start_body_stream keeps_prior_knowledge keeps_http2 keeps_websocket_frames keeps_read_blocked keeps_write_blocked
  keeps_flush_websocket keeps_tls_shutdown : keeps.

Ltac launch := apply launches_keeps; keep.

Lemma wp_upgrade_framed r consumed s :
  framed F true X s -> wp (try_handle_websocket_upgrade env r consumed) (post (taken F X) (framed F false X)) s.
Proof using.
  intros W. unfold try_handle_websocket_upgrade. destruct (negb _); [by apply wp_ret|].
  do 5 (apply wp_framed_launch; [keep|done|]; clear s W; intros ? s W).
  match goal with c : bool |- _ => destruct c end.
  { apply wp_framed_launch; [keep|done|]. intros [] s1 W1. apply wp_ret. by left. }
  apply wp_framed_launch; [keep|done|]. clear s W. intros [waf|] s W.
  { apply wp_framed_launch; [keep|done|]. intros [] s1 W1. apply wp_ret. by left. }
  eapply wp_post_seq; [by apply wp_try_relay_framed|]. clear s W. intros [] s W; [by apply wp_ret|]. cbn [taken] in W.
  do 4 (apply wp_framed_launch; [keep|done|]; clear s W; intros ? s W). apply wp_ret. by left.
Qed.

Lemma launches_http1_frame : launches F X (process_http1_frame env).
Proof using.
  unfold process_http1_frame. do 3 (apply launches_bind; [keep|]; intros ?).
  destruct (Http1Frame.state _); try solve [launch].
  all: intros s W; apply (wp_post_seq _ _ (taken F X));
    [destruct (Http1Frame.request _); [by apply wp_upgrade_framed|by apply wp_ret]|].
  all: clear s W; intros [] s W; [by apply wp_ret|]; cbn [taken] in W; revert s W; refine (_ : launches F X _); launch.
Qed.

Lemma launches_buffered_request : launches F X (process_buffered_request env).
Proof using.
  unfold process_buffered_request. do 2 (apply launches_bind; [keep|]; intros ?).
  match goal with |- launches _ _ match ?c with _ => _ end => destruct c as [config|] end; [|launch].
  destruct (negb _); [launch|]. apply launches_bind; [keep|]; intros []; [launch|].
  apply launches_bind; [keep|]; intros []; [launch|]. apply launches_bind; [keep|]; intros []; [launch|].
  destruct (negb _); [launch|]. apply launches_http1_frame.
Qed.

Lemma launches_append chunk : launches F X (append_request_bytes env chunk).
Proof using.
  unfold append_request_bytes. do 4 (apply launches_bind; [keep|]; intros ?).
  match goal with |- launches _ _ match ?c with _ => _ end => destruct c as [stream|] end; [launch|].
  apply launches_buffered_request.
Qed.

Lemma launches_read_request : launches F X (read_request env).
Proof using.
  unfold read_request. apply launches_bind; [keep|]; intros results.
  induction results as [|[chunk| |w|] results IH]; cbn [read_request_loop]; [launch| |launch..].
  do 3 (apply launches_bind; [keep|]; intros ?). intros s W. eapply wp_post_seq; [by apply launches_append|].
  intros [] s1 W1. apply wp_bind, wp_get. case_bool_decide; [|by apply wp_ret].
  apply IH. by destruct W1 as [W1|[_ N]].
Qed.
End requests.
#[export] Hint Resolve keeps_dispatch keeps_process_request keeps_restart_clock keeps_process_body_stream
  keeps_start_body_stream keeps_prior_knowledge keeps_http2 keeps_websocket_frames keeps_read_blocked keeps_write_blocked
  keeps_write_all keeps_flush_websocket keeps_handle_websocket keeps_tls_shutdown keeps_tls_handshake keeps_expire : keeps.

(** ** Events *)

Section events.
Context (F : Frame) (limit : Z) (P : bytes).
Context `{MapOrder bytes, MapOrder (list bytes)} (env : Environment).
Abbreviation within := (framed F false ∅).

(** Only a response that starts a relay is sent while there is a relay. *)
Definition settled (s : Server) : Prop :=
  within s /\ (websocket_proxy_after_response_ (connection s) = false -> websocket_upstream_fd_ (connection s) = -1).

Lemma framed_free_relay s : within s -> websocket_upstream_fd_ (connection s) = -1 -> framed F true ∅ s.
Proof using. intros [] E. by constructor. Qed.

Lemma wp_within {A B} (m : Handle A) (f : A -> Handle B) Q s :
  keeps F false ∅ m -> within s -> (forall a s', within s' -> wp (f a) (post Q within) s') ->
  wp (m ≫= f) (post Q within) s.
Proof using. intros K W Hf. eapply wp_post_seq; [by apply K|exact Hf]. Qed.

Lemma launches_wp {A} (m : Handle A) s :
  launches F ∅ m -> framed F true ∅ s -> wp m (post (fun _ => within) within) s.
Proof using. intros L W. eapply wp_post_mono; [by apply L| |done]. intros a s'. apply launched_framed. Qed.

Lemma wp_finish_framed s : settled s -> wp (finish_response env) (post (fun _ => within) within) s.
Proof using.
  intros [W Fr]. unfold finish_response. do 4 apply wp_bind, wp_get.
  destruct (websocket_after_response_ (connection s)).
  { revert s W Fr. intros s W _. unfold clear_response. revert s W. refine (_ : keeps F false ∅ _). keep. }
  destruct (websocket_proxy_after_response_ (connection s)) eqn:Rl.
  { clear Rl Fr. unfold clear_response. revert s W. refine (_ : keeps F false ∅ _). keep. }
  destruct (keep_alive_after_response_ (connection s)).
  - apply launches_wp; [|by apply framed_free_relay; auto]. unfold clear_response.
    do 10 (apply launches_bind; [keep|]; intros ?). apply launches_buffered_request.
  - clear Rl Fr. destruct (ssl_ (connection s)); revert s W; refine (_ : keeps F false ∅ _); keep.
Qed.

Lemma settled_same s s' :
  same_frame s s' -> websocket_proxy_after_response_ (connection s') = websocket_proxy_after_response_ (connection s) ->
  settled s -> settled s'.
Proof using.
  intros Sf E [W Fr]. split; [by eapply framed_same|]. rewrite E, (same_frame_websocket _ _ Sf). exact Fr.
Qed.

Lemma wp_write_response_framed s : settled s -> wp (write_response env) (post (fun _ => within) within) s.
Proof using.
  intros W. unfold write_response, write_all. exec. generalize (client_writes (answers s)) as results. intros results.
  set (s1 := s <| answers ::= _ |>). assert (W1 : settled s1) by (refine (settled_same _ _ _ _ W); by constructor).
  clearbody s1. clear s W. revert s1 W1.
  assert (Tail : forall results (m : Handle unit), keeps F false ∅ m -> forall s, settled s ->
    wp (put_back client_writes results ;; m) (post (fun _ => within) within) s).
  { intros l m K s [W _]. revert s W. refine (_ : keeps F false ∅ _). keep. }
  assert (Blocked : forall w, keeps F false ∅ (mask ← write_blocked w; assign events_ (Z.lor mask 0))) by (intros w; keep).
  induction results as [|[[|n]|w|] results IH]; intros s W; cbn [write_loop]; do 2 apply wp_bind, wp_get;
    (destruct (_ <? _)%nat; [|exec; apply wp_finish_framed; refine (settled_same _ _ _ _ W); by constructor]).
  - apply Blocked, W.
  - apply Tail; [keep|done].
  - exec. apply IH. refine (settled_same _ _ _ _ W); [by constructor; proj|by proj].
  - by apply Tail.
  - apply Tail; [keep|done].
Qed.

Lemma wf_reading_free s : wf limit P s -> phase_ (connection s) = ClientPhase.reading -> within s -> framed F true ∅ s.
Proof using.
  intros W Ph Wi. apply framed_free_relay; [done|]. unfold wf in W. rewrite Ph in W. apply W.
Qed.

Lemma wf_settled s : wf limit P s -> phase_ (connection s) = ClientPhase.writing -> within s -> settled s.
Proof using.
  intros W Ph Wi. split; [done|]. intros E. unfold wf in W. rewrite Ph in W.
  pose proof (sending_relay _ _ _ W) as R. rewrite E in R. apply R.
Qed.

Lemma wp_handle_framed revents s :
  wf limit P s -> within s -> wp (handle env revents) (post (fun _ => within) within) s.
Proof using.
  intros W Wi. unfold handle. apply wp_bind, wp_get.
  assert (K : forall m : Handle unit, keeps F false ∅ m -> wp m (post (fun _ => within) within) s) by (intros m K; by apply K).
  destruct (phase_ (connection s)) eqn:Ph; try (destruct (hang_up revents); [apply K; keep|]); try (apply K; keep; fail).
  - destruct (has _ _); [|apply K; keep]. apply launches_wp; [apply launches_read_request|by apply wf_reading_free].
  - destruct (has _ _); [|apply K; keep]. by apply wp_write_response_framed, wf_settled.
Qed.

Lemma keeps_handle_upstream revents : keeps F false ∅ (handle_upstream env revents).
Proof using. unfold handle_upstream. keep. Qed.

Lemma keeps_modify_events : keeps F false ∅ (modify_client_events env).
Proof using.
  unfold modify_client_events. keep. unfold handle. change (hang_up EPOLLERR) with true. keep.
Qed.

Lemma keeps_unless_closed m : keeps F false ∅ m -> keeps F false ∅ (unless_closed m).
Proof using. intros K. unfold unless_closed. keep. Qed.
End events.
