(* ===== verification/ProxyFacts.v ===== *)
(** * ProxyFacts: the loop over the upstreams ends

    [start_next_reverse_proxy_attempt] tries one upstream after another, and
    every attempt that fails on the spot starts the next one from inside.  The
    index into the list of upstreams only grows, so the list's length is fuel
    enough. *)

From S2P Require Import Prelude Text Numbers Request Http1Frame Response StaticFiles Handler BodyStream Waf VirtualHost ReverseProxy Http2Session Config Security WebSocket State Connection ProxyExchange ConnectionFacts.

(** What is left of the list of upstreams. *)
Definition remaining (c : ClientConnection) : nat :=
  length (reverse_proxy_ordered_upstreams_ c) - reverse_proxy_attempt_index_ c.

(** [m] returns when at most [n] upstreams are left, and leaves no more. *)
Definition steady (n : nat) {A} (m : Handle A) : Prop :=
  forall s, (remaining (connection s) <= n)%nat ->
    (m s).1 <> Timeout /\ (remaining (connection (m s).2) <= n)%nat.

Create HintDb steady.

Section steady.
Context (n : nat).

Lemma steady_ret {A} (a : A) : steady n (mret a).
Proof using. by intros s. Qed.
Lemma steady_throw {A} e : steady n (@throw Server A e).
Proof using. by intros s. Qed.
Lemma steady_call {A} (o : outcome A) : settles o -> steady n (call o).
Proof using. by intros N s. Qed.
Lemma steady_field {T} (f : ClientConnection -> T) : steady n (field f).
Proof using. by intros s. Qed.
Lemma steady_shared {A} (f : Server -> A * Server) :
  (forall s, connection (f s).2 = connection s) -> steady n (shared f).
Proof using. intros E s Hs. unfold shared. specialize (E s). destruct (f s) as [a s']. cbn in *. by rewrite E. Qed.

(** An assignment to any field but the list and the index. *)
Lemma steady_modify f : (forall s, remaining (connection (f s)) = remaining (connection s)) -> steady n (modify f).
Proof using. intros E s Hs. cbn. by rewrite E. Qed.

Lemma steady_bind {A B} (m : Handle A) (f : A -> Handle B) :
  steady n m -> (forall a, steady n (f a)) -> steady n (m ≫= f).
Proof using.
  intros Hm Hf s Hs. specialize (Hm s Hs). unfold mbind, state_bind. destruct (m s) as [[a|e|] s']; cbn in *.
  - by apply Hf, Hm.
  - by split; [|apply Hm].
  - by destruct Hm as [[] _].
Qed.

Lemma steady_try {A} (m : Handle A) h : steady n m -> (forall e, steady n (h e)) -> steady n (try_catch m h).
Proof using.
  intros Hm Hh s Hs. specialize (Hm s Hs). unfold try_catch. destruct (m s) as [[a|e|] s']; cbn in *; [done| |done].
  by apply Hh, Hm.
Qed.

Lemma steady_neutral {A} (m : Handle A) : (forall s, settles (m s).1) -> neutral m -> steady n m.
Proof using. intros T N s Hs. split; [apply T|]. by rewrite (same_connection _ _ (N s)). Qed.
End steady.

#[export] Hint Resolve steady_ret steady_throw steady_field : steady.
#[export] Hint Extern 2 (steady _ (mbind _ _)) => apply steady_bind; [|intros ?] : steady.
#[export] Hint Extern 2 (steady _ (try_catch _ _)) => apply steady_try; [|intros ?] : steady.
#[export] Hint Extern 3 (steady _ (if ?c then _ else _)) => destruct c : steady.
#[export] Hint Extern 3 (steady _ (match ?c with _ => _ end)) => destruct c : steady.
#[export] Hint Extern 1 (steady _ (assign _ _)) => apply steady_modify; intros []; reflexivity : steady.
#[export] Hint Extern 1 (steady _ (modify _)) => apply steady_modify; intros []; reflexivity : steady.
#[export] Hint Extern 1 (steady _ (take_all _)) => apply steady_neutral; [done|apply neutral_take_all] : steady.
#[export] Hint Extern 1 (steady _ (put_back _ _)) => apply steady_neutral; [done|apply neutral_put_back] : steady.
#[export] Hint Extern 1 (steady _ (ask _)) => apply steady_neutral; [done|apply neutral_ask] : steady.
#[export] Hint Extern 1 (steady _ now) => apply steady_neutral; [done|apply neutral_now] : steady.
#[export] Hint Extern 1 (steady _ (in_phase _)) => apply steady_neutral; [done|apply neutral_in_phase] : steady.
#[export] Hint Extern 1 (steady _ the_config) => apply steady_neutral; [done|apply neutral_config] : steady.

Section proxy.
Context `{MapOrder bytes} (env : Environment) (n : nat).

Lemma steady_close_if_open fd : steady n (close_if_open fd).
Proof using. unfold close_if_open, close_fd. auto with steady. Qed.
Lemma steady_close_reverse_proxy : steady n close_reverse_proxy_upstream.
Proof using. unfold close_reverse_proxy_upstream. auto 20 using steady_close_if_open with steady. Qed.
Lemma steady_close_websocket : steady n close_websocket_upstream.
Proof using. unfold close_websocket_upstream. auto 20 using steady_close_if_open with steady. Qed.
Lemma steady_close_now : steady n close_now.
Proof using. unfold close_now. auto 20 using steady_close_reverse_proxy, steady_close_websocket with steady. Qed.
Lemma steady_record_failure u settings : steady n (record_failure u settings).
Proof using. unfold record_failure, circuit. auto with steady. Qed.
Lemma steady_available u settings : steady n (upstream_available u settings).
Proof using.
  unfold upstream_available. apply steady_bind; [auto with steady|]. intros t. apply steady_shared.
  intros s. by destruct (reverse_proxy_upstream_available _ _ _ _).
Qed.
Lemma steady_client_events : steady n update_client_epoll_events.
Proof using. unfold update_client_epoll_events. auto 20 using steady_close_now with steady. Qed.
Lemma steady_set_response response body_mode keep_alive : steady n (set_response response body_mode keep_alive).
Proof using.
  unfold set_response, set_serialized_response. auto 20 with steady.
Qed.
Lemma steady_register events : steady n (register_reverse_proxy_upstream events).
Proof using. unfold register_reverse_proxy_upstream. auto 20 with steady. Qed.
Lemma steady_update_events : steady n update_reverse_proxy_upstream_events.
Proof using. unfold update_reverse_proxy_upstream_events. auto 20 using steady_register with steady. Qed.
Lemma steady_failure_response : steady n finish_reverse_proxy_failure_response.
Proof using.
  unfold finish_reverse_proxy_failure_response.
  auto 20 using steady_close_reverse_proxy, steady_set_response, steady_client_events with steady.
Qed.

Section attempt.
Context (start_next : Handle unit) (start_next_steady : steady n start_next).

Lemma steady_fail_attempt : steady n (fail_attempt start_next).
Proof using start_next_steady.
  unfold fail_attempt. auto 20 using steady_record_failure, steady_close_reverse_proxy with steady.
Qed.

Lemma steady_enter_stage stage : steady n (enter_stage stage).
Proof using. unfold enter_stage. auto with steady. Qed.

Lemma steady_flush_request_loop results : steady n (flush_request_loop start_next results).
Proof using start_next_steady.
  induction results as [|r results IH]; cbn [flush_request_loop];
    auto 20 using steady_fail_attempt, steady_enter_stage with steady.
Qed.

Lemma steady_write_stage : steady n (write_stage start_next).
Proof using start_next_steady.
  unfold write_stage, flush_request.
  auto 20 using steady_flush_request_loop, steady_enter_stage, steady_update_events with steady.
Qed.

Lemma steady_tls_handshake : steady n (start_tls_handshake start_next).
Proof using start_next_steady.
  unfold start_tls_handshake, drive_tls_handshake.
  auto 20 using steady_fail_attempt, steady_enter_stage, steady_update_events, steady_write_stage with steady.
Qed.

Lemma steady_finish_connect : steady n (finish_tcp_connect start_next).
Proof using start_next_steady.
  unfold finish_tcp_connect. auto 20 using steady_fail_attempt, steady_tls_handshake, steady_write_stage with steady.
Qed.

Lemma steady_tcp_connect_loop items e : steady n (tcp_connect_loop items e).
Proof using.
  revert e; induction items as [|[| |e'] items IH]; intros e; cbn [tcp_connect_loop]; auto with steady.
  all: apply steady_bind; [by apply steady_shared|auto with steady].
Qed.

Lemma body_text_settles files r k : settles (body_text files r k).
Proof using.
  unfold body_text. destruct (body_text_loop_returns (bytes_to_read r k) (bytes_to_read r k)
    (open_body_reader files r) []) as [b ->]; [cbn; lia|done].
Qed.

Lemma steady_begin_attempt upstream : steady n (begin_attempt env start_next upstream).
Proof using start_next_steady.
  unfold begin_attempt, start_reverse_proxy_tcp_connect.
  assert (B : forall r u, steady n (call (build_reverse_proxy_upstream_request (env_files env) r u))).
  { intros r u. apply steady_call. unfold build_reverse_proxy_upstream_request.
    apply settles_bind; [apply body_text_settles|done]. }
  auto 30 using steady_close_reverse_proxy, steady_enter_stage, steady_register, steady_finish_connect,
    steady_tcp_connect_loop with steady.
Qed.
End attempt.
End proxy.

Section loop.
Context `{MapOrder bytes} (env : Environment).

Lemma steady_more n m {A} (h : Handle A) s :
  steady n h -> (remaining (connection s) <= n)%nat -> (n <= m)%nat ->
  (h s).1 <> Timeout /\ (remaining (connection (h s).2) <= m)%nat.
Proof using. intros S Hs Hn. destruct (S s Hs). split; [done|lia]. Qed.

(** An attempt on [upstream], with [next] for what follows a failure. *)
Definition attempt_then (next : Handle unit) (upstream : ReverseProxyTarget) : Handle unit :=
  settings ← field reverse_proxy_settings_;
  available ← upstream_available upstream settings;
  if negb available then assign reverse_proxy_skipped_open_circuit_ true ;; next
  else
    assign reverse_proxy_attempted_upstream_ true ;;
    started ← try_catch
      (begin_attempt env next upstream ;; mret true)
      (fun _ => record_failure upstream settings ;; close_reverse_proxy_upstream ;; mret false);
    if started : bool then mret tt else next.

Lemma start_next_attempt fuel upstream s :
  reverse_proxy_ordered_upstreams_ (connection s) !! reverse_proxy_attempt_index_ (connection s) = Some upstream ->
  phase_ (connection s) = ClientPhase.reverse_proxy ->
  start_next env (S fuel) s = attempt_then (start_next env fuel) upstream
    (s <| connection ::= update reverse_proxy_attempt_index_ (fun _ => S (reverse_proxy_attempt_index_ (connection s))) |>).
Proof using.
  intros Lk Ph. cbn [start_next]. unfold mbind at 1, state_bind at 1, in_phase, get at 1. rewrite bool_decide_true by done.
  unfold mbind at 1, state_bind at 1, field at 1, get at 1. unfold mbind at 1, state_bind at 1, field at 1, get at 1.
  by rewrite Lk.
Qed.

Lemma start_next_answers fuel s :
  reverse_proxy_ordered_upstreams_ (connection s) !! reverse_proxy_attempt_index_ (connection s) = None \/
  phase_ (connection s) <> ClientPhase.reverse_proxy ->
  start_next env fuel s = finish_reverse_proxy_failure_response s.
Proof using.
  intros C. destruct fuel as [|fuel]; cbn [start_next]; unfold mbind at 1, state_bind at 1, in_phase, get at 1.
  all: unfold mbind at 1, state_bind at 1, field at 1, get at 1; unfold mbind at 1, state_bind at 1, field at 1, get at 1.
  all: destruct (_ !! _); [destruct C as [?|C]; [done|]; by rewrite bool_decide_false|done].
Qed.

Lemma steady_attempt_then n next upstream : steady n next -> steady n (attempt_then next upstream).
Proof using.
  intros Sn. unfold attempt_then.
  auto 20 using steady_available, steady_begin_attempt, steady_record_failure, steady_close_reverse_proxy with steady.
Qed.

Lemma steady_start_next fuel n : (n <= fuel)%nat -> steady n (start_next env fuel).
Proof using.
  revert n; induction fuel as [|fuel IH]; intros n Hn s Hs.
  all: destruct (reverse_proxy_ordered_upstreams_ (connection s) !! reverse_proxy_attempt_index_ (connection s))
    as [upstream|] eqn:Lk; [|rewrite start_next_answers by auto; by apply steady_failure_response].
  all: pose proof (lookup_lt_Some _ _ _ Lk) as Lt; unfold remaining in Hs.
  { lia. }
  destruct (decide (phase_ (connection s) = ClientPhase.reverse_proxy)) as [Ph|Ph].
  2: rewrite start_next_answers by auto; by apply steady_failure_response.
  rewrite (start_next_attempt fuel upstream) by done.
  eapply (steady_more (pred n)); [apply steady_attempt_then, IH; lia| |lia]. unfold remaining. proj. lia.
Qed.

(** The reverse proxy gives every request an end: whatever the upstreams
    answer, trying them one after another returns - with an exchange under way
    or a response set - and no upstream of the list is tried twice. *)
Theorem proxy_attempts_end s :
  (start_next_reverse_proxy_attempt env s).1 <> Timeout /\
  (remaining (connection (start_next_reverse_proxy_attempt env s).2) <= remaining (connection s))%nat.
Proof using.
  unfold start_next_reverse_proxy_attempt. cbv [mbind state_bind field get].
  apply steady_start_next; [|done]. unfold remaining. lia.
Qed.
End loop.
