(* ===== verification/ReactorFacts.v ===== *)
(** * ReactorFacts: the event handlers keep every connection well-formed *)

From S2P Require Import Prelude Text Numbers Request Http1Frame Response StaticFiles Handler BodyStream Waf VirtualHost ReverseProxy Http2Session Config Security WebSocket State Connection ProxyExchange WebSocketProxy Reactor ConnectionFacts.

Section handlers.
Context (limit : Z) (P : bytes).
Context `{MapOrder bytes, MapOrder (list bytes)} (env : Environment).
Abbreviation good := (good limit P).

Definition anything (s : Server) : Prop := True.

(** ** Updates of a reading connection *)

Lemma silent_ext s s' :
  live limit s' -> no_response (connection s') -> no_relay (connection s') -> no_proxy (connection s') ->
  client_out s' = client_out s -> silent limit P s -> silent limit P s'.
Proof using. intros L R W N E []. constructor; try done. by rewrite E. Qed.

Lemma no_proxy_ext c c' :
  reverse_proxy_upstream_fd_ c' = reverse_proxy_upstream_fd_ c -> no_proxy c -> no_proxy c'.
Proof using. unfold no_proxy. by intros ->. Qed.
End handlers.

(** An update that touches none of the fields that [silent] reads. *)
Ltac keep_silent_with Si tac :=
  eapply silent_ext; [..|exact Si]; proj;
  [ first [eapply live_ext; [..|exact (silent_live _ _ _ Si)]; by proj|tac]
  | eapply no_response_ext; [..|exact (silent_response _ _ _ Si)]; by proj
  | eapply no_relay_ext; [..|exact (silent_relay _ _ _ Si)]; by proj
  | eapply no_proxy_ext; [..|exact (silent_proxy _ _ _ Si)]; by proj
  | done ].
Ltac keep_silent Si := keep_silent_with Si fail.

(** The same for [reading]; the budget and the stream are left when they
    change. *)
Ltac keep_reading R :=
  constructor;
  [ proj; exact (reading_phase _ _ _ R)
  | keep_silent (reading_silent _ _ _ R)
  | unfold budget; proj; try exact (reading_budget _ _ _ R)
  | unfold plain_http; proj; try exact (reading_stream _ _ _ R) ].

Section requests.
Context (limit : Z) (P : bytes).
Context `{MapOrder bytes, MapOrder (list bytes)} (env : Environment).
Abbreviation good := (good limit P).

(** ** Dispatch *)

(** Reading, with a whole request taken from the buffer. *)
Record requested (s : Server) : Prop := {
  requested_reading : reading limit P s;
  requested_stream : http1_body_stream_ (connection s) = None;
}.

Lemma wp_refuse_good code text s : silent limit P s -> wp (refuse code text) (post good never) s.
Proof using.
  intros Si. eapply wp_post_mono; [by apply (wp_refuse limit P)| |done]. intros [] s' [Ph Se]. by apply sending_wf.
Qed.

Lemma wp_set_serialized_good payload keep_alive s :
  silent limit P s ->
  (keep_alive = true -> budget limit (connection s) /\ http1_body_stream_ (connection s) = None) ->
  wp (set_serialized_response payload keep_alive) (post good never) s.
Proof using.
  intros Si K. eapply wp_post_mono; [by apply (wp_set_serialized_response limit P)| |done].
  intros [] s' [Ph Se]. by apply sending_wf.
Qed.

Lemma wp_try_start_reverse_proxy request keep_alive s :
  silent limit P s -> http1_body_stream_ (connection s) = None -> http2_active_ (connection s) = false ->
  (keep_alive = true -> budget limit (connection s)) ->
  wp (try_start_reverse_proxy env request keep_alive)
    (post (fun (started : bool) s' => if started then wf limit P s' else s' = s) (silent limit P)) s.
Proof using.
  intros Si St H2 Bu. unfold try_start_reverse_proxy. exec.
  destruct (reverse_proxy_upstreams_for_request _ _) as [[upstreams|]|e|].
  - exec. destruct (reverse_proxy_settings _) as [settings|e|]; [exec|cbn; keep_silent Si|done].
    apply wp_harmless; [auto with harmless|]. intros ordered s1 SC. exec.
    pose proof (silent_same limit P _ _ SC) as Si1. destruct SC as [C1 O1 U1 T1].
    eapply wp_seq; [apply (wp_start_next_attempt limit P)|intros [] s2 W; by exec].
    assert (Si2 : silent limit P s1) by (apply Si1; keep_silent Si).
    split; [|eapply no_proxy_ext; [|exact (silent_proxy _ _ _ Si2)]; by proj].
    constructor; proj; rewrite ?C1; proj; try done.
    + eapply live_ext; [..|exact (silent_live _ _ _ Si2)]; by proj.
    + eapply no_response_ext; [..|exact (silent_response _ _ _ Si2)]; rewrite C1; by proj.
    + eapply no_relay_ext; [..|exact (silent_relay _ _ _ Si2)]; rewrite C1; by proj.
    + left. apply Si.
    + apply Si2.
    + lia.
  - by exec.
  - eapply wp_seq; [apply wp_assume_never, wp_refuse_good, Si|]. intros [] s1 W. by exec.
  - by exec.
Qed.

(** The sink of a transaction always holds a response. *)
Lemma dispatch_sent (factory : Request -> attempt (option (RequestHandler (S := BufferedResponseSink)))) request sink :
  (forall h, factory request = Value (Some h) -> on_error h = default_on_error) ->
  sent_ (dispatch factory request sink).2 = true.
Proof using.
  assert (E : forall sink text, sent_ (send_error (S := BufferedResponseSink) sink text) = true)
    by (intros sink0 text; exact (send_error_sent sink0 text)).
  intros Hd. unfold dispatch. destruct (factory request) as [[h|]|w]; [|apply E..].
  destruct (on_request h request sink) as [s1 [[]|w]]; [|apply E]. destruct (on_complete h); [|apply E].
  destruct (sent s1) eqn:Sent; cbn [negb]; [exact Sent|]. rewrite Hd by done. apply E.
Qed.

Lemma wp_run_transaction request s :
  wp (run_transaction env request) (post (fun sink s' => sent_ sink = true /\ same_core s s') (same_core s)) s.
Proof using.
  unfold run_transaction. exec. destruct (parse_virtual_host_rules _); [exec|done..].
  destruct (reverse_proxy_settings _); [exec|done..]. unfold wp, shared_call.
  destruct (virtual_host_on_request _ _ _ _ _ _ _ _ _ _ _) as [[sink p]|e|]; cbn [fst snd post]; [..|done].
  all: split; [|done]; apply dispatch_sent; by intros h [= <-].
Qed.

(** The configuration in force. *)
Lemma live_config_value s :
  live limit s -> config_ok limit (default default_config (config_ (connection s))).
Proof using. intros L. destruct (live_config _ _ L) as (config & -> & C). exact C. Qed.

Lemma wp_dispatch_request request s :
  requested s -> http2_active_ (connection s) = false ->
  wp (dispatch_request env request) (post good (silent limit P)) s.
Proof using.
  intros [[Ph Si Bu Ph1] St] H2. unfold dispatch_request. exec.
  apply wp_harmless; [auto with harmless|]. intros limited s1 SC. pose proof (silent_same limit P _ _ SC Si) as Si1.
  destruct limited; [by apply wp_assume_never, wp_refuse_good|]. exec.
  destruct (inspect_waf _ _ _) as [[waf_response|]|e|]; [|exec|done..].
  { apply wp_assume_never. eapply wp_post_mono; [by apply (wp_set_response limit P)| |done].
    intros [] s' [Ph' Se]. by apply sending_wf. }
  pose proof (live_config_value s (silent_live _ _ _ Si)) as [K1 K2].
  destruct SC as [C1 O1 U1 T1].
  set (served := requests_served_ (connection s1)).
  set (s2 := s1 <| connection ::= _ |>).
  assert (Si2 : silent limit P s2).
  { subst s2. keep_silent_with Si1 ltac:(idtac). destruct (silent_live _ _ _ Si1) as [L1 L2 L3 L4].
    constructor; proj; try done. unfold budget in Bu. rewrite <- C1 in Bu. subst served. lia. }
  set (keep_alive := request_should_keep_alive _ _ && _).
  assert (Bu2 : keep_alive = true -> budget limit (connection s2)).
  { intros K%andb_prop. destruct K as [_ K%negb_true_iff%Z.leb_gt]. right. subst s2. proj. subst served.
    rewrite C1 in *. lia. }
  assert (St2 : http1_body_stream_ (connection s2) = None) by (subst s2; proj; by rewrite C1).
  assert (H22 : http2_active_ (connection s2) = false) by (subst s2; proj; by rewrite C1).
  clearbody s2 keep_alive. clear Si1.
  eapply wp_post_seq; [by apply wp_try_start_reverse_proxy|]. intros [] s3 W; [by exec|]. subst s3.
  eapply wp_post_seq.
  { eapply wp_post_mono; [apply wp_run_transaction|intros sink s3 Q; exact Q|]. intros s3 SC. by apply (silent_same limit P s2). }
  intros sink s3 [Sent SC3]. rewrite Sent. cbn [negb]. apply wp_assume_never, wp_set_serialized_good.
  - by apply (silent_same limit P s2).
  - intros K. rewrite (same_connection _ _ SC3). auto.
Qed.

Lemma wp_process_request raw s :
  requested s -> http2_active_ (connection s) = false -> wp (process_request env raw) (post good (silent limit P)) s.
Proof using.
  intros R H2. unfold process_request. destruct (parse_request raw); [by apply wp_dispatch_request|].
  apply wp_assume_never, wp_refuse_good, R.
Qed.

(** ** Bodies *)

Lemma reading_wf s : reading limit P s -> wf limit P s.
Proof using. intros R. unfold wf. by rewrite (reading_phase _ _ _ R). Qed.

Lemma wf_reading s : wf limit P s -> phase_ (connection s) = ClientPhase.reading -> reading limit P s.
Proof using. intros W Ph. unfold wf in W. by rewrite Ph in W. Qed.

Lemma wp_restart_request_clock s :
  requested s -> wp restart_request_clock (post (fun _ s' => requested s' /\
    http2_active_ (connection s') = http2_active_ (connection s)) never) s.
Proof using.
  intros [R St]. unfold restart_request_clock. exec.
  destruct (bool_decide _); exec; cbv [post]; (split; [constructor; [keep_reading R|by proj]|by proj]).
Qed.

Lemma wp_finish_body_stream stream s :
  reading limit P s -> http2_active_ (connection s) = false ->
  wp (finish_http1_body_stream env stream) (post good (silent limit P)) s.
Proof using.
  intros R H2. unfold finish_http1_body_stream. exec. eapply wp_seq.
  - apply wp_restart_request_clock. constructor; [keep_reading R; by intros|by proj].
  - intros [] s1 [R1 H1]. apply wp_dispatch_request; [done|]. rewrite H1. by proj.
Qed.

Lemma wp_process_body_stream s :
  reading limit P s -> wp (process_http1_body_stream env) (post good never) s.
Proof using.
  intros R. unfold process_http1_body_stream. exec.
  destruct (http1_body_stream_ (connection s)) as [stream|] eqn:St; [|exec; by apply reading_wf].
  assert (H2 : http2_active_ (connection s) = false) by (apply (reading_stream _ _ _ R); by rewrite St).
  eapply wp_post_try with (E' := silent limit P).
  - exec. destruct (BodyStream.process_http1_body_stream _ _ _) as [[stream' rest|code text|stream' rest]|e|].
    + exec. apply reading_wf. keep_reading R. by intros.
    + unfold fail_http1_body_stream. exec. apply wp_assume_never, wp_refuse_good. keep_silent (reading_silent _ _ _ R).
    + exec. apply wp_finish_body_stream; [|by proj]. keep_reading R.
    + apply R.
    + done.
  - intros e s1 Si. exec. apply wp_refuse_good. keep_silent Si.
Qed.

(** ** The relay of an upgraded connection *)

(** Between [reading] and the answer: an upstream may be connected and the
    relay's buffers may hold something. *)
Record upgrading (s : Server) : Prop := {
  upgrading_phase : phase_ (connection s) = ClientPhase.reading;
  upgrading_live : live limit s;
  upgrading_response : no_response (connection s);
  upgrading_upstream : owned (websocket_upstream_fd_ (connection s)) s;
  upgrading_proxy : no_proxy (connection s);
  upgrading_sent : P `prefix_of` client_out s;
}.

Lemma upgrading_ext s s' :
  phase_ (connection s') = phase_ (connection s) -> live limit s' -> no_response (connection s') ->
  owned (websocket_upstream_fd_ (connection s')) s' -> no_proxy (connection s') -> client_out s' = client_out s ->
  upgrading s -> upgrading s'.
Proof using. intros E1 L R O N E2 []. by constructor; rewrite ?E1, ?E2. Qed.

Lemma upgrading_same s s' : same_core s s' -> upgrading s -> upgrading s'.
Proof using.
  intros SC U. pose proof SC as [E1 E2 E3 E4].
  eapply upgrading_ext; [..|exact U]; rewrite ?E1; try done; try apply U.
  - by eapply live_same; [|apply U].
  - by eapply owned_same; [|apply U].
Qed.

Lemma upgrading_closable s : upgrading s -> closable limit s.
Proof using. intros []. constructor; try done; [by left|by right]. Qed.
End requests.

(** An update that touches none of the fields that [upgrading] reads, apart
    from the descriptor. *)
Ltac keep_upgrading_with U tac :=
  eapply upgrading_ext; [..|exact U]; proj;
  [ done
  | eapply live_ext; [..|exact (upgrading_live _ _ _ U)]; by proj
  | eapply no_response_ext; [..|exact (upgrading_response _ _ _ U)]; by proj
  | tac
  | eapply no_proxy_ext; [..|exact (upgrading_proxy _ _ _ U)]; by proj
  | done ].
Ltac keep_upgrading U :=
  keep_upgrading_with U ltac:(eapply owned_ext; [..|exact (upgrading_upstream _ _ _ U)]; by proj).

Section relay_start.
Context (limit : Z) (P : bytes).
Context `{MapOrder bytes, MapOrder (list bytes)} (env : Environment).
Abbreviation good := (good limit P).

Lemma wp_wait s : wp wait_descriptor (post (fun _ => same_core s) never) s.
Proof using. unfold wait_descriptor. by exec. Qed.

Lemma same_core_chain s s1 : same_core s s1 -> forall s2, same_core s1 s2 -> same_core s s2.
Proof using. intros A s2 B. by etransitivity. Qed.

(** A computation that leaves everything as it was, whether it throws or not. *)
Definition leaves {A} (m : Handle A) : Prop := forall s, wp m (post (fun _ => same_core s) (same_core s)) s.

Lemma leaves_run {A} (m : Handle A) s1 (Q : A -> Server -> Prop) (E : Server -> Prop) s :
  leaves m -> same_core s s1 -> (forall a s2, same_core s s2 -> Q a s2) -> (forall s2, same_core s s2 -> E s2) ->
  wp m (post Q E) s1.
Proof using. intros L S HQ HE. eapply wp_post_mono; [apply L| |]; intros; [apply HQ|apply HE]; by etransitivity. Qed.

Lemma leaves_bind {A B} (m : Handle A) (f : A -> Handle B) : leaves m -> (forall a, leaves (f a)) -> leaves (m ≫= f).
Proof using.
  intros Lm Lf s. eapply wp_post_seq; [apply Lm|]. intros a s1 S1. apply (leaves_run _ s1 _ _ s); auto.
Qed.

Lemma leaves_neutral {A} (m : Handle A) : neutral m -> leaves m.
Proof using. intros N s. by apply wp_neutral. Qed.

Lemma leaves_upstream_out f : leaves (modify (fun s => s <| upstream_out ::= f |>)).
Proof using. intros s. by exec. Qed.
Lemma leaves_upstream_in f : leaves (modify (fun s => s <| upstream_in ::= f |>)).
Proof using. intros s. by exec. Qed.
Lemma leaves_wait : leaves wait_descriptor.
Proof using. apply leaves_neutral. unfold wait_descriptor. auto with neutral. Qed.
End relay_start.

Create HintDb leaves.
#[export] Hint Resolve leaves_upstream_out leaves_upstream_in leaves_wait : leaves.
#[export] Hint Extern 1 (leaves (mret _)) => apply leaves_neutral, neutral_ret : leaves.
#[export] Hint Extern 1 (leaves (throw _)) => apply leaves_neutral, neutral_throw : leaves.
#[export] Hint Extern 1 (leaves (call _)) => apply leaves_neutral, neutral_call : leaves.
#[export] Hint Extern 1 (leaves (put_back _ _)) => apply leaves_neutral, neutral_put_back : leaves.
#[export] Hint Extern 1 (leaves (take_all _)) => apply leaves_neutral, neutral_take_all : leaves.
#[export] Hint Extern 1 (leaves (ask _)) => apply leaves_neutral, neutral_ask : leaves.
#[export] Hint Extern 2 (leaves (mbind _ _)) => apply leaves_bind; [|intros ?] : leaves.
#[export] Hint Extern 3 (leaves (if ?c then _ else _)) => destruct c : leaves.
#[export] Hint Extern 3 (leaves (match ?c with _ => _ end)) => destruct c : leaves.

Lemma leaves_tls_loop verify results : leaves (websocket_tls_loop verify results).
Proof. induction results as [|[] results IH]; cbn [websocket_tls_loop]; auto 8 with leaves. Qed.

Lemma leaves_write_loop results payload : leaves (websocket_write_loop results payload).
Proof.
  revert payload; induction results as [|[[|n]| |] results IH]; intros [|c payload]; cbn [websocket_write_loop];
    auto 8 with leaves.
Qed.

Lemma leaves_read_loop results buffer : leaves (websocket_read_loop results buffer).
Proof.
  revert buffer; induction results as [|[] results IH]; intros buffer; cbn [websocket_read_loop];
    destruct (find CRLF2 buffer); auto 8 with leaves.
Qed.

Section relay_connect.
Context `{MapOrder bytes}.

Lemma wp_close_opened fd s0 s :
  opened_fd fd s0 s -> wp (close_fd fd) (post (fun _ => same_core s0) never) s.
Proof using.
  intros [N F O C U T]. exec. cbv [post]. constructor; proj; try done.
  - apply leibniz_equiv. rewrite O. set_solver.
  - rewrite decide_True; [done|]. rewrite O. set_solver.
Qed.

Lemma opened_same fd s0 s s' : same_core s s' -> opened_fd fd s0 s -> opened_fd fd s0 s'.
Proof using. intros [E1 E2 E3 E4] []. by constructor; rewrite ?E1, ?E2, ?E3, ?E4. Qed.

Lemma opened_from fd s0 s1 s : same_core s0 s1 -> opened_fd fd s1 s -> opened_fd fd s0 s.
Proof using. intros [E1 E2 E3 E4] []. by constructor; rewrite <- ?E1, <- ?E2, <- ?E3, <- ?E4. Qed.

Lemma wp_websocket_connect_loop items e s :
  wp (websocket_connect_loop items e) (post (fun fd s' => opened_fd fd s s') (same_core s)) s.
Proof using.
  revert e s; induction items as [|[| |e'] items IH]; intros e s; cbn [websocket_connect_loop]; [by exec| | |apply IH].
  - apply wp_assume_never, wp_new_descriptor.
  - eapply wp_seq; [apply wp_new_descriptor|]. intros fd s1 O.
    eapply wp_seq; [apply wp_wait|]. intros ready s2 SC2. apply (opened_same _ _ _ _ SC2) in O.
    assert (K : forall e' s3, opened_fd fd s s3 ->
              wp (close_fd fd ;; websocket_connect_loop items e') (post (fun fd s' => opened_fd fd s s') (same_core s)) s3).
    { intros e' s3 O3. eapply wp_seq; [by apply wp_close_opened|]. intros [] s4 SC4.
      eapply wp_post_mono; [apply IH| |]; [intros fd' s5; by apply opened_from|intros s5 SC5; by etransitivity]. }
    destruct ready; cbn [negb]; [|by apply K]. exec.
    set (s3 := s2 <| answers ::= _ |>). assert (O3 : opened_fd fd s s3) by by apply (opened_same _ _ s2).
    destruct (head _) as [[e'|]|]; [by apply K|by exec..].
Qed.

Lemma wp_connect_tcp s : wp connect_websocket_proxy_tcp (post (fun fd s' => opened_fd fd s s') (same_core s)) s.
Proof using.
  unfold connect_websocket_proxy_tcp. exec. destruct (default _ _) as [e|items]; [by exec|].
  eapply wp_post_mono; [apply wp_websocket_connect_loop| |]; [intros fd s'; by apply opened_from|by intros s' []].
Qed.

Lemma wp_owning {A} fd (m : Handle A) s0 s :
  leaves m -> opened_fd fd s0 s -> wp (owning fd m) (post (fun _ s' => opened_fd fd s0 s') (same_core s0)) s.
Proof using.
  intros L O. unfold owning. eapply wp_post_try.
  - eapply wp_post_mono; [apply L| |intros s' S; exact S]. intros a s' S. by apply (opened_same _ _ s).
  - intros e s' S. eapply wp_seq; [apply (wp_close_opened fd s0); by apply (opened_same _ _ s)|]. intros [] s2 S2. by exec.
Qed.
End relay_connect.

Section relay_triples.
Context (limit : Z) (P : bytes).
Context `{MapOrder bytes, MapOrder (list bytes)} (env : Environment).
Abbreviation good := (good limit P).
Abbreviation upgrading := (upgrading limit P).

Lemma wp_connect_upstream request upstream settings ip tls s :
  wp (connect_websocket_proxy_upstream request upstream settings ip tls)
    (post (fun r s' => opened_fd (upstream_fd r) s s') (same_core s)) s.
Proof using.
  unfold connect_websocket_proxy_upstream. eapply wp_post_seq; [apply wp_connect_tcp|]. intros fd s1 O.
  set (body := mbind _ _). assert (B : forall s0, wp body (post (fun r s' => same_core s0 s' /\ upstream_fd r = fd) (same_core s0)) s0).
  { intros s0. subst body. eapply wp_post_seq with (R := fun _ => same_core s0).
    { destruct (bool_decide _); [|by exec]. unfold connect_websocket_proxy_tls. exec.
      destruct (head _) as [[e|]|]; [by exec|exec..]; eapply wp_post_mono; try apply leaves_tls_loop.
      all: try intros ? ? []; try intros ? []; by constructor. }
    intros [] s2 S2. eapply wp_post_seq with (R := fun _ => same_core s0).
    { unfold write_websocket_proxy. exec. apply (leaves_run _ _ _ _ s0); auto using leaves_write_loop. by destruct S2. }
    intros [] s3 S3. eapply wp_post_seq with (R := fun _ => same_core s0).
    { unfold read_websocket_proxy_handshake. exec. apply (leaves_run _ _ _ _ s0); auto using leaves_read_loop. by destruct S3. }
    intros [headers extra] s4 S4. exec. destruct (parse_websocket_proxy_handshake_headers headers); by exec. }
  unfold owning. eapply wp_post_try.
  - eapply wp_post_mono; [apply B| |intros s' S; exact S].
    intros r s' [S ->]. by apply (opened_same _ _ s1).
  - intros e s' S. eapply wp_seq; [apply (wp_close_opened fd s); by apply (opened_same _ _ s1)|].
    intros [] s2 S2. by exec.
Qed.

Lemma wp_relay_close_now s : upgrading s -> wp close_now (post good never) s.
Proof using.
  intros U. eapply wp_post_mono; [apply (wp_close_now limit); by apply (upgrading_closable limit P)| |done].
  intros [] s' [Ph E]. by apply ending_wf.
Qed.

(** Appending to a buffer of the relay. *)
Lemma wp_append_upgrading (buffer : ClientConnection -> bytes) `{!Update buffer} (offset : ClientConnection -> nat)
    `{!Update offset} data s :
  (forall x s, upgrading s -> upgrading (s <| connection ::= update buffer (fun _ => x) |>)) ->
  (forall x s, upgrading s -> upgrading (s <| connection ::= update offset (fun _ => x) |>)) ->
  (forall x s, websocket_upstream_fd_ (connection (s <| connection ::= update buffer (fun _ => x) |>))
               = websocket_upstream_fd_ (connection s)) ->
  (forall x s, websocket_upstream_fd_ (connection (s <| connection ::= update offset (fun _ => x) |>))
               = websocket_upstream_fd_ (connection s)) ->
  upgrading s ->
  wp (append_websocket_proxy_buffer buffer offset data)
    (post (fun (kept : bool) s' => if kept then upgrading s' /\ websocket_upstream_fd_ (connection s')
                                                  = websocket_upstream_fd_ (connection s) else wf limit P s') never) s.
Proof using.
  intros Kb Ko Fb Fo U. unfold append_websocket_proxy_buffer. exec.
  destruct (compact_websocket_proxy_buffer _ _) as [b o]. exec.
  destruct (_ <? _).
  - eapply wp_seq; [apply wp_relay_close_now; auto|]. intros [] s' W. by exec.
  - exec. cbv [post]. split; [auto|]. by rewrite Fb, Fo, Fb.
Qed.

Lemma wp_append_to_client data s :
  upgrading s ->
  wp (append_websocket_proxy_buffer websocket_proxy_upstream_to_client_ websocket_proxy_upstream_to_client_offset_ data)
    (post (fun (kept : bool) s' => if kept then upgrading s' /\ websocket_upstream_fd_ (connection s')
                                                  = websocket_upstream_fd_ (connection s) else wf limit P s') never) s.
Proof using.
  apply wp_append_upgrading; intros x s0; try (intros U; keep_upgrading U); by proj.
Qed.

Lemma wp_append_to_upstream data s :
  upgrading s ->
  wp (append_websocket_proxy_buffer websocket_proxy_client_to_upstream_ websocket_proxy_client_to_upstream_offset_ data)
    (post (fun (kept : bool) s' => if kept then upgrading s' /\ websocket_upstream_fd_ (connection s')
                                                  = websocket_upstream_fd_ (connection s) else wf limit P s') never) s.
Proof using.
  apply wp_append_upgrading; intros x s0; try (intros U; keep_upgrading U); by proj.
Qed.

Lemma wp_proxy_handshake response s :
  upgrading s -> 0 <= websocket_upstream_fd_ (connection s) -> websocket_upstream_registered_ (connection s) = true ->
  wp (set_websocket_proxy_handshake_response response) (post good never) s.
Proof using.
  intros [Ph [L1 L2 L3 L4] [R1 R2 R3 R4 R5] Up Px O] Fd Rg.
  unfold set_websocket_proxy_handshake_response, set_handshake_response. exec. cbv [post].
  apply sending_wf; [by proj|]. constructor.
  - constructor; by proj.
  - proj. lia.
  - unfold promised, rest_of_response. proj. by apply prefix_app_r.
  - eapply no_proxy_ext; [|exact Px]. by proj.
  - by proj.
  - by proj.
  - by proj.
  - proj. congruence.
  - proj. split; [eapply owned_ext; [..|exact Up]; by proj|done].
Qed.

Lemma silent_upgrading s : phase_ (connection s) = ClientPhase.reading -> silent limit P s -> upgrading s.
Proof using. intros Ph Si. constructor; try apply Si; [done|]. left. apply (silent_relay _ _ _ Si). Qed.

Lemma wp_start_relay request upstream settings early s :
  phase_ (connection s) = ClientPhase.reading -> silent limit P s ->
  wp (start_relay request upstream settings early) (post good upgrading) s.
Proof using.
  intros Ph Si. unfold start_relay. exec. eapply wp_post_seq.
  { eapply wp_post_mono; [apply wp_connect_upstream|intros r s1 O; exact O|].
    intros s1 SC. apply (upgrading_same limit P s); [done|by apply silent_upgrading]. }
  intros connection0 s1 O. pose proof (silent_upgrading s Ph Si) as U.
  assert (U1 : upgrading s1 /\ owned (upstream_fd connection0) s1 /\ 0 <= upstream_fd connection0).
  { destruct O as [O1 O2 O3 O4 O5 O6]. pose proof (live_fd _ _ (silent_live _ _ _ Si)) as [F1 F2]. split; [|split; [|done]].
    - eapply upgrading_ext; [..|exact U]; rewrite ?O4; try done; try apply U.
      + destruct (silent_live _ _ _ Si). constructor; rewrite ?O4, ?O3, ?O5; try done. split; [done|set_solver].
      + left. apply Si.
    - right. rewrite O3, O4. split; [done|]. split; [set_solver|]. intros E. by rewrite E in O2. }
  destruct U1 as (U1 & Ow & Nn). clear O U Si Ph. exec.
  set (s2 := s1 <| connection ::= _ |> <| connection ::= _ |>).
  assert (U2 : upgrading s2 /\ websocket_upstream_fd_ (connection s2) = upstream_fd connection0).
  { split; [|subst s2; by proj]. subst s2.
    keep_upgrading_with U1 ltac:(eapply owned_ext; [..|exact Ow]; by proj). }
  clearbody s2. destruct U2 as [U2 F2]. apply wp_harmless; [auto with harmless|]. intros [] s3 SC3.
  assert (U3 : upgrading s3 /\ 0 <= websocket_upstream_fd_ (connection s3)).
  { split; [by apply (upgrading_same _ _ s2)|]. rewrite (same_connection _ _ SC3), F2. done. }
  clear dependent s2 s1. destruct U3 as [U3 F3]. cbn zeta.
  eapply wp_seq with (R := fun (kept : bool) s' =>
    if kept then upgrading s' /\ 0 <= websocket_upstream_fd_ (connection s') else wf limit P s').
  { destruct (bool_decide _); [by exec|]. eapply wp_post_mono; [by apply wp_append_to_client| |done].
    intros [] s4; [|done]. intros [U4 F4]. split; [done|lia]. }
  intros [] s4 U4; cbn [negb]; [|by exec]. destruct U4 as [U4 F4]. clear dependent s3.
  eapply wp_seq with (R := fun (kept : bool) s' =>
    if kept then upgrading s' /\ 0 <= websocket_upstream_fd_ (connection s') else wf limit P s').
  { destruct (bool_decide _); [by exec|]. eapply wp_post_mono; [by apply wp_append_to_upstream| |done].
    intros [] s5; [|done]. intros [U5 F5]. split; [done|lia]. }
  intros [] s5 U5; cbn [negb]; [|by exec]. destruct U5 as [U5 F5]. clear dependent s4.
  eapply wp_post_seq with (R := fun _ s' => upgrading s' /\ 0 <= websocket_upstream_fd_ (connection s')
                                    /\ websocket_upstream_registered_ (connection s') = true).
  { unfold register_websocket_upstream. exec. destruct (_ || _); [by exec|]. exec.
    destruct (head _) as [[e|]|]; exec; cbv [post]; try (keep_upgrading U5).
    all: split; [keep_upgrading U5|by proj]. }
  intros [] s6 (U6 & F6 & R6). apply wp_assume_never. by apply wp_proxy_handshake.
Qed.

Lemma wp_websocket_upstream_loop request settings early ups skipped attempted s :
  phase_ (connection s) = ClientPhase.reading -> silent limit P s ->
  wp (websocket_upstream_loop request settings early ups skipped attempted) (post good never) s.
Proof using.
  revert skipped attempted s; induction ups as [|u ups IH]; intros skipped attempted s Ph Si;
    cbn [websocket_upstream_loop].
  - destruct (_ && _); [|by apply wp_refuse_good]. eapply wp_post_mono; [by apply (wp_set_response limit P)| |done].
    intros [] s' [Ph' Se]. by apply sending_wf.
  - apply wp_harmless; [auto with harmless|]. intros available s1 SC.
    assert (Ph1 : phase_ (connection s1) = ClientPhase.reading) by by rewrite (same_connection _ _ SC).
    pose proof (silent_same limit P _ _ SC Si) as Si1. clear dependent s.
    destruct available; cbn [negb]; [|by apply IH].
    eapply wp_seq with (R := fun (started : bool) s' =>
      if started then wf limit P s' else phase_ (connection s') = ClientPhase.reading /\ silent limit P s').
    + eapply wp_post_try.
      * eapply wp_post_seq; [by apply wp_start_relay|]. intros [] s2 W. by exec.
      * intros e s2 U. apply wp_harmless; [auto with harmless|]. intros [] s3 SC3. apply (upgrading_same _ _ _ _ SC3) in U.
        eapply wp_seq; [apply wp_close_websocket_upstream|]. intros [] s4 [C4 O4 U4 T4]. exec. cbv [post].
        destruct U as [Ph3 [L1 L2 [L3 L3'] L4] R3 Ow3 Px3 T3]. split; [proj; rewrite C4; by proj|].
        constructor; proj; rewrite ?C4; proj; rewrite ?T4; try done.
        -- constructor; proj; rewrite ?C4; proj; try done.
           ++ rewrite U4; [done|]. destruct Ow3 as [?|(? & ? & ?)]; auto.
           ++ split; [done|]. apply O4; [|done]. destruct Ow3 as [?|(? & ? & ?)]; [lia|congruence].
        -- eapply no_response_ext; [..|exact R3]; by proj.
    + intros [] s2 W; [by exec|]. destruct W. by apply IH.
Qed.

Lemma wp_try_start_websocket_proxy request s :
  reading limit P s ->
  wp (try_start_websocket_proxy request)
    (post (fun (started : bool) s' => if started then wf limit P s' else s' = s) anything) s.
Proof using.
  intros [Ph Si Bu St]. unfold try_start_websocket_proxy. exec.
  destruct (reverse_proxy_upstreams_for_request _ _) as [[upstreams|]|e|].
  - exec. destruct (reverse_proxy_settings _) as [settings|e|]; [exec|done..].
    set (s1 := s <| connection ::= _ |> <| connection ::= _ |>).
    assert (Si1 : silent limit P s1).
    { subst s1. destruct (live_config _ _ (silent_live _ _ _ Si)) as (config & _ & K1 & K2).
      keep_silent_with Si ltac:(idtac). destruct (silent_live _ _ _ Si) as [L1 L2 L3 L4].
      constructor; proj; try done. unfold budget in Bu. lia. }
    assert (Ph1 : phase_ (connection s1) = ClientPhase.reading) by (subst s1; by proj).
    apply wp_harmless; [auto with harmless|]. intros ordered s2 SC. eapply wp_seq.
    + apply wp_websocket_upstream_loop; [by rewrite (same_connection _ _ SC)|by apply (silent_same _ _ s1)].
    + intros [] s3 W. by exec.
  - by exec.
  - exec. eapply wp_seq; [apply wp_refuse_good; keep_silent Si|]. intros [] s1 W. by exec.
  - by exec.
Qed.
End relay_triples.

(** ** Reading *)

Section reading_triples.
Context (limit : Z) (P : bytes).
Context `{MapOrder bytes, MapOrder (list bytes)} (env : Environment).
Abbreviation good := (good limit P).
Abbreviation requested := (requested limit P).

Lemma wp_anything {A} (m : Handle A) Q E s : wp m (post Q E) s -> wp m (post Q anything) s.
Proof using. intros W. by eapply wp_post_mono; [exact W| |]. Qed.

Lemma wp_set_response_good response body_mode s :
  silent limit P s -> wp (set_response response body_mode false) (post good never) s.
Proof using.
  intros Si. eapply wp_post_mono; [by apply (wp_set_response limit P)| |done]. intros [] s' [Ph Se]. by apply sending_wf.
Qed.

Lemma wp_try_handle_websocket_upgrade request consumed s :
  requested s ->
  wp (try_handle_websocket_upgrade env request consumed)
    (post (fun (handled : bool) s' => if handled then wf limit P s' else s' = s) anything) s.
Proof using.
  intros [R St]. unfold try_handle_websocket_upgrade.
  destruct (is_websocket_upgrade_request request); cbn [negb]; [|by exec]. exec.
  set (s1 := s <| connection ::= _ |>).
  assert (R1 : requested s1) by (subst s1; constructor; [keep_reading R|by proj]). clearbody s1.
  eapply wp_seq; [by apply wp_restart_request_clock|]. intros [] s2 [R2 _]. clear dependent s1.
  apply wp_harmless; [auto with harmless|]. intros limited s3 SC.
  assert (R3 : requested s3).
  { destruct R2 as [R2 St2]. constructor; [by apply (reading_same _ _ _ _ SC)|by rewrite (same_connection _ _ SC)]. }
  clear dependent s2. pose proof (reading_silent _ _ _ (requested_reading _ _ _ R3)) as Si3.
  destruct limited.
  { eapply wp_seq; [by apply wp_refuse_good|]. intros [] s4 W. by exec. }
  exec. destruct (inspect_waf _ _ _) as [[waf_response|]|e|]; [| |done..].
  { eapply wp_seq; [by apply wp_set_response_good|]. intros [] s4 W. by exec. }
  eapply wp_post_seq; [apply wp_try_start_websocket_proxy, R3|]. intros [] s4 W; [by exec|]. subst s4. exec.
  destruct (websocket_handshake_response _ _) as [response|e|]; [|done..]. exec.
  set (s4 := s3 <| connection ::= _ |>). assert (Si4 : silent limit P s4).
  { subst s4. keep_silent_with Si3 ltac:(idtac).
    destruct (silent_live _ _ _ Si3) as [L1 L2 L3 L4]. destruct L1 as (config & L1 & K1 & K2).
    pose proof (reading_budget _ _ _ (requested_reading _ _ _ R3)) as Bu. unfold budget in Bu.
    constructor; proj; try done; [by exists config|lia]. }
  eapply wp_seq; [by apply (wp_set_websocket_handshake limit P)|]. intros [] s5 [Ph Se]. exec. by apply sending_wf.
Qed.

Lemma wp_process_http2_prior_knowledge s :
  requested s ->
  wp process_http2_prior_knowledge
    (post (fun (handled : bool) s' => if handled then wf limit P s'
             else requested s' /\ http2_active_ (connection s') = http2_active_ (connection s)) anything) s.
Proof using.
  intros R. unfold process_http2_prior_knowledge. exec. destruct (_ && _); [by exec|]. exec.
  eapply wp_seq with (R := fun _ => same_core s).
  { destruct (Config.http2_enabled _); [|by exec]. apply harmless_rate_limited. }
  intros limited s1 SC. destruct R as [R St]. apply (reading_same _ _ _ _ SC) in R.
  rewrite <- (same_connection _ _ SC) in *. clear dependent s. exec.
  destruct (accept_preface _ _ _ _ _) as [[session rest] result]. exec.
  destruct result as [result|e|]; [|done..]. destruct (preface_status result); exec.
  - cbv [post]. split; [constructor; [keep_reading R|by proj]|by proj].
  - apply reading_wf. keep_reading R.
  - unfold forget_request_clock. apply wp_bind. exec.
    eapply wp_seq; [apply wp_set_serialized_good|].
    + keep_silent (reading_silent _ _ _ R).
    + intros _. unfold budget. proj. split; [apply R|done].
    + intros [] s2 W. by exec.
  - unfold forget_request_clock. apply wp_bind. exec.
    eapply wp_seq; [apply wp_set_serialized_good|].
    + keep_silent (reading_silent _ _ _ R).
    + intros _. unfold budget. proj. split; [apply R|done].
    + intros [] s2 W. by exec.
Qed.

Lemma wp_h2_response id response body_mode s Q :
  (forall text, Q text s) -> wp (h2_response id response body_mode) (post Q anything) s.
Proof using. intros HQ. unfold h2_response. exec. destruct (serialize_response _ _ _ _); [apply HQ|done..]. Qed.

Lemma wp_http2_answer id response prefix s :
  silent limit P s -> budget limit (connection s) -> http1_body_stream_ (connection s) = None ->
  wp (text ← h2_response id response include; set_serialized_response (prefix ++ text) true) (post good anything) s.
Proof using.
  intros Si Bu St. eapply wp_post_seq with (R := fun _ s2 => s2 = s); [by apply wp_h2_response|].
  intros text s2 ->. by apply wp_assume_never, wp_set_serialized_good.
Qed.

Lemma wp_dispatch_http2 id request prefix s :
  requested s -> wp (dispatch_http2_request env id request prefix) (post good anything) s.
Proof using.
  intros [[Ph Si Bu Ph1] St]. unfold dispatch_http2_request. exec.
  apply wp_harmless; [auto with harmless|]. intros limited s1 SC. pose proof (silent_same limit P _ _ SC Si) as Si1.
  pose proof (live_config_value limit s (silent_live _ _ _ Si)) as [K1 K2].
  rewrite <- (same_connection _ _ SC) in *. clear dependent s.
  destruct limited; [by apply wp_http2_answer|]. exec.
  destruct (inspect_waf _ _ _) as [[waf_response|]|e|]; [by apply wp_http2_answer| |done..]. exec.
  set (s2 := s1 <| connection ::= _ |>). set (served := requests_served_ (connection s1)).
  assert (Si2 : silent limit P s2).
  { subst s2. keep_silent_with Si1 ltac:(idtac). destruct (silent_live _ _ _ Si1) as [L1 L2 L3 L4].
    constructor; proj; try done. unfold budget in Bu. subst served. lia. }
  assert (E2 : requests_served_ (connection s2) = served + 1 /\ http1_body_stream_ (connection s2) = None) by (subst s2; by proj).
  clearbody s2. destruct E2 as [E2 St2].
  eapply wp_post_seq.
  { eapply wp_post_mono; [apply wp_run_transaction|intros sink s3 Q; exact Q|done]. }
  intros sink s3 [Sent SC3]. rewrite Sent. cbn [negb].
  assert (Si3 : silent limit P s3) by by apply (silent_same limit P s2).
  rewrite <- (same_connection _ _ SC3) in E2, St2.
  eapply wp_post_seq with (R := fun _ s4 => s4 = s3); [by apply wp_h2_response|]. intros text s4 ->.
  destruct (_ && _) eqn:More.
  - exec. destruct (goaway_frame _ _); [|done..]. by apply wp_assume_never, wp_set_serialized_good.
  - apply wp_assume_never, wp_set_serialized_good; [done|]. intros _. split; [|done]. right.
    apply andb_false_iff in More as [M%Z.ltb_ge|M%Z.leb_gt]; lia.
Qed.

Lemma wp_handle_http2_result result s :
  requested s -> wp (handle_http2_session_result env result)
    (post (fun (more : bool) s' => if more then s' = s else wf limit P s') anything) s.
Proof using.
  intros R. unfold handle_http2_session_result. pose proof (requested_reading _ _ _ R) as [Ph Si Bu St].
  destruct (Http2Session.close_now result).
  { eapply wp_seq; [apply (wp_close_now limit)|].
    - constructor; [apply Si|left; apply (silent_relay _ _ _ Si)|left; apply Si|left; apply (silent_relay _ _ _ Si)].
    - intros [] s1 [Ph1 En]. exec. by apply ending_wf. }
  destruct (error_response result), (completed_stream result).
  1, 2: eapply wp_post_seq with (R := fun _ s2 => s2 = s); [by apply wp_h2_response|]; intros text s2 ->;
    (eapply wp_seq; [apply wp_set_serialized_good; [done|intros _; split; [done|apply R]]|]; intros [] s3 W; by exec).
  - eapply wp_post_seq; [by apply wp_dispatch_http2|]. intros [] s1 W. by exec.
  - destruct (negb _); [|by exec]. eapply wp_seq; [apply wp_set_serialized_good; [done|intros _; split; [done|apply R]]|].
    intros [] s1 W. by exec.
Qed.

Lemma wp_http2_loop fuel s : requested s -> wp (http2_loop env fuel) (post good anything) s.
Proof using.
  revert s; induction fuel as [|fuel IH]; intros s R; cbn [http2_loop]; exec; destruct (_ || _).
  1, 3: exec; by apply reading_wf, R.
  1: by exec.
  exec. destruct (process_input _ _ _) as [[session rest] result]. exec. destruct result as [result|e|]; [|done..].
  set (s1 := s <| connection ::= _ |> <| connection ::= _ |>).
  assert (R1 : requested s1) by (subst s1; destruct R as [R St]; constructor; [keep_reading R|by proj]). clearbody s1.
  eapply wp_post_seq; [by apply wp_handle_http2_result|]. intros more s2 W. destruct more; cbn [negb orb].
  - subst s2. destruct (_ && _); [exec; by apply reading_wf, R1|by apply IH].
  - by exec.
Qed.

Lemma wp_process_http1_frame s :
  requested s -> http2_active_ (connection s) = false -> wp (process_http1_frame env) (post good anything) s.
Proof using.
  intros R H2. unfold process_http1_frame. exec. pose proof (requested_reading _ _ _ R) as Rd.
  destruct (next_http1_request_frame _ _) as [frame|e|]; [|done..].
  assert (Next : wp
    (upgraded ← match Http1Frame.request frame with
                | Some request => try_handle_websocket_upgrade env request (Http1Frame.consumed frame)
                | None => mret false
                end;
     if upgraded : bool then mret tt
     else
       match Http1Frame.state frame, Http1Frame.request frame with
       | Http1Frame.header_complete, request =>
           match request, waiting_for_body frame with
           | Some request, true => start_http1_body_stream request frame ;; process_http1_body_stream env
           | _, waiting =>
               assign waiting_for_body_ waiting ;;
               started ← field body_started_at_;
               if waiting && (started =? 0) then t ← now; assign body_started_at_ t else mret tt
           end
       | _, _ =>
           assign request_buffer_ (drop (Z.to_nat (Http1Frame.consumed frame)) (request_buffer_ (connection s))) ;;
           assign waiting_for_body_ false ;;
           assign body_started_at_ 0 ;;
           restart_request_clock ;;
           process_request env (Http1Frame.raw_request frame)
       end) (post good anything) s).
  { eapply wp_post_seq with (R := fun (upgraded : bool) s' => if upgraded then wf limit P s' else s' = s).
    { destruct (Http1Frame.request frame); [by apply wp_try_handle_websocket_upgrade|by exec]. }
    intros [] s' W; [by exec|]. subst s'.
    assert (Whole : wp
       (assign request_buffer_ (drop (Z.to_nat (Http1Frame.consumed frame)) (request_buffer_ (connection s))) ;;
        assign waiting_for_body_ false ;;
        assign body_started_at_ 0 ;;
        restart_request_clock ;;
        process_request env (Http1Frame.raw_request frame)) (post good anything) s).
    { exec. eapply wp_seq.
      - apply wp_restart_request_clock. destruct R as [R St]. constructor; [keep_reading R|by proj].
      - intros [] s1 [R1 H21]. eapply wp_anything, wp_process_request; [done|]. rewrite H21. by proj. }
    assert (Wait : forall waiting : bool, wp
       (assign waiting_for_body_ waiting ;;
        started ← field body_started_at_;
        if waiting && (started =? 0) then t ← now; assign body_started_at_ t else mret tt) (post good anything) s).
    { intros waiting. exec. destruct (_ && _); exec; apply reading_wf; keep_reading Rd. }
    destruct (Http1Frame.state frame); try exact Whole.
    destruct (Http1Frame.request frame) as [request|]; [|apply Wait].
    destruct (waiting_for_body frame); [|apply Wait].
    unfold start_http1_body_stream. apply wp_bind. exec.
    assert (Go : forall s', reading limit P s' -> wp (process_http1_body_stream env) (post good anything) s').
    { intros s' R'. by apply wp_assume_never, wp_process_body_stream. }
    destruct (_ =? 0); exec; apply Go; keep_reading Rd; by intros. }
  destruct (Http1Frame.state frame) eqn:State; try exact Next.
  - exec. apply reading_wf. keep_reading Rd.
  - apply wp_bind. destruct (discard_buffer frame); [|destruct (_ <? _)]; exec; apply wp_assume_never, wp_refuse_good.
    3: apply Rd.
    all: keep_silent (reading_silent _ _ _ Rd).
Qed.

Lemma wp_process_buffered_request s : requested s -> wp (process_buffered_request env) (post good anything) s.
Proof using.
  intros R. unfold process_buffered_request. exec. pose proof (requested_reading _ _ _ R) as Rd.
  destruct (config_ (connection s)) as [config|]; [|exec; by apply reading_wf].
  rewrite bool_decide_true by apply Rd. cbn [negb]. exec.
  destruct (http2_active_ (connection s)) eqn:H2; [by apply wp_http2_loop|].
  eapply wp_post_seq; [by apply wp_process_http2_prior_knowledge|]. intros [] s1 W; [by exec|].
  destruct W as [R1 H21]. rewrite H2 in H21. exec. pose proof (requested_reading _ _ _ R1) as Rd1.
  destruct (http2_tls_selected_ (connection s1)).
  { exec. destruct (goaway_frame _ _); [|done..]. apply wp_assume_never, wp_set_serialized_good; [|done].
    keep_silent (reading_silent _ _ _ Rd1). }
  destruct (negb _); [|by apply wp_process_http1_frame].
  exec. apply wp_assume_never, wp_refuse_good. keep_silent (reading_silent _ _ _ Rd1).
Qed.

Lemma wp_append_request_bytes chunk s : reading limit P s -> wp (append_request_bytes env chunk) (post good anything) s.
Proof using.
  intros R. unfold append_request_bytes. apply wp_bind, wp_get. cbv beta iota.
  eapply wp_seq with (R := fun _ => reading limit P).
  { destruct (bool_decide _); exec; [|done]. cbv [post]. keep_reading R. }
  intros [] s1 R1. exec. set (s2 := s1 <| connection ::= _ |>).
  assert (R2 : reading limit P s2) by (subst s2; keep_reading R1). clearbody s2.
  destruct (http1_body_stream_ (connection s2)) eqn:St.
  - by apply wp_assume_never, wp_process_body_stream.
  - by apply wp_process_buffered_request.
Qed.

Lemma wp_read_request_loop results s : reading limit P s -> wp (read_request_loop env results) (post good anything) s.
Proof using.
  assert (Close : forall s, reading limit P s -> wp close_now (post good anything) s).
  { intros s' [Ph Si Bu St]. apply wp_assume_never. eapply wp_post_mono; [apply (wp_close_now limit)| |done].
    - constructor; [apply Si|left; apply (silent_relay _ _ _ Si)|left; apply Si|left; apply (silent_relay _ _ _ Si)].
    - intros [] s1 [Ph1 En]. by apply ending_wf. }
  revert s; induction results as [|[chunk| |w|] results IH]; intros s R; cbn [read_request_loop].
  - unfold read_blocked. apply wp_bind. exec. apply reading_wf. keep_reading R.
  - exec. eapply wp_post_seq; [apply wp_append_request_bytes; keep_reading R|]. intros [] s1 W. exec.
    case_bool_decide as Ph; [|by exec]. apply IH. by apply wf_reading.
  - by apply Close.
  - unfold read_blocked. apply wp_bind. exec. apply reading_wf. keep_reading R.
  - by apply Close.
Qed.

Lemma wp_read_request s : reading limit P s -> wp (read_request env) (post good anything) s.
Proof using. intros R. unfold read_request. exec. apply wp_read_request_loop. keep_reading R. Qed.
End reading_triples.
