(* ===== verification/SocketFacts.v ===== *)
(** * SocketFacts: writing to the client, and WebSocket connections

    The loop that writes, over any assertion that survives partial writes, and
    the WebSocket phase, kept well-formed by every event.  Continues
    [ReactorFacts]. *)

From S2P Require Import Prelude Text Numbers Request Http1Frame Response StaticFiles Handler BodyStream Waf VirtualHost ReverseProxy Http2Session Config Security WebSocket State Connection ProxyExchange WebSocketProxy Reactor ConnectionFacts ReactorFacts.

(** ** WebSocket frames are appended to the output *)

Lemma websocket_loop_output fuel max_frame_bytes w w' :
  websocket_loop fuel max_frame_bytes w = Ret w' ->
  ws_output w `prefix_of` ws_output w' /\ ws_offset w' = ws_offset w.
Proof.
  revert w; induction fuel as [|fuel IH]; intros w; cbn [websocket_loop].
  { destruct (_ <? _)%nat; [by intros [= <-]|done]. }
  destruct (_ <? _)%nat; [by intros [= <-]|].
  assert (Close : forall p x, ws_output x = ws_output w -> ws_offset x = ws_offset w ->
            ws_output w `prefix_of` ws_output (close_after_write (queue_websocket_frame 0x8 p x)) /\
            ws_offset (close_after_write (queue_websocket_frame 0x8 p x)) = ws_offset w).
  { intros p x E1 E2. cbn. rewrite E1. split; [by apply prefix_app_r|done]. }
  destruct (_ || _); [intros [= <-]; by apply Close|].
  destruct (frame_length _) as [[n cursor]|]; [|by intros [= <-]].
  destruct (_ || _); [destruct (_ || _); intros [= <-]; [by apply Close|done]|].
  destruct (_ || _).
  { intros [O F]%IH. cbn in O, F. split; [|done]. etransitivity; [|exact O]. by apply prefix_app_r. }
  destruct (_ =? 0x8); [intros [= <-]; by apply Close|].
  destruct (_ =? 0x9).
  { intros [O F]%IH. cbn in O, F. split; [|done]. etransitivity; [|exact O]. by apply prefix_app_r. }
  destruct (_ =? 0xA); [intros [O F]%IH; done|]. intros [= <-]. by apply Close.
Qed.

Section events.
Context (limit : Z) (P : bytes).
Context `{MapOrder bytes, MapOrder (list bytes)} (env : Environment).
Abbreviation good := (good limit P).
Abbreviation requested := (requested limit P).

(** ** Writing *)

Lemma wp_close_good s : closable limit s -> wp close_now (post good anything) s.
Proof using.
  intros C. apply wp_assume_never. eapply wp_post_mono; [by apply (wp_close_now limit)| |done].
  intros [] s' [Ph En]. by apply ending_wf.
Qed.

(** In [I], or closed. *)
Definition or_closed (I : Server -> Prop) (s : Server) : Prop :=
  I s \/ (phase_ (connection s) = ClientPhase.closed /\ ending limit s).

Lemma or_closed_good (I : Server -> Prop) s : (I s -> wf limit P s) -> or_closed I s -> wf limit P s.
Proof using. intros G [Is|[Ph En]]; [by apply G|by apply ending_wf]. Qed.

Lemma wp_close_or I s : closable limit s -> wp close_now (post (fun _ => or_closed I) anything) s.
Proof using.
  intros C. apply wp_assume_never. eapply wp_post_mono; [by apply (wp_close_now limit)| |done].
  intros [] s' E. by right.
Qed.

Section write.
Context (I : Server -> Prop) (extra : Z) (finish : Handle unit).
Context (I_same : forall s s', same_core s s' -> I s -> I s').
Context (I_good : forall s, I s -> wf limit P s).
Context (I_closable : forall s, I s -> closable limit s).
Context (I_events : forall s e, I s -> I (s <| connection ::= update events_ (fun _ => e) |>)).
Context (I_advance : forall s n, I s ->
  (n <= length (response_buffer_ (connection s)) - response_offset_ (connection s))%nat ->
  I (s <| client_out ::= fun out => out ++ take n (drop (response_offset_ (connection s)) (response_buffer_ (connection s))) |>
       <| connection ::= update response_offset_ (fun _ => (response_offset_ (connection s) + n)%nat) |>)).
Context (finish_spec : forall s, I s ->
  (length (response_buffer_ (connection s)) <= response_offset_ (connection s))%nat -> wp finish (post good anything) s).

Lemma wp_write_loop results s : I s -> wp (write_loop extra finish results) (post good anything) s.
Proof using I_same I_good I_closable I_events I_advance finish_spec.
  revert s; induction results as [|r results IH]; intros s Is; cbn [write_loop]; exec.
  all: destruct (Nat.ltb_spec (response_offset_ (connection s)) (length (response_buffer_ (connection s)))) as [Lt|Ge]; exec.
  - unfold write_blocked. exec. by apply I_good, I_events.
  - by apply finish_spec; [apply (I_same s)|].
  - destruct r as [[|n]|w|].
    + exec. by apply wp_close_good, I_closable, (I_same s).
    + exec. apply IH, I_advance; [done|]. lia.
    + unfold write_blocked. exec. by apply I_good, I_events, (I_same s).
    + exec. by apply wp_close_good, I_closable, (I_same s).
  - by apply finish_spec; [apply (I_same s)|].
Qed.

Lemma wp_write_all s : I s -> wp (write_all extra finish) (post good anything) s.
Proof using I_same I_good I_closable I_events I_advance finish_spec.
  intros Is. unfold write_all. exec. by apply wp_write_loop, (I_same s).
Qed.
End write.

Lemma promised_advance s n :
  (n <= length (response_buffer_ (connection s)) - response_offset_ (connection s))%nat ->
  promised (s <| client_out ::= fun out => out ++ take n (drop (response_offset_ (connection s)) (response_buffer_ (connection s))) |>
              <| connection ::= update response_offset_ (fun _ => (response_offset_ (connection s) + n)%nat) |>) = promised s.
Proof using.
  intros Hn. unfold promised, rest_of_response, rest_of_relay. proj. rewrite <- !app_assoc. f_equal.
  rewrite <- drop_drop, app_assoc. by rewrite take_drop.
Qed.

(** ** WebSocket connections *)

Definition websocket_phase (s : Server) : Prop :=
  phase_ (connection s) = ClientPhase.websocket /\ on_websocket limit P s.

Lemma websocket_good s : websocket_phase s -> wf limit P s.
Proof using. intros [Ph W]. unfold wf. by rewrite Ph. Qed.

Lemma websocket_closable s : websocket_phase s -> closable limit s.
Proof using.
  intros [_ W]. pose proof (no_websocket_upstream _ (on_websocket_relay _ _ _ W)) as N.
  constructor; [apply W|by left|left; apply W|by left].
Qed.

Lemma websocket_same s s' : same_core s s' -> websocket_phase s -> websocket_phase s'.
Proof using.
  intros SC [Ph W]. split; [by rewrite (same_connection _ _ SC)|by apply (on_websocket_same _ _ _ _ SC)].
Qed.

Lemma websocket_ext s s' :
  phase_ (connection s') = phase_ (connection s) ->
  config_ (connection s') = config_ (connection s) -> fd_ (connection s') = fd_ (connection s) ->
  requests_served_ (connection s') = requests_served_ (connection s) -> open_fds s' = open_fds s ->
  closed_unopened s' = closed_unopened s ->
  (response_offset_ (connection s') <= length (response_buffer_ (connection s')))%nat ->
  promised s `prefix_of` promised s' ->
  reverse_proxy_upstream_fd_ (connection s') = reverse_proxy_upstream_fd_ (connection s) ->
  websocket_upstream_fd_ (connection s') = websocket_upstream_fd_ (connection s) ->
  websocket_proxy_upstream_to_client_ (connection s') = websocket_proxy_upstream_to_client_ (connection s) ->
  websocket_proxy_upstream_to_client_offset_ (connection s') = websocket_proxy_upstream_to_client_offset_ (connection s) ->
  websocket_after_response_ (connection s') = websocket_after_response_ (connection s) ->
  websocket_proxy_after_response_ (connection s') = websocket_proxy_after_response_ (connection s) ->
  websocket_phase s -> websocket_phase s'.
Proof using.
  intros E1 E2 E3 E4 E5 E6 Of Pr E7 E8 E9 E10 E11 E12 [Ph []]. split; [by rewrite E1|]. constructor; rewrite ?E11, ?E12; try done.
  - by eapply live_ext.
  - by etransitivity.
  - by eapply no_proxy_ext.
  - by eapply no_relay_ext.
Qed.

Lemma websocket_events s e : websocket_phase s -> websocket_phase (s <| connection ::= update events_ (fun _ => e) |>).
Proof using. intros W. eapply websocket_ext; [..|exact W]; proj; try done. apply W. Qed.

Lemma websocket_advance s n :
  websocket_phase s -> (n <= length (response_buffer_ (connection s)) - response_offset_ (connection s))%nat ->
  websocket_phase (s <| client_out ::= fun out => out ++ take n (drop (response_offset_ (connection s)) (response_buffer_ (connection s))) |>
       <| connection ::= update response_offset_ (fun _ => (response_offset_ (connection s) + n)%nat) |>).
Proof using.
  intros W Hn. eapply websocket_ext; [..|exact W]; try (proj; done).
  - proj. destruct W as [_ []]. lia.
  - by rewrite promised_advance.
Qed.

Lemma wp_process_websocket_frames s :
  websocket_phase s -> wp process_websocket_frames (post (fun _ => websocket_phase) anything) s.
Proof using.
  intros W. unfold process_websocket_frames. exec.
  destruct (WebSocket.process_websocket_frames _ _) as [w|e|] eqn:E; [|done..].
  apply websocket_loop_output in E as [[x O] F]. cbn in O, F. exec. unfold put_websocket_view. apply wp_bind. exec.
  set (s1 := s <| connection ::= _ |> <| connection ::= _ |> <| connection ::= _ |> <| connection ::= _ |>).
  assert (W1 : websocket_phase s1).
  { subst s1. eapply websocket_ext; [..|exact W]; try (proj; done).
    - proj. rewrite O, F, length_app. destruct W as [_ []]. lia.
    - unfold promised, rest_of_response, rest_of_relay. proj. rewrite O, F. destruct W as [_ [_ Of _ _ [_ R1 R2] _]].
      rewrite R1, R2, drop_app_le by done. cbn [drop]. rewrite !app_nil_r, app_assoc. by apply prefix_app_r. }
  destruct (bool_decide _); exec; [done|]. by apply websocket_events.
Qed.

Lemma wp_flush_websocket_writes s : websocket_phase s -> wp flush_websocket_writes (post good anything) s.
Proof using.
  intros W. unfold flush_websocket_writes.
  apply (wp_write_all websocket_phase _ _ websocket_same websocket_good websocket_closable websocket_events
    websocket_advance); [|done]. clear s W. intros s W Ge. exec.
  set (s1 := s <| connection ::= _ |> <| connection ::= _ |>).
  assert (W1 : websocket_phase s1).
  { subst s1. eapply websocket_ext; [..|exact W]; try (proj; done).
    unfold promised, rest_of_response, rest_of_relay. proj. rewrite drop_ge by done. cbn. done. }
  clearbody s1. case_match; [by apply wp_close_good, websocket_closable|].
  exec. by apply websocket_good, websocket_events.
Qed.

Ltac keep_websocket W := eapply websocket_ext; [..|exact W]; try (proj; done); try (proj; apply W).

Lemma wp_read_websocket_loop results s :
  websocket_phase s -> wp (read_websocket_loop results) (post (fun _ => or_closed websocket_phase) anything) s.
Proof using.
  revert s; induction results as [|[chunk| |w|] results IH]; intros s W; cbn [read_websocket_loop].
  - unfold read_blocked. exec. left. by apply websocket_events.
  - exec. set (s1 := s <| client_in ::= _ |> <| clock := _ |> <| connection ::= _ |> <| connection ::= _ |>).
    assert (W1 : websocket_phase s1) by (subst s1; keep_websocket W). clearbody s1.
    eapply wp_post_seq; [by apply wp_process_websocket_frames|]. intros [] s2 W2. exec.
    destruct (bool_decide _); [exec; by left|by apply IH].
  - by apply wp_close_or, websocket_closable.
  - unfold read_blocked. exec. left. by apply websocket_events.
  - by apply wp_close_or, websocket_closable.
Qed.

Lemma wp_handle_websocket revents s : websocket_phase s -> wp (handle_websocket revents) (post good anything) s.
Proof using.
  intros W. unfold handle_websocket. eapply wp_post_seq with (R := fun _ => or_closed websocket_phase).
  { destruct (has _ _); [|exec; by left]. unfold read_websocket. exec.
    apply wp_read_websocket_loop. by apply (websocket_same s). }
  intros [] s1 W1. exec. destruct W1 as [W1|[Ph En]].
  - destruct (_ && _); [by apply wp_flush_websocket_writes|]. exec. by apply websocket_good.
  - rewrite bool_decide_true by done. cbn [negb andb]. exec. by apply ending_wf.
Qed.

End events.
