(* ===== verification/RelayFacts.v ===== *)
(** * RelayFacts: what the WebSocket relay keeps

    The handlers of the relay preserve any assertion that survives the steps
    of its two directions ([relay_keeps]).  Two instances: the connection
    stays well-formed ([relay_phase]), and what one side sent reaches the
    other unchanged, in order and through bounded buffers ([flowing]). *)

From S2P Require Import Prelude Text Numbers Request Http1Frame Response StaticFiles Handler BodyStream Waf VirtualHost ReverseProxy Http2Session Config Security WebSocket State Connection ProxyExchange WebSocketProxy Reactor ConnectionFacts ReactorFacts SocketFacts.

(** The bytes that passed are the same, too. *)
Record same_traffic (s s' : Server) : Prop := {
  traffic_core : same_core s s';
  traffic_client_in : client_in s' = client_in s;
  traffic_upstream_in : upstream_in s' = upstream_in s;
  traffic_upstream_out : upstream_out s' = upstream_out s;
}.

Lemma compacted_rest b o : drop (compact_websocket_proxy_buffer b o).2 (compact_websocket_proxy_buffer b o).1 = drop o b.
Proof.
  unfold compact_websocket_proxy_buffer. destruct (decide _) as [->|]; [done|].
  destruct (Nat.leb_spec (length b) o); cbn; [by rewrite drop_ge|by rewrite drop_0].
Qed.

Lemma compacted_offset b o : (compact_websocket_proxy_buffer b o).2 = 0%nat.
Proof. unfold compact_websocket_proxy_buffer. destruct (decide _) as [->|]; [done|]. by case_match. Qed.

Lemma compacted_value b o : compact_websocket_proxy_buffer b o = (drop o b, 0%nat).
Proof.
  pose proof (compacted_rest b o) as R. pose proof (compacted_offset b o) as O.
  destruct (compact_websocket_proxy_buffer b o) as [b' o']. cbn in *. subst o'. by rewrite drop_0 in R; subst b'.
Qed.

(** ** The steps of one direction *)

Section direction.
Context (limit : Z).
Context (buffer : ClientConnection -> bytes) `{!Update buffer}.
Context (offset : ClientConnection -> nat) `{!Update offset}.
Context (extra : ClientConnection -> Z) `{!Update extra}.
Context (traffic : Server -> bytes) `{!Update traffic}.

Definition rest_to_send (s : Server) : bytes := drop (offset (connection s)) (buffer (connection s)).

(** [n] bytes more are accepted by the socket. *)
Definition sent_on (s : Server) (n : nat) : Server :=
  (s <| traffic ::= fun out => out ++ take n (rest_to_send s) |>)
     <| connection ::= update offset (fun _ => (offset (connection s) + n)%nat) |>.

Definition cleared (s : Server) : Server :=
  s <| connection ::= update buffer (fun _ => []) |> <| connection ::= update offset (fun _ => 0%nat) |>.

(** What flushing relies on. *)
Record flushable (I : Server -> Prop) : Prop := {
  flushable_sent : forall s n, I s ->
    (n <= length (buffer (connection s)) - offset (connection s))%nat -> I (sent_on s n);
  flushable_extra : forall s e, I s -> I (s <| connection ::= update extra (fun _ => e) |>);
  flushable_clear : forall s, I s -> (length (buffer (connection s)) <= offset (connection s))%nat -> I (cleared s);
  flushable_activity : forall s t, I s -> I (s <| connection ::= update last_activity_ (fun _ => t) |>);
  flushable_same : forall s s', same_traffic s s' -> I s -> I s';
  flushable_closable : forall s, I s -> closable limit s;
}.

Section flush.
Context (I : Server -> Prop) (fl : flushable I) (tls : ClientConnection -> bool).
Context (writes : Answers -> list WriteResult) `{!Update writes}.
Abbreviation or_closed := (fun _ : unit => or_closed limit I).

Lemma wp_flush_relay_loop results s :
  I s -> wp (flush_relay_loop buffer offset tls writes extra traffic results) (post or_closed anything) s.
Proof using fl.
  assert (Blocked : forall (b : bool) e s', I s' ->
    wp (if b then assign extra e else mret tt) (post or_closed anything) s').
  { intros [] e s' W; exec; left; [by apply (flushable_extra I fl)|done]. }
  assert (Close : forall l s', I s' ->
    wp close_now (post or_closed anything) (s' <| answers ::= update writes (fun _ => l) |>)).
  { intros l s' W. by apply (wp_close_or limit), (flushable_closable I fl), (flushable_same I fl s'). }
  revert s; induction results as [|r results IH]; intros s W; cbn [flush_relay_loop]; exec.
  all: destruct (Nat.ltb_spec (offset (connection s)) (length (buffer (connection s)))) as [Lt|Ge]; exec.
  - by apply Blocked.
  - left. by apply (flushable_clear I fl); [apply (flushable_same I fl s)|].
  - destruct r as [[|n]|w|]; exec.
    + by apply Close.
    + apply IH, (flushable_extra I fl), (flushable_activity I fl).
      eapply (flushable_same I fl); [|apply (flushable_sent I fl s
        (Nat.min (S n) (length (buffer (connection s)) - offset (connection s))) W); lia]. by constructor; proj.
    + by apply Blocked, (flushable_same I fl s).
    + by apply Close.
  - left. by apply (flushable_clear I fl); [apply (flushable_same I fl s)|].
Qed.

Lemma wp_flush_relay s : I s -> wp (flush_relay buffer offset tls writes extra traffic) (post or_closed anything) s.
Proof using fl. intros W. unfold flush_relay. exec. by apply wp_flush_relay_loop, (flushable_same I fl s). Qed.
End flush.
End direction.

(** ** Reading one side into the buffer of the other *)

Section reading.
Context (limit : Z).
Context (buffer : ClientConnection -> bytes) `{!Update buffer}.
Context (offset : ClientConnection -> nat) `{!Update offset}.
Context (extra : ClientConnection -> Z) `{!Update extra}.
Context (traffic : Server -> bytes) `{!Update traffic}.

(** [chunk] arrives, when the clock shows [t] and goes on as [clk]. *)
Definition arrived (s : Server) (chunk : bytes) (clk : nat -> Z) (t : Z) : Server :=
  s <| traffic ::= fun got => got ++ chunk |> <| clock := clk |>
    <| connection ::= update last_activity_ (fun _ => t) |> <| connection ::= update extra (fun _ => 0) |>.

(** The buffer is compacted, and takes it. *)
Definition compacted (s : Server) : Server :=
  s <| connection ::= update buffer (fun _ => rest_to_send buffer offset s) |>
    <| connection ::= update offset (fun _ => 0%nat) |>.

Definition appended (s : Server) (chunk : bytes) : Server :=
  (compacted s) <| connection ::= update buffer (fun _ => rest_to_send buffer offset s ++ chunk) |>.

Definition fits (s : Server) (chunk : bytes) : Prop :=
  size (rest_to_send buffer offset s) + size chunk <= websocket_proxy_buffer_limit (config_ (connection s)).

(** What reading relies on. *)
Record readable (I : Server -> Prop) : Prop := {
  readable_extra : forall s e, I s -> I (s <| connection ::= update extra (fun _ => e) |>);
  readable_appended : forall s chunk clk t, I s ->
    fits (arrived s chunk clk t) chunk -> I (appended (arrived s chunk clk t) chunk);
  readable_closable : forall s chunk clk t, I s -> closable limit (compacted (arrived s chunk clk t));
}.

Context (I : Server -> Prop) (rd : readable I).
Context (I_closable : forall s, I s -> closable limit s).
Context (I_open : forall s, I s -> phase_ (connection s) <> ClientPhase.closed).
Context (tls : ClientConnection -> bool) (flush_other : Handle unit).
Abbreviation or_closed := (SocketFacts.or_closed limit I).
Context (flush_spec : forall s, I s -> wp flush_other (post (fun _ => or_closed) anything) s).

Lemma wp_close_relay s : I s -> wp close_now (post (fun _ => or_closed) anything) s.
Proof using I_closable. intros W. by apply (wp_close_or limit), I_closable. Qed.

Lemma wp_append_relay s chunk clk t :
  I s ->
  wp (append_websocket_proxy_buffer buffer offset chunk)
    (post (fun (kept : bool) => if kept then I else or_closed) anything) (arrived s chunk clk t).
Proof using rd.
  intros W. pose proof (readable_closable I rd s chunk clk t W) as Cl. pose proof (readable_appended I rd s chunk clk t W) as Ap.
  unfold fits in Ap. revert Cl Ap. generalize (arrived s chunk clk t). intros s1 Cl Ap.
  unfold append_websocket_proxy_buffer. exec. rewrite compacted_value. fold (rest_to_send buffer offset s1). exec.
  destruct (Z.ltb_spec (websocket_proxy_buffer_limit (config_ (connection s1)))
              (size (rest_to_send buffer offset s1) + size chunk)) as [Lt|Ge].
  - eapply wp_post_seq; [by apply (wp_close_or limit I)|]. intros [] s2 C. by exec.
  - exec. by apply Ap.
Qed.

Lemma wp_read_relay_loop results s :
  I s -> wp (read_relay_loop buffer offset tls extra traffic flush_other results) (post (fun _ => or_closed) anything) s.
Proof using rd I_closable I_open flush_spec.
  revert s; induction results as [|[chunk| |w|] results IH]; intros s W; cbn [read_relay_loop]; exec.
  - left. by apply (readable_extra I rd).
  - eapply wp_post_seq; [by apply wp_append_relay|].
    intros [] s1 W1; cbn [negb]; exec; [|done].
    eapply wp_post_seq; [by apply flush_spec|]. intros [] s2 [W2|[Ph En]]; exec.
    + rewrite bool_decide_false by (by apply I_open). by apply IH.
    + rewrite bool_decide_true by done. exec. by right.
  - by apply wp_close_relay.
  - left. by apply (readable_extra I rd).
  - by apply wp_close_relay.
Qed.
End reading.

(** ** The handlers *)

(** What the relay's handlers preserve. *)
Record relay_keeps (limit : Z) (I : Server -> Prop) : Prop := {
  keeps_phase : forall s, I s -> phase_ (connection s) = ClientPhase.websocket_proxy;
  keeps_to_client : flushable limit websocket_proxy_upstream_to_client_ websocket_proxy_upstream_to_client_offset_
    websocket_proxy_client_extra_events_ client_out I;
  keeps_to_upstream : flushable limit websocket_proxy_client_to_upstream_ websocket_proxy_client_to_upstream_offset_
    websocket_proxy_upstream_extra_events_ upstream_out I;
  keeps_from_client : readable limit websocket_proxy_client_to_upstream_ websocket_proxy_client_to_upstream_offset_
    websocket_proxy_client_extra_events_ client_in I;
  keeps_from_upstream : readable limit websocket_proxy_upstream_to_client_ websocket_proxy_upstream_to_client_offset_
    websocket_proxy_upstream_extra_events_ upstream_in I;
  keeps_events : forall s e, I s -> I (s <| connection ::= update events_ (fun _ => e) |>);
}.

Section handlers.
Context (limit : Z) (I : Server -> Prop) (keeps : relay_keeps limit I).
Abbreviation or_closed := (SocketFacts.or_closed limit I).
Abbreviation relay_or_closed := (fun _ : unit => or_closed).

Let same : forall s s', same_traffic s s' -> I s -> I s' := flushable_same _ _ _ _ _ _ (keeps_to_client limit I keeps).
Let closable_relay : forall s, I s -> closable limit s := flushable_closable _ _ _ _ _ _ (keeps_to_client limit I keeps).

Lemma relay_open s : I s -> phase_ (connection s) <> ClientPhase.closed.
Proof using keeps. intros W. by rewrite (keeps_phase limit I keeps). Qed.

Lemma wp_close_open s : I s -> wp close_now (post relay_or_closed anything) s.
Proof using keeps. intros W. by apply (wp_close_relay limit I closable_relay). Qed.

Lemma wp_flush_relay_client s : I s -> wp flush_websocket_proxy_client (post relay_or_closed anything) s.
Proof using keeps. intros W. by eapply wp_flush_relay; [apply keeps|]. Qed.

Lemma wp_flush_relay_upstream s : I s -> wp flush_websocket_proxy_upstream (post relay_or_closed anything) s.
Proof using keeps. intros W. by eapply wp_flush_relay; [apply keeps|]. Qed.

Lemma wp_read_relay_client s : I s -> wp read_websocket_proxy_client (post relay_or_closed anything) s.
Proof using keeps.
  intros W. unfold read_websocket_proxy_client. exec.
  apply wp_read_relay_loop; [apply keeps|apply closable_relay|apply relay_open|apply wp_flush_relay_upstream|by apply (same s)].
Qed.

Lemma wp_read_relay_upstream s : I s -> wp read_websocket_proxy_upstream (post relay_or_closed anything) s.
Proof using keeps.
  intros W. unfold read_websocket_proxy_upstream. exec.
  apply wp_read_relay_loop; [apply keeps|apply closable_relay|apply relay_open|apply wp_flush_relay_client|by apply (same s)].
Qed.

Lemma wp_unless_closed (Q : unit -> Server -> Prop) m s :
  or_closed s ->
  (phase_ (connection s) = ClientPhase.closed -> ending limit s -> Q tt s) ->
  (I s -> wp m (post Q anything) s) ->
  wp (is_closed ← in_phase ClientPhase.closed; if is_closed : bool then mret tt else m) (post Q anything) s.
Proof using keeps.
  intros [W|[Ph En]] C K; exec.
  - rewrite bool_decide_false by (by apply relay_open). by apply K.
  - rewrite bool_decide_true by done. exec. by apply C.
Qed.

Lemma wp_update_relay_events s : I s -> wp update_websocket_proxy_events (post relay_or_closed anything) s.
Proof using keeps.
  intros W. unfold update_websocket_proxy_events. exec.
  rewrite bool_decide_true by (by apply (keeps_phase limit I keeps)). cbn [negb]. exec.
  set (s1 := s <| connection ::= _ |>). assert (W1 : I s1) by (by apply (keeps_events limit I keeps)). clearbody s1. clear s W.
  eapply (wp_post_seq _ _ relay_or_closed).
  { destruct (_ && _); [|exec; by left]. unfold update_client_epoll_events. exec. destruct (_ || _); exec; [by left|].
    destruct (head _) as [[]|]; exec; [by apply wp_close_open, (same s1)|left; by apply (same s1)..]. }
  intros [] s2 C. exec. destruct (_ && _) eqn:E; [|by exec].
  destruct C as [W2|[Ph _]]; [|by rewrite bool_decide_true in E by done].
  exec. destruct (head _) as [[]|]; exec; [by apply wp_close_open, (same s2)|left; by apply (same s2)..].
Qed.

Lemma wp_relay_tail (pending : bytes -> bool) (buffer : ClientConnection -> bytes) flush s :
  (forall s, I s -> wp flush (post relay_or_closed anything) s) ->
  or_closed s ->
  wp (is_closed ← in_phase ClientPhase.closed;
      b ← field buffer;
      (if negb is_closed && pending b then flush else mret tt) ;;
      is_closed ← in_phase ClientPhase.closed;
      if is_closed : bool then mret tt else update_websocket_proxy_events) (post relay_or_closed anything) s.
Proof using keeps.
  intros Fl C. apply wp_bind, wp_get. apply wp_bind, wp_get.
  eapply (wp_post_seq _ _ relay_or_closed).
  { case_match eqn:E; [|by exec]. destruct C as [W|[Ph _]]; [by apply Fl|by rewrite bool_decide_true in E by done]. }
  intros [] s1 C1. apply wp_unless_closed; [done|by right|apply wp_update_relay_events].
Qed.

Lemma wp_handle_relay_client revents s :
  I s -> wp (handle_websocket_proxy_client revents) (post relay_or_closed anything) s.
Proof using keeps.
  intros W. unfold handle_websocket_proxy_client. eapply (wp_post_seq _ _ relay_or_closed).
  { case_match; [by apply wp_read_relay_client|exec; by left]. }
  intros [] s1 C. by apply (wp_relay_tail (fun b => negb (bool_decide (b = [])) || has revents EPOLLOUT)); [apply wp_flush_relay_client|].
Qed.

Lemma wp_handle_relay_upstream revents s :
  I s -> wp (handle_websocket_proxy_upstream revents) (post relay_or_closed anything) s.
Proof using keeps.
  intros W. unfold handle_websocket_proxy_upstream. eapply (wp_post_seq _ _ relay_or_closed).
  { case_match; [by apply wp_read_relay_upstream|exec; by left]. }
  intros [] s1 C. by apply (wp_relay_tail (fun b => negb (bool_decide (b = [])) || has revents EPOLLOUT)); [apply wp_flush_relay_upstream|].
Qed.
End handlers.

(** ** The connection stays well-formed *)

Section relay_phase.
Context (limit : Z) (P : bytes).

Definition relay_phase (s : Server) : Prop :=
  phase_ (connection s) = ClientPhase.websocket_proxy /\ relaying limit P s.

Lemma relay_good s : relay_phase s -> wf limit P s.
Proof using. intros [Ph W]. unfold wf. by rewrite Ph. Qed.

Lemma relay_closable s : relay_phase s -> closable limit s.
Proof using. intros [_ W]. constructor; [apply W|apply W|left; apply W|right; apply W]. Qed.

Lemma relay_same s s' : same_core s s' -> relay_phase s -> relay_phase s'.
Proof using.
  intros SC [Ph W]. split; [by rewrite (same_connection _ _ SC)|by apply (relaying_same _ _ _ _ SC)].
Qed.

Lemma relay_ext s s' :
  phase_ (connection s') = phase_ (connection s) ->
  config_ (connection s') = config_ (connection s) -> fd_ (connection s') = fd_ (connection s) ->
  requests_served_ (connection s') = requests_served_ (connection s) -> open_fds s' = open_fds s ->
  closed_unopened s' = closed_unopened s -> response_buffer_ (connection s') = response_buffer_ (connection s) ->
  promised s `prefix_of` promised s' ->
  reverse_proxy_upstream_fd_ (connection s') = reverse_proxy_upstream_fd_ (connection s) ->
  websocket_upstream_fd_ (connection s') = websocket_upstream_fd_ (connection s) ->
  websocket_upstream_registered_ (connection s') = websocket_upstream_registered_ (connection s) ->
  websocket_after_response_ (connection s') = websocket_after_response_ (connection s) ->
  websocket_proxy_after_response_ (connection s') = websocket_proxy_after_response_ (connection s) ->
  relay_phase s -> relay_phase s'.
Proof using.
  intros E1 E2 E3 E4 E5 E6 E7 Pr E8 E9 E10 E11 E12 [Ph [L R Px Pm [Ow Nn] Rg Fl]]. split; [by rewrite E1|].
  constructor; rewrite ?E7, ?E9, ?E10, ?E11, ?E12; try done.
  - by eapply live_ext.
  - by eapply no_proxy_ext.
  - by etransitivity.
  - split; [by eapply owned_ext|done].
Qed.

Ltac keep_relay W := eapply relay_ext; [..|exact W]; proj; try done.

Lemma sent_promised (s : Server) o n :
  response_buffer_ (connection s) = [] -> o = websocket_proxy_upstream_to_client_offset_ (connection s) ->
  client_out s ++ rest_of_response (connection s) ++ rest_of_relay (connection s) =
  (client_out s ++ take n (rest_of_relay (connection s))) ++ [] ++
    drop (o + n) (websocket_proxy_upstream_to_client_ (connection s)).
Proof using.
  intros R ->. unfold rest_of_response, rest_of_relay. rewrite R, drop_nil. cbn [app].
  by rewrite <- app_assoc, <- drop_drop, take_drop.
Qed.

Lemma relay_phase_keeps : relay_keeps limit relay_phase.
Proof using.
  assert (Same : forall s s', same_traffic s s' -> relay_phase s -> relay_phase s')
    by (intros s s' ST; apply relay_same, ST).
  assert (Activity : forall s t, relay_phase s -> relay_phase (s <| connection ::= update last_activity_ (fun _ => t) |>))
    by (intros s t W; keep_relay W).
  constructor; [by intros s []|constructor|constructor|constructor|constructor|intros s e W; keep_relay W].
  all: try apply Same; try apply Activity; try apply relay_closable; try (intros s e W; keep_relay W).
  - intros s n W Hn. unfold sent_on. keep_relay W. unfold promised. destruct W as [_ W].
    rewrite (sent_promised s _ n (relaying_response _ _ _ W) eq_refl). unfold rest_of_response, rest_of_relay, rest_to_send.
    proj. by rewrite (relaying_response _ _ _ W), drop_nil.
  - intros s W Hn. unfold cleared. keep_relay W. unfold promised, rest_of_response, rest_of_relay. proj. by rewrite (drop_ge _ _ Hn).
  - intros s n W Hn. unfold sent_on. keep_relay W.
  - intros s W Hn. unfold cleared. keep_relay W.
  - intros s chunk clk t W _. unfold appended, compacted, arrived. keep_relay W.
  - intros s chunk clk t W. apply relay_closable. unfold compacted, arrived. keep_relay W.
  - intros s chunk clk t W _. unfold appended, compacted, arrived. keep_relay W.
    unfold promised, rest_of_response, rest_of_relay, rest_to_send. proj. rewrite drop_0, !app_assoc. by apply prefix_app_r.
  - intros s chunk clk t W. apply relay_closable. unfold compacted, arrived. keep_relay W.
Qed.

Abbreviation or_closed := (SocketFacts.or_closed limit).
Abbreviation relay_or_closed := (fun _ : unit => or_closed relay_phase).

Lemma relay_or_closed_good s : or_closed relay_phase s -> wf limit P s.
Proof using. apply (or_closed_good limit P), relay_good. Qed.

Lemma wp_relay_good {A} (m : Handle A) s :
  wp m (post (fun _ => or_closed relay_phase) anything) s -> wp m (post (good limit P) anything) s.
Proof using. intros W. eapply wp_post_mono; [exact W|intros a; apply relay_or_closed_good|done]. Qed.

(** A connection that was closed on the way. *)
Definition ended (s : Server) : Prop := phase_ (connection s) = ClientPhase.closed /\ ending limit s.

Lemma ended_ext s s' :
  phase_ (connection s') = phase_ (connection s) ->
  config_ (connection s') = config_ (connection s) -> fd_ (connection s') = fd_ (connection s) ->
  requests_served_ (connection s') = requests_served_ (connection s) -> open_fds s' = open_fds s ->
  closed_unopened s' = closed_unopened s ->
  websocket_upstream_fd_ (connection s') = websocket_upstream_fd_ (connection s) ->
  reverse_proxy_upstream_fd_ (connection s') = reverse_proxy_upstream_fd_ (connection s) -> ended s -> ended s'.
Proof using.
  intros E1 E2 E3 E4 E5 E6 E7 E8 [Ph [L W Px]]. split; [by rewrite E1|].
  constructor; [by eapply live_ext|by rewrite E7|by eapply no_proxy_ext].
Qed.

Lemma ended_flushable :
  flushable limit websocket_proxy_upstream_to_client_ websocket_proxy_upstream_to_client_offset_
    websocket_proxy_client_extra_events_ client_out ended.
Proof using.
  constructor.
  - intros s n W _. unfold sent_on. eapply ended_ext; [..|exact W]; by proj.
  - intros s e W. eapply ended_ext; [..|exact W]; by proj.
  - intros s W _. unfold cleared. eapply ended_ext; [..|exact W]; by proj.
  - intros s t W. eapply ended_ext; [..|exact W]; by proj.
  - intros s s' [SC _ _ _] [Ph En]. split; [by rewrite (same_connection _ _ SC)|by apply (ending_same _ s)].
  - intros s [_ [L W Px]]. constructor; [done|by left..|by left].
Qed.

(** After a step that may have closed the connection. *)
Lemma wp_flush_relay_client_or s :
  or_closed relay_phase s -> wp flush_websocket_proxy_client (post relay_or_closed anything) s.
Proof using.
  intros [W|W]; [by apply (wp_flush_relay_client limit _ relay_phase_keeps)|].
  eapply wp_post_mono; [by apply (wp_flush_relay _ _ _ _ _ ended ended_flushable)| |done]. intros [] s' [C|C]; by right.
Qed.
End relay_phase.

(** ** The relay is a pair of bounded queues *)

Section flowing.
Context (limit : Z) (s0 : Server).

(** Since [s0], what arrived from one side was forwarded to the other or
    waits for it. *)
Definition flow (arrived_at gone_to : Server -> bytes) (waiting : Server -> bytes) (s : Server) : Prop :=
  exists d, arrived_at s = arrived_at s0 ++ d /\ gone_to s ++ waiting s = gone_to s0 ++ waiting s0 ++ d.

Definition waiting_for_client : Server -> bytes :=
  rest_to_send websocket_proxy_upstream_to_client_ websocket_proxy_upstream_to_client_offset_.
Definition waiting_for_upstream : Server -> bytes :=
  rest_to_send websocket_proxy_client_to_upstream_ websocket_proxy_client_to_upstream_offset_.

Definition bounded (waiting : Server -> bytes) (s : Server) : Prop :=
  size (waiting s) <= websocket_proxy_buffer_limit (config_ (connection s)).

Record flows (s : Server) : Prop := {
  flows_to_client : flow upstream_in client_out waiting_for_client s;
  flows_to_upstream : flow client_in upstream_out waiting_for_upstream s;
  flows_client_bound : bounded waiting_for_client s;
  flows_upstream_bound : bounded waiting_for_upstream s;
}.

Definition flowing (s : Server) : Prop := relay_phase limit [] s /\ flows s.

Lemma flow_ext a g w s s' : a s' = a s -> g s' = g s -> w s' = w s -> flow a g w s -> flow a g w s'.
Proof using. intros E1 E2 E3 (d & F1 & F2). exists d. by rewrite E1, E2, E3. Qed.

Lemma flow_sent a g w s s' n :
  a s' = a s -> g s' = g s ++ take n (w s) -> w s' = drop n (w s) -> flow a g w s -> flow a g w s'.
Proof using. intros E1 E2 E3 (d & F1 & F2). exists d. by rewrite E1, E2, E3, <- app_assoc, take_drop. Qed.

Lemma flow_arrived a g w s s' chunk :
  a s' = a s ++ chunk -> g s' = g s -> w s' = w s ++ chunk -> flow a g w s -> flow a g w s'.
Proof using.
  intros E1 E2 E3 (d & F1 & F2). exists (d ++ chunk). by rewrite E1, E2, E3, F1, !app_assoc, F2, !app_assoc.
Qed.

Lemma bounded_ext w s s' :
  config_ (connection s') = config_ (connection s) -> w s' = w s -> bounded w s -> bounded w s'.
Proof using. unfold bounded. by intros -> ->. Qed.

Lemma bounded_less w s s' n :
  config_ (connection s') = config_ (connection s) -> w s' = drop n (w s) -> bounded w s -> bounded w s'.
Proof using.
  unfold bounded. intros -> -> B. etransitivity; [|exact B]. apply Nat2Z.inj_le. rewrite length_drop. lia.
Qed.

Lemma flows_same s s' : same_traffic s s' -> flows s -> flows s'.
Proof using.
  intros [[C _ _ O] ci ui uo] [F1 F2 B1 B2].
  assert (W1 : waiting_for_client s' = waiting_for_client s) by (unfold waiting_for_client, rest_to_send; by rewrite C).
  assert (W2 : waiting_for_upstream s' = waiting_for_upstream s) by (unfold waiting_for_upstream, rest_to_send; by rewrite C).
  constructor.
  - by eapply flow_ext; [..|exact F1].
  - by eapply flow_ext; [..|exact F2].
  - eapply bounded_ext; [..|exact B1]; by rewrite ?C.
  - eapply bounded_ext; [..|exact B2]; by rewrite ?C.
Qed.

Ltac queues := unfold waiting_for_client, waiting_for_upstream, rest_to_send; proj.

(** An update of fields that the flow or the bound [F] does not read. *)
Ltac by_queues F := first [eapply flow_ext; [..|exact F]|eapply bounded_ext; [..|exact F]]; queues; done.

(** An update of fields that no flow reads. *)
Ltac keep_flows F :=
  destruct F as [F1 F2 B1 B2]; constructor;
  [ eapply flow_ext; [..|exact F1] | eapply flow_ext; [..|exact F2]
  | eapply bounded_ext; [..|exact B1] | eapply bounded_ext; [..|exact B2] ]; queues; try done.

Lemma bounded_fits s s' w rest chunk :
  config_ (connection s') = config_ (connection s) -> w s' = rest ++ chunk ->
  size rest + size chunk <= websocket_proxy_buffer_limit (config_ (connection s)) -> bounded w s'.
Proof using. unfold bounded. intros -> -> B. by rewrite length_app, Nat2Z.inj_add. Qed.

Lemma flowing_keeps : relay_keeps limit flowing.
Proof using.
  pose proof (relay_phase_keeps limit []) as [K1 K2 K3 K4 K5 K6].
  assert (Same : forall s s', same_traffic s s' -> flowing s -> flowing s').
  { intros s s' ST [W F]. split; [by apply (flushable_same _ _ _ _ _ _ K2 s)|by apply (flows_same s)]. }
  assert (Activity : forall s t, flowing s -> flowing (s <| connection ::= update last_activity_ (fun _ => t) |>)).
  { intros s t [W F]. split; [by apply (flushable_activity _ _ _ _ _ _ K2)|keep_flows F]. }
  assert (Closable : forall s, flowing s -> closable limit s) by (intros s [W _]; by apply (relay_closable limit [])).
  constructor; [by intros s [[Ph _] _]|constructor|constructor|constructor|constructor|].
  all: try apply Same; try apply Activity; try apply Closable.
  - intros s n [W F] Hn. split; [by apply (flushable_sent _ _ _ _ _ _ K2)|]. unfold sent_on. destruct F as [F1 F2 B1 B2].
    constructor; [apply (flow_sent _ _ _ s _ n); [..|exact F1]|by_queues F2|apply (bounded_less _ s _ n); [..|exact B1]|by_queues B2].
    all: queues; by rewrite ?drop_drop.
  - intros s e [W F]. split; [by apply (flushable_extra _ _ _ _ _ _ K2)|keep_flows F].
  - intros s [W F] Hn. split; [by apply (flushable_clear _ _ _ _ _ _ K2)|]. unfold cleared. keep_flows F.
    all: by rewrite (drop_ge _ _ Hn).
  - intros s n [W F] Hn. split; [by apply (flushable_sent _ _ _ _ _ _ K3)|]. unfold sent_on. destruct F as [F1 F2 B1 B2].
    constructor; [by_queues F1|apply (flow_sent _ _ _ s _ n); [..|exact F2]|by_queues B1|apply (bounded_less _ s _ n); [..|exact B2]].
    all: queues; by rewrite ?drop_drop.
  - intros s e [W F]. split; [by apply (flushable_extra _ _ _ _ _ _ K3)|keep_flows F].
  - intros s [W F] Hn. split; [by apply (flushable_clear _ _ _ _ _ _ K3)|]. unfold cleared. keep_flows F.
    all: by rewrite (drop_ge _ _ Hn).
  - intros s e [W F]. split; [by apply (readable_extra _ _ _ _ _ _ K4)|keep_flows F].
  - intros s chunk clk t [W F] Ft. split; [by apply (readable_appended _ _ _ _ _ _ K4)|]. destruct F as [F1 F2 B1 B2].
    unfold appended, compacted, arrived. constructor;
      [by_queues F1|apply (flow_arrived _ _ _ s _ chunk); [..|exact F2]|by_queues B1|apply (bounded_fits s _ _ (waiting_for_upstream s) chunk)]; by queues.
  - intros s chunk clk t [W F]. by apply (readable_closable _ _ _ _ _ _ K4).
  - intros s e [W F]. split; [by apply (readable_extra _ _ _ _ _ _ K5)|keep_flows F].
  - intros s chunk clk t [W F] Ft. split; [by apply (readable_appended _ _ _ _ _ _ K5)|]. destruct F as [F1 F2 B1 B2].
    unfold appended, compacted, arrived. constructor;
      [apply (flow_arrived _ _ _ s _ chunk); [..|exact F1]|by_queues F2|apply (bounded_fits s _ _ (waiting_for_client s) chunk)|by_queues B2]; by queues.
  - intros s chunk clk t [W F]. by apply (readable_closable _ _ _ _ _ _ K5).
  - intros s e [W F]. split; [by apply K6|keep_flows F].
Qed.
End flowing.
