(* ===== verification/EventFacts.v ===== *)
(** * EventFacts: every event keeps a connection well-formed

    What follows a response, the timeouts and the event handlers; with
    [SocketFacts] and [RelayFacts] this gives the invariant of [run]. *)

From S2P Require Import Prelude Text Numbers Request Http1Frame Response StaticFiles Handler BodyStream Waf VirtualHost ReverseProxy Http2Session Config Security WebSocket State Connection ProxyExchange WebSocketProxy Reactor ConnectionFacts ReactorFacts SocketFacts RelayFacts.

Section responses.
Context (limit : Z) (P : bytes).
Context `{MapOrder bytes, MapOrder (list bytes)} (env : Environment).
Abbreviation good := (good limit P).

(** ** Writing a response *)

Definition writing (s : Server) : Prop := phase_ (connection s) = ClientPhase.writing /\ sending limit P s.

Lemma writing_good s : writing s -> wf limit P s.
Proof using. intros [Ph W]. by apply sending_wf. Qed.

Lemma writing_closable s : writing s -> closable limit s.
Proof using. intros [_ W]. by apply (sending_closable limit P). Qed.

Lemma writing_same s s' : same_core s s' -> writing s -> writing s'.
Proof using.
  intros SC [Ph W]. split; [by rewrite (same_connection _ _ SC)|by apply (sending_same _ _ _ _ SC)].
Qed.

Lemma writing_ext s s' :
  phase_ (connection s') = phase_ (connection s) ->
  config_ (connection s') = config_ (connection s) -> fd_ (connection s') = fd_ (connection s) ->
  requests_served_ (connection s') = requests_served_ (connection s) -> open_fds s' = open_fds s ->
  closed_unopened s' = closed_unopened s ->
  (response_offset_ (connection s') <= length (response_buffer_ (connection s')))%nat ->
  promised s `prefix_of` promised s' ->
  reverse_proxy_upstream_fd_ (connection s') = reverse_proxy_upstream_fd_ (connection s) ->
  websocket_upstream_fd_ (connection s') = websocket_upstream_fd_ (connection s) ->
  websocket_upstream_registered_ (connection s') = websocket_upstream_registered_ (connection s) ->
  websocket_proxy_upstream_to_client_ (connection s') = websocket_proxy_upstream_to_client_ (connection s) ->
  websocket_proxy_upstream_to_client_offset_ (connection s') = websocket_proxy_upstream_to_client_offset_ (connection s) ->
  keep_alive_after_response_ (connection s') = keep_alive_after_response_ (connection s) ->
  websocket_after_response_ (connection s') = websocket_after_response_ (connection s) ->
  websocket_proxy_after_response_ (connection s') = websocket_proxy_after_response_ (connection s) ->
  http1_body_stream_ (connection s') = http1_body_stream_ (connection s) ->
  writing s -> writing s'.
Proof using.
  intros E1 E2 E3 E4 E5 E6 Of Pr E7 E8 E9 E10 E11 E12 E13 E14 E15 [Ph [L1 L2 L3 L4 L5 L6 L7 L8 Rl]]. split; [by rewrite E1|].
  constructor; rewrite ?E8, ?E9, ?E12, ?E13, ?E14, ?E15; try done.
  - by eapply live_ext.
  - by etransitivity.
  - by eapply no_proxy_ext.
  - unfold budget. by rewrite E4.
  - destruct (websocket_proxy_after_response_ (connection s)); [|by eapply no_relay_ext].
    destruct Rl as [Ow ?]. split; [by eapply owned_ext|done].
Qed.

Lemma writing_events s e : writing s -> writing (s <| connection ::= update events_ (fun _ => e) |>).
Proof using. intros W. eapply writing_ext; [..|exact W]; proj; try done. apply W. Qed.

Lemma writing_advance s n :
  writing s -> (n <= length (response_buffer_ (connection s)) - response_offset_ (connection s))%nat ->
  writing (s <| client_out ::= fun out => out ++ take n (drop (response_offset_ (connection s)) (response_buffer_ (connection s))) |>
       <| connection ::= update response_offset_ (fun _ => (response_offset_ (connection s) + n)%nat) |>).
Proof using.
  intros W Hn. eapply writing_ext; [..|exact W]; try (proj; done).
  - proj. destruct W as [_ []]. lia.
  - by rewrite promised_advance.
Qed.

Lemma ending_sent_wf s :
  phase_ (connection s) = ClientPhase.tls_shutdown -> ending limit s -> promised s = client_out s ->
  P `prefix_of` client_out s -> wf limit P s.
Proof using. intros Ph En D Pr. unfold wf. by rewrite Ph. Qed.

Lemma ending_closable s : ending limit s -> closable limit s.
Proof using. intros [L W Px]. constructor; [done|by left..|by left]. Qed.

Lemma wp_do_tls_shutdown s :
  phase_ (connection s) = ClientPhase.tls_shutdown -> ending limit s -> promised s = client_out s ->
  P `prefix_of` client_out s -> wp do_tls_shutdown (post good anything) s.
Proof using.
  intros Ph En D Pr. unfold do_tls_shutdown. exec.
  assert (Close : wp close_now (post good anything) (s <| answers ::= update client_tls tail |>)).
  { apply (wp_close_good limit), ending_closable. by apply (ending_same _ s). }
  destruct (head _) as [[]|]; try done. exec. apply ending_sent_wf; proj; try done.
  destruct En as [L W Px]. constructor; [|by proj|unfold no_proxy; by proj].
  eapply live_ext; [..|exact L]; by proj.
Qed.

Lemma drained_response s : (length (response_buffer_ (connection s)) <= response_offset_ (connection s))%nat ->
  rest_of_response (connection s) = [].
Proof using. intros Ge. unfold rest_of_response. by apply drop_ge. Qed.

(** What follows a response that has been written. *)
Section continuation.
Context (s : Server) (W : writing s).
Context (Ge : (length (response_buffer_ (connection s)) <= response_offset_ (connection s))%nat).

Let Sg : sending limit P s := proj2 W.

Lemma finish_to_websocket t :
  websocket_after_response_ (connection s) = true ->
  websocket_phase limit P (s <| clock := t |> <| connection ::= fun c => c
    <| websocket_after_response_ := false |> <| response_buffer_ := [] |> <| response_offset_ := 0%nat |>
    <| phase_ := ClientPhase.websocket |> <| events_ := EPOLLIN |> <| last_activity_ := clock s 0%nat |> |>).
Proof using W Ge.
  intros Ws. pose proof (sending_websocket _ _ _ Sg Ws) as Np. pose proof (sending_relay _ _ _ Sg) as Rl. rewrite Np in Rl.
  split; [by proj|]. constructor; try (proj; done).
  - eapply live_ext; [..|exact (sending_live _ _ _ Sg)]; by proj.
  - pose proof (sending_promised _ _ _ Sg) as Pr. unfold promised in *. rewrite (drained_response s Ge) in Pr.
    unfold rest_of_response, rest_of_relay in *. proj. by rewrite drop_nil.
  - unfold no_proxy. proj. exact (sending_proxy _ _ _ Sg).
  - eapply no_relay_ext; [..|exact Rl]; by proj.
Qed.

Lemma finish_to_relay t :
  websocket_after_response_ (connection s) = false -> websocket_proxy_after_response_ (connection s) = true ->
  relay_phase limit P (s <| clock := t |> <| connection ::= fun c => c
    <| websocket_proxy_after_response_ := false |> <| response_buffer_ := [] |> <| response_offset_ := 0%nat |>
    <| phase_ := ClientPhase.websocket_proxy |> <| last_activity_ := clock s 0%nat |> |>).
Proof using W Ge.
  intros Ws Wp. pose proof (sending_relay _ _ _ Sg) as Rl. rewrite Wp in Rl. destruct Rl as (Ow & Nn & Rg).
  split; [by proj|]. constructor; try (proj; done).
  - eapply live_ext; [..|exact (sending_live _ _ _ Sg)]; by proj.
  - unfold no_proxy. proj. exact (sending_proxy _ _ _ Sg).
  - pose proof (sending_promised _ _ _ Sg) as Pr. unfold promised in *. rewrite (drained_response s Ge) in Pr.
    unfold rest_of_response, rest_of_relay in *. proj. by rewrite drop_nil.
Qed.

Lemma finish_to_reading t started :
  websocket_after_response_ (connection s) = false -> websocket_proxy_after_response_ (connection s) = false ->
  keep_alive_after_response_ (connection s) = true ->
  requested limit P (s <| clock := t |> <| connection ::= fun c => c
    <| keep_alive_after_response_ := false |> <| response_buffer_ := [] |> <| response_offset_ := 0%nat |>
    <| phase_ := ClientPhase.reading |> <| events_ := EPOLLIN |> <| last_activity_ := clock s 0%nat |>
    <| request_started_at_ := started |> <| body_started_at_ := 0 |> <| waiting_for_body_ := false |> |>).
Proof using W Ge.
  intros Ws Wp K. pose proof (sending_relay _ _ _ Sg) as Rl. rewrite Wp in Rl.
  pose proof (sending_stream _ _ _ Sg K) as St. constructor; [constructor|by proj].
  - by proj.
  - constructor.
    + eapply live_ext; [..|exact (sending_live _ _ _ Sg)]; by proj.
    + constructor; by proj.
    + eapply no_relay_ext; [..|exact Rl]; by proj.
    + unfold no_proxy. proj. exact (sending_proxy _ _ _ Sg).
    + pose proof (sending_promised _ _ _ Sg) as Pr. destruct Rl as [_ R1 R2]. unfold promised in Pr.
      rewrite (drained_response s Ge) in Pr. unfold rest_of_relay in Pr. rewrite R1, R2 in Pr.
      proj. by rewrite !app_nil_r in Pr.
  - unfold budget. proj. exact (sending_budget _ _ _ Sg K).
  - unfold plain_http. proj. by rewrite St.
Qed.

Lemma finish_to_shutdown :
  websocket_proxy_after_response_ (connection s) = false ->
  ending limit (s <| connection ::= fun c => c <| phase_ := ClientPhase.tls_shutdown |> <| events_ := EPOLLOUT |> |>) /\
  promised s = client_out s /\ P `prefix_of` client_out s.
Proof using W Ge.
  intros Wp. pose proof (sending_relay _ _ _ Sg) as Rl. rewrite Wp in Rl. destruct Rl as [R0 R1 R2]. split.
  - constructor; [|by proj|unfold no_proxy; proj; exact (sending_proxy _ _ _ Sg)].
    eapply live_ext; [..|exact (sending_live _ _ _ Sg)]; by proj.
  - assert (D : promised s = client_out s).
    { unfold promised, rest_of_relay. by rewrite (drained_response s Ge), R1, R2, !app_nil_r. }
    split; [done|]. rewrite <- D. exact (sending_promised _ _ _ Sg).
Qed.

Lemma wp_finish_response : wp (finish_response env) (post good anything) s.
Proof using W Ge.
  unfold finish_response. apply wp_bind, wp_get. apply wp_bind, wp_get. apply wp_bind, wp_get. apply wp_bind, wp_get.
  destruct (websocket_after_response_ (connection s)) eqn:Ws.
  { unfold clear_response. exec. eapply wp_post_seq.
    { apply (wp_process_websocket_frames limit P). by apply (finish_to_websocket (fun n => clock s (S n))). }
    intros [] s1 W1. exec. destruct (bool_decide _); [exec; by apply (websocket_good limit P)|].
    by apply (wp_flush_websocket_writes limit P). }
  destruct (websocket_proxy_after_response_ (connection s)) eqn:Wp.
  { unfold clear_response. exec. apply (wp_relay_good limit P). eapply wp_post_seq.
    { apply (wp_update_relay_events limit _ (relay_phase_keeps limit P)). by apply (finish_to_relay (fun n => clock s (S n))). }
    intros [] s1 W1. exec. eapply (wp_post_seq _ _ (fun _ => or_closed limit (relay_phase limit P))).
    { destruct (bool_decide _); [by exec|by apply wp_flush_relay_client_or]. }
    intros [] s2 W2. apply (wp_relay_tail limit _ (relay_phase_keeps limit P) (fun b => negb (bool_decide (b = [])))); [|done].
    apply (wp_flush_relay_upstream limit _ (relay_phase_keeps limit P)). }
  destruct (keep_alive_after_response_ (connection s)) eqn:K.
  { unfold clear_response. exec. apply wp_process_buffered_request.
    by eapply (finish_to_reading (fun n => clock s (S n))). }
  destruct (ssl_ (connection s)).
  - exec. destruct (finish_to_shutdown Wp) as (? & ? & ?). by apply wp_do_tls_shutdown.
  - by apply (wp_close_good limit), writing_closable.
Qed.
End continuation.

Lemma wp_write_response s : writing s -> wp (write_response env) (post good anything) s.
Proof using.
  intros W. unfold write_response.
  apply (wp_write_all limit P writing _ _ writing_same writing_good writing_closable writing_events writing_advance); [|done].
  intros s' W' Ge. by apply wp_finish_response.
Qed.

(** ** The events *)

Lemma wf_closed_or s :
  wf limit P s -> phase_ (connection s) = ClientPhase.closed \/ closable limit s.
Proof using.
  intros W. unfold wf in W. destruct (phase_ (connection s)) eqn:Ph; [right..|by left].
  - destruct W as [[L _ [N _ _] Px _] _]. constructor; [done|by left..|by left].
  - destruct W as [_ [L _ [N _ _] Px _] _ _]. constructor; [done|by left..|by left].
  - by apply (sending_closable limit P).
  - by apply (websocket_closable limit P).
  - by apply (relay_closable limit P).
  - by apply (proxying_closable limit P), exchanging_proxying.
  - apply ending_closable, W.
Qed.

Lemma wp_close_wf s :
  wf limit P s -> phase_ (connection s) <> ClientPhase.closed -> wp close_now (post good anything) s.
Proof using. intros W N. apply (wp_close_good limit). by destruct (wf_closed_or s W). Qed.

Lemma wp_do_tls_handshake s :
  wf limit P s -> phase_ (connection s) = ClientPhase.tls_handshake -> wp do_tls_handshake (post good anything) s.
Proof using.
  intros W Ph. unfold do_tls_handshake. exec.
  set (s1 := s <| answers ::= _ |>). assert (W1 : wf limit P s1) by (by apply (wf_same limit P s)).
  assert (Ph1 : phase_ (connection s1) = ClientPhase.tls_handshake) by done. clearbody s1. clear W Ph.
  pose proof W1 as W. unfold wf in W. rewrite Ph1 in W. destruct W as (Si & B & St & H2).
  destruct (default _ _) as [alpn| |w|]; exec; try (apply wp_close_wf; [done|by rewrite Ph1]).
  - apply reading_wf. constructor; proj; [done| |done|unfold plain_http; by proj].
    keep_silent Si.
  - cbv [post]. unfold ConnectionFacts.good, wf. proj. rewrite Ph1. split; [keep_silent Si|]. unfold budget. by proj.
Qed.

Lemma wp_handle revents s : wf limit P s -> wp (handle env revents) (post good anything) s.
Proof using.
  intros W. unfold handle. exec. pose proof (wp_close_wf s W) as Close. pose proof W as W'. unfold wf in W.
  destruct (phase_ (connection s)) eqn:Ph; try (destruct (hang_up revents); [by apply Close|]); try by exec.
  - by apply wp_do_tls_handshake.
  - destruct (has _ _); [by apply (wp_read_request limit P)|by exec].
  - destruct (has _ _); [by apply wp_write_response|by exec].
  - by apply (wp_handle_websocket limit P).
  - by apply (wp_relay_good limit P), (wp_handle_relay_client limit _ (relay_phase_keeps limit P)).
  - destruct W as (? & ? & ?). by apply wp_do_tls_shutdown.
Qed.

Lemma wp_handle_upstream revents s : wf limit P s -> wp (handle_upstream env revents) (post good anything) s.
Proof using.
  intros W. unfold handle_upstream. exec. pose proof (wp_close_wf s W) as Close. pose proof W as W'. unfold wf in W.
  destruct (phase_ (connection s)) eqn:Ph; try by exec.
  - destruct (hang_up revents); [by apply Close|]. by apply (wp_relay_good limit P), (wp_handle_relay_upstream limit _ (relay_phase_keeps limit P)).
  - destruct (hang_up revents); [by apply Close|]. eapply wp_anything. by apply wp_handle_reverse_proxy_upstream.
Qed.

Lemma wp_modify_client_events s : wf limit P s -> wp (modify_client_events env) (post good anything) s.
Proof using.
  intros W. unfold modify_client_events. exec.
  assert (W1 : wf limit P (s <| answers ::= update epoll_calls tail |>)) by (by apply (wf_same limit P s)).
  destruct (head _) as [[e|]|]; [by apply wp_handle|exec; by refine (wf_same limit P _ _ _ W1)..].
Qed.

Lemma wp_unless_closed_good m s :
  wf limit P s -> (phase_ (connection s) <> ClientPhase.closed -> wp m (post good anything) s) ->
  wp (unless_closed m) (post good anything) s.
Proof using. intros W K. unfold unless_closed. exec. case_bool_decide; [by exec|by apply K]. Qed.

Lemma wp_close_if (b : bool) s :
  wf limit P s -> phase_ (connection s) <> ClientPhase.closed ->
  wp (if b then close_now ;; mret true else mret false) (post good anything) s.
Proof using.
  intros W N. destruct b; [|by exec]. eapply wp_post_seq; [by apply wp_close_wf|]. intros [] s1 W1. by exec.
Qed.

Lemma wp_request_timeout s : wf limit P s -> phase_ (connection s) = ClientPhase.reading ->
  wp (refuse 408 (line_body "Request Timeout") ;; mret true) (post good anything) s.
Proof using.
  intros W Ph. eapply wp_seq; [apply (wp_refuse_good limit P), reading_silent; by apply wf_reading|].
  intros [] s1 W1. by exec.
Qed.

Lemma wp_expire now s : wf limit P s -> wp (expire_if_timed_out env now) (post good anything) s.
Proof using.
  intros W. unfold expire_if_timed_out. exec. destruct (config_ (connection s)) as [config|]; [|by exec].
  pose proof (fun b => wp_close_if b s W) as Close. pose proof (wp_request_timeout s W) as Late.
  destruct (phase_ (connection s)) eqn:Ph; try (by exec); try (by apply Close).
  - specialize (Late eq_refl). destruct (http2_active_ _).
    { destruct (bool_decide _); [by apply Close|]. destruct (_ && _); [|by exec].
      exec. destruct (goaway_frame _ _) as [goaway|e|]; [|done..]. exec.
      eapply wp_seq; [by apply (wp_set_serialized_good limit P); [apply reading_silent, wf_reading|]|].
      intros [] s1 W1. by exec. }
    destruct (_ && _); [done|]. destruct (_ && _); [by apply Close|]. destruct (_ || _); [by exec|].
    destruct (elapsed _ _ _); [done|]. destruct (_ && _); [done|by exec].
  - destruct (_ && _); [|by exec].
    apply (wp_seq _ _ good); [|intros [] s1 W1; by exec]. apply wp_fail_reverse_proxy_attempt, exchanging_proxying.
    unfold wf in W. by rewrite Ph in W.
Qed.

(** What an event may bring: a configuration within the bound. *)
Definition event_ok (e : Event) : Prop :=
  match e with
  | ConfigPublished (Some config) => config_ok limit config
  | _ => True
  end.

Lemma wf_answers s a : wf limit P s -> wf limit P (s <| answers := a |>).
Proof using. intros W. by apply (wf_same limit P s). Qed.

(** What happens elsewhere: a new configuration, and descriptors of others. *)
Section elsewhere.
Context (s s' : Server) (config : option ServerConfig).
Context (same_but_config : connection s' = (connection s) <| config_ := config |>).
Context (keep_live : live limit s -> live limit s').
Context (keep_websocket : owned (websocket_upstream_fd_ (connection s)) s -> owned (websocket_upstream_fd_ (connection s)) s').
Context (keep_proxy : owned (reverse_proxy_upstream_fd_ (connection s)) s -> owned (reverse_proxy_upstream_fd_ (connection s)) s').
Context (keep_out : client_out s' = client_out s).

Ltac elsewhere :=
  constructor; rewrite ?same_but_config, ?keep_out; unfold promised, rest_of_response, rest_of_relay, no_proxy, budget, plain_http in *;
  rewrite ?same_but_config, ?keep_out; proj; auto.

Lemma silent_elsewhere : silent limit P s -> silent limit P s'.
Proof using same_but_config keep_live keep_out. intros [L [] [] Px Pr]. elsewhere; by elsewhere. Qed.

Lemma proxying_elsewhere : proxying limit P s -> proxying limit P s'.
Proof using same_but_config keep_live keep_proxy keep_out. intros [Ph L [] [] Up Pr B St H2 Rq Ix]. elsewhere; by elsewhere. Qed.

Lemma wf_elsewhere : wf limit P s -> wf limit P s'.
Proof using same_but_config keep_live keep_websocket keep_proxy keep_out.
  unfold wf. rewrite same_but_config at 1. proj. destruct (phase_ (connection s)).
  - intros (S & B & St & H2). split; [by apply silent_elsewhere|]. rewrite same_but_config. unfold budget. by proj.
  - intros [Ph S B St]. elsewhere. by apply silent_elsewhere.
  - intros [L Of Pr Px B St On Ws Rl]. elsewhere.
    destruct (websocket_proxy_after_response_ (connection s)); [split; [apply keep_websocket, Rl|]; apply Rl|].
    destruct Rl. by elsewhere.
  - intros [L Of Pr Px [] Fl]. elsewhere. by elsewhere.
  - intros [L R Px Pr [Up N] Rg Fl]. elsewhere.
  - intros [Px Up Rg St Of Wr]. elsewhere. by apply proxying_elsewhere.
  - intros ([L W Px] & D & Pr). split; [elsewhere|]. revert D. unfold promised, rest_of_response, rest_of_relay.
    rewrite keep_out, same_but_config. by proj.
  - intros [L W Px]. elsewhere.
Qed.
End elsewhere.

Lemma wf_config config s :
  config_ok limit config -> wf limit P s -> wf limit P (s <| connection ::= update config_ (fun _ => Some config) |>).
Proof using.
  intros Ok. apply (wf_elsewhere s _ (Some config)); try done.
  intros [L1 L2 L3 L4]. constructor; proj; [by eexists|done..].
Qed.

Lemma descriptor_kept fd s fds :
  0 <= fd -> fd ∈ [fd_ (connection s); websocket_upstream_fd_ (connection s); reverse_proxy_upstream_fd_ (connection s)] ->
  fd ∈ descriptors (connection s) ∪ fds.
Proof using. intros Nn In. unfold descriptors. apply elem_of_union_l, elem_of_list_to_set. by apply list_elem_of_filter. Qed.

Lemma wf_others sec p turns fds s :
  wf limit P s -> wf limit P (s <| security := sec |> <| proxies := p |> <| proxy_turns := turns |>
                                <| open_fds := descriptors (connection s) ∪ fds |>).
Proof using.
  apply (wf_elsewhere s _ (config_ (connection s))); try done.
  - proj. by destruct (connection s).
  - intros [L1 L2 [L3 L4] L5]. constructor; proj; try done. split; [done|]. apply descriptor_kept; [done|]. left.
  - intros [->|(Nn & _ & N)]; [by left|right]. proj. split_and!; [done| |done]. apply descriptor_kept; [done|]. right; left.
  - intros [->|(Nn & _ & N)]; [by left|right]. proj. split_and!; [done| |done]. apply descriptor_kept; [done|]. right; right; left.
Qed.

Lemma wp_event e s :
  event_ok e -> wf limit P s -> phase_ (connection s) <> ClientPhase.closed -> wp (event env e) (post good anything) s.
Proof using.
  intros Ok W N. destruct e as [revents a|revents a|a|config|sec p turns fds]; cbn [event].
  - apply wp_bind, wp_modify. apply (wp_post_seq _ _ good); [by apply wp_handle, wf_answers|].
    intros [] s1 W1. apply wp_unless_closed_good; [done|]. intros _. by apply wp_modify_client_events.
  - apply wp_bind, wp_modify. by apply wp_handle_upstream, wf_answers.
  - apply wp_bind, wp_modify. apply wp_bind, wp_now. apply (wp_post_seq _ _ good).
    { apply wp_expire. refine (wf_same limit P _ _ _ (wf_answers s a W)). by constructor; proj. }
    intros [] s1 W1; [|by exec]. apply wp_unless_closed_good; [done|]. intros _. by apply wp_modify_client_events.
  - destruct config as [config|]; cbn [update_config]; exec; [|done]. by apply wf_config.
  - exec. by apply wf_others.
Qed.

Lemma wp_run_events events s :
  Forall event_ok events -> wf limit P s -> wp (run env events) (post good anything) s.
Proof using.
  intros Ok; revert s; induction Ok as [|e events Ok1 Ok IH]; intros s W; cbn [run]; [by exec|].
  apply wp_unless_closed_good; [done|]. intros N.
  apply (wp_post_seq _ _ good); [by apply wp_event|]. intros [] s1. apply IH.
Qed.
End responses.
