(* ===== verification/Scenarios.v ===== *)
(** * Scenarios: concrete connections

    A configuration, an environment and the traffic of a few clients, on which
    the model is run and the theorems of [ConnectionSpec] are applied. *)

From S2P Require Import Prelude Text Numbers Request Http1Frame Response StaticFiles Handler BodyStream Waf VirtualHost ReverseProxy Http2Session Config Security WebSocket State Connection ProxyExchange WebSocketProxy Reactor.

(** The defaults, with a rate limit and one virtual host that is proxied. *)
Definition example_config : ServerConfig :=
  match read_fields (<[str "rate_limit_enabled" := str "true"]>
          {[str "virtual_hosts" := str "chat.test=proxy:http://127.0.0.1:9000"]}) with
  | Ret config => config
  | _ => default_config
  end.

Definition example_env : Environment :=
  mk_environment (fun _ => None) (example_fs (str "secret")) (fun _ => str "Thu, 01 Jan 1970 00:00:00 GMT")
    (fun b => b) (fun _ => None) (str "/tmp/spool") (fun _ => Some (repeat (chr "0") 20)).

(** Descriptor 5 has been accepted; the clock advances by one at every look. *)
Definition example_server : Server :=
  mk_server new_connection Z.of_nat (mk_security ∅ ∅ 0) (mk_proxy_state 0 ∅)
    (fun _ => mk_attempt 0 0 (fun _ => Raise "unreachable")) silence {[5]} [] 0 0 [] [] [] [].

Definition message (lines : list string) : bytes := List.concat (map (fun line => str line ++ CRLF) lines).

Definition get_request : bytes := message ["GET /missing HTTP/1.1"; "Host: other.test"; ""]%string.

Definition upgrade_request : bytes := message
  ["GET /chat HTTP/1.1"; "Host: chat.test"; "Upgrade: websocket"; "Connection: Upgrade";
   "Sec-WebSocket-Key: dGhlIHNhbXBsZSBub25jZQ=="; "Sec-WebSocket-Version: 13"; ""]%string.

Definition upgrade_answer : bytes := message
  ["HTTP/1.1 101 Switching Protocols"; "Upgrade: websocket"; "Connection: Upgrade";
   "Sec-WebSocket-Accept: s3pPLMBiTxaQ9kYGzzhZRbK+xOo="; ""]%string.

Definition proxied_request : bytes := message ["GET /data HTTP/1.1"; "Host: chat.test"; ""]%string.
Definition upstream_response : bytes := message ["HTTP/1.1 200 OK"; "Content-Length: 2"; ""]%string ++ str "ok".

Definition post_head : bytes := message ["POST /form HTTP/1.1"; "Host: other.test"; "Content-Length: 10"; ""]%string.

Definition client_sends (data : bytes) (a : Answers) : Event :=
  ClientReady EPOLLIN (a <| client_reads := [ReadData data] |>).

Definition client_accepts (n : nat) : Event := ClientReady EPOLLOUT (silence <| client_writes := [Wrote n] |>).

Definition upstream_sends (data : bytes) (a : Answers) : Event :=
  UpstreamReady EPOLLIN (a <| upstream_reads := [ReadData data] |>).

(** The upstream is reached at once, takes all it is sent and answers. *)
Definition upstream_upgrades (early : bytes) : Answers :=
  silence <| connects := [inr [Connected]] |> <| upstream_writes := [Wrote 1000%nat] |>
    <| upstream_reads := [ReadData (upgrade_answer ++ early)] |> <| waits := [true; true; true] |>.

Definition upstream_accepts : Answers :=
  silence <| connects := [inr [Connected]] |> <| upstream_writes := [Wrote 1000%nat] |>.

Abbreviation accept := (reset 5 3 example_config false 0 (str "10.0.0.1") example_server).

(** The state after some events, unless one of them throws or closes. *)
Fixpoint drive (events : list Event) (s : Server) : option Server :=
  match events with
  | [] => Some s
  | e :: events' =>
      match event example_env e s with
      | (Ret _, s') => if bool_decide (phase_ (connection s) = ClientPhase.closed) then None else drive events' s'
      | _ => None
      end
  end.

Definition driven (events : list Event) : Server := default example_server (drive events accept.2).

(** A relay with two bytes on their way to the client. *)
Definition relayed : list Event := [client_sends upgrade_request (upstream_upgrades (str "hi")); client_accepts 1000].

Example get_is_answered :
  let s := driven [client_sends get_request silence; client_accepts 1000] in
  phase_ (connection s) = ClientPhase.reading /\ requests_served_ (connection s) = 1 /\
  starts_with (client_out s) (str "HTTP/1.1 404 Not Found") = true.
Proof. vm_compute. auto. Qed.

Example upgrade_is_relayed :
  let s := driven relayed in
  phase_ (connection s) = ClientPhase.websocket_proxy /\
  starts_with (client_out s) (str "HTTP/1.1 101 Switching Protocols") = true /\
  websocket_proxy_upstream_to_client_ (connection s) = str "hi".
Proof. vm_compute. auto. Qed.

Example request_is_proxied :
  let s := driven [client_sends proxied_request upstream_accepts;
                   UpstreamReady EPOLLIN (silence <| upstream_reads := [ReadData upstream_response; ReadEnd] |>);
                   client_accepts 1000] in
  phase_ (connection s) = ClientPhase.reading /\ starts_with (upstream_out s) (str "GET /data HTTP/1.1") = true /\
  starts_with (client_out s) (str "HTTP/1.1 200 OK") = true /\ open_fds s = {[5]}.
Proof. vm_compute. auto. Qed.
