(* ===== verification/Halting.v ===== *)
(** * Halting: every event handler returns

    The handlers of a connection run on whatever the client and the upstreams
    send.  Each of them ends, in every state, with one exception: the decoders
    of chunked bodies, whose cursor wraps around for chunk sizes near [2^64]
    ([Http1Frame.chunked_wrap_around]). *)

From S2P Require Import Prelude Text Numbers Http2Frame Hpack Request Http1Frame Response StaticFiles Handler BodyStream Http2Session Waf VirtualHost ReverseProxy Config ConfigFacts Security WebSocket State Connection ProxyExchange WebSocketProxy Reactor ConnectionFacts ProxyFacts Scenarios.

(** ** HTTP/2 *)

(** Every representation moves the offset, in any state of the decoder. *)
Lemma decode_representation_moves d b offset seen d' h o :
  decode_representation d b offset seen = Ret (d', h, o) -> (offset < o <= length b)%nat.
Proof.
  unfold decode_representation. split_ifs.
  - intros ([i o1] & D & (e & _ & [= <- <- <-])%bind_Ret)%bind_Ret. by apply decode_integer_ok in D as [_ D].
  - intros (_ & _ & ([s o1] & D & [= <- <- <-])%bind_Ret)%bind_Ret. by apply decode_integer_ok in D as [_ D].
  - intros ([e o1] & D & [= <- <- <-])%bind_Ret. by apply decode_literal_ok in D.
  - intros ([e o1] & D & [= <- <- <-])%bind_Ret. by apply decode_literal_ok in D.
Qed.

Lemma settles_decode_loop fuel d b offset acc seen :
  (length b - offset <= fuel)%nat -> settles (decode_loop fuel d b offset acc seen).2.
Proof.
  revert d offset acc seen. induction fuel as [|fuel IH]; intros d offset acc seen Hf; cbn [decode_loop];
    destruct (Nat.leb_spec (length b) offset); try done; [lia|].
  destruct (decode_representation d b offset seen) as [[[d' h] o]| |] eqn:R; [|done|by apply decode_representation_settles in R].
  apply decode_representation_moves in R. destruct h; apply IH; lia.
Qed.

Lemma settles_header_block d b : settles (decode_header_block d b).2.
Proof. apply settles_decode_loop. lia. Qed.

Lemma settles_frame_string f : settles (frame_string f).
Proof. unfold frame_string, serialize_frame. auto with settles. Qed.
#[export] Hint Resolve settles_frame_string settles_header_block : settles.

Lemma settles_goaway e d : settles (goaway_frame e d).
Proof. apply settles_frame_string. Qed.
Lemma settles_window_update i n : settles (window_update_frame i n).
Proof. apply settles_frame_string. Qed.
Lemma settles_settings_frame ack : settles (settings_frame ack).
Proof. apply settles_frame_string. Qed.
Lemma settles_rst_stream i e : settles (rst_stream_frame i e).
Proof. apply settles_frame_string. Qed.
Lemma settles_ping p ack : settles (ping_frame p ack).
Proof. apply settles_frame_string. Qed.
Lemma settles_data i p e : settles (data_frame i p e).
Proof. apply settles_frame_string. Qed.
#[export] Hint Resolve settles_goaway settles_window_update settles_settings_frame settles_rst_stream settles_ping settles_data : settles.

Section session.
Context `{MapOrder bytes}.

Lemma settles_settings p : settles (parse_settings_payload p).
Proof using. unfold parse_settings_payload. auto with settles. Qed.

Lemma settles_fail_connection e d s : settles (fail_connection e d s).2.
Proof using. cbn [fail_connection snd]. auto with settles. Qed.
Lemma settles_reset_result i e s : settles (reset_stream_result i e s).2.
Proof using. cbn [reset_stream_result snd]. auto with settles. Qed.

Lemma settles_complete_stream i s : settles (complete_stream i s).2.
Proof using. unfold complete_stream. destruct (_ !! i); [done|apply settles_reset_result]. Qed.

Lemma settles_decode_headers i e block s : settles (decode_headers i e block s).2.
Proof using.
  unfold decode_headers. pose proof (settles_header_block (decoder_ s) block) as D.
  destruct (decode_header_block (decoder_ s) block) as [d [fields|e'|]]; cbn [snd] in D; [| |done].
  - destruct (headers_received _); [apply settles_reset_result|]. cbv zeta.
    destruct e; [apply settles_complete_stream|done].
  - pose proof (settles_reset_result i error_compression (set_decoder d s)) as R.
    destruct (reset_stream_result _ _ _) as [s' r]. cbn [snd] in *. auto with settles.
Qed.

#[local] Hint Resolve settles_fail_connection settles_reset_result settles_complete_stream settles_decode_headers : settles.

Lemma settles_handle_headers f m s : settles (handle_headers_frame f m s).2.
Proof using. unfold handle_headers_frame. cbv zeta. split_ifs; auto with settles; done. Qed.

Lemma settles_handle_continuation f m s : settles (handle_continuation_frame f m s).2.
Proof using. unfold handle_continuation_frame. cbv zeta. split_ifs; auto with settles; done. Qed.

(** The tail of [handle_data_frame], for any window updates. *)
Lemma settles_data_result i (updates : outcome bytes) e s :
  settles updates ->
  settles (match updates with
           | Raise what => (s, Raise what)
           | Timeout => (s, Timeout)
           | Ret window_updates =>
               if e : bool then
                 let '(s, r) := complete_stream i s in
                 (s, result ← r;
                     mret (Http2Session.mk_result (window_updates ++ output result) (keep_connection result)
                             (Http2Session.close_now result) (completed_stream result) (error_response result)
                             (error_stream_id result) (warning result)))
               else (s, mret (output_result window_updates))
           end).2.
Proof using.
  intros U. destruct updates as [w|what|]; [|done..]. destruct e; [|done].
  pose proof (settles_complete_stream i s) as C. destruct (complete_stream i s) as [s' r]. cbn [snd] in *. auto with settles.
Qed.

Lemma settles_handle_data f m s : settles (handle_data_frame f m s).2.
Proof using.
  unfold handle_data_frame. cbv zeta. destruct (streams_ s !! _) as [stream|]; [|auto with settles].
  destruct (negb _); [auto with settles|]. destruct (bool_decide _); [auto with settles|].
  destruct (data_payload f) as [p|]; [|auto with settles]. destruct (_ || _); [auto with settles|].
  destruct (_ <? _); [auto with settles|]. destruct p as [|x p]; apply settles_data_result; auto with settles.
Qed.

#[local] Hint Resolve settles_handle_headers settles_handle_continuation settles_handle_data : settles.

Lemma settles_handle_frame f m s : settles (handle_frame f m s).2.
Proof using.
  unfold handle_frame. cbv zeta.
  match goal with |- context [if ?c then _ else _] => destruct c end; [auto with settles|].
  destruct (frame_type (type f)) as [[]|]; auto with settles.
  all: repeat case_match; cbn [snd]; auto with settles; try done.
  match goal with P : parse_settings_payload _ = Timeout |- _ => by apply settles_settings in P end.
Qed.

Lemma parse_frame_moves b m : Http2Frame.ok (parse_frame b m) = true -> (0 < Http2Frame.consumed (parse_frame b m))%nat.
Proof using. unfold parse_frame. split_ifs; cbn [Http2Frame.ok Http2Frame.consumed]; (discriminate || lia). Qed.

Lemma settles_process_loop fuel m b s :
  (length b <= fuel)%nat -> settles (process_loop fuel m b s).2.
Proof using.
  revert b s. induction fuel as [|fuel IH]; intros b s Hf; cbn [process_loop];
    destruct b as [|x b]; cbn [length] in Hf; try (rewrite andb_false_r; done); [lia|].
  destruct (_ && _); [|done]. cbv zeta. destruct (_ <? _).
  { pose proof (settles_fail_connection error_enhance_your_calm "HTTP/2 frame buffer exceeded Rimau request limit" s).
    by destruct (fail_connection _ _ _). }
  destruct (Http2Frame.incomplete _); [done|]. destruct (Http2Frame.ok _) eqn:Ok; cbn [negb].
  - apply parse_frame_moves in Ok. pose proof (settles_handle_frame (Http2Frame.frame (parse_frame (x :: b) default_max_frame_size)) m s) as F.
    destruct (handle_frame _ _ _) as [s' [r|e|]]; [|done..]. destruct (has_result r); [done|].
    apply IH. rewrite length_drop. cbn [length]. lia.
  - match goal with |- context [fail_connection ?a ?b ?c] => pose proof (settles_fail_connection a b c) end.
    by destruct (fail_connection _ _ _).
Qed.

Lemma settles_process_input b m s : settles (process_input b m s).2.
Proof using. by apply settles_process_loop. Qed.

Lemma settles_accept_preface b m h2 allowed s : settles (accept_preface b m h2 allowed s).2.
Proof using.
  assert (R : forall e d, settles (reject_preface e d)) by (intros; unfold reject_preface; auto with settles).
  unfold accept_preface. cbv zeta. split_ifs; cbn [snd]; auto with settles.
  all: match goal with P : parse_settings_payload _ = Timeout |- _ => by apply settles_settings in P end.
Qed.

Lemma settles_body_frames fuel i b : (length b <= fuel)%nat -> settles (body_frames fuel i b).
Proof using.
  revert b; induction fuel as [|fuel IH]; intros b Hf; destruct b as [|x b]; cbn [body_frames]; try done;
    cbn [length] in Hf; [lia|].
  cbv zeta. apply settles_bind; [auto with settles|]. intros f _. apply settles_bind; [|done].
  apply IH. rewrite length_drop. cbn [length].
  assert (1 <= Z.to_nat default_max_frame_size)%nat by (apply Nat.leb_le; vm_compute; reflexivity). lia.
Qed.

Lemma settles_encode_integer v n m : settles (hpack_encode_integer v n m).
Proof using. unfold hpack_encode_integer. auto 20 with settles. Qed.

Lemma settles_encode_block fields : settles (hpack_encode_header_block fields).
Proof using.
  assert (S : forall v, settles (hpack_encode_string v)).
  { intros v. unfold hpack_encode_string. pose proof settles_encode_integer. auto 20 with settles. }
  unfold hpack_encode_header_block. pose proof settles_encode_integer.
  assert (F : forall f, settles (encode_field f)) by (intros f; unfold encode_field; auto 20 with settles).
  auto 20 with settles.
Qed.

Lemma settles_serialize_response i r mode o : settles (serialize_response i r mode o).
Proof using.
  unfold serialize_response. cbv zeta. apply settles_bind.
  - unfold headers_frame. pose proof settles_encode_block. auto with settles.
  - intros h _. destruct (_ || _); [done|]. apply settles_bind; [by apply settles_body_frames|done].
Qed.
End session.

(** ** WebSockets *)

Lemma settles_websocket_loop fuel m s :
  (length (ws_input s) <= fuel)%nat -> settles (websocket_loop fuel m s).
Proof.
  revert s. induction fuel as [|fuel IH]; intros s Hf; cbn [websocket_loop];
    destruct (Nat.ltb_spec (length (ws_input s)) 2); try done; [lia|].
  cbv zeta. destruct (_ || _); [done|]. destruct (frame_length (ws_input s)) as [[n cursor]|]; [|done].
  destruct (_ || _); [done|].
  assert (Next : forall s', ws_input s' = drop (cursor + 4 + Z.to_nat n) (ws_input s) -> settles (websocket_loop fuel m s')).
  { intros s' E. apply IH. rewrite E, length_drop. lia. }
  split_ifs; (done || by apply Next).
Qed.

Lemma settles_websocket_frames m s : settles (WebSocket.process_websocket_frames m s).
Proof. by apply settles_websocket_loop. Qed.

(** ** Where a decoder may not end *)

Definition endless_client (s : Server) : Prop :=
  exists n, decode_chunked_body (drop n (request_buffer_ (connection s))) = Timeout.

Definition endless_upstream (raw : bytes) : Prop := parse_reverse_proxy_upstream_response raw = Timeout.

(** What the state holds when a handler does not return: a chunked body that
    the decoder does not get through, sent by the client or by an upstream - to
    the event loop, or in the blocking exchange of an HTTP/2 request. *)
Definition hung (s : Server) : Prop :=
  endless_client s \/
  endless_upstream (reverse_proxy_response_buffer_ (connection s)) \/
  exists turn text, (raw ← exchange (proxy_turns s turn) text; parse_reverse_proxy_upstream_response raw) = Timeout.

Definition halts {A} (m : Handle A) : Prop := forall s, (m s).1 = Timeout -> hung (m s).2.

Lemma halts_ret {A} (a : A) : halts (mret a).
Proof. by intros s. Qed.
Lemma halts_throw {A} e : halts (@throw Server A e).
Proof. by intros s. Qed.
Lemma halts_get {T} (f : Server -> T) : halts (get f).
Proof. by intros s. Qed.
Lemma halts_modify f : halts (modify f).
Proof. by intros s. Qed.
Lemma halts_call {A} (o : outcome A) : settles o -> halts (call o).
Proof. by intros N s E. Qed.
Lemma halts_shared {A} (f : Server -> A * Server) : halts (shared f).
Proof. intros s. unfold shared. by destruct (f s). Qed.
Lemma halts_now : halts now.
Proof. by intros s. Qed.
Lemma halts_ask {X} (q : Answers -> list X) `{!Update q} : halts (ask q).
Proof. by intros s. Qed.
Lemma halts_take_all {X} (q : Answers -> list X) `{!Update q} : halts (take_all q).
Proof. by intros s. Qed.

Lemma halts_bind {A B} (m : Handle A) (f : A -> Handle B) : halts m -> (forall a, halts (f a)) -> halts (m ≫= f).
Proof.
  intros Hm Hf s. specialize (Hm s). unfold mbind, state_bind. destruct (m s) as [[a|e|] s']; cbn in *; [apply Hf|done|auto].
Qed.

Lemma halts_try {A} (m : Handle A) h : halts m -> (forall e, halts (h e)) -> halts (try_catch m h).
Proof.
  intros Hm Hh s. specialize (Hm s). unfold try_catch. destruct (m s) as [[a|e|] s']; cbn in *; [done|apply Hh|auto].
Qed.

(** A call that may not settle, on the field it was given. *)
Lemma halts_field_call {T A B} (f : ClientConnection -> T) (g : T -> Handle A) (h : T -> A -> Handle B) :
  (forall s, (g (f (connection s)) s).1 = Timeout -> hung (g (f (connection s)) s).2) ->
  (forall x a, halts (h x a)) -> halts (x ← field f; a ← g x; h x a).
Proof.
  intros Hg Hh s. unfold field, mbind, state_bind, get. specialize (Hg s).
  destruct (g _ s) as [[a|e|] s']; cbn in *; [apply Hh|done|auto].
Qed.

Create HintDb halts.
#[export] Hint Resolve halts_ret halts_throw halts_get halts_modify halts_shared halts_now halts_ask halts_take_all : halts.
#[export] Hint Extern 1 (halts (field _)) => apply halts_get : halts.
#[export] Hint Extern 1 (halts (assign _ _)) => apply halts_modify : halts.
#[export] Hint Extern 1 (halts (put_back _ _)) => apply halts_modify : halts.
#[export] Hint Extern 1 (halts (in_phase _)) => apply halts_get : halts.
#[export] Hint Extern 1 (halts the_config) => apply halts_get : halts.
#[export] Hint Extern 1 (halts (call _)) => apply halts_call; auto with settles nocore : halts.

Ltac head_of m := lazymatch m with ?f _ => head_of f | _ => m end.

(** One step: through binds and branches, and into definitions that no lemma
    covers. *)
Ltac halt_step :=
  cbv beta zeta;
  lazymatch goal with
  | |- halts (mbind _ _) => apply halts_bind; [|intros ?]
  | |- halts (try_catch _ _) => apply halts_try; [|intros ?]
  | |- halts (if ?c then _ else _) => destruct c
  | |- halts (match ?c with _ => _ end) => destruct c
  | |- halts ?m => first [ solve [auto with halts nocore] | let h := head_of m in unfold h ]
  end.
Ltac halt := repeat halt_step.

Section handlers.
Context `{MapOrder bytes, MapOrder (list bytes)} (env : Environment).

Lemma halts_rate_limited : halts rate_limited.
Proof using. halt. Qed.
Lemma halts_close_now : halts close_now.
Proof using. halt. Qed.
Lemma halts_set_response r mode k : halts (set_response r mode k).
Proof using. halt. Qed.
Lemma halts_update_events : halts update_client_epoll_events.
Proof using. halt. Qed.
#[local] Hint Resolve halts_rate_limited halts_close_now halts_set_response halts_update_events : halts.

(** ** The settings *)

Lemma settles_upstreams_for r c : settles (reverse_proxy_upstreams_for_request r c).
Proof using. unfold reverse_proxy_upstreams_for_request. pose proof settles_virtual_host_rules. settle. Qed.

Lemma settles_proxy_settings c : settles (reverse_proxy_settings c).
Proof using. unfold reverse_proxy_settings, parse_reverse_proxy_load_balancing_policy. settle. Qed.

Lemma settles_inspect_waf files c r : settles (inspect_waf files c r).
Proof using.
  unfold inspect_waf, waf_settings, inspect_request, collect_targets.
  pose proof settles_waf_overrides. pose proof body_text_settles. settle.
Qed.
#[local] Hint Resolve settles_upstreams_for settles_proxy_settings settles_inspect_waf settles_virtual_host_rules
  settles_serialize_response settles_websocket_frames settles_process_body : settles.

(** ** The reverse proxy *)

Lemma halts_start_next : halts (start_next_reverse_proxy_attempt env).
Proof using.
  intros s E. exfalso. revert E. unfold start_next_reverse_proxy_attempt, field, mbind, state_bind, get.
  refine (proj1 (steady_start_next env _ (remaining (connection s)) _ s _)); [unfold remaining; lia|done].
Qed.
#[local] Hint Resolve halts_start_next : halts.

Lemma halts_fail_attempt : halts (fail_reverse_proxy_attempt env).
Proof using. unfold fail_reverse_proxy_attempt. halt. Qed.
#[local] Hint Resolve halts_fail_attempt : halts.

Lemma halts_flush_request_loop results : halts (flush_request_loop (start_next_reverse_proxy_attempt env) results).
Proof using. induction results as [|r results IH]; cbn [flush_request_loop]; halt; exact IH. Qed.
#[local] Hint Resolve halts_flush_request_loop : halts.

Lemma halts_finish_proxy_response : halts (finish_reverse_proxy_response env).
Proof using.
  apply halts_try; [|intros; halt]. apply (halts_field_call reverse_proxy_response_buffer_); [|intros; halt].
  intros s. unfold try_catch, call, mbind, state_bind. cbn.
  destruct (parse_reverse_proxy_upstream_response _) as [r|e|] eqn:E; cbn; [done|done|]. intros _. right. by left.
Qed.
#[local] Hint Resolve halts_finish_proxy_response : halts.

Lemma halts_read_response_loop results : halts (read_response_loop env results).
Proof using. induction results as [|r results IH]; cbn [read_response_loop]; halt; exact IH. Qed.
#[local] Hint Resolve halts_read_response_loop : halts.

Lemma halts_handle_proxy revents : halts (handle_reverse_proxy_upstream env revents).
Proof using. halt. Qed.

Lemma halts_try_proxy r k : halts (try_start_reverse_proxy env r k).
Proof using.
  unfold try_start_reverse_proxy. apply halts_bind; [halt|]. intros config.
  pose proof (settles_upstreams_for r config) as S. destruct (reverse_proxy_upstreams_for_request r config) as [[ups|]|e|]; [halt..|done].
Qed.
#[local] Hint Resolve halts_handle_proxy halts_try_proxy : halts.

(** ** The WebSocket proxy *)

Lemma halts_connect_loop items e : halts (websocket_connect_loop items e).
Proof using. revert e; induction items as [|i items IH]; intros e; cbn [websocket_connect_loop]; halt; apply IH. Qed.
Lemma halts_tls_loop verify results : halts (websocket_tls_loop verify results).
Proof using. induction results as [|r results IH]; cbn [websocket_tls_loop]; halt; apply IH. Qed.
Lemma halts_websocket_write_loop results payload : halts (websocket_write_loop results payload).
Proof using.
  revert payload; induction results as [|r results IH]; intros payload; cbn [websocket_write_loop]; halt; apply IH.
Qed.

Lemma settles_split_handshake b : settles (split_websocket_proxy_handshake_buffer b).
Proof using. unfold split_websocket_proxy_handshake_buffer. settle. Qed.
Lemma settles_upgrade_lines lines u : settles (upgrade_header_lines lines u).
Proof using. revert u; induction lines as [|l lines IH]; intros u; cbn [upgrade_header_lines]; settle; apply IH. Qed.
Lemma settles_handshake_headers raw : settles (parse_websocket_proxy_handshake_headers raw).
Proof using. unfold parse_websocket_proxy_handshake_headers. pose proof settles_upgrade_lines. settle. Qed.
#[local] Hint Resolve settles_split_handshake settles_handshake_headers : settles.

Lemma halts_websocket_read_loop results b : halts (websocket_read_loop results b).
Proof using. revert b; induction results as [|r results IH]; intros b; cbn [websocket_read_loop]; halt; apply IH. Qed.

Lemma halts_flush_relay_client results :
  halts (flush_relay_loop websocket_proxy_upstream_to_client_ websocket_proxy_upstream_to_client_offset_ ssl_
           client_writes websocket_proxy_client_extra_events_ client_out results).
Proof using. induction results as [|r results IH]; cbn [flush_relay_loop]; halt; apply IH. Qed.
Lemma halts_flush_relay_upstream results :
  halts (flush_relay_loop websocket_proxy_client_to_upstream_ websocket_proxy_client_to_upstream_offset_
           websocket_upstream_tls_ upstream_writes websocket_proxy_upstream_extra_events_ upstream_out results).
Proof using. induction results as [|r results IH]; cbn [flush_relay_loop]; halt; apply IH. Qed.
#[local] Hint Resolve halts_connect_loop halts_tls_loop halts_websocket_write_loop halts_websocket_read_loop
  halts_flush_relay_client halts_flush_relay_upstream : halts.

Lemma halts_read_relay_client : halts read_websocket_proxy_client.
Proof using.
  unfold read_websocket_proxy_client. apply halts_bind; [halt|]. intros results.
  induction results as [|r results IH]; cbn [read_relay_loop]; halt; apply IH.
Qed.
Lemma halts_read_relay_upstream : halts read_websocket_proxy_upstream.
Proof using.
  unfold read_websocket_proxy_upstream. apply halts_bind; [halt|]. intros results.
  induction results as [|r results IH]; cbn [read_relay_loop]; halt; apply IH.
Qed.
#[local] Hint Resolve halts_read_relay_client halts_read_relay_upstream : halts.

Lemma halts_start_relay r u settings early : halts (start_relay r u settings early).
Proof using. halt. Qed.
#[local] Hint Resolve halts_start_relay : halts.

Lemma halts_upstream_loop r settings early ups skipped attempted :
  halts (websocket_upstream_loop r settings early ups skipped attempted).
Proof using.
  revert skipped attempted; induction ups as [|u ups IH]; intros skipped attempted; cbn [websocket_upstream_loop]; halt; apply IH.
Qed.
#[local] Hint Resolve halts_upstream_loop : halts.

Lemma halts_try_relay r : halts (try_start_websocket_proxy r).
Proof using.
  unfold try_start_websocket_proxy. apply halts_bind; [halt|]. intros config.
  pose proof (settles_upstreams_for r config) as S. destruct (reverse_proxy_upstreams_for_request r config) as [[ups|]|e|]; [halt..|done].
Qed.
#[local] Hint Resolve halts_try_relay : halts.

Lemma halts_relay_client revents : halts (handle_websocket_proxy_client revents).
Proof using. halt. Qed.
Lemma halts_relay_upstream revents : halts (handle_websocket_proxy_upstream revents).
Proof using. halt. Qed.
#[local] Hint Resolve halts_relay_client halts_relay_upstream : halts.

(** ** Dispatch *)

Lemma try_upstream_endless files r u a :
  try_upstream files r u a = Timeout ->
  exists text, (raw ← exchange a text; parse_reverse_proxy_upstream_response raw) = Timeout.
Proof using.
  unfold try_upstream. destruct (build_reverse_proxy_upstream_request files r u) as [text|e|] eqn:B; [by exists text|done|].
  exfalso. revert B. unfold build_reverse_proxy_upstream_request. apply settles_bind; [apply body_text_settles|done].
Qed.

Lemma proxy_loop_endless files r settings ups attempts turn breakers skipped attempted :
  proxy_loop files r settings ups attempts turn breakers skipped attempted = Timeout ->
  exists turn text, (raw ← exchange (attempts turn) text; parse_reverse_proxy_upstream_response raw) = Timeout.
Proof using.
  revert turn breakers skipped attempted; induction ups as [|u ups IH]; intros turn breakers skipped attempted; cbn [proxy_loop].
  { by destruct (_ && _). }
  destruct (reverse_proxy_upstream_available _ _ _ _) as [[] m]; cbn [negb]; [|apply IH].
  destruct (try_upstream files r u (attempts turn)) as [x|e|] eqn:T; [done|apply IH|]. intros _.
  exists turn. by apply try_upstream_endless in T.
Qed.

Lemma halts_run_transaction r : halts (run_transaction env r).
Proof using.
  unfold run_transaction. apply halts_bind; [halt|]. intros config. apply halts_bind; [halt|]. intros rules.
  apply halts_bind; [halt|]. intros settings s. unfold shared_call. cbv zeta.
  destruct (virtual_host_on_request _ _ _ _ _ _ _ _ _ _ _) as [[sink p]|e|] eqn:V; [done|done|]. intros _. cbn [snd].
  revert V. unfold virtual_host_on_request. destruct (create_handler _ _ _) as [root|ups|rule]; [done| |done].
  unfold reverse_proxy_on_request, reverse_proxy_response.
  destruct (ordered_reverse_proxy_upstreams _ _ _ _) as [ordered st].
  destruct (proxy_loop _ _ _ _ _ _ _ _ _) as [[response breakers]|e|] eqn:L; [done|done|]. intros _.
  right. right. by apply proxy_loop_endless in L.
Qed.
#[local] Hint Resolve halts_run_transaction : halts.

Lemma halts_dispatch r : halts (dispatch_request env r).
Proof using. halt. Qed.
#[local] Hint Resolve halts_dispatch : halts.

Lemma halts_process_request raw : halts (process_request env raw).
Proof using. halt. Qed.

Lemma halts_body_stream : halts (process_http1_body_stream env).
Proof using. halt. Qed.

Lemma halts_upgrade r n : halts (try_handle_websocket_upgrade env r n).
Proof using.
  assert (S : forall r, settles (websocket_handshake_response (env_sha1 env) r)).
  { clear r. intros r. unfold websocket_handshake_response, websocket_accept_key. settle. }
  unfold try_handle_websocket_upgrade. halt.
Qed.
#[local] Hint Resolve halts_process_request halts_body_stream halts_upgrade : halts.

(** ** HTTP/2 *)

Lemma halts_prior_knowledge : halts process_http2_prior_knowledge.
Proof using.
  unfold process_http2_prior_knowledge. do 2 (apply halts_bind; [halt|]; intros ?). destruct (_ && _); [halt|].
  do 4 (apply halts_bind; [halt|]; intros ?).
  match goal with |- context [accept_preface ?b ?m ?h ?al ?s] => pose proof (settles_accept_preface b m h al s) as S;
    destruct (accept_preface b m h al s) as [[session rest] result] end. cbn [snd] in S. halt.
Qed.

Lemma halts_dispatch_http2 i r prefix : halts (dispatch_http2_request env i r prefix).
Proof using. halt. Qed.
#[local] Hint Resolve halts_prior_knowledge halts_dispatch_http2 : halts.

Lemma halts_session_result result : halts (handle_http2_session_result env result).
Proof using. halt. Qed.

(** What [handle_http2_session_result] lets pass made no progress. *)
Definition no_progress (result : SessionResult) : bool :=
  bool_decide (output result = []) && negb (Http2Session.close_now result)
  && bool_decide (completed_stream result = None) && bool_decide (error_response result = None).

Lemma halts_bind_when {A B} (m : Handle A) (f : A -> Handle B) (P : A -> Prop) :
  halts m -> (forall s, match (m s).1 with Ret a => P a | _ => True end) -> (forall a, P a -> halts (f a)) -> halts (m ≫= f).
Proof using.
  intros Hm HP Hf s. specialize (Hm s). specialize (HP s). unfold mbind, state_bind.
  destruct (m s) as [[a|e|] s']; cbn in *; [by apply Hf|done|auto].
Qed.

Lemma session_result_stops result s :
  match (handle_http2_session_result env result s).1 with Ret b => b = true -> no_progress result = true | _ => True end.
Proof using.
  assert (Stop : forall (m : Handle unit) (P : Prop) s,
    match ((m ;; mret false) s).1 with Ret b => b = true -> P | _ => True end).
  { intros m P s0. unfold mbind, state_bind. by destruct (m s0) as [[a|e|] s']. }
  unfold handle_http2_session_result, no_progress. destruct (Http2Session.close_now result); [apply Stop|].
  destruct (error_response result) as [response|].
  - unfold mbind at 1, state_bind at 1. destruct (h2_response _ _ _ s) as [[text|e|] s']; [apply Stop|done..].
  - destruct (completed_stream result); [apply Stop|]. destruct (bool_decide (output result = [])); [done|apply Stop].
Qed.

Lemma halts_http2_frames : halts (process_http2_frames env).
Proof using.
  unfold process_http2_frames. cbn [http2_loop]. do 2 (apply halts_bind; [halt|]; intros ?).
  destruct (_ || _); [halt|]. do 2 (apply halts_bind; [halt|]; intros ?).
  match goal with |- context [process_input ?b ?m ?s] => pose proof (settles_process_input b m s) as S;
    destruct (process_input b m s) as [[session rest] result] end. cbn [snd] in S.
  do 2 (apply halts_bind; [halt|]; intros ?). apply halts_bind; [by apply halts_call|]. intros r.
  cbv zeta. eapply halts_bind_when; [apply halts_session_result|apply session_result_stops|].
  intros [] P; cbn [negb orb]; [|halt]. unfold no_progress in P. rewrite P by done. halt.
Qed.
#[local] Hint Resolve halts_http2_frames : halts.

(** ** Requests *)

Lemma frame_endless b m :
  next_http1_request_frame b m = Timeout -> exists n, decode_chunked_body (drop n b) = Timeout.
Proof using.
  unfold next_http1_request_frame. destruct (find CRLF2 b) as [header_end|]; [|by destruct (_ <? _)]. cbv zeta.
  destruct (negb _); [done|]. destruct (_ <? _); [done|]. destruct (parse_request _) as [req|]; [|done].
  destruct (chunked _); [|done]. unfold chunked_frame.
  destruct (decode_chunked_body _) as [d|e|] eqn:D; [|done|by eauto]. cbn [mbind outcome_bind].
  destruct (chunk_state d); split_ifs; done.
Qed.

Lemma halts_http1_frame : halts (process_http1_frame env).
Proof using.
  unfold process_http1_frame. apply halts_bind; [halt|]. intros config.
  apply (halts_field_call request_buffer_ (fun buffer => call (next_http1_request_frame buffer (Config.max_request_bytes config)))).
  - intros s E. left. unfold call in *. cbn [fst snd] in *. by apply frame_endless in E.
  - intros buffer frame. halt.
Qed.
#[local] Hint Resolve halts_http1_frame : halts.

Lemma halts_buffered_request : halts (process_buffered_request env).
Proof using. halt. Qed.
#[local] Hint Resolve halts_buffered_request : halts.

Lemma halts_read_request : halts (read_request env).
Proof using.
  unfold read_request. apply halts_bind; [halt|]. intros results.
  induction results as [|r results IH]; cbn [read_request_loop]; halt; apply IH.
Qed.

(** ** Writing, WebSockets and timeouts *)

Lemma halts_write_all extra finish : halts finish -> halts (write_all extra finish).
Proof using.
  intros F. unfold write_all. apply halts_bind; [halt|]. intros results.
  induction results as [|r results IH]; cbn [write_loop]; halt; first [apply IH|exact F].
Qed.

Lemma halts_flush_websocket : halts flush_websocket_writes.
Proof using. apply halts_write_all. halt. Qed.
#[local] Hint Resolve halts_read_request halts_flush_websocket : halts.

Lemma halts_read_websocket : halts read_websocket.
Proof using.
  unfold read_websocket. apply halts_bind; [halt|]. intros results.
  induction results as [|r results IH]; cbn [read_websocket_loop]; halt; apply IH.
Qed.
#[local] Hint Resolve halts_read_websocket : halts.

Lemma halts_write_response : halts (write_response env).
Proof using. apply halts_write_all. halt. Qed.
#[local] Hint Resolve halts_write_response : halts.

Lemma halts_expire t : halts (expire_if_timed_out env t).
Proof using. halt. Qed.

Lemma halts_handle revents : halts (handle env revents).
Proof using. halt. Qed.
Lemma halts_handle_upstream revents : halts (handle_upstream env revents).
Proof using. halt. Qed.
#[local] Hint Resolve halts_expire halts_handle halts_handle_upstream : halts.


End handlers.

#[export] Hint Resolve halts_handle halts_handle_upstream halts_expire : halts.

(** ** What it takes to hang *)







(** The first exception is real: one request of an unknown client stops a worker. *)
Definition looping_request : bytes :=
  message ["POST / HTTP/1.1"; "Host: other.test"; "Transfer-Encoding: chunked"; ""]%string ++ looping_body.

Example looping_request_hangs :
  bool_decide (phase_ (connection accept.2) = ClientPhase.reading) = true /\
  match event example_env (client_sends looping_request silence) accept.2 with
  | (Timeout, s) => bool_decide (request_buffer_ (connection s) = looping_request)
  | _ => false
  end = true.
Proof. split; vm_compute; reflexivity. Qed.
