(* ===== verification/ConnectionSpec.v ===== *)
(** * ConnectionSpec: what the event loop promises to a client

    The properties of a connection over its whole life: pooled connections,
    the invariant of every reachable state, the order of what is sent, the
    relay, admission and timeouts. *)

From S2P Require Import Prelude Text Numbers Request Http1Frame Response StaticFiles Handler BodyStream Waf VirtualHost ReverseProxy Http2Session Config Security WebSocket State Connection ProxyExchange WebSocketProxy Reactor ConnectionFacts ReactorFacts SocketFacts RelayFacts EventFacts Scenarios.

(** ** The pool *)

(** The descriptors that a connection holds are open, and different. *)
Record holding (s : Server) : Prop := {
  holding_unopened : closed_unopened s = [];
  holding_fd : fd_ (connection s) = -1 \/ (0 <= fd_ (connection s) /\ fd_ (connection s) ∈ open_fds s);
  holding_websocket : owned (websocket_upstream_fd_ (connection s)) s;
  holding_proxy : owned (reverse_proxy_upstream_fd_ (connection s)) s;
  holding_one : websocket_upstream_fd_ (connection s) = -1 \/ reverse_proxy_upstream_fd_ (connection s) = -1;
}.

Lemma closable_holding limit s : closable limit s -> holding s.
Proof. intros [L W Px One]. constructor; try done; [apply L|right; apply L]. Qed.

(** A connection as [prepare_for_pool] leaves it: new, but for the number of
    its worker and its HTTP/2 session. *)
Definition pooled (c : ClientConnection) : ClientConnection :=
  new_connection <| worker_id_ := worker_id_ c |> <| http2_session_ := Http2Session.reset (http2_session_ c) |>.

Lemma prepare_connection s : connection (prepare_for_pool s).2 = pooled (connection s) /\ (prepare_for_pool s).1 = Ret tt.
Proof.
  unfold prepare_for_pool, close_websocket_upstream, close_reverse_proxy_upstream, close_if_open, close_fd.
  unfold mbind, state_bind, field, get, assign, modify. cbn -[Z.leb].
  destruct (0 <=? _); cbn -[Z.leb]; (destruct (0 <=? _); cbn -[Z.leb]; (destruct (0 <=? _); cbn; done)).
Qed.

Lemma prepare_rest s :
  clock (prepare_for_pool s).2 = clock s /\ answers (prepare_for_pool s).2 = answers s.
Proof.
  unfold prepare_for_pool, close_websocket_upstream, close_reverse_proxy_upstream, close_if_open, close_fd.
  unfold mbind, state_bind, field, get, assign, modify. cbn -[Z.leb].
  destruct (0 <=? _); cbn -[Z.leb]; (destruct (0 <=? _); cbn -[Z.leb]; (destruct (0 <=? _); cbn; done)).
Qed.

(** The session of a pooled connection. *)
Definition session_of_pool (s : Server) : ServerSession := Http2Session.reset (http2_session_ (connection s)).

(** A connection object that served a client before behaves for the next
    one as a new object does: [prepare_for_pool] and [reset] leave no field of
    the earlier connection, whatever state it was in - except the size of the
    HPACK table, which an earlier HTTP/2 client may have changed. *)
Theorem pool_reuse_is_fresh fd epoll_fd config tls worker ip s :
  let used := reset fd epoll_fd config tls worker ip s in
  let fresh := reset fd epoll_fd config tls worker ip (s <| connection := new_connection |>) in
  used.1 = fresh.1 /\
  connection used.2 = (connection fresh.2) <| http2_session_ := session_of_pool s |> /\
  (session_of_pool s = new_session <->
   Hpack.max_table_size (decoder_ (http2_session_ (connection s))) = Hpack.max_table_size Hpack.new_decoder).
Proof.
  cbv zeta. unfold reset, mbind, state_bind.
  pose proof (prepare_connection s) as [C R]. pose proof (prepare_rest s) as [K A].
  pose proof (prepare_connection (s <| connection := new_connection |>)) as [C' R'].
  pose proof (prepare_rest (s <| connection := new_connection |>)) as [K' A'].
  destruct (prepare_for_pool s) as [o s1]. destruct (prepare_for_pool (s <| connection := new_connection |>)) as [o' s1'].
  cbn [fst snd] in *. subst o o'.
  assert (B : session_of_pool s = new_session <->
    Hpack.max_table_size (decoder_ (http2_session_ (connection s))) = Hpack.max_table_size Hpack.new_decoder).
  { unfold session_of_pool, Http2Session.reset, new_session, Hpack.reset. split.
    - by intros E%(f_equal (fun x => Hpack.max_table_size (decoder_ x))).
    - by intros ->. }
  unfold now, ask, modify, assign, throw. cbv [mret state_ret].
  revert C K A C' K' A'. destruct s1 as [c1 k1 ? ? ? a1], s1' as [c2 k2 ? ? ? a2].
  cbn [connection clock answers]. intros -> -> -> -> -> ->.
  destruct tls; [|by split_and!]. change (answers (s <| connection := new_connection |>)) with (answers s).
  cbn [answers fst snd update at_connection at_clock at_answers]. destruct (head (tls_setups (answers s))) as [[]|]; by split_and!.
Qed.

Record released_all (s s' : Server) : Prop := {
  all_released : open_fds s' = open_fds s ∖ descriptors (connection s);
  none_unopened : closed_unopened s' = [];
  none_sent : client_out s' = client_out s;
}.

Lemma elem_of_descriptors x c :
  x ∈ descriptors c <-> 0 <= x /\ (x = fd_ c \/ x = websocket_upstream_fd_ c \/ x = reverse_proxy_upstream_fd_ c).
Proof. unfold descriptors. rewrite elem_of_list_to_set, list_elem_of_filter. set_solver. Qed.

Lemma wp_close_if_open fd s :
  wp (close_if_open fd) (post (fun _ s' => released fd (fun c => c) s s') never) s.
Proof.
  unfold close_if_open. destruct (Z.leb_spec 0 fd); exec; cbv [post]; constructor; proj; try done.
  - set_solver.
  - intros [->|Hin]; [lia|]. by rewrite decide_True.
  - set_solver.
  - intros x Hx. split; [done|lia].
Qed.

Lemma wp_prepare_for_pool s : holding s -> wp prepare_for_pool (post (fun _ => released_all s) never) s.
Proof.
  intros [U F W Px One]. unfold prepare_for_pool.
  eapply wp_post_seq; [apply wp_close_websocket_upstream|]. intros [] s1 [C1 O1 U1 T1 R1].
  eapply wp_post_seq; [apply wp_close_reverse_proxy_upstream|]. intros [] s2 [C2 O2 U2 T2 R2].
  apply wp_bind, wp_get.
  eapply wp_post_seq; [apply wp_close_if_open|]. intros [] s3 [C3 O3 U3 T3 R3].
  exec. rewrite C1 in O2, U2, R2, C2. rewrite C2 in O3, U3, R3. revert O2 U2 R2 O3 U3 R3. proj. intros O2 U2 R2 O3 U3 R3.
  constructor; proj.
  - apply set_eq. intros x. rewrite elem_of_difference, elem_of_descriptors. split.
    + intros [[[H1 N1]%R1 N2]%R2 N3]%R3. split; [done|]. intros (Nn & [ -> | [ -> | -> ]]); naive_solver lia.
    + intros [H1 N]. apply O3, O2, O1; [..|done]; intros Nn ->; apply N; auto.
  - assert (K : fd_ (connection s) = -1 \/ fd_ (connection s) ∈ open_fds s2).
    { destruct F as [?|[Nn Hin]]; [auto|right]. apply O2, O1; [..|done].
      - destruct Px as [?|(? & ? & ?)]; lia.
      - destruct W as [?|(? & ? & ?)]; lia. }
    rewrite U3, U2, U1; [done| | |done].
    + destruct W as [?|(? & ? & ?)]; auto.
    + destruct Px as [?|(? & Hin & ?)]; [auto|right]. apply O1; [lia|done].
  - congruence.
Qed.

Lemma wp_prepare s :
  holding s -> wp prepare_for_pool (post (fun _ s' => connection s' = pooled (connection s) /\ released_all s s') never) s.
Proof.
  intros G%wp_prepare_for_pool. unfold wp in *. destruct (prepare_connection s) as [C R]. rewrite R in *. by split.
Qed.

Lemma prepare_descriptors s : holding s -> released_all s (prepare_for_pool s).2.
Proof. intros W%wp_prepare_for_pool. unfold wp in W. by rewrite (proj2 (prepare_connection s)) in W. Qed.

Section lifetime.
Context (limit : Z) `{MapOrder bytes, MapOrder (list bytes)} (env : Environment).

(** A connection that was just accepted. *)
Lemma accepted_wf P s :
  live limit s -> P `prefix_of` client_out s -> http1_body_stream_ (connection s) = None ->
  http2_active_ (connection s) = false -> no_response (connection s) -> no_relay (connection s) ->
  no_proxy (connection s) -> requests_served_ (connection s) = 0 ->
  phase_ (connection s) = ClientPhase.tls_handshake \/ phase_ (connection s) = ClientPhase.reading -> wf limit P s.
Proof using.
  intros L Pr St H2 R W Px Sv Ph. assert (Si : silent limit P s) by by constructor.
  assert (B : budget limit (connection s)) by by left.
  destruct Ph as [Ph|Ph]; [unfold wf; by rewrite Ph|]. apply reading_wf. constructor; try done. unfold plain_http. by rewrite St.
Qed.

Lemma wp_reset s fd epoll_fd config tls worker ip :
  holding s -> 0 <= fd -> fd ∈ open_fds s -> fd ∉ descriptors (connection s) -> config_ok limit config ->
  wp (reset fd epoll_fd config tls worker ip) (post (fun _ => wf limit (client_out s)) anything) s.
Proof using.
  intros Hd Nn Hin N Ok. unfold reset.
  eapply wp_post_seq; [by apply wp_assume_never, wp_prepare|]. intros [] s1 (C & [O U T]).
  assert (Fd : fd ∈ open_fds s1) by (rewrite O; set_solver).
  apply wp_bind, wp_now. apply wp_bind, wp_modify. unfold pooled in C.
  assert (Done : forall b a, wf limit (client_out s) (s1 <| clock := fun n => clock s1 (S n) |> <| answers := a |>
    <| connection ::= fun c => c
      <| fd_ := fd |> <| epoll_fd_ := epoll_fd |> <| config_ := Some config |>
      <| tls_context_holder_ := tls |> <| worker_id_ := worker |> <| client_ip_ := ip |>
      <| security_state_ := true |>
      <| phase_ := if tls then ClientPhase.tls_handshake else ClientPhase.reading |>
      <| events_ := EPOLLIN |> <| last_activity_ := clock s1 0%nat |> <| request_started_at_ := 0 |>
      <| body_started_at_ := 0 |> <| waiting_for_body_ := false |> <| ssl_ := b |> |>)).
  { intros b a. apply accepted_wf; unfold no_proxy; proj; rewrite ?C; try done.
    - constructor; proj; rewrite ?C; try done; [by eexists|]. cbn. destruct Ok. lia.
    - by rewrite T.
    - by destruct tls; [left|right]. }
  destruct tls; [exec|by apply (Done (ssl_ (connection s1)) (answers s1))].
  pose proof (Done true ((answers s1) <| tls_setups ::= tail |>)) as D.
  destruct (head _) as [[e|]|]; exec; [done|exact D..].
Qed.

(** ** The states of a connection *)

(** A new object serves clients one after another: accepted, driven by events
    until it is closed, and reset for the next client.  An exception ends the
    worker, so only events that return are followed. *)
Inductive reachable : Server -> Prop :=
| reach_new s fd epoll_fd config tls worker ip s' :
    connection s = new_connection -> closed_unopened s = [] ->
    0 <= fd -> fd ∈ open_fds s -> config_ok limit config ->
    reset fd epoll_fd config tls worker ip s = (Ret tt, s') -> reachable s'
| reach_event s e s' :
    reachable s -> phase_ (connection s) <> ClientPhase.closed -> event_ok limit e ->
    event env e s = (Ret tt, s') -> reachable s'
| reach_again s others fd epoll_fd config tls worker ip s' :
    reachable s -> phase_ (connection s) = ClientPhase.closed ->
    0 <= fd -> fd ∈ others -> fd ∉ descriptors (connection s) -> config_ok limit config ->
    reset fd epoll_fd config tls worker ip (s <| open_fds ::= union others |>) = (Ret tt, s') -> reachable s'.

Lemma ending_holding s : ending limit s -> holding s.
Proof using. intros [[_ U F _] W Px]. constructor; [done|by right|by left..|by left]. Qed.

Lemma new_holding s : connection s = new_connection -> closed_unopened s = [] -> holding s.
Proof using. intros C U. constructor; rewrite ?C; [done|by left|by left..|by left]. Qed.

Lemma holding_more s others : holding s -> holding (s <| open_fds ::= union others |>).
Proof using.
  assert (Ow : forall fd, owned fd s -> owned fd (s <| open_fds ::= union others |>)).
  { intros fd [->|(Nn & Hin & N)]; [by left|right]. proj. set_solver. }
  intros [U F W Px One]. constructor; proj; auto. destruct F as [?|[? ?]]; [by left|right]. set_solver.
Qed.

Lemma wf_weaken P Q s : Q `prefix_of` P -> wf limit P s -> wf limit Q s.
Proof using.
  intros Pr. assert (Tr : forall x, P `prefix_of` x -> Q `prefix_of` x) by (intros x; by transitivity P).
  assert (Si : silent limit P s -> silent limit Q s) by (intros []; constructor; auto).
  unfold wf. destruct (phase_ (connection s)).
  - intros (S & W). split; auto.
  - intros []. constructor; auto.
  - intros []. constructor; auto.
  - intros []. constructor; auto.
  - intros []. constructor; auto.
  - intros [[]]. constructor; [constructor|..]; auto.
  - intros (? & ? & ?). split_and!; auto.
  - done.
Qed.

Lemma nothing_waits s : no_response (connection s) -> no_relay (connection s) -> promised s = client_out s.
Proof using.
  intros [R1 _ _ _ _] [_ R2 _]. unfold promised, rest_of_response, rest_of_relay. by rewrite R1, R2, !drop_nil, !app_nil_r.
Qed.

Lemma silent_promised P s : silent limit P s -> promised s = client_out s.
Proof using. intros []. by apply nothing_waits. Qed.

Lemma silent_all P s : silent limit P s -> silent limit (promised s) s.
Proof using. intros Si. rewrite (silent_promised P) by done. destruct Si. by constructor. Qed.

(** What is promised is all that the invariant can promise. *)
Lemma wf_promised P s :
  wf limit P s -> phase_ (connection s) <> ClientPhase.closed -> wf limit (promised s) s /\ P `prefix_of` promised s.
Proof using.
  unfold wf. intros W N. destruct (phase_ (connection s)); [..|done].
  - destruct W as (Si & W). split; [split; [by eapply silent_all|done]|]. rewrite (silent_promised P) by done. apply Si.
  - destruct W as [Ph Si B St]. split; [constructor; try done; by eapply silent_all|].
    rewrite (silent_promised P) by done. apply Si.
  - destruct W. by split; [constructor|].
  - destruct W. by split; [constructor|].
  - destruct W. by split; [constructor|].
  - destruct W as [[]]. rewrite nothing_waits by done. split; [|done]. constructor; [constructor|..]; done.
  - destruct W as (En & D & Pr). rewrite D. by split_and!.
Qed.

Lemma reachable_wf s : reachable s -> wf limit [] s.
Proof using.
  induction 1 as [s fd epoll_fd config tls worker ip s' C U Nn Hin Ok R|s e s' _ W N Ok R
    |s others fd epoll_fd config tls worker ip s' _ W Ph Nn Hin N Ok R].
  - eapply (wf_weaken (client_out s)); [apply prefix_nil|].
    exact (wp_run _ _ s _ _ (wp_reset s fd epoll_fd config tls worker ip
      (new_holding s C U) Nn Hin ltac:(by rewrite C) Ok) R).
  - exact (wp_run _ _ s _ _ (wp_event limit [] env e s Ok W N) R).
  - unfold wf in W. rewrite Ph in W. eapply (wf_weaken _ []); [apply prefix_nil|].
    refine (wp_run _ _ _ _ _ (wp_reset _ fd epoll_fd config tls worker ip _ Nn _ _ Ok) R).
    + by apply holding_more, ending_holding.
    + proj. set_solver.
    + by proj.
Qed.

(** What holds of a connection in every state. *)
Record sound (s : Server) : Prop := {
  sound_wf : wf limit [] s;
  sound_once : closed_unopened s = [];
  sound_open : descriptors (connection s) ⊆ open_fds s;
  sound_one_upstream :
    websocket_upstream_fd_ (connection s) = -1 \/ reverse_proxy_upstream_fd_ (connection s) = -1;
  sound_served : 0 <= requests_served_ (connection s) <= limit;
  sound_offset : phase_ (connection s) = ClientPhase.writing ->
    (response_offset_ (connection s) <= length (response_buffer_ (connection s)))%nat;
  sound_written : phase_ (connection s) = ClientPhase.reverse_proxy ->
    reverse_proxy_stage_ (connection s) = ReverseProxyStage.reading_response ->
    reverse_proxy_upstream_request_offset_ (connection s) = length (reverse_proxy_upstream_request_ (connection s));
}.

Lemma wf_holding P s : wf limit P s -> live limit s /\ holding s.
Proof using.
  intros W. destruct (decide (phase_ (connection s) = ClientPhase.closed)) as [Ph|N].
  - unfold wf in W. rewrite Ph in W. split; [apply W|by apply ending_holding].
  - destruct (wf_closed_or limit P s W) as [|C]; [done|]. split; [apply C|by apply (closable_holding limit)].
Qed.

Lemma holding_open s : holding s -> descriptors (connection s) ⊆ open_fds s.
Proof using.
  intros [_ F W Px _] x (Nn & [ -> | [ -> | -> ] ])%elem_of_descriptors.
  - destruct F as [?|[? ?]]; [lia|done].
  - destruct W as [?|(? & ? & ?)]; [lia|done].
  - destruct Px as [?|(? & ? & ?)]; [lia|done].
Qed.

Lemma wf_sound s : wf limit [] s -> sound s.
Proof using.
  intros W. pose proof (wf_holding [] s W) as [L Hd]. constructor.
  - done.
  - apply Hd.
  - by apply holding_open.
  - apply Hd.
  - apply L.
  - intros Ph. unfold wf in W. rewrite Ph in W. apply W.
  - intros Ph. unfold wf in W. rewrite Ph in W. apply W.
Qed.

(** C4. In every state that a pooled connection object reaches, over any
    number of clients and whatever the sockets, [epoll] and the TLS library
    answer: the descriptors it holds are open, it has at most one upstream, it
    never closed a descriptor that was not open (none is closed twice), it
    answered at most as many requests as keep-alive allows, it never reads
    past the end of its output, and it reads an upstream's response only after
    the whole request was written.  Releasing it closes exactly the
    descriptors that it holds. *)
Theorem connection_invariant s :
  reachable s -> sound s /\ (prepare_for_pool s).1 = Ret tt /\ released_all s (prepare_for_pool s).2.
Proof using.
  intros R%reachable_wf. split; [by apply wf_sound|]. split; [apply prepare_connection|].
  apply prepare_descriptors, (wf_holding _ _ R).
Qed.

(** C5. Nothing that the client has been promised is lost, repeated or
    reordered: until the connection is closed, what was sent followed by what
    waits to be sent only grows at its end, whatever the events. *)
Theorem responses_in_order s e s' :
  reachable s -> event_ok limit e -> event env e s = (Ret tt, s') ->
  phase_ (connection s) <> ClientPhase.closed -> phase_ (connection s') <> ClientPhase.closed ->
  promised s `prefix_of` promised s'.
Proof using.
  intros R%reachable_wf Ok E N N'. apply wf_promised in R as [W _]; [|done].
  pose proof (wp_run _ _ s _ _ (wp_event limit _ env e s Ok W N) E) as W'. by apply (wf_promised _ s' W').
Qed.


(** ** The relay *)

Definition socket_event (e : Event) : bool :=
  match e with ClientReady _ _ | UpstreamReady _ _ => true | _ => false end.

Lemma wp_relay_event (I : Server -> Prop) e s :
  relay_keeps limit I -> socket_event e -> I s -> wp (event env e) (post (fun _ => or_closed limit I) anything) s.
Proof using.
  intros keeps Se W.
  pose proof (flushable_same _ _ _ _ _ _ (keeps_to_client limit I keeps)) as Same.
  pose proof (wp_close_open limit I keeps) as Close. pose proof (keeps_phase limit I keeps) as Phase.
  destruct e as [revents a|revents a|a|config|sec p turns fds]; try done; cbn [event]; apply wp_bind, wp_modify.
  all: assert (W1 : I (s <| answers := a |>)) by (by apply (Same s)).
  - apply (wp_post_seq _ _ (fun _ => or_closed limit I)).
    { unfold handle. exec. rewrite (Phase _ W1). destruct (hang_up revents); [by apply Close|].
      by apply (wp_handle_relay_client limit I keeps). }
    intros [] s1 C. unfold unless_closed. apply (wp_unless_closed limit I keeps); [done|by right|]. intros W2.
    unfold modify_client_events. exec.
    assert (W3 : I (s1 <| answers ::= update epoll_calls tail |>)) by (by apply (Same s1)).
    destruct (head _) as [[x|]|]; [|exec; left; by refine (Same _ _ _ W3)..].
    unfold handle. exec. rewrite (Phase _ W3). by apply Close.
  - unfold handle_upstream. exec. rewrite (Phase _ W1). destruct (hang_up revents); [by apply Close|].
    by apply (wp_handle_relay_upstream limit I keeps).
Qed.

(** C17. The WebSocket relay is a pair of bounded queues: whatever the two
    sockets do, what arrives from one side is sent to the other unchanged, in
    order and without loss, or waits in a buffer that never exceeds its limit;
    the only alternative is that the connection is closed. *)
Theorem relay_is_transparent s e s' :
  reachable s -> phase_ (connection s) = ClientPhase.websocket_proxy ->
  bounded waiting_for_client s -> bounded waiting_for_upstream s ->
  socket_event e -> event env e s = (Ret tt, s') ->
  phase_ (connection s') = ClientPhase.closed \/ flows s s'.
Proof using.
  intros R%reachable_wf Ph B1 B2 Se E. assert (W : relay_phase limit [] s) by (split; [done|]; unfold wf in R; by rewrite Ph in R).
  assert (F : flowing limit s s) by (split; [done|]; constructor; try done; exists []; by rewrite !app_nil_r).
  destruct (wp_run _ _ s _ _ (wp_relay_event _ e s (flowing_keeps limit s) Se F) E) as [[_ F']|[Ph' _]]; auto.
Qed.
End lifetime.

(** ** On concrete connections *)

Lemma drive_reachable limit events s s' :
  Forall (event_ok limit) events -> reachable limit example_env s -> drive events s = Some s' ->
  reachable limit example_env s'.
Proof.
  intros Ok; revert s; induction Ok as [|e events Ok1 Ok IH]; intros s R; cbn [drive]; [by intros [= <-]|].
  destruct (event example_env e s) as [[[]|x|] s1] eqn:E; [|done..]. case_bool_decide; [done|].
  intros D. eapply IH; [|exact D]. by apply (reach_event limit example_env s e).
Qed.

Lemma returned (r : outcome unit * Server) : r.1 = Ret tt -> r = (Ret tt, r.2).
Proof. destruct r as [o s]. cbn. by intros ->. Qed.

Lemma driven_reachable events :
  Forall (event_ok 100) events -> (if drive events accept.2 then true else false) = true ->
  reachable 100 example_env (driven events).
Proof.
  intros Ok D. unfold driven. destruct (drive events accept.2) as [s|] eqn:E; [|done]. cbn.
  apply (drive_reachable 100 events accept.2); [done| |exact E].
  assert (F : accept.1 = Ret tt) by (vm_compute; reflexivity).
  pose proof (returned accept F) as Acc.
  assert (K : http_keep_alive_max_requests example_config = 100) by (vm_compute; reflexivity).
  refine (reach_new 100 example_env example_server 5 3 example_config false 0 (str "10.0.0.1") accept.2 eq_refl eq_refl _ _ _ _).
  - lia.
  - change (5 ∈ ({[5]} : gset Z)). by apply elem_of_singleton.
  - unfold config_ok. rewrite K. lia.
  - exact Acc.
Qed.

Lemma relayed_reachable : reachable 100 example_env (driven relayed).
Proof. apply driven_reachable; [by repeat constructor|]. vm_compute. reflexivity. Qed.

Lemma connection_invariant_witness :
  reachable 100 example_env (driven relayed) /\ sound 100 (driven relayed) /\
  descriptors (connection (driven relayed)) = {[0; 5]} /\ open_fds (prepare_for_pool (driven relayed)).2 = ∅.
Proof.
  destruct (connection_invariant 100 example_env (driven relayed) relayed_reachable) as (S & _ & R).
  assert (D : descriptors (connection (driven relayed)) = {[0; 5]}) by (vm_compute; reflexivity).
  assert (F : open_fds (driven relayed) = {[0; 5]}) by (vm_compute; reflexivity).
  split; [exact relayed_reachable|]. split; [exact S|]. split; [exact D|].
  rewrite (all_released _ _ R), D, F. vm_compute. reflexivity.
Defined.

(** Ten bytes of the response are taken. *)
Lemma responses_in_order_witness :
  let s := driven [client_sends get_request silence] in
  let s' := (event example_env (client_accepts 10) s).2 in
  promised s `prefix_of` promised s' /\ client_out s' = str "HTTP/1.1 4".
Proof.
  split; [|vm_compute; reflexivity].
  apply (responses_in_order 100 example_env _ (client_accepts 10)).
  - apply driven_reachable; [by repeat constructor|]. vm_compute. reflexivity.
  - exact I.
  - apply returned. vm_compute. reflexivity.
  - vm_compute. discriminate.
  - vm_compute. discriminate.
Defined.


(** The upstream sends two bytes more, which the client does not take. *)
Lemma relay_is_transparent_witness :
  let s := driven relayed in
  let s' := (event example_env (upstream_sends (str "yo") silence) s).2 in
  flows s s' /\ waiting_for_client s' = str "hiyo".
Proof.
  intros s s'. split; [|vm_compute; reflexivity].
  destruct (relay_is_transparent 100 example_env s (upstream_sends (str "yo") silence) s') as [C|F]; [..|exact F].
  - exact relayed_reachable.
  - vm_compute. reflexivity.
  - vm_compute. discriminate.
  - vm_compute. discriminate.
  - exact I.
  - apply returned. vm_compute. reflexivity.
  - exfalso. revert C. vm_compute. discriminate.
Defined.
