(* ===== verification/RequestSpec.v ===== *)
(** * RequestSpec: admission of requests, and their deadlines

    A request over the rate limit or stopped by the firewall reaches neither a
    handler nor an upstream; a header that trickles in is cut off at its
    deadline, and so is a body that stalls, unless a later part of it was read;
    and the connections that have no deadline at all. *)

From S2P Require Import Prelude Text Numbers Http2Frame Request Http1Frame Response StaticFiles Handler BodyStream Waf VirtualHost ReverseProxy Http2Session Config Security WebSocket State Connection ProxyExchange WebSocketProxy Reactor ConnectionFacts ReactorFacts SocketFacts RelayFacts EventFacts Scenarios ConnectionSpec.

(** ** Admission *)

(** What the rate limiter says, and the state it leaves. *)
Definition verdict (config : ServerConfig) (s : Server) : bool * Server :=
  if security_state_ (connection s) then
    let '(granted, sec) := allow_request (client_ip_ (connection s)) config (clock s 0%nat) (security s) in
    (negb granted, s <| clock := fun n => clock s (S n) |> <| security := sec |>)
  else (false, s).

Lemma rate_limited_verdict config s :
  config_ (connection s) = Some config -> rate_limited s = (Ret (verdict config s).1, (verdict config s).2).
Proof.
  intros C. unfold rate_limited, verdict, mbind, state_bind, field, get. destruct (security_state_ (connection s)); [|done].
  unfold the_config, field, get, now, shared. cbn. rewrite C. cbn. by destruct (allow_request _ _ _ _).
Qed.

Section admission.
Context `{MapOrder bytes, MapOrder (list bytes)} (env : Environment).

(** The response that turns a request away, if one does. *)
Definition refusal (config : ServerConfig) (request : Request) (s : Server) : option Response :=
  if (verdict config s).1 then Some (text_response 429 (line_body "Too Many Requests") text_plain)
  else match inspect_waf (env_files env) config request with Ret blocked => blocked | _ => None end.

(** Only the connection, the clock and the rate limiter may differ. *)
Record reached_nobody (s s' : Server) : Prop := {
  same_proxies : proxies s' = proxies s;
  same_turns : proxy_turns s' = proxy_turns s;
  same_answers : answers s' = answers s;
  same_open : open_fds s' = open_fds s;
  same_closed : closed_unopened s' = closed_unopened s;
  same_upstream_out : upstream_out s' = upstream_out s;
  same_upstream_in : upstream_in s' = upstream_in s;
  same_client_out : client_out s' = client_out s;
}.

(** [text] is all that is answered, and the request does not count. *)
Record refused (text : bytes) (keep_alive : bool) (s s' : Server) : Prop := {
  refused_phase : phase_ (connection s') = ClientPhase.writing;
  refused_text : response_buffer_ (connection s') = text;
  refused_offset : response_offset_ (connection s') = 0%nat;
  refused_close : keep_alive_after_response_ (connection s') = keep_alive;
  refused_served : requests_served_ (connection s') = requests_served_ (connection s);
  refused_nobody : reached_nobody s s';
}.

Lemma verdict_connection config s : connection (verdict config s).2 = connection s.
Proof using. unfold verdict. destruct (security_state_ _); [|done]. by destruct (allow_request _ _ _ _). Qed.

Lemma verdict_nobody config s : reached_nobody s (verdict config s).2.
Proof using. unfold verdict. destruct (security_state_ _); [|done]. by destruct (allow_request _ _ _ _). Qed.

Lemma set_serialized_refused text keep_alive s s1 :
  connection s1 = connection s -> reached_nobody s s1 ->
  exists s', set_serialized_response text keep_alive s1 = (Ret tt, s') /\ refused text keep_alive s s'.
Proof using.
  intros C []. eexists. split; [reflexivity|]. constructor; try reflexivity; [by proj; rewrite C|by constructor].
Qed.

Lemma set_response_refused config response s s1 :
  config_ (connection s) = Some config -> connection s1 = connection s -> reached_nobody s s1 ->
  exists s', set_response response include false s1 = (Ret tt, s') /\
    refused (response_text config (requests_served_ (connection s)) response include false) false s s'.
Proof using.
  intros Cf C N. rewrite set_response_text, C, Cf. by apply set_serialized_refused.
Qed.

(** C7. A request over the rate limit, or blocked by the firewall, is
    answered with that refusal alone - over HTTP/1, as a WebSocket upgrade and
    as an HTTP/2 stream: no handler runs, no upstream is chosen, connected or
    written to, no descriptor is opened, and the request does not count
    against keep-alive; over HTTP/1 the connection then closes. *)
Theorem refused_request_reaches_nobody config request response s :
  config_ (connection s) = Some config -> refusal config request s = Some response ->
  let text := response_text config (requests_served_ (connection s)) response include false in
  (exists s', dispatch_request env request s = (Ret tt, s') /\ refused text false s s') /\
  (forall consumed s0, is_websocket_upgrade_request request = true ->
     (buffer ← field request_buffer_;
      assign request_buffer_ (drop (Z.to_nat consumed) buffer) ;; restart_request_clock) s0 = (Ret tt, s) ->
     exists s', try_handle_websocket_upgrade env request consumed s0 = (Ret true, s') /\ refused text false s s') /\
  (forall id prefix payload, serialize_response id response include (serialization_options config) = Ret payload ->
     exists s', dispatch_http2_request env id request prefix s = (Ret tt, s') /\
       refused (prefix ++ payload) true s s').
Proof using.
  intros C R text. unfold refusal in R.
  pose proof (verdict_connection config s) as C1. pose proof (verdict_nobody config s) as N1.
  split; [|split].
  - unfold dispatch_request, mbind, state_bind, the_config, field, get. rewrite C. cbn [default].
    rewrite (rate_limited_verdict config s C). destruct (verdict config s) as [[] s1]; cbn [fst snd] in *.
    + injection R as <-. by apply set_response_refused.
    + destruct (inspect_waf _ _ _) as [blocked|e|]; [subst blocked|done..]. by apply set_response_refused.
  - intros consumed s0 U E.
    assert (C0 : config_ (connection s0) = Some config).
    { rewrite <- C. revert E. unfold restart_request_clock, mbind, state_bind, field, get, assign, modify, now.
      destruct (bool_decide _); intros [= <-]; reflexivity. }
    unfold try_handle_websocket_upgrade. rewrite U. cbn [negb].
    revert E. unfold mbind, state_bind, the_config, field, get, assign at 1 2, modify. rewrite C0. cbn [default].
    destruct (restart_request_clock _) as [o s2]. intros [= -> ->].
    rewrite (rate_limited_verdict config s C). destruct (verdict config s) as [[] s1]; cbn [fst snd] in *.
    + injection R as <-.
      destruct (set_response_refused config (text_response 429 (line_body "Too Many Requests") text_plain) s s1 C C1 N1)
        as (s' & E & Rf). exists s'. unfold refuse. by rewrite E.
    + destruct (inspect_waf _ _ _) as [blocked|e|]; [subst blocked|done..].
      destruct (set_response_refused config response s s1 C C1 N1) as (s' & E & Rf).
      exists s'. unfold call. by rewrite E.
  - intros id prefix payload P. unfold dispatch_http2_request, h2_response.
    unfold mbind, state_bind, the_config, field, get, call. rewrite C. cbn [default].
    rewrite (rate_limited_verdict config s C). destruct (verdict config s) as [[] s1]; cbn [fst snd] in *.
    + injection R as <-. rewrite C1, C. unfold default, from_option, Datatypes.id. rewrite P. by apply set_serialized_refused.
    + destruct (inspect_waf _ _ _) as [blocked|e|]; [subst blocked|done..].
      rewrite C1, C. unfold default, from_option, Datatypes.id. rewrite P. by apply set_serialized_refused.
Qed.
End admission.

(** ** Deadlines *)

Section deadlines.
Context `{MapOrder bytes, MapOrder (list bytes)} (env : Environment).

Definition not_preface (buffer : bytes) : Prop :=
  let n := Nat.min (length buffer) (length client_connection_preface) in
  take n buffer <> take n client_connection_preface.

(** [buffer] is not HTTP/2, and the header of a request that is not complete. *)
Record header_pending (config : ServerConfig) (buffer : bytes) : Prop := {
  pending_http1 : not_preface buffer;
  pending_frame : exists frame, next_http1_request_frame buffer (Config.max_request_bytes config) = Ret frame /\
    Http1Frame.state frame = Http1Frame.incomplete /\ waiting_for_body frame = false;
}.

(** A request of which [buffer] arrived, since [started]. *)
Record trickling (config : ServerConfig) (started : Z) (buffer : bytes) (s : Server) : Prop := {
  trickling_config : config_ (connection s) = Some config;
  trickling_phase : phase_ (connection s) = ClientPhase.reading;
  trickling_http1 : http2_active_ (connection s) = false /\ http2_tls_selected_ (connection s) = false;
  trickling_stream : http1_body_stream_ (connection s) = None;
  trickling_buffer : request_buffer_ (connection s) = buffer;
  trickling_clock : request_started_at_ (connection s) = started;
  trickling_waiting : waiting_for_body_ (connection s) = false;
}.

Lemma preface_not_http2 config buffer http2 allowed session :
  not_preface buffer ->
  accept_preface buffer (Config.max_request_bytes config) http2 allowed session
  = (session, buffer, Ret (mk_preface not_http2 [] true)).
Proof using.
  intros N. unfold accept_preface.
  case_bool_decide; [done|]. by rewrite bool_decide_false.
Qed.

(** [s] after at most one look at the clock; what connections share may differ. *)
Definition later (s s' : Server) : Prop :=
  connection s' = connection s /\ exists k, (k <= 1)%nat /\ forall n, clock s' n = clock s (k + n)%nat.

Lemma later_refl s : later s s.
Proof using. split; [done|]. exists 0%nat. by split; [lia|]. Qed.

Lemma later_verdict config s : later s (verdict config s).2.
Proof using.
  split; [apply verdict_connection|]. unfold verdict. destruct (security_state_ _); [|by exists 0%nat; split; [lia|]].
  destruct (allow_request _ _ _ _). exists 1%nat. by split; [lia|].
Qed.

(** The check for HTTP/2 finds none. *)
Lemma prior_knowledge_http1 config s :
  config_ (connection s) = Some config -> not_preface (request_buffer_ (connection s)) ->
  exists s', process_http2_prior_knowledge s = (Ret false, s') /\ later s s'.
Proof using.
  intros C N. unfold process_http2_prior_knowledge, the_config, mbind, state_bind, field, get.
  destruct (_ && _); [by exists s; split; [|apply later_refl]|]. rewrite C. unfold default, from_option, Datatypes.id.
  assert (Step : forall limited s1, later s s1 -> exists s',
    (let '(session, rest, result) :=
       accept_preface (request_buffer_ (connection s1)) (Config.max_request_bytes config) (Config.http2_enabled config)
         (negb limited) (http2_session_ (connection s1)) in
     assign http2_session_ session ;;
     assign request_buffer_ rest ;;
     result ← call result;
     match preface_status result with
     | not_http2 => mret false
     | need_more => mret true
     | rejected =>
         forget_request_clock ;;
         set_serialized_response (preface_output result) (preface_keep_connection result) ;;
         mret true
     | accepted =>
         forget_request_clock ;;
         assign http2_active_ true ;;
         set_serialized_response (preface_output result) (preface_keep_connection result) ;;
         mret true
     end) s1 = (Ret false, s') /\ later s s').
  { intros limited s1 [E1 K1]. rewrite E1, (preface_not_http2 config) by done. eexists. split; [reflexivity|].
    split; [|exact K1]. proj. rewrite E1. by destruct (connection s). }
  destruct (Config.http2_enabled config) eqn:En.
  - rewrite (rate_limited_verdict config) by done. apply (Step (verdict config s).1), later_verdict.
  - apply (Step false), later_refl.
Qed.

Lemma later_trickling config started buffer s s' :
  trickling config started buffer s -> later s s' -> trickling config started buffer s'.
Proof using. intros [] [E _]. by constructor; rewrite E. Qed.

(** HTTP/1 bytes that have arrived get to the frame. *)
Lemma buffered_to_frame config s :
  config_ (connection s) = Some config -> phase_ (connection s) = ClientPhase.reading ->
  http2_active_ (connection s) = false -> http2_tls_selected_ (connection s) = false -> http1_enabled config = true ->
  not_preface (request_buffer_ (connection s)) ->
  exists s', process_buffered_request env s = process_http1_frame env s' /\ later s s'.
Proof using.
  intros C Ph H2 Sel H1 N. destruct (prior_knowledge_http1 config s C N) as (s' & E & L). exists s'. split; [|done].
  unfold process_buffered_request, in_phase, mbind, state_bind, field, get. rewrite C, Ph, bool_decide_true by done.
  cbv beta iota delta [negb]. rewrite H2, E. destruct L as [L _]. by rewrite L, Sel, H1.
Qed.

Lemma trickle config started buffer chunk s :
  trickling config started buffer s -> buffer <> [] -> http1_enabled config = true ->
  header_pending config (buffer ++ chunk) ->
  exists s', append_request_bytes env chunk s = (Ret tt, s') /\ trickling config started (buffer ++ chunk) s'.
Proof using.
  intros [C Ph [H2 Sel] St B K Wt] NB H1 Pe.
  set (s1 := s <| connection ::= update request_buffer_ (fun _ => buffer ++ chunk) |>).
  assert (W1 : trickling config started (buffer ++ chunk) s1) by (subst s1; constructor; by proj).
  assert (E : append_request_bytes env chunk s = process_buffered_request env s1).
  { unfold append_request_bytes, mbind, state_bind, field, get, assign, modify. rewrite B, bool_decide_false by done.
    cbv [mret state_ret]. proj. by rewrite St. }
  rewrite E. clearbody s1. clear s E C Ph H2 Sel St B K Wt.
  destruct (buffered_to_frame config s1) as (s2 & -> & L2); [by destruct W1 as [? ? []]..|by rewrite (trickling_buffer _ _ _ _ W1); apply Pe|].
  pose proof (later_trickling _ _ _ _ _ W1 L2) as W2. pose proof W2 as [C2 Ph2 [H22 Sel2] St2 B2 K2 Wt2].
  destruct Pe as [_ (frame & F & Inc & Wait)].
  unfold process_http1_frame, the_config, mbind, state_bind, field, get. rewrite C2, B2.
  unfold default, from_option, Datatypes.id, call. rewrite F, Inc.
  eexists. split; [reflexivity|]. rewrite Wait. by constructor; proj.
Qed.

(** [append_request_bytes] for one chunk after another. *)
Fixpoint feed (chunks : list bytes) : Handle unit :=
  match chunks with
  | [] => mret tt
  | chunk :: chunks' => append_request_bytes env chunk ;; feed chunks'
  end.

Lemma feed_trickles config started buffer chunks s :
  trickling config started buffer s -> buffer <> [] -> http1_enabled config = true ->
  (forall k, header_pending config (buffer ++ concat (take (S k) chunks))) ->
  exists s', feed chunks s = (Ret tt, s') /\ trickling config started (buffer ++ concat chunks) s'.
Proof using.
  revert buffer s; induction chunks as [|chunk chunks IH]; intros buffer s W NB H1 Pe.
  { exists s. cbn. by rewrite app_nil_r. }
  destruct (trickle config started buffer chunk s W NB H1) as (s1 & E1 & W1).
  { specialize (Pe 0%nat). cbn in Pe. by rewrite take_0, app_nil_r in Pe. }
  destruct (IH (buffer ++ chunk) s1 W1) as (s2 & E2 & W2); [|done| |].
  - by destruct buffer.
  - intros k. specialize (Pe (S k)). cbn in Pe. by rewrite <- app_assoc.
  - exists s2. cbn [feed concat]. unfold mbind, state_bind. rewrite E1, E2. by rewrite app_assoc.
Qed.

(** C18. A client cannot keep a connection by sending its header a little at a
    time: whatever the chunks, as long as the header is not complete the clock
    that started with its first byte is not restarted, and when the header's
    time is over the request is refused with 408 and the connection closed. *)
Theorem trickled_header_expires config started buffer chunks now s :
  trickling config started buffer s -> buffer <> [] -> started <> 0 -> http1_enabled config = true ->
  (forall k, header_pending config (buffer ++ concat (take (S k) chunks))) ->
  nanoseconds (header_timeout_seconds config) <= now - started ->
  exists s1 s2, feed chunks s = (Ret tt, s1) /\ expire_if_timed_out env now s1 = (Ret true, s2) /\
    phase_ (connection s2) = ClientPhase.writing /\ keep_alive_after_response_ (connection s2) = false /\
    response_buffer_ (connection s2) =
      response_text config (requests_served_ (connection s1))
        (text_response 408 (line_body "Request Timeout") text_plain) include false.
Proof using.
  intros W NB N0 H1 Pe Late. destruct (feed_trickles _ _ _ _ _ W NB H1 Pe) as (s1 & E & [C Ph [H2 Sel] St B K Wt]).
  exists s1. eexists. split; [done|].
  unfold expire_if_timed_out, mbind, state_bind, field, get. rewrite C, Ph, H2, Wt, B, K. cbn [andb negb].
  rewrite (bool_decide_false (buffer ++ _ = [])) by (by destruct buffer).
  rewrite andb_false_r, (proj2 (Z.eqb_neq started 0)) by done. cbn [orb]. unfold elapsed at 2.
  rewrite (proj2 (Z.leb_le _ _) Late). unfold refuse, set_response, the_config, set_serialized_response.
  destruct (elapsed _ _ _); (split; [reflexivity|]); proj; by rewrite C.
Qed.

(** No check of the timeouts ever acts on [s]. *)
Definition never_expires (s : Server) : Prop := forall now, expire_if_timed_out env now s = (Ret false, s).

Lemma writing_never_expires s : phase_ (connection s) = ClientPhase.writing -> never_expires s.
Proof using.
  intros Ph now. unfold expire_if_timed_out, mbind, state_bind, field, get. rewrite Ph. by destruct (config_ _).
Qed.

Lemma first_request_never_expires s :
  phase_ (connection s) = ClientPhase.reading -> http2_active_ (connection s) = false ->
  waiting_for_body_ (connection s) = false -> requests_served_ (connection s) = 0 ->
  request_buffer_ (connection s) = [] -> never_expires s.
Proof using.
  intros Ph H2 Wt Sv B now. unfold expire_if_timed_out, mbind, state_bind, field, get.
  rewrite Ph, H2, Wt, Sv, B. by destruct (config_ _).
Qed.

(** A connection that has sent nothing has no deadline. *)
Lemma silent_client_never_expires fd epoll_fd config worker ip s s' :
  reset fd epoll_fd config false worker ip s = (Ret tt, s') -> never_expires s'.
Proof using.
  unfold reset, mbind, state_bind. intros R.
  pose proof (prepare_connection s) as [C Ok]. destruct (prepare_for_pool s) as [o s1]. cbn in C, Ok. subst o.
  injection R as <-. apply first_request_never_expires; proj; by rewrite ?C.
Qed.







End deadlines.

(** ** On concrete requests *)

(** A flood: the bucket of the client is empty. *)
Definition flooded : Server :=
  (driven []) <| security := mk_security ∅ {[str "10.0.0.1" := mk_bucket 1 1000000]} 0 |>.

Definition example_request : Request :=
  match parse_request get_request with Parsed r => r | Rejected _ _ => empty_request end.

Lemma refused_request_reaches_nobody_witness :
  exists s', dispatch_request example_env example_request flooded = (Ret tt, s') /\
    starts_with (response_buffer_ (connection s')) (str "HTTP/1.1 429") = true /\
    requests_served_ (connection s') = 0 /\ open_fds s' = {[5]}.
Proof.
  assert (C : config_ (connection flooded) = Some example_config) by (vm_compute; reflexivity).
  assert (R : refusal example_env example_config example_request flooded
    = Some (text_response 429 (line_body "Too Many Requests") text_plain)) by (vm_compute; reflexivity).
  destruct (refused_request_reaches_nobody example_env example_config example_request _ flooded C R)
    as [(s' & E & Rf) _]. exists s'. split; [exact E|].
  destruct Rf as [_ T _ _ Sv [_ _ _ Op _ _ _ _]]. rewrite T, Sv, Op. split; [vm_compute; reflexivity|].
  split; vm_compute; reflexivity.
Defined.

(** The header arrives in three parts; after the deadline the client is told. *)
Definition header_parts : list bytes := [str "Host: a"; str ".test"].

Definition trickled : Server := driven [client_sends (str "GET / HTT") silence].

Definition pending_by_computation (config : ServerConfig) (buffer : bytes) : bool :=
  let n := Nat.min (length buffer) (length client_connection_preface) in
  negb (bool_decide (take n buffer = take n client_connection_preface)) &&
  match next_http1_request_frame buffer (Config.max_request_bytes config) with
  | Ret frame => match Http1Frame.state frame with Http1Frame.incomplete => negb (waiting_for_body frame) | _ => false end
  | _ => false
  end.

Lemma pending_computed config buffer : pending_by_computation config buffer = true -> header_pending config buffer.
Proof.
  unfold pending_by_computation. intros [N F]%andb_prop. constructor.
  - by apply negb_true_iff, bool_decide_eq_false in N.
  - destruct (next_http1_request_frame _ _) as [frame|e|]; [|done..]. exists frame.
    destruct (Http1Frame.state frame); try done. by apply negb_true_iff in F.
Qed.

Lemma trickled_header_expires_witness :
  exists s1 s2, feed example_env header_parts trickled = (Ret tt, s1) /\
    expire_if_timed_out example_env (10 ^ 12) s1 = (Ret true, s2) /\
    phase_ (connection s2) = ClientPhase.writing /\ keep_alive_after_response_ (connection s2) = false.
Proof.
  set (started := request_started_at_ (connection trickled)).
  assert (Pe : forall k, header_pending example_config (str "GET / HTT" ++ concat (take (S k) header_parts))).
  { intros [|k]; apply pending_computed; [vm_compute; reflexivity|].
    cbn [header_parts take]. rewrite take_nil. vm_compute. reflexivity. }
  destruct (trickled_header_expires example_env example_config started (str "GET / HTT") header_parts (10 ^ 12) trickled)
    as (s1 & s2 & E1 & E2 & Ph & K & _).
  - constructor; vm_compute; try reflexivity. split; reflexivity.
  - discriminate.
  - vm_compute. discriminate.
  - vm_compute. reflexivity.
  - exact Pe.
  - vm_compute. discriminate.
  - exists s1, s2. split; [exact E1|]. split; [exact E2|]. split; [exact Ph|exact K].
Defined.





