(* ===== verification/WorkerFacts.v ===== *)
(** * WorkerFacts: the clients of a worker do not disturb each other

    The invariant of a worker: every client is well-formed in the worker's
    world, descriptors belong to one client each, and the counters of
    [SecurityState] count the clients.  Every operation of [Worker] keeps it. *)

From S2P Require Import Prelude Text Numbers Request Http1Frame Response StaticFiles Handler BodyStream Waf VirtualHost ReverseProxy Http2Session Config Security WebSocket State Connection ProxyExchange WebSocketProxy Reactor ConnectionFacts ReactorFacts SocketFacts RelayFacts EventFacts Scenarios ConnectionSpec FrameFacts Worker.

(** ** One client in a changing world *)

Section clients.
Context (limit : Z).

Lemma view_of a s : view (world_of s) (client_of s) a = s <| answers := a |>.
Proof using. by destruct s. Qed.

Lemma wf_world P w w' c a a' :
  wf limit P (view w c a) -> world_unopened w' = [] -> descriptors (client c) ⊆ world_fds w' ->
  wf limit P (view w' c a').
Proof using.
  intros W U Sub. assert (In : forall fd, 0 <= fd -> fd ∈ [fd_ (client c); websocket_upstream_fd_ (client c); reverse_proxy_upstream_fd_ (client c)]
    -> fd ∈ world_fds w').
  { intros fd Nn I. apply Sub, elem_of_list_to_set. by apply list_elem_of_filter. }
  apply (wf_elsewhere limit P (view w c a) (view w' c a') (config_ (client c))); try done.
  - cbn [connection view]. by destruct (client c).
  - intros [L1 L2 [L3 L4] L5]. constructor; try done. split; [done|]. apply In; [done|left].
  - intros [->|(Nn & _ & N)]; [by left|right]. split_and!; [done| |done]. apply In; [done|right; left].
  - intros [->|(Nn & _ & N)]; [by left|right]. split_and!; [done| |done]. apply In; [done|right; right; left].
Qed.

(** What a handler does to its own client. *)
Definition client_safe {A} (m : Handle A) : Prop := forall F s,
  wf limit [] s -> framed F false ∅ s -> wp m (post (fun _ s' => wf limit [] s' /\ framed F false ∅ s') anything) s.

Context `{MapOrder bytes, MapOrder (list bytes)} (env : Environment).

Lemma wp_both {A} (m : Handle A) Q Q' E E' s :
  wp m (post Q E) s -> wp m (post Q' E') s -> wp m (post (fun a s' => Q a s' /\ Q' a s') (fun s' => E s' /\ E' s')) s.
Proof using. unfold wp. by destruct (m s) as [[a|e|] s']. Qed.

Lemma safe_bind {A B} (m : Handle A) (f : A -> Handle B) :
  client_safe m -> (forall a, client_safe (f a)) -> client_safe (m ≫= f).
Proof using. intros Hm Hf F s W Fr. eapply wp_post_seq; [by apply Hm|]. intros a s' []. by apply Hf. Qed.

Lemma safe_get {T} (f : Server -> T) : client_safe (get f).
Proof using. by intros F s W Fr. Qed.

Lemma safe_ret {A} (a : A) : client_safe (mret a).
Proof using. by intros F s W Fr. Qed.

Lemma safe_handle revents : client_safe (handle env revents).
Proof using.
  intros F s W Fr. eapply wp_anything, wp_both; [by apply (wp_handle limit [])|]. by apply (wp_handle_framed F limit []).
Qed.

Lemma safe_handle_upstream revents : client_safe (handle_upstream env revents).
Proof using.
  intros F s W Fr. eapply wp_anything, wp_both; [by apply (wp_handle_upstream limit [])|]. by apply keeps_handle_upstream.
Qed.

Lemma safe_modify_events : client_safe (modify_client_events env).
Proof using.
  intros F s W Fr. eapply wp_anything, wp_both; [by apply (wp_modify_client_events limit [])|]. by apply keeps_modify_events.
Qed.

Lemma safe_expire t : client_safe (expire_if_timed_out env t).
Proof using.
  intros F s W Fr. eapply wp_anything, wp_both; [by apply (wp_expire limit [])|]. by apply keeps_expire.
Qed.

Lemma safe_unless_closed m : client_safe m -> client_safe (unless_closed m).
Proof using. intros S. apply safe_bind; [apply safe_get|]. intros []; [apply safe_ret|done]. Qed.

Lemma safe_handle_token t : client_safe (handle_token env t).
Proof using.
  destruct t; cbn [handle_token]; [apply safe_ret|..].
  - apply safe_bind; [apply safe_handle|]. intros []. apply safe_bind; [by apply safe_unless_closed, safe_modify_events|].
    intros []. apply safe_get.
  - apply safe_bind; [apply safe_handle_upstream|]. intros []. apply safe_get.
Qed.

Lemma safe_enforce_timeout t : client_safe (enforce_timeout env t).
Proof using.
  apply safe_bind; [apply safe_expire|]. intros []; [|apply safe_ret].
  apply safe_bind; [by apply safe_unless_closed, safe_modify_events|]. intros []. apply safe_get.
Qed.
End clients.

(** ** The descriptors and addresses of all clients *)

Lemma elem_of_client_fds x m :
  x ∈ client_fds m <-> exists fd c, m !! fd = Some c /\ x ∈ descriptors (client c).
Proof.
  unfold client_fds. rewrite elem_of_union_list. split.
  - intros (X & HX & Hx). apply list_elem_of_fmap in HX as ([fd c] & -> & In%elem_of_map_to_list). by eauto.
  - intros (fd & c & L & Hx). exists (descriptors (client c)). split; [|done].
    apply list_elem_of_fmap. exists (fd, c). split; [done|]. by apply elem_of_map_to_list.
Qed.

Lemma client_fds_insert fd c m : client_fds (<[fd := c]> m) = descriptors (client c) ∪ client_fds (delete fd m).
Proof.
  apply set_eq. intros x. rewrite elem_of_union, !elem_of_client_fds. split.
  - intros (fd' & c' & L & Hx). destruct (decide (fd = fd')) as [<-|N].
    + rewrite lookup_insert_eq in L. injection L as <-. by left.
    + rewrite lookup_insert_ne in L by done. right. exists fd', c'. by rewrite lookup_delete_ne.
  - intros [Hx|(fd' & c' & [N L]%lookup_delete_Some & Hx)].
    + exists fd, c. by rewrite lookup_insert_eq.
    + exists fd', c'. by rewrite lookup_insert_ne.
Qed.

Lemma client_fds_lookup fd c m : m !! fd = Some c -> client_fds m = descriptors (client c) ∪ client_fds (delete fd m).
Proof. intros L. rewrite <- client_fds_insert. by rewrite insert_id. Qed.

Lemma client_fds_delete fd m : client_fds (delete fd m) ⊆ client_fds m.
Proof. intros x (fd' & c & [_ L]%lookup_delete_Some & Hx)%elem_of_client_fds. apply elem_of_client_fds. by eauto. Qed.

Lemma client_fds_empty : client_fds ∅ = ∅.
Proof. unfold client_fds. by rewrite map_to_list_empty. Qed.

Definition client_ips (m : gmap Z Client) : list bytes := (fun x => client_ip_ (client x.2)) <$> map_to_list m.

Lemma client_ips_insert fd c m : m !! fd = None -> client_ips (<[fd := c]> m) ≡ₚ client_ip_ (client c) :: client_ips m.
Proof. intros L. unfold client_ips. by rewrite map_to_list_insert. Qed.

Lemma client_ips_lookup fd c m : m !! fd = Some c -> client_ips m ≡ₚ client_ip_ (client c) :: client_ips (delete fd m).
Proof.
  intros L. rewrite <- (client_ips_insert fd c (delete fd m)) by apply lookup_delete_eq. by rewrite insert_delete_id.
Qed.

Lemma client_ips_update fd c c' m :
  m !! fd = Some c -> client_ip_ (client c') = client_ip_ (client c) -> client_ips (<[fd := c']> m) ≡ₚ client_ips m.
Proof.
  intros L E. rewrite (client_ips_lookup fd c m L), <- E, <- client_ips_insert by apply lookup_delete_eq.
  by rewrite insert_delete_eq.
Qed.

Lemma accounts_perm l l' s : l ≡ₚ l' -> accounts l s -> accounts l' s.
Proof.
  intros E (T & C & N). split_and!; [by rewrite T, E| |by rewrite <- E].
  intros ip. rewrite C. unfold count_ip. by rewrite E.
Qed.

Lemma accounts_same l s s' :
  active_connections_by_ip_ s' = active_connections_by_ip_ s -> total_connections_ s' = total_connections_ s ->
  accounts l s -> accounts l s'.
Proof. intros E E' (T & C & N). unfold accounts, connections_of in *. rewrite E, E'. by split_and!. Qed.

(** ** The invariant *)

Section invariant.
Context (limit : Z) `{MapOrder bytes, MapOrder (list bytes)} (env : Environment).
Context (outside : gset Z) (foreign : list bytes).

(** An idle connection object holds nothing. *)
Definition empty_handed (c : ClientConnection) : Prop :=
  fd_ c = -1 /\ websocket_upstream_fd_ c = -1 /\ reverse_proxy_upstream_fd_ c = -1.

(** [outside] are the open descriptors, and [foreign] the addresses of the
    clients, that are not this worker's. *)
Record worker_wf (w : Worker) : Prop := {
  ww_config : forall config, live_config (control_ w) = Some config -> config_ok limit config;
  ww_unopened : world_unopened (world w) = [];
  ww_nonneg : forall x, x ∈ world_fds (world w) -> 0 <= x;
  ww_fds : world_fds (world w) = outside ∪ own_fds w ∪ client_fds (clients_ w);
  ww_outside : outside ## own_fds w ∪ client_fds (clients_ w);
  ww_own : own_fds w ## client_fds (clients_ w);
  ww_listener : listener_ w < 0 \/ listener_ w <> worker_epoll_fd_ w;
  ww_clients : forall fd c, clients_ w !! fd = Some c ->
    fd_ (client c) = fd /\ wf limit [] (view (world w) c silence);
  ww_apart : forall fd c, clients_ w !! fd = Some c -> descriptors (client c) ## client_fds (delete fd (clients_ w));
  ww_counters : accounts (client_ips (clients_ w) ++ foreign) (world_security (world w));
  ww_idle : Forall empty_handed (idle_ (connection_pool_ w));
  ww_idle_size : size (idle_ (connection_pool_ w)) <= Z.max 0 (max_idle_ (connection_pool_ w));
  ww_current : config_generation_ w = config_generation (control_ w) ->
    forall fd c, clients_ w !! fd = Some c -> config_ (client c) = live_config (control_ w);
}.

Definition client_frame (w : World) (c : Client) : Frame :=
  mk_frame (fd_ (client c)) (epoll_fd_ (client c)) (client_ip_ (client c)) (config_ (client c))
    (world_fds w ∖ descriptors (client c)) (active_connections_by_ip_ (world_security w))
    (total_connections_ (world_security w)).

Lemma in_descriptors c x :
  0 <= x -> x ∈ ({[fd_ c; websocket_upstream_fd_ c; reverse_proxy_upstream_fd_ c]} : gset Z) -> x ∈ descriptors c.
Proof using. intros Nn Hx. apply elem_of_descriptors. set_solver. Qed.

Lemma framed_start w c a :
  (forall x, x ∈ world_fds w -> 0 <= x) -> framed (client_frame w c) false ∅ (view w c a).
Proof using.
  intros Nn. assert (Out : forall x, x ∈ [fd_ (client c); websocket_upstream_fd_ (client c); reverse_proxy_upstream_fd_ (client c)]
    -> x ∉ world_fds w ∖ descriptors (client c)).
  { intros x Hx [Hi N]%elem_of_difference. apply N, in_descriptors; [auto|set_solver]. }
  constructor; try done; cbn [open_fds view frame_others client_frame connection].
  - set_solver.
  - intros x Hx. destruct (decide (x ∈ descriptors (client c))) as [D|]; [|set_solver].
    apply elem_of_descriptors in D as [_ D]. set_solver.
  - apply Out. set_solver.
  - apply Out. set_solver.
Qed.

(** What a step of one client leaves is again its descriptors and the others'. *)
Lemma framed_finish w c a w' c' :
  fd_ (client c) ∈ descriptors (client c) -> wf limit [] (view w' c' a) ->
  framed (client_frame w c) false ∅ (view w' c' a) ->
  world_fds w' = (world_fds w ∖ descriptors (client c)) ∪ descriptors (client c') /\
  descriptors (client c') ## world_fds w ∖ descriptors (client c).
Proof using.
  intros Fd [_ Hd]%wf_holding [E1 E2 E3 E4 E5 E6 Nn Op Held _ Ws Px _].
  apply holding_open in Hd. cbn [open_fds view frame_others client_frame connection frame_fd] in *. split.
  - apply set_eq. intros x. split; [|set_solver]. intros Hx. pose proof (Nn x Hx) as N. apply Held in Hx.
    apply elem_of_union. destruct (decide (x ∈ world_fds w ∖ descriptors (client c))); [by left|right].
    apply in_descriptors; [done|set_solver].
  - intros x (Nx & Hx)%elem_of_descriptors O. destruct Hx as [ -> | [ -> | -> ]]; [|done..].
    rewrite E1 in O. set_solver.
Qed.

Lemma own_fd w fd c : worker_wf w -> clients_ w !! fd = Some c -> fd_ (client c) ∈ descriptors (client c).
Proof using.
  intros W L. apply ww_clients in L as [_ Wf]; [|done]. apply wf_holding in Wf as [[_ _ [Nn _] _] _].
  apply elem_of_descriptors. by split; [|left].
Qed.

(** The parts of the open descriptors when [d] becomes [d']. *)
Lemma parts_replaced (o own d d' rest : gset Z) :
  o ## own ∪ (d ∪ rest) -> own ## d ∪ rest -> d' ## o ∪ own ∪ rest ->
  o ## own ∪ (d' ∪ rest) /\ own ## d' ∪ rest /\ d' ## rest /\ o ∪ own ∪ rest ∪ d' = o ∪ own ∪ (d' ∪ rest).
Proof using. intros A B C. split_and!; set_solver. Qed.

Lemma parts_apart (o own d' rest d2 rest2 rest12 : gset Z) :
  d' ## o ∪ own ∪ rest -> d2 ⊆ rest -> d2 ## rest2 -> rest12 ⊆ rest2 -> d2 ## d' ∪ rest12.
Proof using. set_solver. Qed.

Lemma worker_client_step w fd c a wd c' :
  worker_wf w -> clients_ w !! fd = Some c -> wf limit [] (view wd c' a) ->
  framed (client_frame (world w) c) false ∅ (view wd c' a) ->
  worker_wf (w <| world := wd |> <| clients_ ::= insert fd c' |>).
Proof using.
  intros W L Wf Fr. pose proof (framed_finish _ _ _ _ _ (own_fd _ _ _ W L) Wf Fr) as [Eq Ap].
  pose proof Wf as [_ Hd]%wf_holding. pose proof (ww_clients _ W _ _ L) as [Efd _].
  pose proof (client_fds_lookup _ _ _ L) as Split. pose proof (ww_apart _ W _ _ L) as Apart.
  destruct Fr as [E1 E2 E3 E4 E5 E6 Nn _ _ _ _ _ _]. destruct W as [W1 W2 W3 W4 W5 W6 W7 W8 W9 W10 W11 W12 W13].
  cbn [connection open_fds view frame_fd frame_ip frame_active frame_total frame_config frame_others client_frame security world_of] in *.
  set (rest := client_fds (delete fd (clients_ w))) in *.
  assert (Old : world_fds (world w) ∖ descriptors (client c) = outside ∪ own_fds w ∪ rest).
  { rewrite W4, Split. apply set_eq. set_solver. }
  rewrite Old in *. rewrite Split in W5, W6. destruct (parts_replaced _ _ _ _ _ W5 W6 Ap) as (P1 & P2 & P3 & P4).
  assert (Open : forall fd' c2, clients_ w !! fd' = Some c2 -> fd <> fd' -> descriptors (client c2) ⊆ rest).
  { intros fd' c2 L2 N x Hx. apply elem_of_client_fds. exists fd', c2. by rewrite lookup_delete_ne. }
  constructor; try (proj; done); unfold own_fds in *; proj.
  - apply Hd.
  - rewrite client_fds_insert. fold rest. by rewrite Eq.
  - by rewrite client_fds_insert.
  - by rewrite client_fds_insert.
  - intros fd' c2. destruct (decide (fd = fd')) as [<-|N].
    + rewrite lookup_insert_eq. intros [= <-]. split; [by rewrite E1|]. refine (wf_world limit [] wd wd c' a silence Wf _ _).
      * apply Hd.
      * by apply holding_open in Hd.
    + rewrite lookup_insert_ne by done. intros L2. destruct (W8 _ _ L2) as [? Wf2]. split; [done|].
      refine (wf_world limit [] _ _ _ _ _ Wf2 _ _); [apply Hd|]. rewrite Eq. apply union_subseteq_l', union_subseteq_r', (Open _ _ L2 N).
  - intros fd' c2. destruct (decide (fd = fd')) as [<-|N].
    + rewrite lookup_insert_eq. intros [= <-]. by rewrite delete_insert_eq.
    + rewrite lookup_insert_ne by done. intros L2. rewrite delete_insert_ne, client_fds_insert by done.
      apply (parts_apart _ _ _ _ _ _ _ Ap (Open _ _ L2 N) (W9 _ _ L2)), client_fds_delete.
  - apply (accounts_perm (client_ips (clients_ w) ++ foreign)); [by rewrite (client_ips_update _ _ _ _ L E3)|].
    by eapply accounts_same.
  - intros Eg fd' c2. destruct (decide (fd = fd')) as [<-|N].
    + rewrite lookup_insert_eq. intros [= <-]. rewrite E4. by eapply W13.
    + rewrite lookup_insert_ne by done. by apply W13.
Qed.

(** ** Releasing *)

(** An exception ends the worker: nothing is said of the state it leaves. *)
Definition failed (w : Worker) : Prop := True.


(** The worker has noticed the newest configuration. *)
Definition noticed (w : Worker) : Prop := config_generation_ w = config_generation (control_ w).

Lemma noticed_same w w' :
  control_ w' = control_ w -> config_generation_ w' = config_generation_ w -> noticed w -> noticed w'.
Proof using. unfold noticed. congruence. Qed.

(** Neither clients nor the listener come or go, but for clients that close. *)
Record calm (w w' : Worker) : Prop := {
  calm_clients : dom (clients_ w') ⊆ dom (clients_ w);
  calm_control : control_ w' = control_ w;
  calm_listener : listener_ w' = listener_ w;
  calm_epoll : worker_epoll_fd_ w' = worker_epoll_fd_ w;
  calm_noticed : noticed w -> noticed w';
}.

#[export] Instance calm_refl : Reflexive calm.
Proof using. by intros w. Qed.

#[export] Instance calm_trans : Transitive calm.
Proof using. intros w1 w2 w3 [] []. constructor; [by etransitivity|congruence..|auto]. Qed.

Definition keeps_worker {A} (m : Work A) : Prop := forall w,
  worker_wf w -> wp m (post (fun _ w' => worker_wf w' /\ calm w w') failed) w.

Lemma keeps_worker_bind {A B} (m : Work A) (f : A -> Work B) :
  keeps_worker m -> (forall a, keeps_worker (f a)) -> keeps_worker (m ≫= f).
Proof using.
  intros Hm Hf w W. eapply wp_post_seq; [by apply Hm|]. intros a w1 [W1 C1].
  eapply wp_post_mono; [by apply Hf| |done]. intros b w2 [W2 C2]. split; [done|by etransitivity].
Qed.

Lemma keeps_worker_ret {A} (a : A) : keeps_worker (mret a).
Proof using. by intros w W. Qed.

Lemma keeps_worker_get {T} (f : Worker -> T) : keeps_worker (get f).
Proof using. by intros w W. Qed.

Lemma keeps_worker_for_each {A} (l : list A) f : (forall a, keeps_worker (f a)) -> keeps_worker (for_each l f).
Proof using.
  intros Hf. induction l as [|x l IH]; cbn [for_each]; [apply keeps_worker_ret|].
  apply keeps_worker_bind; [apply Hf|by intros []].
Qed.

Lemma wp_on_client {A} w fd c a (m : Handle A) :
  client_safe limit m -> worker_wf w -> clients_ w !! fd = Some c ->
  wp (on_client fd c a m) (post (fun _ w' => worker_wf w' /\ calm w w') failed) w.
Proof using.
  intros S W L. unfold on_client, wp.
  assert (W0 : wf limit [] (view (world w) c a)) by exact (wf_answers limit [] _ a (proj2 (ww_clients _ W _ _ L))).
  specialize (S _ _ W0 (framed_start (world w) c a (ww_nonneg _ W))). unfold wp in S.
  destruct (m _) as [[r|e|] s]; cbn in *; try done. destruct S as [Wf Fr]. split.
  - assert (V : view (world_of s) (client_of s) (answers s) = s) by by destruct s.
    apply (worker_client_step w fd c (answers s)); by rewrite ?V.
  - constructor; unfold noticed in *; proj; try done. rewrite dom_insert. intros x [ -> %elem_of_singleton|]%elem_of_union; [|done].
    by apply elem_of_dom_2 in L.
Qed.

Lemma prepare_security s : security (prepare_for_pool s).2 = security s.
Proof using.
  unfold prepare_for_pool, close_websocket_upstream, close_reverse_proxy_upstream, close_if_open, close_fd.
  unfold mbind, state_bind, field, get, assign, modify. cbn -[Z.leb].
  destruct (0 <=? _); cbn -[Z.leb]; (destruct (0 <=? _); cbn -[Z.leb]; (destruct (0 <=? _); cbn; done)).
Qed.

(** A connection went back to the pool. *)
Record pool_release (c : Client) (w w' : Worker) : Prop := {
  release_fds : world_fds (world w') = world_fds (world w) ∖ descriptors (client c);
  release_unopened : world_unopened (world w') = [];
  release_security : world_security (world w') = world_security (world w);
  release_clients : clients_ w' = clients_ w;
  release_control : control_ w' = control_ w;
  release_generation : config_generation_ w' = config_generation_ w;
  release_listener : listener_ w' = listener_ w;
  release_epoll : worker_epoll_fd_ w' = worker_epoll_fd_ w;
  release_idle : Forall empty_handed (idle_ (connection_pool_ w)) -> Forall empty_handed (idle_ (connection_pool_ w'));
  release_size : size (idle_ (connection_pool_ w)) <= Z.max 0 (max_idle_ (connection_pool_ w)) ->
    size (idle_ (connection_pool_ w')) <= Z.max 0 (max_idle_ (connection_pool_ w'));
}.

Lemma wp_release c w :
  holding (view (world w) c silence) -> wp (release c) (post (fun _ => pool_release c w) failed) w.
Proof using.
  intros [Rf Ru _]%prepare_descriptors. unfold wp, release, on_connection, mbind, state_bind, call, modify.
  destruct (prepare_connection (view (world w) c silence)) as [C R]. pose proof (prepare_security (view (world w) c silence)) as Sec.
  destruct (prepare_for_pool _) as [o s]. cbn in R, C, Sec, Rf, Ru. subst o. cbv [fst snd post mret state_ret].
  constructor; proj; try done; cbn [connection_pool_].
  - intros Id. destruct (_ <? _); [|done]. apply Forall_app. split; [done|]. constructor; [|done].
    cbn [client client_of]. by rewrite C.
  - intros Sz. destruct (Z.ltb_spec (size (idle_ (connection_pool_ w))) (max_idle_ (connection_pool_ w))); [|done].
    cbn [idle_ max_idle_]. rewrite length_app. cbn [length]. lia.
Qed.

(** Forgetting a client together with its descriptors. *)
Lemma parts_released (o own d rest : gset Z) :
  o ## own ∪ (d ∪ rest) -> own ## d ∪ rest -> d ## rest ->
  (o ∪ own ∪ (d ∪ rest)) ∖ d = o ∪ own ∪ rest /\ o ## own ∪ rest /\ own ## rest.
Proof using. intros A B C. split_and!; [apply set_eq; set_solver|set_solver..]. Qed.

Lemma worker_wf_released w w' fd c :
  worker_wf w -> clients_ w !! fd = Some c ->
  pool_release c (w <| clients_ ::= delete fd |> <| world ::= fun x => x <| world_security := close_connection (client_ip_ (client c)) (world_security x) |> |>) w' ->
  worker_wf w' /\ clients_ w' = delete fd (clients_ w).
Proof using.
  intros [W1 W2 W3 W4 W5 W6 W7 W8 W9 W10 W11 W12 W13] L [R1 R2 R3 R4 R5 R6 R7 R8 R9 R10].
  revert R1 R3 R4 R5 R6 R7 R8 R9 R10. proj. intros R1 R3 R4 R5 R6 R7 R8 R9 R10. split; [|done].
  pose proof (client_fds_lookup _ _ _ L) as Split. pose proof (W9 _ _ L) as Apart.
  rewrite Split in W4, W5, W6. destruct (parts_released _ _ _ _ W5 W6 Apart) as (P1 & P2 & P3).
  rewrite W4, P1 in R1. constructor; unfold own_fds in *; rewrite ?R1, ?R3, ?R4, ?R5, ?R6, ?R7, ?R8; auto.
  - intros x Hx. apply W3. rewrite W4. set_solver.
  - intros fd' c2 [N L2]%lookup_delete_Some. destruct (W8 _ _ L2) as [? Wf]. split; [done|].
    refine (wf_world limit [] _ _ _ _ _ Wf R2 _). rewrite R1. apply union_subseteq_r'.
    intros x Hx. apply elem_of_client_fds. exists fd', c2. by rewrite lookup_delete_ne.
  - intros fd' c2 [N L2]%lookup_delete_Some. rewrite delete_delete. intros x Hx Hy%client_fds_delete.
    exact (W9 _ _ L2 x Hx Hy).
  - refine (close_spec [] _ _ _ _). cbn [app]. eapply accounts_perm; [|exact W10].
    by rewrite (client_ips_lookup _ _ _ L).
  - intros Eg fd' c2 [_ L2]%lookup_delete_Some. by eapply W13.
Qed.

Lemma wp_release_client w fd :
  worker_wf w ->
  wp (release_client fd) (post (fun _ w' => (worker_wf w' /\ calm w w') /\ clients_ w' = delete fd (clients_ w)) failed) w.
Proof using.
  intros W. unfold release_client. apply wp_bind, wp_get. destruct (clients_ w !! fd) as [c|] eqn:L.
  2: { apply wp_ret. split; [by split|]. by rewrite delete_id. }
  apply wp_bind, wp_modify. unfold on_security.
  eapply (wp_post_seq _ _ (fun _ w' => w' = w <| clients_ ::= delete fd |> <| world ::= fun x =>
    x <| world_security := close_connection (client_ip_ (client c)) (world_security x) |> |>)); [by unfold wp; cbn|].
  intros [] w1 ->. eapply wp_post_mono; [apply wp_release| |done].
  - destruct (ww_clients _ W _ _ L) as [_ [_ Hd]%wf_holding]. destruct Hd. by constructor.
  - intros [] w2 R. destruct (worker_wf_released _ _ _ _ W L R) as [W2 E]. split; [|done]. split; [done|].
    destruct R as [R1 R2 R3 R4 R5 R6 R7 R8 _ _]. constructor; [|done..|by apply noticed_same]. rewrite E, dom_delete. set_solver.
Qed.

Lemma keeps_release_client fd : keeps_worker (release_client fd).
Proof using. intros w W. eapply wp_post_mono; [by apply wp_release_client|by intros ? ? []|done]. Qed.

(** ** Turns without new clients *)

Lemma keeps_worker_visit m answers fds : (forall fd, client_safe limit (m fd)) -> keeps_worker (visit_clients m answers fds).
Proof using.
  intros S. induction fds as [|fd fds IH]; cbn [visit_clients]; [apply keeps_worker_ret|].
  intros w W. apply wp_bind, wp_get. destruct (clients_ w !! fd) as [c|] eqn:L; [|by apply IH].
  eapply wp_post_seq; [by apply wp_on_client|]. intros r w1 [W1 C1].
  eapply wp_post_mono; [apply (keeps_worker_bind _ _ IH); [intros; apply keeps_worker_ret|done]| |done].
  intros l w2 [W2 C2]. split; [done|by etransitivity].
Qed.

Lemma keeps_worker_tokens ready : keeps_worker (handle_tokens env ready).
Proof using.
  induction ready as [|t ready IH]; cbn [handle_tokens]; [apply keeps_worker_ret|].
  pose proof (safe_handle_token limit env t) as S.
  destruct t as [accepts|fd revents a|fd revents a]; [done|..].
  all: intros w W; apply wp_bind, wp_get; destruct (clients_ w !! fd) as [c|] eqn:L; [|by apply IH].
  all: eapply wp_post_seq; [by apply wp_on_client|]; intros r w1 [W1 C1].
  all: eapply wp_post_mono; [apply (keeps_worker_bind _ _ IH); [intros; apply keeps_worker_ret|done]| |done].
  all: intros l w2 [W2 C2]; split; [done|by etransitivity].
Qed.

Lemma keeps_worker_release_all fds : keeps_worker (for_each fds release_client).
Proof using. apply keeps_worker_for_each, keeps_release_client. Qed.
End invariant.

(** A change of what the invariant reads besides the clients. *)
Lemma worker_wf_move limit outside foreign outside' foreign' w w' :
  worker_wf limit outside foreign w -> clients_ w' = clients_ w -> connection_pool_ w' = connection_pool_ w ->
  (forall config, live_config (control_ w') = Some config -> config_ok limit config) ->
  world_unopened (world w') = [] -> (forall x, x ∈ world_fds (world w') -> 0 <= x) ->
  world_fds (world w') = outside' ∪ own_fds w' ∪ client_fds (clients_ w) ->
  outside' ## own_fds w' ∪ client_fds (clients_ w) -> own_fds w' ## client_fds (clients_ w) ->
  listener_ w' < 0 \/ listener_ w' <> worker_epoll_fd_ w' ->
  accounts (client_ips (clients_ w) ++ foreign') (world_security (world w')) ->
  (config_generation_ w' = config_generation (control_ w') ->
     forall fd c, clients_ w !! fd = Some c -> config_ (client c) = live_config (control_ w')) ->
  worker_wf limit outside' foreign' w'.
Proof.
  intros W E1 E2 ? ? ? Ef ? ? ? ? ?. constructor; rewrite ?E1, ?E2; try done; try apply W.
  intros fd c L. destruct (ww_clients _ _ _ _ W _ _ L) as [? Wf]. split; [done|].
  refine (wf_world limit [] _ _ _ _ _ Wf _ _); [done|]. rewrite Ef. apply union_subseteq_r'.
  intros x Hx. apply elem_of_client_fds. by eauto.
Qed.

Section turns.
Context (limit : Z) `{MapOrder bytes, MapOrder (list bytes)} (env : Environment).
Context (inet_pton : Family -> bytes -> option bytes) (inet_ntop : Family -> bytes -> option bytes).
Context (client_order : gmap Z Client -> list Z).
Context (outside : gset Z) (foreign : list bytes).
Abbreviation worker_wf := (worker_wf limit outside foreign).
Abbreviation keeps_worker := (keeps_worker limit outside foreign).

Lemma keeps_worker_now : keeps_worker (on_world now).
Proof using.
  intros w W. unfold wp, on_world, now. cbn. split; [|by constructor; unfold noticed in *; proj]. destruct W.
  by apply (worker_wf_move limit outside foreign outside foreign w).
Qed.

Lemma keeps_worker_refresh : keeps_worker refresh_client_configs_if_needed.
Proof using.
  intros w W. unfold refresh_client_configs_if_needed. do 2 apply wp_bind, wp_get.
  destruct (_ =? _); [by apply wp_ret|]. apply wp_bind, wp_get.
  destruct (live_config (control_ w)) as [config|] eqn:E; [|by apply wp_ret]. apply wp_modify.
  assert (Fds : client_fds (set_client_config config <$> clients_ w) = client_fds (clients_ w)).
  { unfold client_fds. rewrite map_to_list_fmap, <- list_fmap_compose. f_equal. }
  assert (Ips : client_ips (set_client_config config <$> clients_ w) = client_ips (clients_ w)).
  { unfold client_ips. rewrite map_to_list_fmap, <- list_fmap_compose. apply list_fmap_ext. by intros ? [fd [[]]] _. }
  destruct W as [W1 W2 W3 W4 W5 W6 W7 W8 W9 W10 W11 W12 W13].
  split; [|constructor; unfold noticed in *; proj; try done; by rewrite dom_fmap].
  constructor; unfold own_fds in *; proj; rewrite ?Fds, ?Ips; try done.
  - intros fd c (c0 & <- & L)%lookup_fmap_Some. destruct (W8 _ _ L) as [<- Wf]. split; [by destruct c0 as [[]]|].
    exact (wf_config limit [] config (view (world w) c0 silence) (W1 _ E) Wf).
  - intros fd c (c0 & <- & L)%lookup_fmap_Some. specialize (W9 _ _ L). revert W9. rewrite <- fmap_delete.
    replace (descriptors (client (set_client_config config c0))) with (descriptors (client c0)) by (by destruct c0 as [[]]).
    intros W9 x Hx (fd' & c2 & (c3 & <- & L3)%lookup_fmap_Some & Hy)%elem_of_client_fds. apply (W9 x Hx), elem_of_client_fds.
    exists fd', c3. split; [done|]. by destruct c3 as [[]].
  - intros _ fd c (c0 & <- & L)%lookup_fmap_Some. rewrite E. by destruct c0 as [[]].
Qed.

Lemma keeps_worker_timeouts answers : keeps_worker (enforce_client_timeouts env client_order answers).
Proof using.
  unfold enforce_client_timeouts. apply keeps_worker_bind; [apply keeps_worker_now|]. intros t.
  apply keeps_worker_bind; [apply keeps_worker_get|]. intros fds. apply keeps_worker_bind; [|apply keeps_worker_release_all].
  apply keeps_worker_visit. intros _. apply safe_enforce_timeout.
Qed.
End turns.

(** ** Accepting *)

Section accept.
Context (limit : Z) `{MapOrder bytes, MapOrder (list bytes)}.

(** A connection that has been given the descriptor [fd]. *)
Record adopted (fd : Z) (config : ServerConfig) (ip : bytes) (s s' : Server) : Prop := {
  adopted_fd : fd_ (connection s') = fd;
  adopted_websocket : websocket_upstream_fd_ (connection s') = -1;
  adopted_proxy : reverse_proxy_upstream_fd_ (connection s') = -1;
  adopted_ip : client_ip_ (connection s') = ip;
  adopted_config : config_ (connection s') = Some config;
  adopted_open : open_fds s' = open_fds s;
  adopted_unopened : closed_unopened s' = closed_unopened s;
  adopted_security : security s' = security s;
}.

Lemma empty_holding s : closed_unopened s = [] -> empty_handed (connection s) -> holding s.
Proof using. intros U (E1 & E2 & E3). constructor; [done|by left..|by left]. Qed.

Lemma empty_descriptors c : empty_handed c -> descriptors c = ∅.
Proof using. intros (E1 & E2 & E3). unfold descriptors. by rewrite E1, E2, E3. Qed.

Lemma wp_reset_adopted fd epoll config tls id ip s :
  closed_unopened s = [] -> empty_handed (connection s) ->
  wp (reset fd epoll config tls id ip) (post (fun _ => adopted fd config ip s) (adopted fd config ip s)) s.
Proof using.
  intros U E. unfold reset. pose proof (prepare_security s) as Sec.
  pose proof (prepare_descriptors s (empty_holding s U E)) as [O N _]. rewrite (empty_descriptors _ E) in O.
  pose proof (prepare_connection s) as [C R]. unfold wp, mbind, state_bind.
  destruct (prepare_for_pool s) as [o s1]. cbn [fst snd] in *. subst o.
  assert (Done : forall b k a, adopted fd config ip s ((s1 <| clock := k |> <| answers := a |>) <| connection ::= fun c => c
      <| fd_ := fd |> <| epoll_fd_ := epoll |> <| config_ := Some config |>
      <| tls_context_holder_ := tls |> <| worker_id_ := id |> <| client_ip_ := ip |>
      <| security_state_ := true |>
      <| phase_ := if tls then ClientPhase.tls_handshake else ClientPhase.reading |>
      <| events_ := EPOLLIN |> <| last_activity_ := clock s1 0%nat |> <| request_started_at_ := 0 |>
      <| body_started_at_ := 0 |> <| waiting_for_body_ := false |> <| ssl_ := b |> |>)).
  { intros b k a. constructor; proj; rewrite ?C; try done; [rewrite O; apply set_eq; set_solver|by rewrite N, U]. }
  unfold now, ask, modify, assign, throw. cbv [mret state_ret fst snd]. destruct tls.
  - pose proof (Done (ssl_ (connection s1)) (fun n => clock s1 (S n)) (update tls_setups tail (answers s1))) as D0.
    pose proof (Done true (fun n => clock s1 (S n)) (update tls_setups tail (answers s1))) as D.
    destruct (head _) as [[e|]|]; cbv [fst snd post]; [|exact D..].
    refine (_ D0). destruct s1 as [[]]. clear. intros []. by constructor.
  - refine (_ (Done (ssl_ (connection s1)) (fun n => clock s1 (S n)) (answers s1))). destruct s1 as [[]]. clear. intros []. by constructor.
Qed.

Lemma wp_adopt_connection fd epoll config tls id ip s :
  closed_unopened s = [] -> empty_handed (connection s) -> 0 <= fd -> fd ∈ open_fds s -> config_ok limit config ->
  wp (reset fd epoll config tls id ip ;; add_client_to_epoll)
    (post (fun _ s' => wf limit [] s' /\ adopted fd config ip s s') (adopted fd config ip s)) s.
Proof using.
  intros U E Nn In Ok. eapply wp_post_seq.
  { eapply wp_post_mono; [apply wp_both; [apply (wp_reset limit s fd epoll config tls id ip)|by apply (wp_reset_adopted fd epoll config tls id ip)]| |].
    - by apply empty_holding.
    - done.
    - done.
    - by rewrite empty_descriptors.
    - done.
    - cbn beta. intros a s' [W A]. exact (conj (wf_weaken limit (client_out s) [] s' (prefix_nil _) W) A).
    - by intros s' []. }
  intros [] s1 [W A]. unfold add_client_to_epoll. apply wp_bind, wp_ask.
  assert (Keep : forall e a, wf limit [] (s1 <| answers := a |> <| client_interest := e |>) /\
    adopted fd config ip s (s1 <| answers := a |> <| client_interest := e |>)).
  { intros e a. split; [by refine (wf_same limit [] s1 _ _ W)|]. destruct A. by constructor. }
  destruct (head _) as [[e|]|]; [apply wp_throw|apply wp_bind, wp_get, wp_modify, Keep..].
  destruct A. by constructor.
Qed.

(** The listener and the control block stay. *)
Record same_shell (w w' : Worker) : Prop := {
  shell_control : control_ w' = control_ w;
  shell_listener : listener_ w' = listener_ w;
  shell_epoll : worker_epoll_fd_ w' = worker_epoll_fd_ w;
  shell_noticed : noticed w -> noticed w';
}.

#[export] Instance same_shell_refl : Reflexive same_shell.
Proof using. by intros w. Qed.

#[export] Instance same_shell_trans : Transitive same_shell.
Proof using. intros w1 w2 w3 [] []. constructor; [congruence..|auto]. Qed.

Lemma calm_shell w w' : calm w w' -> same_shell w w'.
Proof using. by intros []. Qed.

Section world.
Context (foreign : list bytes).
Abbreviation worker_wf := (fun o => worker_wf limit o foreign).

Lemma wp_worker_new_fd o w :
  worker_wf o w ->
  wp (on_world new_descriptor)
    (post (fun fd w' => 0 <= fd /\ fd ∉ world_fds (world w) /\ worker_wf ({[fd]} ∪ o) w' /\ same_shell w w'
             /\ clients_ w' = clients_ w) failed) w.
Proof using.
  intros W. unfold wp, on_world, new_descriptor, shared. cbn. destruct (lowest_free_fresh (world_fds (world w))) as [Nn N].
  set (fd := lowest_free _) in *. clearbody fd. split_and!; try done.
  pose proof W as [W1 W2 W3 W4 W5 W6 W7 W8 W9 W10 W11 W12 W13]. rewrite W4 in N.
  apply (worker_wf_move limit o foreign _ _ w); try done; unfold own_fds in *; proj; cbn [world_fds world_unopened world_of];
    proj; cbn [open_fds closed_unopened view].
  - intros x [ -> %elem_of_singleton|Hx]%elem_of_union; [done|by apply W3].
  - rewrite W4. by rewrite <- !(assoc_L (∪)).
  - clear -W5 N. set_solver.
Qed.

Lemma wp_worker_close_fd o fd w :
  fd ∉ o -> worker_wf ({[fd]} ∪ o) w ->
  wp (on_world (close_fd fd)) (post (fun _ w' => worker_wf o w' /\ same_shell w w' /\ clients_ w' = clients_ w) failed) w.
Proof using.
  intros N W. unfold wp, on_world, close_fd, modify. cbn. split_and!; try done.
  pose proof W as [W1 W2 W3 W4 W5 W6 W7 W8 W9 W10 W11 W12 W13].
  assert (P : fd ∈ world_fds (world w)) by (rewrite W4; clear; set_solver).
  apply (worker_wf_move limit ({[fd]} ∪ o) foreign _ _ w); try done; unfold own_fds in *; proj; cbn [world_fds world_unopened world_of];
    proj; cbn [open_fds closed_unopened view].
  - by rewrite decide_True.
  - intros x [Hx _]%elem_of_difference. by apply W3.
  - rewrite W4. clear -W5 N. apply set_eq. set_solver.
  - clear -W5. set_solver.
Qed.
End world.

(** Registering a client that was adopted. *)
Lemma worker_wf_registered o foreign fd ip config w s :
  worker_wf limit ({[fd]} ∪ o) (ip :: foreign) w -> fd ∉ o -> 0 <= fd -> live_config (control_ w) = Some config ->
  wf limit [] s -> adopted fd config ip (view (world w) (mk_client new_connection no_traffic) silence) s ->
  worker_wf limit o foreign (w <| world := world_of s |> <| clients_ ::= insert fd (client_of s) |>).
Proof using.
  intros [W1 W2 W3 W4 W5 W6 W7 W8 W9 W10 W11 W12 W13] N Nn Lc Wf [A1 A2 A3 A4 A5 A6 A7 A8].
  cbn [open_fds closed_unopened security view] in A6, A7, A8.
  assert (D : descriptors (connection s) = {[fd]}).
  { apply set_eq. intros x. rewrite elem_of_descriptors, A1, A2, A3. clear -Nn. set_solver by lia. }
  assert (L0 : clients_ w !! fd = None).
  { destruct (clients_ w !! fd) as [c|] eqn:L; [|done]. exfalso. destruct (W8 _ _ L) as [E Wf0].
    apply (W5 fd); [clear; set_solver|]. apply elem_of_union_r, elem_of_client_fds. exists fd, c. split; [done|].
    apply elem_of_descriptors. by split; [|left]. }
  assert (Notin : forall fd' c2, clients_ w !! fd' = Some c2 -> fd <> fd') by (intros fd' c2 L2 <-; congruence).
  constructor; unfold own_fds in *; proj; cbn [world_fds world_unopened world_security world_of client_of client].
  - done.
  - by rewrite A7.
  - intros x. rewrite A6. apply W3.
  - rewrite client_fds_insert, delete_id by done. cbn [client client_of]. rewrite D, A6, W4. clear. apply set_eq. set_solver.
  - rewrite client_fds_insert, delete_id by done. cbn [client client_of]. rewrite D. clear -W5 N W4. set_solver.
  - rewrite client_fds_insert, delete_id by done. cbn [client client_of]. rewrite D. clear -W5 W6. set_solver.
  - done.
  - intros fd' c2. destruct (decide (fd = fd')) as [<-|Nf].
    + rewrite lookup_insert_eq. intros [= <-]. split; [done|]. cbn [client_of client]. by rewrite view_of; apply wf_answers.
    + rewrite lookup_insert_ne by done. intros L2. destruct (W8 _ _ L2) as [? Wf2]. split; [done|].
      refine (wf_world limit [] _ _ _ _ _ Wf2 _ _); cbn [world_unopened world_fds world_of]; [by rewrite A7|].
      rewrite A6. apply wf_holding in Wf2 as [_ Hd%holding_open]. exact Hd.
  - intros fd' c2. destruct (decide (fd = fd')) as [<-|Nf].
    + rewrite lookup_insert_eq. intros [= <-]. rewrite delete_insert_eq, delete_id by done. cbn [client_of client].
      rewrite D. clear -W5. set_solver.
    + rewrite lookup_insert_ne by done. intros L2. rewrite delete_insert_ne, client_fds_insert by done. cbn [client_of client].
      rewrite D, (delete_id _ fd) by (by rewrite lookup_delete_ne). specialize (W9 _ _ L2).
      assert (Sub : descriptors (client c2) ⊆ client_fds (clients_ w)) by (intros x Hx; apply elem_of_client_fds; by eauto).
      clear -W9 W5 Sub. set_solver.
  - rewrite A8. eapply accounts_perm; [|exact W10]. rewrite client_ips_insert by done. cbn [client_of client]. rewrite A4.
    symmetry. apply Permutation_middle.
  - done.
  - done.
  - intros Eg fd' c2. destruct (decide (fd = fd')) as [<-|Nf].
    + rewrite lookup_insert_eq. intros [= <-]. cbn [client_of client]. by rewrite A5, Lc.
    + rewrite lookup_insert_ne by done. by apply W13.
Qed.

Lemma wp_acquire o foreign w :
  worker_wf limit o foreign w ->
  wp acquire (post (fun c w' => empty_handed c /\ worker_wf limit o foreign w' /\ same_shell w w' /\
    world w' = world w) failed) w.
Proof using.
  intros W. unfold wp, acquire. destruct (last _) as [c|] eqn:E; [|by split_and!].
  apply last_Some in E as [l E]. pose proof (ww_idle _ _ _ _ W) as Id. rewrite E in Id. apply Forall_app in Id as [Id Ec].
  cbn [fst snd post]. split; [by inversion Ec|]. split; [|by split].
  destruct W. constructor; unfold own_fds in *; proj; try done; cbn [idle_ max_idle_]; rewrite E, removelast_last; [done|].
  rewrite E, length_app in ww_idle_size0. lia.
Qed.

(** The descriptor and the address of a client that was not adopted are given back. *)
Lemma worker_wf_refused o foreign fd ip config w s w' :
  worker_wf limit ({[fd]} ∪ o) (ip :: foreign) w -> fd ∉ o -> 0 <= fd ->
  adopted fd config ip (view (world w) (mk_client new_connection no_traffic) silence) s ->
  pool_release (client_of s) (w <| world := world_of s |> <| world ::= fun x => x <| world_security := close_connection ip (world_security x) |> |>) w' ->
  worker_wf limit o foreign w' /\ same_shell w w'.
Proof using.
  intros W N Nn [A1 A2 A3 A4 A5 A6 A7 A8] [R1 R2 R3 R4 R5 R6 R7 R8 R9 R10].
  cbn [open_fds closed_unopened security view] in A6, A7, A8.
  revert R1 R3 R4 R5 R6 R7 R8 R9 R10. proj. cbn [world_security world_fds world_of client_of client]. intros R1 R3 R4 R5 R6 R7 R8 R9 R10.
  assert (D : descriptors (connection s) = {[fd]}).
  { apply set_eq. intros x. rewrite elem_of_descriptors, A1, A2, A3. clear -Nn. set_solver by lia. }
  split; [|by constructor; [..|apply noticed_same]]. pose proof W as [W1 W2 W3 W4 W5 W6 W7 W8 W9 W10 W11 W12 W13].
  rewrite D, A6, W4 in R1. unfold own_fds in *. constructor; unfold own_fds; rewrite ?R4, ?R5, ?R6, ?R7, ?R8; auto.
  - intros x. rewrite R1. intros [Hx _]%elem_of_difference. apply W3. by rewrite W4.
  - rewrite R1. clear -W5 N. apply set_eq. set_solver.
  - clear -W5. set_solver.
  - intros fd' c L. destruct (W8 _ _ L) as [? Wf]. split; [done|]. refine (wf_world limit [] _ _ _ _ _ Wf R2 _).
    rewrite R1. assert (Sub : descriptors (client c) ⊆ client_fds (clients_ w)) by (intros x Hx; apply elem_of_client_fds; by eauto).
    clear -W5 Sub. set_solver.
  - rewrite R3, A8. apply (close_spec (client_ips (clients_ w)) foreign). exact W10.
Qed.

Lemma wp_on_connection {A B} c a (m : Handle A) (f : outcome A * Client -> Work B) Q E P w :
  wp m (post Q E) (view (world w) c a) ->
  (forall r s, post Q E r s -> wp (f (r, client_of s)) P (w <| world := world_of s |>)) ->
  wp (on_connection c a m ≫= f) P w.
Proof using.
  intros W K. apply wp_bind. unfold on_connection. unfold wp at 1. unfold wp in W.
  destruct (m (view (world w) c a)) as [r s]. by apply K.
Qed.

Lemma wp_adopt_client o foreign fd ip config a w :
  worker_wf limit ({[fd]} ∪ o) (ip :: foreign) w -> fd ∉ o -> 0 <= fd -> live_config (control_ w) = Some config ->
  wp (adopt_client fd config ip a) (post (fun _ w' => worker_wf limit o foreign w' /\ same_shell w w') failed) w.
Proof using.
  intros W N Nn Lc. pose proof (ww_config _ _ _ _ W _ Lc) as Ok. unfold adopt_client.
  eapply wp_post_seq; [by apply wp_acquire|]. intros c w1 (Ec & W1 & Sh & Ew). rewrite <- (shell_control _ _ Sh) in Lc.
  do 3 apply wp_bind, wp_get.
  set (s0 := view (world w1) (mk_client c no_traffic) a).
  assert (In : fd ∈ open_fds s0).
  { change (fd ∈ world_fds (world w1)). rewrite (ww_fds _ _ _ _ W1). clear. set_solver. }
  pose proof (fun epoll tls id => wp_adopt_connection fd epoll config tls id ip s0 (ww_unopened _ _ _ _ W1) Ec Nn In Ok) as Ad.
  specialize (Ad (worker_epoll_fd_ w1) (bool_decide (is_Some (live_tls_context (control_ w1)))) (id_ w1)).
  eapply wp_on_connection; [exact Ad|]. clear Ad. intros [[]|e|] s Ad; cbn [post] in Ad.
  - destruct Ad as [Wf Ad]. apply wp_modify. split; [|by destruct Sh; constructor; unfold noticed in *; proj].
    apply (worker_wf_registered o foreign fd ip config w1 s); try done. destruct Ad. by constructor.
  - unfold on_security. eapply (wp_post_seq _ _ (fun _ w' => w' = w1 <| world := world_of s |> <| world ::= fun x =>
      x <| world_security := close_connection ip (world_security x) |> |>)); [by unfold wp; cbn|].
    intros [] w2 ->. eapply wp_post_mono; [apply wp_release| |done].
    + destruct Ad. constructor; cbn [connection open_fds closed_unopened view client_of client world_of]; proj; cbn [world_fds world_unopened world_of].
      * rewrite adopted_unopened0. apply W1.
      * right. rewrite adopted_fd0, adopted_open0. by split.
      * by left.
      * by left.
      * by left.
    + intros [] w3 R. destruct (worker_wf_refused o foreign fd ip config w1 s w3) as [? ?]; try done.
      * destruct Ad. by constructor.
      * split; [done|by transitivity w1].
  - by apply wp_call.
Qed.

Context (inet_pton inet_ntop : Family -> bytes -> option bytes).

(** [inet_ntop] does not answer with an empty text. *)
Definition ntop_text : Prop := forall f a text, inet_ntop f a = Some text -> text <> [].

Lemma rendered_address address : ntop_text -> render_client_ip inet_ntop address <> [].
Proof using.
  intros T. destruct address as [a|a|]; cbn [render_client_ip]; [..|done].
  - destruct (inet_ntop AF_INET a) eqn:E; [by eapply T|done].
  - destruct (is_v4_mapped a).
    + destruct (inet_ntop AF_INET (drop 12 a)) eqn:E; [by eapply T|done].
    + destruct (inet_ntop AF_INET6 a) eqn:E; [by eapply T|done].
Qed.

(** Admission counts the new client. *)
Lemma wp_try_open o foreign ip config w :
  worker_wf limit o foreign w -> ip <> [] ->
  wp (on_security (try_open_connection inet_pton ip config))
    (post (fun d w' => worker_wf limit o (if decide (d = allowed) then ip :: foreign else foreign) w' /\
             same_shell w w' /\ clients_ w' = clients_ w) failed) w.
Proof using.
  intros W Ne. unfold wp, on_security. destruct (try_open_connection _ _ _ _) as [d sec] eqn:E. cbn [fst snd post].
  apply (try_open_spec inet_pton ip config (world_security (world w)) (client_ips (clients_ w) ++ foreign)) in E as [Ac _]; [|apply W|done].
  split; [|by split; [constructor; unfold noticed in *; proj|proj]]. pose proof W as [W1 W2 W3 W4 W5 W6 W7 W8 W9 W10 W11 W12 W13].
  apply (worker_wf_move limit o foreign _ _ w); try done; proj; try done. destruct (decide (d = allowed)); [|done].
  eapply accounts_perm; [|exact Ac]. apply Permutation_middle.
Qed.

Lemma wp_accept_ready o foreign results w :
  ntop_text -> worker_wf limit o foreign w ->
  wp (accept_ready_clients inet_pton inet_ntop results) (post (fun _ w' => worker_wf limit o foreign w' /\ same_shell w w') failed) w.
Proof using.
  intros T. revert w. induction results as [|[address a| |] results IH]; intros w W; cbn [accept_ready_clients];
    [by apply wp_ret| |by apply IH|by apply wp_ret].
  eapply wp_post_seq; [by apply wp_worker_new_fd|]. intros fd w1 (Nn & Fresh & W1 & Sh1 & _).
  assert (N : fd ∉ o) by (rewrite (ww_fds _ _ _ _ W) in Fresh; clear -Fresh; set_solver).
  apply wp_bind, wp_get. destruct (live_config (control_ w1)) as [config|] eqn:Lc.
  2: { eapply wp_post_mono; [by apply wp_worker_close_fd| |done]. intros [] w2 (W2 & Sh2 & _). split; [done|by etransitivity]. }
  eapply wp_post_seq; [by apply wp_try_open, rendered_address|]. intros d w2 (W2 & Sh2 & _).
  apply (wp_post_seq _ _ (fun _ w' => worker_wf limit o foreign w' /\ same_shell w w')).
  - case_bool_decide as D.
    + rewrite decide_True in W2 by done. eapply wp_post_mono; [by apply (wp_adopt_client o foreign); [..|rewrite (shell_control _ _ Sh2)]| |done].
      intros [] w3 [W3 Sh3]. split; [done|]. by do 2 (etransitivity; [done|]).
    + rewrite decide_False in W2 by done. eapply wp_post_mono; [by apply wp_worker_close_fd| |done].
      intros [] w3 (W3 & Sh3 & _). split; [done|]. by do 2 (etransitivity; [done|]).
  - intros [] w3 [W3 Sh3]. eapply wp_post_mono; [by apply IH| |done]. intros [] w4 [W4 Sh4]. split; [done|by etransitivity].
Qed.
End accept.
