(* ===== verification/WorkerSpec.v ===== *)
(** * WorkerSpec: what a worker promises to the server

    The states that a worker reaches, its invariant, and the graceful
    shutdown. *)

From S2P Require Import Prelude Text Numbers Request Http1Frame Response StaticFiles Handler BodyStream Waf VirtualHost ReverseProxy Http2Session Config Security WebSocket State Connection ProxyExchange WebSocketProxy Reactor ConnectionFacts ReactorFacts SocketFacts RelayFacts EventFacts Scenarios ConnectionSpec FrameFacts Worker WorkerFacts.

Section worker.
Context (limit : Z) `{MapOrder bytes, MapOrder (list bytes)} (env : Environment).
Context (inet_pton inet_ntop : Family -> bytes -> option bytes).
Context (client_order : gmap Z Client -> list Z).
Abbreviation worker_wf := (worker_wf limit).
Abbreviation turn := (turn env inet_pton inet_ntop client_order).
Abbreviation work_loop := (work_loop env inet_pton inet_ntop client_order).
Abbreviation work := (work env inet_pton inet_ntop client_order).

(** ** The start *)

Lemma wp_required o f what w :
  worker_wf o f w -> wp (required what) (post (fun _ w' => worker_wf o f w' /\ same_shell w w') failed) w.
Proof using.
  intros W. unfold required. apply wp_bind. unfold wp at 1, next_call. cbn [fst snd].
  assert (W1 : worker_wf o f (w <| calls_ ::= tail |>) /\ same_shell w (w <| calls_ ::= tail |>)).
  { split; [|by constructor; unfold noticed in *; proj]. destruct W. by constructor; unfold own_fds in *; proj. }
  by destruct (default None _); [apply wp_throw|apply wp_ret].
Qed.

(** A new descriptor becomes the worker's. *)
Lemma worker_wf_epoll o f fd w :
  worker_wf ({[fd]} ∪ o) f w -> fd ∉ o -> 0 <= fd -> worker_epoll_fd_ w = -1 -> listener_ w = -1 ->
  worker_wf o f (w <| worker_epoll_fd_ := fd |>).
Proof using.
  intros W N Nn E1 E2. pose proof W as [W1 W2 W3 W4 W5 W6 W7 W8 W9 W10 W11 W12 W13].
  assert (Own : own_fds w = ∅) by (unfold own_fds; by rewrite E1, E2).
  assert (Own' : own_fds (w <| worker_epoll_fd_ := fd |>) = {[fd]}).
  { unfold own_fds. proj. rewrite E2. apply set_eq. intros x. rewrite elem_of_list_to_set, list_elem_of_filter. clear -Nn. set_solver by lia. }
  rewrite Own in *. apply (worker_wf_move limit ({[fd]} ∪ o) f _ _ w); rewrite ?Own'; try done; proj; try done.
  - rewrite W4. clear. apply set_eq. set_solver.
  - clear -W5 N. set_solver.
  - clear -W5. set_solver.
  - left. rewrite E2. lia.
Qed.

Lemma worker_wf_listener o f fd w :
  worker_wf ({[fd]} ∪ o) f w -> fd ∉ o -> 0 <= fd -> listener_ w = -1 ->
  worker_wf o f (w <| listener_ := fd |>).
Proof using.
  intros W N Nn E2. pose proof W as [W1 W2 W3 W4 W5 W6 W7 W8 W9 W10 W11 W12 W13].
  assert (Own' : own_fds (w <| listener_ := fd |>) = {[fd]} ∪ own_fds w).
  { unfold own_fds. proj. rewrite E2. apply set_eq. intros x.
    rewrite elem_of_union, !elem_of_list_to_set, !list_elem_of_filter. clear -Nn. set_solver by lia. }
  assert (Ne : fd <> worker_epoll_fd_ w).
  { intros ->. apply (W5 (worker_epoll_fd_ w)); [clear; set_solver|]. apply elem_of_union_l. unfold own_fds.
    rewrite elem_of_list_to_set, list_elem_of_filter. split; [done|left]. }
  apply (worker_wf_move limit ({[fd]} ∪ o) f _ _ w); rewrite ?Own'; try done; proj; try done.
  - rewrite W4. clear. apply set_eq. set_solver.
  - clear -W5 N. set_solver.
  - clear -W5 W6. set_solver.
  - by right.
Qed.

Lemma wp_create_listener o f w :
  worker_wf o f w ->
  wp (create_listener inet_pton)
    (post (fun fd w' => 0 <= fd /\ fd ∉ o /\ worker_wf ({[fd]} ∪ o) f w' /\ same_shell w w') failed) w.
Proof using.
  intros W. unfold create_listener. apply wp_bind, wp_get. apply wp_bind, wp_call.
  destruct (make_bind_address _ _ _) as [addr|e|]; [|done..].
  eapply wp_post_seq; [by apply wp_required|]. intros [] w1 [W1 Sh1].
  eapply wp_post_seq; [by apply wp_worker_new_fd|]. intros fd w2 (Nn & Fresh & W2 & Sh2 & _).
  assert (N : fd ∉ o) by (rewrite (ww_fds _ _ _ _ W1) in Fresh; clear -Fresh; set_solver).
  unfold owning_fd. eapply (wp_post_try _ _ _ _ failed); [|by intros e w3 _].
  assert (Step : forall {B} (m : Work unit) (k : Work B) Q w, worker_wf ({[fd]} ∪ o) f w ->
    (forall w, worker_wf ({[fd]} ∪ o) f w -> wp m (post (fun _ w' => worker_wf ({[fd]} ∪ o) f w' /\ same_shell w w') failed) w) ->
    (forall w', worker_wf ({[fd]} ∪ o) f w' -> same_shell w w' -> wp k (post Q failed) w') -> wp (m ;; k) (post Q failed) w).
  { intros B m k Q w3 W3 Hm Hk. eapply wp_post_seq; [by apply Hm|]. intros [] w4 [W4 Sh4]. by apply Hk. }
  apply Step; [done|intros; by apply wp_required|]. intros w3 W3 Sh3.
  apply Step; [done|intros; destruct (reuse_port_enabled _); [by apply wp_required|by apply wp_ret]|]. intros w4 W4 Sh4.
  apply Step; [done|intros; by apply wp_required|]. intros w5 W5 Sh5.
  apply Step; [done|intros; by apply wp_required|]. intros w6 W6 Sh6.
  apply wp_ret. split_and!; try done. by repeat (etransitivity; [done|]).
Qed.

(** What the server hands to a new worker. *)
Record world_ok (config : ServerConfig) (control : RuntimeControl) (foreign : list bytes) (w : World) : Prop := {
  world_ok_config : forall config, live_config control = Some config -> config_ok limit config;
  world_ok_unopened : world_unopened w = [];
  world_ok_nonneg : forall x, x ∈ world_fds w -> 0 <= x;
  world_ok_counters : accounts foreign (world_security w);
}.

Lemma wp_start id config control foreign world calls :
  world_ok config control foreign world ->
  wp (start inet_pton)
    (post (fun _ w' => worker_wf (world_fds world) foreign w' /\ 0 <= listener_ w' /\ control_ w' = control) failed)
    (new_worker id config control world calls).
Proof using.
  intros [O1 O2 O3 O4]. set (w := new_worker _ _ _ _ _). assert (W : worker_wf (world_fds world) foreign w).
  { constructor; try done.
    - cbn. rewrite client_fds_empty. apply set_eq. set_solver.
    - by left.
    - cbn. lia. }
  assert (E1 : worker_epoll_fd_ w = -1) by done. assert (E2 : listener_ w = -1) by done. assert (E3 : control_ w = control) by done.
  clearbody w. unfold start.
  eapply wp_post_seq; [by apply wp_required|]. intros [] w1 [W1 [C1 L1 P1]].
  eapply wp_post_seq; [by apply wp_worker_new_fd|]. intros fd w2 (Nn & Fresh & W2 & [C2 L2 P2] & _).
  assert (N : fd ∉ world_fds world) by (rewrite (ww_fds _ _ _ _ W1) in Fresh; clear -Fresh; set_solver).
  apply wp_bind, wp_modify. apply (worker_wf_epoll _ _ fd) in W2; [|done..|congruence|congruence].
  eapply wp_post_seq; [by apply wp_create_listener|]. intros fd' w3 (Nn' & N' & W3 & [C3 L3 P3]).
  revert C3 L3. proj. intros C3 L3. apply wp_bind, wp_modify.
  apply (worker_wf_listener _ _ fd') in W3; [|done..|congruence].
  eapply wp_post_mono; [by apply wp_required| |done]. intros [] w4 [W4 [C4 L4 P4]]. revert C4 L4. proj. intros C4 L4.
  split_and!; [done| |congruence]. by rewrite L4.
Qed.

(** ** One turn *)

(** What other threads may do while the worker sleeps: they publish
    configurations within the bound - every publication has a generation of
    its own - they hold descriptors of their own, and their clients are
    counted. *)
Record elsewhere_ok (foreign : list bytes) (w : Worker) (e : Elsewhere) : Prop := {
  elsewhere_config : forall config, live_config (elsewhere_control e) = Some config -> config_ok limit config;
  elsewhere_generation : config_generation (elsewhere_control e) = config_generation (control_ w) ->
    live_config (elsewhere_control e) = live_config (control_ w);
  elsewhere_current : config_generation_ w = config_generation (elsewhere_control e) ->
    config_generation_ w = config_generation (control_ w);
  elsewhere_nonneg : forall x, x ∈ elsewhere_fds e -> 0 <= x;
  elsewhere_apart : elsewhere_fds e ## own_fds w ∪ client_fds (clients_ w);
  elsewhere_counters : accounts (client_ips (clients_ w) ++ foreign) (elsewhere_security e);
}.

Lemma wp_sleep o f f' e w :
  worker_wf o f w -> elsewhere_ok f' w e ->
  wp (sleep e) (post (fun _ w' => worker_wf (elsewhere_fds e) f' w' /\ listener_ w' = listener_ w /\
    clients_ w' = clients_ w /\ control_ w' = elsewhere_control e) failed) w.
Proof using.
  intros W [E1 E2 E3 E4 E5 E6]. apply wp_modify. split; [|by proj].
  pose proof W as [W1 W2 W3 W4 W5 W6 W7 W8 W9 W10 W11 W12 W13].
  apply (worker_wf_move limit o f _ _ w); try done; unfold own_fds in *; proj; cbn [world_fds world_unopened]; try done.
  - intros x Hx. apply elem_of_union in Hx as [Hx|]; [|auto]. apply W3. rewrite W4. clear -Hx. set_solver.
  - clear. apply set_eq. set_solver.
  - intros Eg fd c L. specialize (E3 Eg). rewrite E2 by congruence. by eapply W13.
Qed.

Lemma wp_stop_accepting o f w :
  worker_wf o f w ->
  wp stop_accepting (post (fun _ w' => worker_wf o f w' /\ control_ w' = control_ w /\ clients_ w' = clients_ w /\
    config_generation_ w' = config_generation_ w /\
    worker_epoll_fd_ w' = worker_epoll_fd_ w /\ listener_ w' < 0 /\ own_fds w' ⊆ own_fds w) failed) w.
Proof using.
  intros W. unfold stop_accepting. apply wp_bind, wp_get. destruct (Z.ltb_spec (listener_ w) 0) as [L|L]; [by apply wp_ret; split_and!|].
  unfold wp, on_world, close_fd, modify, mbind, state_bind. cbn. split_and!; try done.
  - pose proof W as [W1 W2 W3 W4 W5 W6 W7 W8 W9 W10 W11 W12 W13].
    assert (Own : listener_ w ∈ own_fds w).
    { unfold own_fds. rewrite elem_of_list_to_set, list_elem_of_filter. split; [done|right; left]. }
    assert (Ne : listener_ w <> worker_epoll_fd_ w) by (destruct W7; [lia|done]).
    assert (Own' : forall wd, own_fds (w <| world := wd |> <| listener_ := -1 |>) = own_fds w ∖ {[listener_ w]}).
    { intros wd. unfold own_fds. proj. apply set_eq. intros x.
      rewrite elem_of_difference, !elem_of_list_to_set, !list_elem_of_filter. clear -L Ne. set_solver by lia. }
    apply (worker_wf_move limit o f _ _ w); rewrite ?Own'; try done; proj; cbn [world_fds world_unopened world_of]; proj;
      cbn [open_fds closed_unopened view]; try done.
    + rewrite decide_True; [done|]. rewrite W4. clear -Own. set_solver.
    + intros x [Hx _]%elem_of_difference. by apply W3.
    + rewrite W4. clear -Own W5 W6. apply set_eq. set_solver.
    + clear -W5. set_solver.
    + clear -W6. set_solver.
    + left. lia.
  - repeat case_decide; set_solver by lia.
Qed.

Section turns.
Context (ntop : ntop_text inet_ntop).

(** What a turn keeps, besides the invariant, of the state it slept in. *)
Record turned (draining : Draining) (w w' : Worker) : Prop := {
  turned_listener : listener_ w' = listener_ w;
  turned_epoll : worker_epoll_fd_ w' = worker_epoll_fd_ w;
  turned_clients : draining <> None -> dom (clients_ w') ⊆ dom (clients_ w);
  turned_control : control_ w' = control_ w;
  turned_noticed : noticed w -> noticed w';
}.

Lemma calm_turned d w w' : calm w w' -> turned d w w'.
Proof using. intros []. by constructor. Qed.

#[local] Instance turned_trans d : Transitive (turned d).
Proof using. 
  intros w1 w2 w3 [L1 E1 C1 K1 N1] [L2 E2 C2 K2 N2]. constructor; [congruence..| |congruence|auto].
  intros N. by transitivity (dom (clients_ w2)); auto.
Qed.

Lemma wp_calm {A B} o f d (m : Work A) (k : A -> Work B) w0 w :
  keeps_worker limit o f m -> worker_wf o f w -> turned d w0 w ->
  (forall a w', worker_wf o f w' -> turned d w0 w' -> wp (k a) (post (fun _ w' => worker_wf o f w' /\ turned d w0 w') failed) w') ->
  wp (m ≫= k) (post (fun _ w' => worker_wf o f w' /\ turned d w0 w') failed) w.
Proof using.
  intros Km W T Kk. eapply wp_post_seq; [by apply Km|]. intros a w1 [W1 C]. apply Kk; [done|].
  etransitivity; [exact T|by apply calm_turned].
Qed.

(** After the configurations were refreshed. *)
Lemma wp_serve_rest o f d t ready w :
  worker_wf o f w ->
  wp ((if decide (d = None) then for_each ready (accept_token inet_pton inet_ntop) else mret tt) ;;
      closed_clients ← handle_tokens env ready;
      for_each closed_clients release_client ;;
      enforce_client_timeouts env client_order (timeout_answers t))
    (post (fun _ w' => worker_wf o f w' /\ turned d w w') failed) w.
Proof using ntop.
  intros W1. eapply (wp_post_seq _ _ (fun _ w' => worker_wf o f w' /\ turned d w w')).
  - case_decide as D; [subst d|by apply wp_ret].
    eapply (wp_post_mono _ (fun _ w' => worker_wf o f w' /\ same_shell w w') _ failed).
    + revert w W1. induction ready as [|tok ready IH]; intros w1 W1; cbn [for_each]; [by apply wp_ret|].
      eapply (wp_post_seq _ _ (fun _ w' => worker_wf o f w' /\ same_shell w1 w')).
      * destruct tok; cbn [accept_token]; [by apply wp_accept_ready|by apply wp_ret..].
      * intros [] w2 [W2 S2]. eapply wp_post_mono; [by apply IH| |done]. intros [] w3 [W3 S3]. split; [done|by etransitivity].
    + intros [] w2 [W2 [S1 S2 S3 S4]]. split; [done|]. by constructor.
    + done.
  - intros [] w2 [W2 T2]. apply (wp_calm o f d); [apply keeps_worker_tokens|done|done|]. intros closed w3 W3 T3.
    apply (wp_calm o f d); [apply keeps_worker_release_all|done|done|]. intros [] w4 W4 T4.
    eapply wp_post_mono; [by apply (keeps_worker_timeouts limit env client_order o f)| |done].
    intros [] w5 [W5 C5]. split; [done|]. etransitivity; [exact T4|by apply calm_turned].
Qed.

Lemma refresh_notices w :
  is_Some (live_config (control_ w)) -> noticed (refresh_client_configs_if_needed w).2.
Proof using.
  intros [config E]. unfold refresh_client_configs_if_needed, mbind, state_bind, get, mret, state_ret, modify, noticed.
  destruct (Z.eqb_spec (config_generation (control_ w)) (config_generation_ w)) as [Eg|N]; [done|]. rewrite E. cbn [snd]. by proj.
Qed.

(** A worker that was woken has noticed the newest configuration. *)
Definition aware (t : Turn) (w w' : Worker) : Prop :=
  forall ready, wait t = Woken ready -> is_Some (live_config (control_ w)) -> noticed w'.

Lemma wp_serve o f d t w :
  worker_wf o f w ->
  wp (serve env inet_pton inet_ntop client_order d t)
    (post (fun _ w' => worker_wf o f w' /\ turned d w w' /\ aware t w w') failed) w.
Proof using ntop.
  intros W. unfold serve, aware. destruct (wait t) as [|what|ready]; [by apply wp_ret|by apply wp_throw|].
  eapply (wp_post_seq _ _ (fun _ w' => (worker_wf o f w' /\ calm w w') /\ (is_Some (live_config (control_ w)) -> noticed w'))).
  - pose proof (keeps_worker_refresh limit o f w W) as K. pose proof (refresh_notices w) as N.
    unfold wp in *. destruct (refresh_client_configs_if_needed w) as [[[]|e|] w1]; cbn in *; [by split|done..].
  - intros [] w1 [[W1 C1] N1]. eapply wp_post_mono; [by apply (wp_serve_rest o f)| |done]. intros [] w2 [W2 T2].
    split; [done|]. split; [etransitivity; [by apply calm_turned|done]|]. intros r _ L. by apply (turned_noticed _ _ _ T2), N1.
Qed.

Lemma elsewhere_less f w w' e :
  elsewhere_ok f w e -> clients_ w' = clients_ w -> control_ w' = control_ w ->
  config_generation_ w' = config_generation_ w -> own_fds w' ⊆ own_fds w -> elsewhere_ok f w' e.
Proof using.
  intros [E1 E2 E3 E4 E5 E6] Ec Eo Eg Sub. constructor; rewrite ?Ec, ?Eo, ?Eg; try done. clear -E5 Sub. set_solver.
Qed.

Lemma wp_begin_draining o f f' e w :
  worker_wf o f w -> elsewhere_ok f' w e ->
  wp begin_draining (post (fun _ w' => worker_wf o f w' /\ listener_ w' < 0 /\ elsewhere_ok f' w' e /\
    worker_epoll_fd_ w' = worker_epoll_fd_ w /\ clients_ w' = clients_ w) failed) w.
Proof using.
  intros W El. unfold begin_draining. do 2 apply wp_bind, wp_get.
  eapply (wp_post_seq _ _ (fun _ w' => worker_wf o f w' /\ w' = w <| world := world w' |>)).
  { pose proof (keeps_worker_now limit o f w W) as K. unfold wp, on_world, now in *. cbn in *. by destruct K. }
  intros t w1 [W1 E1]. eapply wp_post_seq; [by apply wp_stop_accepting|].
  intros [] w2 (W2 & C2 & Cl2 & G2 & P2 & L2 & Sub). apply wp_ret. rewrite E1 in C2, Cl2, G2, P2, Sub. revert C2 Cl2 G2 P2 Sub. proj.
  intros C2 Cl2 G2 P2 Sub. split_and!; try done. eapply elsewhere_less; [exact El|done..|]. by unfold own_fds in *; revert Sub; proj.
Qed.

(** The listener is open until the worker drains. *)
Definition listening (d : Draining) (w : Worker) : Prop :=
  match d with None => 0 <= listener_ w | Some _ => listener_ w < 0 end.

(** The worker knows what the other threads have published. *)
Definition refreshed (t : Turn) (w' : Worker) : Prop :=
  control_ w' = elsewhere_control (elsewhere t) /\
  forall ready, wait t = Woken ready -> is_Some (live_config (control_ w')) -> noticed w'.

(** After [sleep] and [serve]. *)
Record slept (d : Draining) (t : Turn) (f : list bytes) (w w' : Worker) : Prop := {
  slept_wf : worker_wf (elsewhere_fds (elsewhere t)) f w';
  slept_listener : listener_ w' = listener_ w;
  slept_clients : d <> None -> dom (clients_ w') ⊆ dom (clients_ w);
  slept_refreshed : refreshed t w';
}.

Lemma wp_assoc {A B C} (m : Work A) (g : A -> Work B) (k : B -> Work C) Q w :
  wp ((m ≫= g) ≫= k) Q w -> wp (m ≫= fun a => g a ≫= k) Q w.
Proof using. unfold wp, mbind, state_bind. by destruct (m w) as [[a|e|] w']. Qed.

Lemma wp_sleep_serve o f f' d t w :
  worker_wf o f w -> elsewhere_ok f' w (elsewhere t) ->
  wp (sleep (elsewhere t) ;; serve env inet_pton inet_ntop client_order d t)
    (post (fun _ => slept d t f' w) failed) w.
Proof using ntop.
  intros W El. eapply wp_post_seq; [by apply (wp_sleep o f f')|]. intros [] w1 (W1 & L1 & C1 & K1).
  eapply wp_post_mono; [by apply wp_serve| |done]. intros [] w2 (W2 & [L2 P2 C2 K2 N2] & A2). constructor; [done|congruence|by rewrite <- C1|].
  split; [congruence|]. intros ready Wk. rewrite K2. by apply A2 with ready.
Qed.

Definition turn_ends (o : gset Z) (f f' : list bytes) (d : Draining) (t : Turn) (w : Worker)
    (next : option Draining) (w' : Worker) : Prop :=
  match next with
  | None => worker_wf o f w'
  | Some d' =>
      worker_wf (elsewhere_fds (elsewhere t)) f' w' /\ listening d' w' /\
      (d <> None -> d' = d) /\ (d' <> None -> dom (clients_ w') ⊆ dom (clients_ w)) /\ refreshed t w'
  end.

Lemma keeps_close_all o f : keeps_worker limit o f (close_all_clients client_order).
Proof using.
  unfold close_all_clients. apply keeps_worker_bind; [apply keeps_worker_get|]. intros fds. apply keeps_worker_release_all.
Qed.

(** Draining, once it has begun. *)
Lemma wp_turn_draining o f f' deadline t w :
  worker_wf o f w -> listener_ w < 0 -> elsewhere_ok f' w (elsewhere t) ->
  wp (no_clients ← get (fun w => bool_decide (clients_ w = ∅));
      if no_clients : bool then mret None
      else
        t_now ← on_world now;
        if deadline <=? t_now then close_all_clients client_order ;; mret None
        else sleep (elsewhere t) ;; serve env inet_pton inet_ntop client_order (Some deadline) t ;; mret (Some (Some deadline)))
    (post (fun next w' => match next with
       | None => worker_wf o f w'
       | Some d' => worker_wf (elsewhere_fds (elsewhere t)) f' w' /\ listener_ w' < 0 /\ d' = Some deadline /\
           dom (clients_ w') ⊆ dom (clients_ w) /\ refreshed t w'
       end) failed) w.
Proof using ntop.
  intros W L El. apply wp_bind, wp_get. case_bool_decide; [by apply wp_ret|].
  eapply (wp_post_seq _ _ (fun _ w' => worker_wf o f w' /\ w' = w <| world := world w' |>)).
  { pose proof (keeps_worker_now limit o f w W) as K. unfold wp, on_world, now in *. cbn in *. by destruct K. }
  intros t_now w1 [W1 E1]. destruct (_ <=? _).
  - eapply wp_post_seq; [by apply keeps_close_all|]. intros [] w2 [W2 _]. by apply wp_ret.
  - apply wp_assoc, (wp_post_seq _ _ (fun _ => slept (Some deadline) t f' w)).
    2: { intros [] w2 [W2 L2 C2 R2]. apply wp_ret. split_and!; [done|by rewrite L2|done|by apply C2|done]. }
    eapply wp_post_mono; [apply (wp_sleep_serve o f f' (Some deadline) t w1 W1)| |done].
    + by eapply elsewhere_less; [exact El|rewrite E1; unfold own_fds; proj..].
    + intros [] w2 [W2 L2 C2 R2]. rewrite E1 in L2, C2. revert L2 C2. proj. intros L2 C2. by constructor.
Qed.

Lemma wp_turn o f f' d t w :
  worker_wf o f w -> listening d w -> elsewhere_ok f' w (elsewhere t) ->
  wp (turn d t) (post (turn_ends o f f' d t w) failed) w.
Proof using ntop.
  intros W L El. unfold Worker.turn. apply wp_bind, wp_get. destruct d as [deadline|]; cbn [listening] in L.
  - apply wp_bind, wp_ret. eapply wp_post_mono; [by apply (wp_turn_draining o f f')| |done].
    intros [d'|] w1; cbn [turn_ends]; [|done]. intros (W1 & L1 & -> & C1 & R1). split_and!; auto.
  - destruct (_ || _).
    + apply wp_post_bind. eapply wp_post_seq; [by apply (wp_begin_draining o f f')|].
      intros deadline w1 (W1 & L1 & El1 & P1 & C1). apply wp_ret.
      eapply wp_post_mono; [by apply (wp_turn_draining o f f')| |done].
      intros [d'|] w2; cbn [turn_ends]; [|done]. intros (W2 & L2 & -> & C2 & R2). rewrite C1 in C2. by split_and!.
    + apply wp_bind, wp_ret. apply wp_bind, wp_get.
      apply wp_assoc, (wp_post_seq _ _ (fun _ => slept None t f' w)); [by apply (wp_sleep_serve o f f')|].
      intros [] w2 [W2 L2 C2 R2]. apply wp_ret. split; [done|]. split; [cbn [listening]; by rewrite L2|by split_and!].
Qed.

(** ** The states of a worker *)

(** A worker that was started, after some turns of its loop: [o] and [f] are
    the descriptors and the clients elsewhere. *)
Inductive working : Draining -> Worker -> gset Z -> list bytes -> Prop :=
| working_started id config control f world calls w :
    world_ok config control f world ->
    start inet_pton (new_worker id config control world calls) = (Ret tt, w) ->
    working None w (world_fds world) f
| working_turned d w o f t f' d' w' :
    working d w o f -> elsewhere_ok f' w (elsewhere t) -> turn d t w = (Ret (Some d'), w') ->
    working d' w' (elsewhere_fds (elsewhere t)) f'.

Lemma working_wf d w o f : working d w o f -> worker_wf o f w /\ listening d w.
Proof using ntop.
  induction 1 as [id config control f world calls w Ok St|d w o f t f' d' w' _ [W L] El Tn].
  - pose proof (wp_run _ _ _ _ _ (wp_start id config control f world calls Ok) St) as (W & L & _). by split.
  - pose proof (wp_run _ _ _ _ _ (wp_turn o f f' d t w W L El) Tn) as (W' & L' & _). by split.
Qed.

(** What a reader may rely on in every state of a worker. *)
Record orderly (d : Draining) (w : Worker) (o : gset Z) (f : list bytes) : Prop := {
  orderly_client : forall fd c, clients_ w !! fd = Some c ->
    fd_ (client c) = fd /\ sound limit (view (world w) c silence);
  orderly_open : world_fds (world w) = o ∪ own_fds w ∪ client_fds (clients_ w);
  orderly_own : o ## own_fds w ∪ client_fds (clients_ w) /\ own_fds w ## client_fds (clients_ w);
  orderly_apart : forall fd fd' c c', clients_ w !! fd = Some c -> clients_ w !! fd' = Some c' -> fd <> fd' ->
    descriptors (client c) ## descriptors (client c');
  orderly_once : world_unopened (world w) = [];
  orderly_counts : accounts (client_ips (clients_ w) ++ f) (world_security (world w));
  orderly_pool : Forall empty_handed (idle_ (connection_pool_ w)) /\
    size (idle_ (connection_pool_ w)) <= Z.max 0 (max_idle_ (connection_pool_ w));
  orderly_config : config_generation_ w = config_generation (control_ w) ->
    forall fd c, clients_ w !! fd = Some c -> config_ (client c) = live_config (control_ w);
  orderly_listener : listening d w;
}.

(** C8. Whatever its clients, their upstreams and the system calls do, a
    worker keeps its clients apart: in every state that it reaches each
    client is in a sound state and is known by its own descriptor; the open
    descriptors are exactly those of the other threads, the worker's own and
    those that its clients hold - none is leaked, shared by two owners or
    closed twice; the counters of [SecurityState] are exactly the clients of
    this worker and the others'; pooled connection objects hold nothing and
    are at most [connection_pool_size]; every client uses the newest
    configuration that the worker has noticed; and the listener is open until
    the worker drains. *)
Theorem worker_invariant d w o f : working d w o f -> orderly d w o f.
Proof using ntop.
  intros [W L]%working_wf. destruct W as [W1 W2 W3 W4 W5 W6 W7 W8 W9 W10 W11 W12 W13]. constructor; try done.
  - intros fd c Lk. destruct (W8 _ _ Lk) as [? Wf]. split; [done|by apply wf_sound].
  - intros fd fd' c c' Lk Lk' N x Hx Hx'. apply (W9 _ _ Lk x Hx), elem_of_client_fds. exists fd', c'.
    by rewrite lookup_delete_ne.
Qed.

(** ** Shutting down *)

Lemma release_returns c w : (release c w).1 = Ret tt.
Proof using.
  unfold release, on_connection, mbind, state_bind, call, modify.
  pose proof (prepare_connection (view (world w) c silence)) as [_ R].
  destruct (prepare_for_pool _) as [o s]. cbn in *. by subst o.
Qed.

Lemma release_client_returns fd w : (release_client fd w).1 = Ret tt.
Proof using.
  unfold release_client, mbind, state_bind, get, modify, on_security. cbn. destruct (clients_ w !! fd); [|done].
  apply release_returns.
Qed.

Lemma release_all_returns fds w : (for_each fds release_client w).1 = Ret tt.
Proof using.
  revert w; induction fds as [|fd fds IH]; intros w; cbn [for_each]; [done|]. unfold mbind, state_bind.
  pose proof (release_client_returns fd w) as R. destruct (release_client fd w) as [o w1]. cbn in R. subst o. apply IH.
Qed.

Lemma close_all_returns w : (close_all_clients client_order w).1 = Ret tt.
Proof using. apply release_all_returns. Qed.

Lemma wp_release_each o f fds w :
  worker_wf o f w ->
  wp (for_each fds release_client)
    (post (fun _ w' => worker_wf o f w' /\ calm w w' /\
             forall fd c, clients_ w' !! fd = Some c -> clients_ w !! fd = Some c /\ fd ∉ fds) failed) w.
Proof using.
  clear ntop. revert w; induction fds as [|fd fds IH]; intros w W; cbn [for_each].
  { apply wp_ret. split_and!; [done..|]. intros fd c Lk. split; [done|set_solver]. }
  eapply wp_post_seq; [by apply wp_release_client|]. intros [] w1 [[W1 C1] E1].
  eapply wp_post_mono; [by apply IH| |done]. intros [] w2 (W2 & C2 & K2). split_and!; [done|by etransitivity|].
  intros fd' c Lk. destruct (K2 _ _ Lk) as [Lk1 N]. rewrite E1 in Lk1. apply lookup_delete_Some in Lk1 as [Ne Lk1].
  split; [done|]. set_solver.
Qed.

(** The iteration over the clients visits all of them. *)
Context (visits_all : forall m fd, fd ∈ client_order m <-> fd ∈ dom m).

Lemma wp_close_all o f w :
  worker_wf o f w ->
  wp (close_all_clients client_order) (post (fun _ w' => worker_wf o f w' /\ calm w w' /\ clients_ w' = ∅) failed) w.
Proof using visits_all.
  intros W. unfold close_all_clients. apply wp_bind, wp_get. eapply wp_post_mono; [by apply wp_release_each| |done].
  intros [] w1 (W1 & C1 & K1). split_and!; [done..|]. apply map_eq. intros fd. rewrite lookup_empty.
  destruct (clients_ w1 !! fd) as [c|] eqn:E; [|done]. destruct (K1 _ _ E) as [Lk N]. destruct N.
  apply visits_all. by apply elem_of_dom_2 in Lk.
Qed.

(** Nothing of a worker is left: [o] and [f] are the others' descriptors and
    clients. *)
Record cleaned_up (o : gset Z) (f : list bytes) (w : Worker) : Prop := {
  cleaned_clients : clients_ w = ∅;
  cleaned_fds : world_fds (world w) = o ∪ list_to_set (filter (fun fd => 0 <= fd) [worker_epoll_fd_ w]);
  cleaned_counters : accounts f (world_security (world w));
  cleaned_once : world_unopened (world w) = [];
}.

Lemma stop_returns w : (stop_accepting w).1 = Ret tt.
Proof using. unfold stop_accepting, mbind, state_bind, get. cbn. by destruct (_ <? _). Qed.

Lemma wp_clean_up o f w :
  worker_wf o f w ->
  wp (close_all_clients client_order ;; stop_accepting) (post (fun _ => cleaned_up o f) failed) w.
Proof using visits_all.
  intros W. eapply wp_post_seq; [by apply wp_close_all|]. intros [] w1 (W1 & C1 & E1).
  eapply wp_post_mono; [by apply wp_stop_accepting| |done]. intros [] w2 (W2 & C2 & E2 & G2 & P2 & L2 & _).
  rewrite E1 in E2. destruct W2 as [_ U _ F _ _ _ _ _ Ac _ _ _]. rewrite E2 in F, Ac.
  constructor; [done| | |done].
  - rewrite F, client_fds_empty. unfold own_fds. rewrite (right_id_L ∅ (∪)). f_equal.
    rewrite !filter_cons. rewrite (decide_False (P := 0 <= listener_ w2)) by lia. by destruct (decide _).
  - unfold client_ips in Ac. by rewrite map_to_list_empty in Ac.
Qed.

(** C13. A worker that was asked to stop shuts down gracefully: while it drains
    it admits no new client and its deadline does not move; the turn that
    finds no client or the deadline passed leaves the loop; and what follows
    the loop then returns with every client released, its descriptors closed
    once, its counters given back and its listener closed. *)
Theorem graceful_shutdown deadline w o f :
  working (Some deadline) w o f ->
  (forall t f' d' w', elsewhere_ok f' w (elsewhere t) -> turn (Some deadline) t w = (Ret (Some d'), w') ->
     d' = Some deadline /\ dom (clients_ w') ⊆ dom (clients_ w)) /\
  (forall t, clients_ w = ∅ \/ deadline <= world_clock (world w) 0%nat ->
     exists w' w'', turn (Some deadline) t w = (Ret None, w') /\
       (close_all_clients client_order ;; stop_accepting) w' = (Ret tt, w'') /\ cleaned_up o f w'').
Proof using ntop visits_all.
  intros [W L]%working_wf. split.
  - intros t f' d' w' El R. pose proof (wp_run _ _ _ _ _ (wp_turn o f f' (Some deadline) t w W L El) R) as (_ & _ & E & D & _).
    assert (d' = Some deadline) as -> by (by apply E). split; [done|by apply D].
  - intros t Due. assert (R : exists w', turn (Some deadline) t w = (Ret None, w') /\ worker_wf o f w').
    { unfold Worker.turn, mbind, state_bind, get, mret, state_ret. case_bool_decide as Em; [by exists w|].
      destruct Due as [?|Due]; [done|]. unfold on_world at 1, now at 1. cbn [view clock]. apply Z.leb_le in Due. rewrite Due.
      match goal with |- context [close_all_clients client_order ?x] => set (w1 := x) end.
      assert (W1 : worker_wf o f w1).
      { pose proof (keeps_worker_now limit o f w W) as K. unfold wp in K. by destruct K. }
      clearbody w1. pose proof (close_all_returns w1) as Rt. pose proof (wp_close_all o f w1 W1) as Cl. unfold wp in Cl.
      destruct (close_all_clients client_order w1) as [r w2]. cbn in Rt. subst r. destruct Cl as (W2 & _). by exists w2. }
    destruct R as (w' & R & W'). exists w', ((close_all_clients client_order ;; stop_accepting) w').2. split; [done|].
    pose proof (wp_clean_up o f w' W') as Cl. unfold wp, mbind, state_bind in *. pose proof (close_all_returns w') as Rt.
    destruct (close_all_clients client_order w') as [r w2]. cbn in Rt. subst r. pose proof (stop_returns w2) as Rs.
    destruct (stop_accepting w2) as [r w3]. cbn in Rs. subst r. by split.
Qed.

(** ** The whole life of a worker *)

(** Every turn finds the other threads within bounds. *)
Fixpoint undisturbed (turns : list Turn) (d : Draining) (w : Worker) : Prop :=
  match turns with
  | [] => True
  | t :: turns' =>
      exists f', elsewhere_ok f' w (elsewhere t) /\
        forall d' w', turn d t w = (Ret (Some d'), w') -> undisturbed turns' d' w'
  end.

Lemma wp_work_loop turns d w o f :
  worker_wf o f w -> listening d w -> undisturbed turns d w ->
  wp (work_loop turns d) (post (fun _ w' => exists o' f', worker_wf o' f' w') failed) w.
Proof using ntop.
  revert d w o f; induction turns as [|t turns IH]; intros d w o f W L U; cbn [Worker.work_loop]; [by apply wp_call|].
  destruct U as (f' & El & U). pose proof (wp_turn o f f' d t w W L El) as Tn. apply wp_bind. unfold wp at 1. unfold wp in Tn.
  destruct (turn d t w) as [[[d'|]|e|] w'] eqn:E; cbn [fst snd post turn_ends] in *; try done.
  - destruct Tn as (W' & L' & _). by eapply IH; [exact W'|exact L'|apply U].
  - apply wp_ret. by exists o, f.
Qed.

(** A worker that returns has returned everything: whatever happens in
    between, after [Worker::run] no client is left, the descriptors that are
    open are the other threads' and the worker's [epoll], every counter is
    back at the others' clients, and nothing was closed twice. *)
Theorem worker_returns_everything id config control f world calls turns w' :
  world_ok config control f world ->
  (forall w, start inet_pton (new_worker id config control world calls) = (Ret tt, w) -> undisturbed turns None w) ->
  work turns (new_worker id config control world calls) = (Ret tt, w') ->
  exists o' f', cleaned_up o' f' w'.
Proof using ntop visits_all.
  intros Ok U R. refine (wp_run (S := Worker) (work turns) (post (fun _ w' => exists o' f', cleaned_up o' f' w') failed) _ _ _ _ R).
  unfold Worker.work. pose proof (wp_start id config control f world calls Ok) as St. apply wp_bind.
  unfold wp at 1. unfold wp in St. destruct (start inet_pton _) as [[[]|e|] w1] eqn:E; cbn [fst snd post] in *; try done.
  destruct St as (W1 & L1 & _). eapply wp_post_seq; [by eapply wp_work_loop; [exact W1|exact L1|apply U]|].
  intros [] w2 (o' & f' & W2). eapply wp_post_mono; [by apply (wp_clean_up o' f')| |done]. intros [] w3 C. by exists o', f'.
Qed.
End turns.
End worker.

(** ** A worker with one client *)

Definition example_ntop (f : Family) (a : bytes) : option bytes := Some (str "10.0.0.1").
Definition example_order (m : gmap Z Client) : list Z := base.elements (dom m).

Definition example_control : RuntimeControl := publish_config example_config new_control.

(** The server has the standard descriptors open; at the fifth look six
    seconds have passed. *)
Definition example_world : World :=
  mk_world (fun n => if (n <? 4)%nat then Z.of_nat n else 6 * 10 ^ 9) initial_security (mk_proxy_state 0 ∅) (fun _ => mk_attempt 0 0 (fun _ => Raise "unreachable"))
    (list_to_set [0; 1; 2]) [].

Abbreviation example_start := (start dotted (new_worker 0 example_config example_control example_world [])).
Abbreviation example_turn := (turn example_env dotted example_ntop example_order).

(** Nothing happens elsewhere. *)
Definition nothing_elsewhere (w : Worker) : Elsewhere :=
  mk_elsewhere (control_ w) (world_security (world w)) (world_proxies (world w)) (world_turns (world w)) (list_to_set [0; 1; 2]).

(** A client connects. *)
Definition connecting_turn (w : Worker) : Turn :=
  mk_turn false (nothing_elsewhere w) (Woken [ListenerToken [Accepted (PeerIpv4 []) silence]]) (fun _ => silence).

(** It sends a request, and the server is told to stop. *)
Definition requesting_turn (w : Worker) : Turn :=
  mk_turn true (nothing_elsewhere w)
    (Woken [ClientToken 5 EPOLLIN (silence <| client_reads := [ReadData get_request] |>)]) (fun _ => silence).

Definition with_client : Worker := (example_turn None (connecting_turn example_start.2) example_start.2).2.
Abbreviation draining_worker := ((example_turn None (requesting_turn with_client) with_client).2).

Lemma ran {A} (r : outcome A * Worker) o : r.1 = o -> r = (o, r.2).
Proof. destruct r as [x w]. cbn. by intros ->. Qed.

Lemma example_world_ok : world_ok 100 example_config example_control [] example_world.
Proof.
  constructor; [|done| |].
  - intros config. cbn. intros [= <-]. vm_compute. by split.
  - intros x. cbn. rewrite !elem_of_union, !elem_of_singleton. rewrite elem_of_empty. lia.
  - split_and!; [done| |done]. intros ip. unfold connections_of. cbn. by rewrite lookup_empty.
Qed.

Lemma nothing_elsewhere_ok f w :
  worker_wf 100 (list_to_set [0; 1; 2]) f w -> elsewhere_ok 100 f w (nothing_elsewhere w).
Proof.
  intros [W1 W2 W3 W4 W5 W6 W7 W8 W9 W10 W11 W12 W13]. constructor; try done.
  intros x Hx. apply W3. rewrite W4. by do 2 apply elem_of_union_l.
Qed.

Lemma example_ntop_text : ntop_text example_ntop.
Proof. by intros f a text [= <-]. Qed.

Abbreviation example_working := (working 100 example_env dotted example_ntop example_order).

Lemma with_client_working : example_working None with_client (list_to_set [0; 1; 2]) [].
Proof.
  pose proof (working_started 100 example_env dotted example_ntop example_order 0 example_config example_control []
    example_world [] example_start.2 example_world_ok) as St.
  assert (R : example_start = (Ret tt, example_start.2)) by (apply ran; vm_compute; reflexivity).
  specialize (St R). refine (working_turned _ _ _ _ _ _ _ _ _ (connecting_turn example_start.2) [] _ _ St _ _).
  - apply nothing_elsewhere_ok. by apply (working_wf 100 example_env dotted example_ntop example_order example_ntop_text) in St as [].
  - unfold with_client. apply ran. vm_compute. reflexivity.
Qed.

Lemma worker_invariant_witness :
  orderly 100 None with_client (list_to_set [0; 1; 2]) [] /\ dom (clients_ with_client) = {[5]} /\
  world_fds (world with_client) = list_to_set [0; 1; 2; 3; 4; 5].
Proof.
  split; [|split; vm_compute; reflexivity].
  exact (worker_invariant 100 example_env dotted example_ntop example_order example_ntop_text _ _ _ _ with_client_working).
Defined.

Lemma draining_working : example_working (Some (5 * 10 ^ 9 + 2)) draining_worker (list_to_set [0; 1; 2]) [].
Proof.
  pose proof with_client_working as St.
  refine (working_turned _ _ _ _ _ _ _ _ _ (requesting_turn with_client) [] _ _ St _ _).
  - apply nothing_elsewhere_ok. by apply (working_wf 100 example_env dotted example_ntop example_order example_ntop_text) in St as [].
  - apply ran. vm_compute. reflexivity.
Qed.

Lemma example_order_visits m fd : fd ∈ example_order m <-> fd ∈ dom m.
Proof. unfold example_order. by rewrite elem_of_elements. Qed.

(** The deadline passes while the client does not read its response. *)
Lemma graceful_shutdown_witness :
  dom (clients_ draining_worker) = {[5]} /\
  exists w' w'', example_turn (Some (5 * 10 ^ 9 + 2)) (connecting_turn draining_worker) draining_worker = (Ret None, w') /\
    (close_all_clients example_order ;; stop_accepting) w' = (Ret tt, w'') /\
    cleaned_up (list_to_set [0; 1; 2]) [] w''.
Proof.
  split; [vm_compute; reflexivity|].
  apply (graceful_shutdown 100 example_env dotted example_ntop example_order example_ntop_text example_order_visits
    _ _ _ _ draining_working).
  right. vm_compute. discriminate.
Defined.
