(* ===== verification/DaemonSpec.v ===== *)
(** * DaemonSpec: reloading and shutting down

    What SIGHUP, SIGTERM and failing workers do to the process: a reload takes
    effect as a whole or not at all and leaves the process as a restart would
    with the certificates it last read, a request to stop is never missed, and the exit status tells of workers
    that failed before the loop ended. *)

From S2P Require Import Prelude Text Numbers Request Http1Frame Response StaticFiles Waf VirtualHost Config ConfigFacts State Tls TlsSpec Security Worker Daemon.

(** ** Contexts of equal settings *)

(** Paths with equal elements name the same file. *)
Record same_files (ssl : OpenSsl) : Prop := {
  same_certificate : forall a b, path_of a = path_of b ->
    ssl_ctx_use_certificate_file ssl (c_str a) = ssl_ctx_use_certificate_file ssl (c_str b);
  same_private_key : forall a b, path_of a = path_of b ->
    ssl_ctx_use_private_key_file ssl (c_str a) = ssl_ctx_use_private_key_file ssl (c_str b);
}.

Lemma make_ssl_context_path ssl settings cert cert' key key' label :
  same_files ssl -> path_of cert = path_of cert' -> path_of key = path_of key' ->
  make_ssl_context ssl settings cert key label = make_ssl_context ssl settings cert' key' label.
Proof. intros [C K] Ec Ek. unfold make_ssl_context. by rewrite (C _ _ Ec), (K _ _ Ek). Qed.

Lemma settings_unchanged c c' :
  tls_runtime_settings_changed c c' = false ->
  path_of (tls_certificate_file c) = path_of (tls_certificate_file c') /\
  path_of (tls_private_key_file c) = path_of (tls_private_key_file c') /\
  (tls_min_version c, tls_max_version c, tls_cipher_list c, tls_ciphersuites c) =
  (tls_min_version c', tls_max_version c', tls_cipher_list c', tls_ciphersuites c') /\
  (tls_alpn_protocols c, tls_sni_hosts c, tls_sni_certificates c, tls_sni_required c) =
  (tls_alpn_protocols c', tls_sni_hosts c', tls_sni_certificates c', tls_sni_required c').
Proof.
  unfold tls_runtime_settings_changed. rewrite !orb_false_iff, !negb_false_iff, !bool_decide_eq_true. intros H. decompose [and] H. split_and!; congruence.
Qed.

Lemma tls_context_agrees r r' ssl c c' :
  config_wf r c -> config_wf r' c' -> tls_enabled c = true -> tls_enabled c' = true -> same_files ssl ->
  tls_runtime_settings_changed c c' = false -> make_tls_context ssl c = make_tls_context ssl c'.
Proof.
  intros W W' T T' Sf (Ec & Ek & [= V1 V2 V3 V4] & [= A1 A2 A3 A4])%settings_unchanged.
  destruct (wf_offered _ _ W T) as [_ B]. destruct (wf_offered _ _ W' T') as [_ B'].
  unfold make_tls_context. rewrite B, B', A1, A2, A3, A4, V1, V2, V3, V4. cbn [mbind outcome_bind].
  destruct (tls_version_number (tls_min_version c')); cbn [mbind outcome_bind]; [|done..].
  destruct (tls_version_number (tls_max_version c')); cbn [mbind outcome_bind]; [|done..].
  by rewrite (make_ssl_context_path _ _ _ _ _ _ _ Sf Ec Ek).
Qed.

Lemma blockers_none c c' :
  live_reload_blockers c c' = [] <->
  host c = host c' /\ port c = port c' /\ listen_backlog c = listen_backlog c' /\ worker_threads c = worker_threads c' /\
  epoll_max_events c = epoll_max_events c' /\ reuse_port_enabled c = reuse_port_enabled c' /\
  connection_pool_size c = connection_pool_size c' /\ http1_enabled c = http1_enabled c' /\ tls_enabled c = tls_enabled c'.
Proof.
  assert (Add : forall V (E : EqDecision V) keys key (a b : V), add_changed_key keys key a b = [] <-> keys = [] /\ a = b).
  { intros. unfold add_changed_key. case_bool_decide; [tauto|]. split; [by intros [_ ?]%app_nil|by intros []]. }
  unfold live_reload_blockers. rewrite !Add. tauto.
Qed.

(** With TLS, something is served whatever a configuration says. *)
Lemma wf_serves r c : config_wf r c -> tls_enabled c = true -> serves_clients c = true.
Proof.
  intros W T. destruct (wf_alpn _ _ W) as [N F]. destruct (wf_alpn_enabled _ _ W T) as [E1 E2].
  unfold serves_clients, alpn_protocol_configured. unfold alpn_protocols in *. fold (split_csv (tls_alpn_protocols c)) in *.
  destruct (split_csv (tls_alpn_protocols c)) as [|p ps]; [done|]. apply Forall_cons in F as [[-> | ->] _].
  - rewrite E1 by left. done.
  - rewrite E2 by left. cbn [andb existsb]. rewrite bool_decide_true by done. by rewrite !orb_true_r.
Qed.

Section daemon.
Context (inet_pton : Family -> bytes -> option bytes) (hardware_concurrency : Z).
Abbreviation start_server := (start_server hardware_concurrency).
Abbreviation load := (load inet_pton).
Abbreviation reload := (reload inet_pton).
Abbreviation pass := (pass inet_pton).

(** ** One reload *)

(** A new configuration, with the context that comes with it. *)
Definition put (next : ServerConfig) (context : option TlsContext) (d : Daemon) : Daemon :=
  match context with
  | Some t => d <| tls_context := Some t |> <| control ::= publish_tls_context (Some t) |>
  | None => d
  end <| config_ := next |> <| control ::= publish_config next |>.

Lemma reload_run s d :
  reload s d =
  match load s (database_path (config_ d)) with
  | Raise e => (Ret (ReloadFailed e), d)
  | Timeout => (Timeout, d)
  | Ret next =>
      match live_reload_blockers (config_ d) next with
      | (_ :: _) as blockers => (Ret (Ignored (join_keys blockers)), d)
      | [] =>
          if tls_enabled (config_ d) && tls_runtime_settings_changed (config_ d) next then
            match make_tls_context (openssl s) next with
            | Ret t => (Ret Applied, put next (Some t) d)
            | Raise e => (Ret (ReloadFailed e), d)
            | Timeout => (Timeout, d)
            end
          else (Ret Applied, put next None d)
      end
  end.
Proof.
  unfold Daemon.reload, try_catch, mbind, state_bind, get, call. destruct (load _ _) as [next|e|]; [|done..].
  destruct (live_reload_blockers _ _); [|done]. destruct (_ && _); [|done].
  by destruct (make_tls_context _ _).
Qed.

(** What a reload may do to the process. *)
Inductive reloaded (s : Surroundings) (d : Daemon) : Reload -> Daemon -> Prop :=
| reloaded_failed_load e : load s (database_path (config_ d)) = Raise e -> reloaded s d (ReloadFailed e) d
| reloaded_ignored next :
    load s (database_path (config_ d)) = Ret next -> live_reload_blockers (config_ d) next <> [] ->
    reloaded s d (Ignored (join_keys (live_reload_blockers (config_ d) next))) d
| reloaded_failed_tls next e :
    load s (database_path (config_ d)) = Ret next -> live_reload_blockers (config_ d) next = [] ->
    tls_enabled next = true -> make_tls_context (openssl s) next = Raise e -> reloaded s d (ReloadFailed e) d
| reloaded_plain next :
    load s (database_path (config_ d)) = Ret next -> live_reload_blockers (config_ d) next = [] ->
    (tls_enabled next = true -> tls_runtime_settings_changed (config_ d) next = false) ->
    reloaded s d Applied (put next None d)
| reloaded_tls next t :
    load s (database_path (config_ d)) = Ret next -> live_reload_blockers (config_ d) next = [] ->
    tls_enabled next = true -> make_tls_context (openssl s) next = Ret t ->
    tls_runtime_settings_changed (config_ d) next = true ->
    reloaded s d Applied (put next (Some t) d).

Lemma reload_reloaded s d r d' : reload s d = (Ret r, d') -> reloaded s d r d'.
Proof.
  rewrite reload_run. destruct (load _ _) as [next|e|] eqn:L; [|intros [= <- <-]; by apply reloaded_failed_load|done].
  destruct (live_reload_blockers (config_ d) next) as [|b bs] eqn:B.
  - assert (T : tls_enabled (config_ d) = tls_enabled next) by (apply blockers_none in B; tauto).
    destruct (tls_enabled (config_ d) && _) eqn:C.
    + apply andb_true_iff in C as [C Ch]. rewrite T in C.
      destruct (make_tls_context _ _) as [t|e|] eqn:Mk; intros [= <- <-]; [by eapply reloaded_tls|by eapply reloaded_failed_tls].
    + intros [= <- <-]. eapply reloaded_plain; [done..|]. intros E. rewrite T, E in C. done.
  - rewrite <- B. intros E. assert (r = Ignored (join_keys (live_reload_blockers (config_ d) next)) /\ d' = d) as [-> ->] by naive_solver.
    eapply reloaded_ignored; [done|]. by rewrite B.
Qed.

(** ** One pass *)

Definition is_raise {A} (r : outcome A) : bool := match r with Raise _ => true | _ => false end.

Lemma returned_control l c :
  foldl (fun c r => worker_returned r c) c l =
    if existsb is_raise l then c <| worker_failed := true |> <| shutdown_requested := true |> else c.
Proof.
  revert c; induction l as [|r l IH]; intros c; [done|]. cbn [foldl existsb]. rewrite IH.
  destruct r; cbn [is_raise worker_returned orb]; [done| |done]. by destruct (existsb _ l), c.
Qed.

(** A signal that asks the server to stop. *)
Definition stops (s : Signal) : bool := bool_decide (s = SIGTERM) || bool_decide (s = SIGINT).

Lemma delivered l f :
  g_shutdown_signal_requested (foldl handle_runtime_signal f l) = g_shutdown_signal_requested f || existsb stops l /\
  g_reload_signal_requested (foldl handle_runtime_signal f l) = g_reload_signal_requested f || bool_decide (SIGHUP ∈ l).
Proof.
  revert f; induction l as [|s l IH]; intros f; cbn [foldl existsb].
  { by rewrite bool_decide_false, !orb_false_r by apply not_elem_of_nil. }
  destruct (IH (handle_runtime_signal f s)) as [-> ->].
  assert (Mem : bool_decide (SIGHUP ∈ s :: l) = bool_decide (s = SIGHUP) || bool_decide (SIGHUP ∈ l)).
  { rewrite <- bool_decide_or. apply bool_decide_ext. rewrite elem_of_cons. split; intros [?|?]; auto. }
  rewrite Mem. by destruct s; cbn; rewrite ?orb_true_r, ?orb_false_r.
Qed.

(** Nobody has asked the process to stop. *)
Record quiet (d : Daemon) : Prop := {
  quiet_flag : g_shutdown_signal_requested (flags d) = false;
  quiet_control : shutdown_requested (control d) = false;
  quiet_workers : worker_failed (control d) = false;
}.

Definition with_flags (f : Flags) (d : Daemon) : Daemon := d <| flags := f |>.

(** What reading the flags leaves of a SIGHUP. *)
Definition pending (p : Pass) (d : Daemon) : bool := g_reload_signal_requested (flags d) || bool_decide (SIGHUP ∈ signals p).

(** A request to stop that the pass sees. *)
Definition asked (p : Pass) : bool := existsb is_raise (returned p) || existsb stops (signals p ++ later_signals p).

Definition same_process (d d' : Daemon) : Prop :=
  config_ d' = config_ d /\ tls_context d' = tls_context d /\ control d' = control d.

Lemma reloaded_shutdown s d r d' :
  reloaded s d r d' -> flags d' = flags d /\ shutdown_requested (control d') = shutdown_requested (control d) /\
    worker_failed (control d') = worker_failed (control d).
Proof. by destruct 1; destruct d as [? ? ? []]. Qed.

Lemma deliver_flags l d : deliver l d = (Ret tt, with_flags (foldl handle_runtime_signal (flags d) l) d).
Proof. by destruct d. Qed.

(** How a pass ends. *)
Inductive passed (p : Pass) (d : Daemon) : option (option Reload) -> Daemon -> Prop :=
| passed_failure d' :
    existsb is_raise (returned p) = true -> shutdown_requested (control d') = true -> worker_failed (control d') = true ->
    passed p d None d'
| passed_on done d' :
    existsb is_raise (returned p) = false ->
    (match done with
     | None => pending p d = false /\ same_process d d'
     | Some r => pending p d = true /\ exists f d2, reloaded (surroundings p) (with_flags f d) r d2 /\ same_process d2 d'
     end) ->
    existsb stops (signals p ++ later_signals p) = false -> quiet d' ->
    g_reload_signal_requested (flags d') = bool_decide (SIGHUP ∈ later_signals p) ->
    passed p d (Some done) d'
| passed_signal d' :
    existsb is_raise (returned p) = false -> existsb stops (signals p ++ later_signals p) = true ->
    shutdown_requested (control d') = true -> worker_failed (control d') = false -> passed p d None d'.

Lemma pass_end p d1 dn d0 f :
  existsb is_raise (returned p) = false ->
  g_shutdown_signal_requested f = existsb stops (signals p) ->
  g_reload_signal_requested f = false ->
  flags d1 = f -> shutdown_requested (control d1) = false -> worker_failed (control d1) = false ->
  (match dn with
   | None => pending p d0 = false /\ same_process d0 d1
   | Some r => pending p d0 = true /\ exists f' d2, reloaded (surroundings p) (with_flags f' d0) r d2 /\ same_process d2 d1
   end) ->
  exists r d',
    (deliver (later_signals p) ;;
     shutdown ← get (fun d => g_shutdown_signal_requested (flags d));
     if shutdown : bool then
       modify (fun d => d <| control ::= fun c => c <| shutdown_requested := true |> |>) ;;
       mret None
     else mret (Some dn)) d1 = (Ret r, d') /\ passed p d0 r d'.
Proof.
  intros R Fs Fr <- Sd Wf H. unfold mbind, state_bind, get, modify, mret, state_ret. rewrite deliver_flags.
  destruct (delivered (later_signals p) (flags d1)) as [Ds Dr]. unfold with_flags at 1 2. proj.
  assert (S : g_shutdown_signal_requested (foldl handle_runtime_signal (flags d1) (later_signals p)) =
    existsb stops (signals p ++ later_signals p)) by (by rewrite Ds, Fs, existsb_app).
  set (f := foldl _ _ _) in *. clearbody f. unfold with_flags. proj.
  destruct (g_shutdown_signal_requested f) eqn:E; do 2 eexists; (split; [reflexivity|]).
  - apply passed_signal; [done|by rewrite <- S|..]; proj; by destruct (control d1).
  - apply passed_on; [done| |by rewrite <- S|by constructor; proj|proj; by rewrite Dr, Fr].
    destruct dn as [r|].
    + destruct H as (P & f' & d2 & Rl & Sp). split; [done|]. exists f', d2. split; [done|]. unfold same_process in *. by proj.
    + destruct H as (P & Sp). split; [done|]. unfold same_process in *. by proj.
Qed.

(** What surrounds the process: equal paths are one file, and looking at a
    file returns or throws. *)
Record surroundings_ok (s : Surroundings) : Prop := {
  surroundings_files : same_files (openssl s);
  surroundings_settle : forall f, settles (regular_file s f);
}.

Lemma settles_load s path : surroundings_ok s -> settles (load s path).
Proof.
  intros [_ S]. unfold Daemon.load. destruct (database_file s path); [done|].
  apply settles_fmap, settles_load_config, S.
Qed.

Lemma reload_total s d : surroundings_ok s -> exists r d', reload s d = (Ret r, d').
Proof.
  intros Ok. rewrite reload_run. pose proof (settles_load s (database_path (config_ d)) Ok) as L.
  destruct (load _ _) as [next|e|]; [|by eauto|done]. destruct (live_reload_blockers _ _); [|by eauto].
  destruct (_ && _); [|by eauto]. pose proof (settles_make_tls_context (openssl s) next) as S.
  destruct (make_tls_context _ _); by eauto.
Qed.

Lemma bind_eq {S A B} (m : M S A) (f : A -> M S B) s a s' : m s = (Ret a, s') -> (m ≫= f) s = f a s'.
Proof. intros E. unfold mbind, state_bind. by rewrite E. Qed.

Lemma workers_return_eq l d :
  workers_return l d = (Ret tt, if existsb is_raise l
    then d <| control ::= fun c => c <| worker_failed := true |> <| shutdown_requested := true |> |> else d).
Proof.
  unfold workers_return, modify. f_equal. destruct d as [c f t ctl]. unfold update at 1, at_control at 1. cbn.
  rewrite returned_control. by destruct (existsb is_raise l).
Qed.

Lemma pass_total p d :
  quiet d -> surroundings_ok (surroundings p) -> exists r d', pass p d = (Ret r, d') /\ passed p d r d'.
Proof.
  intros [Qf Qc Qw] Ok. unfold Daemon.pass. rewrite (bind_eq _ _ _ _ _ (workers_return_eq (returned p) d)).
  destruct (existsb is_raise (returned p)) eqn:R.
  - rewrite (bind_eq _ _ _ _ _ (deliver_flags _ _)). unfold mbind, state_bind, get, mret, state_ret, with_flags. proj.
    do 2 eexists. split; [reflexivity|]. apply passed_failure; [done|..]; proj; by destruct (control d).
  - rewrite (bind_eq _ _ _ _ _ (deliver_flags _ _)). destruct (delivered (signals p) (flags d)) as [Ds Dr].
    rewrite Qf in Ds. cbn [orb] in Ds. fold (pending p d) in Dr. set (f := foldl _ _ _) in *. clearbody f.
    set (d1 := with_flags f d).
    rewrite (bind_eq (get (fun d => shutdown_requested (control d))) _ d1 false d1)
      by (unfold get, d1, with_flags; proj; by rewrite Qc).
    rewrite (bind_eq (get (fun d => g_reload_signal_requested (flags d))) _ d1 (pending p d) d1)
      by (unfold get, d1, with_flags; proj; by rewrite Dr).
    destruct (pending p d) eqn:P; cbv beta iota.
    + set (d2 := with_flags (mk_flags (g_shutdown_signal_requested f) false (g_last_signal f)) d).
      destruct (reload_total (surroundings p) d2 Ok) as (r & d3 & E).
      assert (E' : (modify (fun d => d <| flags ::= fun f => mk_flags (g_shutdown_signal_requested f) false (g_last_signal f) |>) ;;
                    report ← reload (surroundings p); mret (Some report)) d1 = (Ret (Some r), d3)).
      { rewrite (bind_eq _ _ d1 tt d2) by (unfold d1, d2; by destruct d). by rewrite (bind_eq _ _ _ _ _ E). }
      rewrite (bind_eq _ _ _ _ _ E'). apply reload_reloaded in E. destruct (reloaded_shutdown _ _ _ _ E) as (Ef & Es & Ew).
      eapply (pass_end p d3 (Some r) d (flags d3)); try done; rewrite ?Ef, ?Es, ?Ew; unfold d2, with_flags; proj; try done.
      split; [done|]. by exists (mk_flags (g_shutdown_signal_requested f) false (g_last_signal f)), d3.
    + rewrite (bind_eq _ _ d1 None d1) by done.
      eapply (pass_end p d1 None d f); try done; unfold d1, with_flags; by proj.
Qed.

(** ** The states of the process *)

Definition applied (r : option Reload) : bool := match r with Some Applied => true | _ => false end.

(** After the start and some passes of the loop; [n] reloads were applied. *)
Inductive running (config : ServerConfig) : Daemon -> nat -> Prop :=
| running_started s d :
    surroundings_ok s -> start_server config s = Ret d -> running config d 0
| running_passed d n p r d' :
    running config d n -> surroundings_ok (surroundings p) -> pass p d = (Ret (Some r), d') ->
    running config d' (if applied r then S n else n).

(** The live configuration is the one of the process, and has a context
    exactly with TLS. *)
Record coherent (config : ServerConfig) (d : Daemon) (n : nat) : Prop := {
  coherent_quiet : quiet d;
  coherent_config : live_config (control d) = Some (config_ d);
  coherent_generation : config_generation (control d) = Z.of_nat (S n) mod 2 ^ 64;
  coherent_live_context : live_tls_context (control d) = tls_context d;
  coherent_keys : live_reload_blockers config (config_ d) = [];
  coherent_database : database_path (config_ d) = database_path config;
  coherent_wf : exists r, config_wf r (config_ d);
  coherent_tls : is_Some (tls_context d) <-> tls_enabled (config_ d) = true;
}.

Lemma coherent_start config s d :
  (exists r, config_wf r config) -> surroundings_ok s -> start_server config s = Ret d -> coherent config d 0.
Proof.
  intros Wf Ok H. unfold Daemon.start_server in H. inv_ret. subst. constructor; try done; cbn.
  - by apply blockers_none.
  - destruct (tls_enabled config); [|inv_ret; subst; by split; [intros []|]].
    destruct (make_tls_context _ _); [|done..]. cbn in *. inv_ret. subst. by split; [|by eexists].
Qed.

Lemma load_loaded s path c :
  load s path = Ret c -> config_wf (regular_file s) c /\ database_path c = path.
Proof.
  unfold Daemon.load. destruct (database_file s path) as [e|db]; [done|].
  destruct (load_config_from_database _ _ _ _) as [[c' db']|e|] eqn:L; [|done..]. intros [= <-].
  split; [by eapply loaded_wf|]. unfold load_config_from_database in L. inv_ret. subst. by destruct x0.
Qed.

Lemma blockers_trans c1 c2 c3 :
  live_reload_blockers c1 c2 = [] -> live_reload_blockers c2 c3 = [] -> live_reload_blockers c1 c3 = [].
Proof. rewrite !blockers_none. intros H1 H2. decompose [and] H1. decompose [and] H2. split_and!; congruence. Qed.

Lemma coherent_reload config d n s f r d1 d' :
  coherent config d n -> surroundings_ok s -> reloaded s (with_flags f d) r d1 -> same_process d1 d' -> quiet d' ->
  coherent config d' (if applied (Some r) then S n else n).
Proof.
  intros [_ C1 C2 C3 C4 C5 C6 C7] Ok H (E1 & E2 & E3) Q. unfold with_flags in H.
  destruct H as [e L|next L B|next e L B T M|next L B Un|next t L B T M]; revert E1 E2 E3; unfold put; proj; intros E1 E2 E3.
  1-3: constructor; rewrite ?E1, ?E2, ?E3; done.
  all: revert L B; proj; intros L B; destruct (load_loaded _ _ _ L) as [Wf P];
    assert (Te : tls_enabled (config_ d) = tls_enabled next) by (apply blockers_none in B; tauto);
    constructor; rewrite ?E1, ?E2, ?E3; unfold publish_config, publish_tls_context; proj; try done.
  all: try (cbn [applied]; rewrite C2, Zplus_mod_idemp_l, (Nat2Z.inj_succ (S n)); reflexivity).
  all: try (by eapply blockers_trans); try congruence; try (by eexists).
Qed.

Lemma running_coherent config d n : (exists r, config_wf r config) -> running config d n -> coherent config d n.
Proof.
  intros Wf. induction 1 as [s d Ok St|d n p r d' _ IH Ok Ps]; [by eapply coherent_start|].
  destruct (pass_total p d (coherent_quiet _ _ _ IH) Ok) as (r' & d1 & E & Pd). rewrite E in Ps. injection Ps as -> ->.
  inversion Pd as [|dn ? R Hd S Q G|]; subst. destruct r as [r|].
  - destruct Hd as (_ & f & d2 & Rl & Sp). by eapply coherent_reload.
  - destruct Hd as (_ & E1 & E2 & E3). destruct IH. constructor; rewrite ?E1, ?E2, ?E3; done.
Qed.

(** *** The files of the live context *)

(** A pass with a reload that loads the files: a TLS setting has changed. *)
Definition loads_files (r : option Reload) (d d' : Daemon) : bool :=
  applied r && tls_enabled (config_ d) && tls_runtime_settings_changed (config_ d) (config_ d').

(** [running], with the surroundings in which the files of the context were
    last loaded: those of the start, or of the last pass that loaded them. *)
Inductive running_with (config : ServerConfig) : Surroundings -> Daemon -> nat -> Prop :=
| running_with_start s d :
    surroundings_ok s -> start_server config s = Ret d -> running_with config s d 0
| running_with_pass s d n p r d' :
    running_with config s d n -> surroundings_ok (surroundings p) -> pass p d = (Ret (Some r), d') ->
    running_with config (if loads_files r d d' then surroundings p else s) d' (if applied r then S n else n).

Lemma running_with_running config s d n : running_with config s d n -> running config d n.
Proof. induction 1; by econstructor. Qed.

Lemma running_running_with config d n : running config d n -> exists s, running_with config s d n.
Proof. induction 1 as [s d Ok St|d n p r d' _ [s R] Ok Ps]; eexists; by econstructor. Qed.

(** The live context is the one of the live configuration and these files. *)
Record loaded_from (s : Surroundings) (d : Daemon) : Prop := {
  loaded_ok : surroundings_ok s;
  loaded_context t : tls_context d = Some t -> make_tls_context (openssl s) (config_ d) = Ret t;
}.

Lemma loaded_start config s d : surroundings_ok s -> start_server config s = Ret d -> loaded_from s d.
Proof.
  intros Ok H. unfold Daemon.start_server in H. inv_ret. subst. constructor; [done|]. cbn. intros t ->.
  destruct (tls_enabled config); [|by inv_ret].
  destruct (make_tls_context _ _) eqn:E; [|done..]. cbn in *. inv_ret. by simplify_eq.
Qed.

Lemma loaded_reload config s0 d n s f r d1 d' :
  coherent config d n -> loaded_from s0 d -> surroundings_ok s -> reloaded s (with_flags f d) r d1 -> same_process d1 d' ->
  loaded_from (if loads_files (Some r) d d' then s else s0) d'.
Proof.
  intros [_ _ _ _ _ _ [r0 W0] C7] [Ok0 L0] Ok H (E1 & E2 & _). unfold with_flags in H. unfold loads_files.
  destruct H as [e L|next L B|next e L B T M|next L B Un|next t L B T M Ch]; revert E1 E2; unfold put; proj; intros E1 E2; cbn [applied andb].
  1-3: by constructor; [|rewrite E1, E2].
  all: revert L B; proj; intros L B; destruct (load_loaded _ _ _ L) as [Wf P];
    assert (Te : tls_enabled (config_ d) = tls_enabled next) by (apply blockers_none in B; tauto); rewrite E1, Te.
  - revert Un. proj. intros Un. replace (tls_enabled next && _) with false
      by (symmetry; destruct (tls_enabled next); [by rewrite Un|done]).
    constructor; [done|]. rewrite E1, E2. intros t Et.
    assert (T : tls_enabled next = true) by (rewrite <- Te; by apply C7; eexists).
    rewrite <- (L0 _ Et). symmetry. apply (tls_context_agrees r0 (regular_file s)); try done; [by rewrite Te|apply Ok0|auto].
  - revert Ch. proj. intros Ch. rewrite T, Ch. constructor; [done|]. rewrite E1, E2. by intros t' [= <-].
Qed.

Lemma running_loaded config s d n : (exists r, config_wf r config) -> running_with config s d n -> loaded_from s d.
Proof.
  intros Wf. induction 1 as [s d Ok St|s d n p r d' R0 IH Ok Ps]; [by eapply loaded_start|].
  pose proof (running_coherent _ _ _ Wf (running_with_running _ _ _ _ R0)) as C.
  destruct (pass_total p d (coherent_quiet _ _ _ C) Ok) as (r' & d1 & E & Pd). rewrite E in Ps. injection Ps as -> ->.
  inversion Pd as [|dn ? R Hd S Q G|]; subst. destruct r as [r|].
  - destruct Hd as (_ & f & d2 & Rl & Sp). by eapply loaded_reload.
  - destruct Hd as (_ & E1 & E2 & _). destruct IH. by constructor; [|rewrite E1, E2].
Qed.

(** The process is as a start with its configuration in these surroundings
    leaves it: with that configuration and that context for the workers. *)
Definition as_started (s : Surroundings) (d : Daemon) : Prop :=
  exists d0, start_server (config_ d) s = Ret d0 /\
    config_ d0 = config_ d /\ tls_context d0 = tls_context d /\
    live_config (control d0) = live_config (control d) /\ live_tls_context (control d0) = live_tls_context (control d).

(** The number of workers is that of the start, which was accepted. *)
Lemma running_count config d n :
  running config d n -> live_reload_blockers config (config_ d) = [] ->
  (1 <? resolve_worker_count hardware_concurrency (config_ d)) && negb (reuse_port_enabled (config_ d)) = false.
Proof.
  intros R C4. assert (exists s d0, start_server config s = Ret d0) as (s & d0 & St) by (clear -R; induction R; eauto).
  unfold Daemon.start_server in St. inv_ret. apply blockers_none in C4. decompose [and] C4.
  unfold resolve_worker_count in *. repeat match goal with H : _ config = _ (config_ d) |- _ => rewrite <- H; clear H end.
  assumption.
Qed.

(** So a start gives the same process exactly if it builds the same context. *)
Lemma started_same config s d n :
  (exists r, config_wf r config) -> running config d n -> serves_clients (config_ d) = true ->
  as_started s d <-> (forall t, tls_context d = Some t -> make_tls_context (openssl s) (config_ d) = Ret t).
Proof.
  intros Wf R Sv. pose proof (running_coherent _ _ _ Wf R) as [_ C1 _ C3 C4 _ _ C7]. pose proof (running_count _ _ _ R C4) as Count.
  unfold as_started, Daemon.start_server. rewrite Sv, Count. cbn [negb throw_if mbind outcome_bind].
  destruct (tls_context d) as [t|] eqn:Et.
  - rewrite (proj1 C7) by eauto. split.
    + intros (d0 & St & _ & Eq & _) t' [= <-]. inv_ret. subst d0. cbn in Eq. subst x.
      destruct (make_tls_context _ _) as [t'|e|]; [|done..]. cbn in *. by inv_ret; simplify_eq.
    + intros M. rewrite (M t eq_refl). cbn [fmap outcome_fmap mbind outcome_bind]. eexists. split; [done|]. cbn. by rewrite C1, C3.
  - replace (tls_enabled (config_ d)) with false by (destruct (tls_enabled (config_ d)); [by destruct (proj2 C7)|done]).
    split; [done|]. intros _. eexists. split; [done|]. cbn. by rewrite C1, C3.
Qed.

(** C10. A reload leaves the server as a restart would, with the certificates
    that it last read.  In every state that it reaches its workers are given
    the present configuration - the [n]th reload has generation [n + 1] -, the
    keys that need a restart are those of the start, and the database is the
    same.  With HTTP/1 or TLS enabled something is always served; and as long
    as something is - a start with a configuration that serves nothing fails,
    a reload does not -, the process is as a start with the present
    configuration would leave it in the surroundings [s] of the real start or
    of the last reload that changed a TLS setting.  A restart now gives the same
    exactly if OpenSSL builds the same context now as it does in [s]: a
    certificate that was renewed under its old path since is what a restart
    loads and a reload does not. *)
Theorem reload_as_restart (config : ServerConfig) (s : Surroundings) (d : Daemon) (n : nat) :
  (exists r, config_wf r config) -> running_with config s d n ->
  live_config (control d) = Some (config_ d) /\ config_generation (control d) = Z.of_nat (S n) mod 2 ^ 64 /\
  live_reload_blockers config (config_ d) = [] /\ database_path (config_ d) = database_path config /\
  (http1_enabled config = true \/ tls_enabled config = true -> serves_clients (config_ d) = true) /\
  (serves_clients (config_ d) = true ->
     as_started s d /\
     forall now, as_started now d <->
       (tls_enabled (config_ d) = true ->
        make_tls_context (openssl now) (config_ d) = make_tls_context (openssl s) (config_ d))).
Proof.
  intros Wf Rw. pose proof (running_with_running _ _ _ _ Rw) as R. pose proof (running_loaded _ _ _ _ Wf Rw) as [Ok Ld].
  pose proof (running_coherent _ _ _ Wf R) as [_ C1 C2 C3 C4 C5 [r C6] C7]. split_and!; try done.
  - intros Sv. apply blockers_none in C4. decompose [and] C4. destruct Sv as [Sv|Sv].
    + unfold serves_clients. by replace (http1_enabled (config_ d)) with true by congruence.
    + eapply wf_serves; [done|congruence].
  - intros Sv. split; [by apply (started_same config s d n)|]. intros now. rewrite (started_same config now d n) by done. split.
    + intros M T. apply C7 in T as [t Et]. by rewrite (M t Et), (Ld t Et).
    + intros M t Et. rewrite M by (apply C7; by eexists). by apply Ld.
Qed.

(** What a pass that goes on has done about SIGHUP. *)
Definition reload_outcome (p : Pass) (d d' : Daemon) (r : option Reload) : Prop :=
  let s := surroundings p in
  let loaded := load s (database_path (config_ d)) in
  match r with
  | None => pending p d = false /\ same_process d d'
  | Some (Ignored keys) =>
      pending p d = true /\ same_process d d' /\
      exists next, loaded = Ret next /\ live_reload_blockers (config_ d) next <> [] /\
        keys = join_keys (live_reload_blockers (config_ d) next)
  | Some (ReloadFailed e) =>
      pending p d = true /\ same_process d d' /\
      (loaded = Raise e \/
       exists next, loaded = Ret next /\ tls_enabled next = true /\ make_tls_context (openssl s) next = Raise e)
  | Some Applied =>
      pending p d = true /\
      exists next, loaded = Ret next /\ live_reload_blockers (config_ d) next = [] /\ config_ d' = next /\
        live_config (control d') = Some next /\
        config_generation (control d') = (config_generation (control d) + 1) mod 2 ^ 64 /\
        live_tls_context (control d') = tls_context d' /\
        (tls_context d' = tls_context d /\
           (tls_enabled next = true -> tls_runtime_settings_changed (config_ d) next = false) \/
         exists t, tls_context d' = Some t /\ make_tls_context (openssl s) next = Ret t)
  end.

(** C12. A reload is all or nothing.  When SIGHUP has arrived the database is
    loaded again, and then either everything of the new configuration is
    published - the configuration under a new generation, and the TLS context
    it needs - or nothing changes at all: when the database, the file system
    or OpenSSL refuse it, or when a key was changed that needs a restart, all
    of which are named.  Without SIGHUP nothing changes; and one that arrives
    while a reload is on its way is left for the next pass, never lost. *)
Theorem reload_all_or_nothing (config : ServerConfig) (d d' : Daemon) (n : nat) (p : Pass) (r : option Reload) :
  (exists r, config_wf r config) -> running config d n -> surroundings_ok (surroundings p) ->
  pass p d = (Ret (Some r), d') ->
  reload_outcome p d d' r /\ g_reload_signal_requested (flags d') = bool_decide (SIGHUP ∈ later_signals p).
Proof.
  intros Wf R Ok Ps. pose proof (running_coherent _ _ _ Wf R) as C.
  destruct (pass_total p d (coherent_quiet _ _ _ C) Ok) as (r' & d1 & E & Pd). rewrite E in Ps. injection Ps as -> ->.
  inversion Pd as [|dn ? Rt Hd S Q G|]; subst. split; [|done]. unfold reload_outcome.
  destruct r as [r|]; [|done]. destruct Hd as (P & f & d2 & Rl & E1 & E2 & E3). pose proof (coherent_live_context _ _ _ C) as Cl.
  unfold with_flags in Rl. destruct Rl as [e L|next L B|next e L B T M|next L B Un|next t L B T M]; revert E1 E2 E3; unfold put, same_process; proj;
    intros E1 E2 E3; (split; [done|]); revert L; proj; intros L.
  - split; [done|]. by left.
  - split; [done|]. revert B. proj. intros B. by exists next.
  - split; [done|]. right. by exists next.
  - exists next. revert B Un. proj. intros B Un. rewrite E2, E3. unfold publish_config. proj. split_and!; try done. by left.
  - exists next. revert B. proj. intros B. rewrite E2, E3. unfold publish_config, publish_tls_context. proj.
    split_and!; try done. right. by exists t.
Qed.

(** C14. The server stops when it is asked to, and only then: the pass that
    finds SIGTERM, SIGINT or a worker that failed leaves the loop with the
    workers told to drain, every other pass goes on, and no pass throws; and
    the exit status is 1 exactly if a worker failed - one that fails after the
    status was read is not among them. *)
Theorem stop_when_asked (config : ServerConfig) (d : Daemon) (n : nat) (p : Pass) :
  (exists r, config_wf r config) -> running config d n -> surroundings_ok (surroundings p) ->
  (asked p = true /\ exists d', pass p d = (Ret None, d') /\ shutdown_requested (control d') = true /\
     forall last, (finish last d').1 = Ret (if existsb is_raise (returned p ++ last) then 1 else 0)) \/
  (asked p = false /\ exists r d', pass p d = (Ret (Some r), d') /\ shutdown_requested (control d') = false).
Proof.
  intros Wf R Ok. pose proof (running_coherent _ _ _ Wf R) as C.
  destruct (pass_total p d (coherent_quiet _ _ _ C) Ok) as (r & d' & E & Pd). unfold asked.
  assert (Fin : forall last d1, (finish last d1).1 = Ret (if worker_failed (control d1) || existsb is_raise last then 1 else 0)).
  { intros last d1. unfold finish. rewrite (bind_eq _ _ _ _ _ (workers_return_eq last d1)).
    unfold get, mbind, state_bind, mret, state_ret. destruct (existsb is_raise last); cbn [fst].
    - proj. by rewrite orb_true_r; destruct (control d1).
    - by rewrite orb_false_r. }
  destruct Pd as [d' Rt S W|dn d' Rt Hd S Q G|d' Rt St S W]; rewrite Rt; cbn [orb].
  - left. split; [done|]. exists d'. split_and!; [done..|]. intros last. by rewrite Fin, W, existsb_app, Rt.
  - right. split; [done|]. exists dn, d'. split_and!; [done..|]. apply Q.
  - left. split; [done|]. exists d'. split_and!; [done..|]. intros last. by rewrite Fin, W, existsb_app, Rt.
Qed.
End daemon.

(** ** Witnesses *)

(** A database with one more value. *)
Definition edited_database (key value : string) : Database :=
  match (db ← tls_database; set_config_value (fun _ _ => None) db (str key) (str value)) with
  | Ret db => db
  | _ => empty_database
  end.

(** All files hold the same. *)
Definition plain_ssl : OpenSsl :=
  mk_openssl None (fun _ => None) (fun _ => None) (fun _ => None) (fun _ => None)
    (fun _ => inr (str "certificate")) (fun _ => inr (str "key")) (fun _ _ => None).

Definition around (db : Database) : Surroundings := mk_surroundings (fun _ => inr db) (fun _ => Ret true) plain_ssl.

Abbreviation example_start := (start_server 4 tls_config (around empty_database)).
Abbreviation example_pass := (pass (fun _ _ => None)).

Definition started : Daemon :=
  match example_start with
  | Ret d => d
  | _ => mk_daemon tls_config no_flags None new_control
  end.

Definition reload_pass : Pass := mk_pass [] [SIGHUP] (around (edited_database "tls_sni_hosts" "api.example.test")) [].
Definition restart_pass : Pass := mk_pass [] [SIGHUP] (around (edited_database "port" "9090")) [SIGHUP].
Definition stop_pass : Pass := mk_pass [] [SIGHUP; SIGTERM] (around empty_database) [].

Definition reloaded_once : Daemon := (example_pass reload_pass started).2.

Lemma around_ok db : surroundings_ok (around db).
Proof. by constructor. Qed.

Lemma returned_eq {S A} (r : outcome A * S) a : r.1 = Ret a -> r = (Ret a, r.2).
Proof. destruct r as [o s]. by intros [= ->]. Qed.

Lemma started_running : running (fun _ _ => None) 4 tls_config started 0.
Proof. apply running_started with (around empty_database); [apply around_ok|vm_compute; reflexivity]. Qed.

Lemma tls_config_loaded : exists r, config_wf r tls_config.
Proof. exists (fun _ => Ret true). apply tls_config_wf. Qed.

Lemma reloaded_running : running (fun _ _ => None) 4 tls_config reloaded_once 1.
Proof.
  refine (running_passed _ _ _ _ _ reload_pass (Some Applied) _ started_running (around_ok _) _).
  unfold reloaded_once. apply returned_eq. vm_compute. reflexivity.
Qed.

(** The same files, renewed. *)
Definition renewed_ssl : OpenSsl :=
  mk_openssl None (fun _ => None) (fun _ => None) (fun _ => None) (fun _ => None)
    (fun _ => inr (str "renewed")) (fun _ => inr (str "renewed key")) (fun _ _ => None).

Definition renewed (db : Database) : Surroundings := mk_surroundings (fun _ => inr db) (fun _ => Ret true) renewed_ssl.

(** SIGHUP without another change, and with one. *)
Definition renewal_pass : Pass := mk_pass [] [SIGHUP] (renewed (edited_database "tls_sni_hosts" "www.example.test")) [].
Definition renewal_edit_pass : Pass := mk_pass [] [SIGHUP] (renewed (edited_database "tls_sni_hosts" "api.example.test")) [].

Definition renewal_ignored : Daemon := (example_pass renewal_pass started).2.
Definition renewal_loaded : Daemon := (example_pass renewal_edit_pass started).2.

Abbreviation example_running_with := (running_with (fun _ _ => None) 4 tls_config).

Lemma started_running_with : example_running_with (around empty_database) started 0.
Proof. apply running_with_start; [apply around_ok|vm_compute; reflexivity]. Qed.

Lemma renewed_ok db : surroundings_ok (renewed db).
Proof. by constructor. Qed.

(** A reload that the first pass applies. *)
Lemma first_reload p loads :
  surroundings_ok (surroundings p) -> (example_pass p started).1 = Ret (Some (Some Applied)) ->
  loads_files (Some Applied) started (example_pass p started).2 = loads ->
  example_running_with (if loads then surroundings p else around empty_database) (example_pass p started).2 1.
Proof.
  intros Ok E <-. exact (running_with_pass _ _ _ _ _ _ p _ _ started_running_with Ok (returned_eq _ _ E)).
Qed.

Lemma renewal_ignored_running : example_running_with (around empty_database) renewal_ignored 1.
Proof. apply (first_reload renewal_pass false); [apply renewed_ok|vm_compute; reflexivity..]. Qed.

Lemma renewal_loaded_running : example_running_with (surroundings renewal_edit_pass) renewal_loaded 1.
Proof. apply (first_reload renewal_edit_pass true); [apply renewed_ok|vm_compute; reflexivity..]. Qed.

(** The first pass keeps the certificate of the start, the second loads the
    renewed one. *)
Lemma reload_as_restart_witness :
  live_config (control renewal_loaded) = Some (config_ renewal_loaded) /\ config_generation (control renewal_loaded) = 2 /\
  as_started 4 (surroundings renewal_edit_pass) renewal_loaded /\
  as_started 4 (around empty_database) renewal_ignored /\ ~ as_started 4 (surroundings renewal_pass) renewal_ignored.
Proof.
  assert (T : tls_enabled tls_config = true) by (vm_compute; reflexivity).
  destruct (reload_as_restart (fun _ _ => None) 4 tls_config (surroundings renewal_edit_pass) renewal_loaded 1 tls_config_loaded
    renewal_loaded_running) as (L & G & _ & _ & Sv & Re).
  destruct (reload_as_restart (fun _ _ => None) 4 tls_config (around empty_database) renewal_ignored 1 tls_config_loaded
    renewal_ignored_running) as (_ & _ & _ & _ & Sv' & Re').
  split; [exact L|]. split; [rewrite G; reflexivity|].
  split; [exact (proj1 (Re (Sv (or_intror T))))|]. split; [exact (proj1 (Re' (Sv' (or_intror T))))|].
  intros N. apply (proj2 (Re' (Sv' (or_intror T)))) in N.
  - assert (A : (certificate ∘ ctx_) <$> make_tls_context (openssl (surroundings renewal_pass)) (config_ renewal_ignored)
      = Ret (str "renewed")) by (vm_compute; reflexivity).
    assert (B : (certificate ∘ ctx_) <$> make_tls_context (openssl (around empty_database)) (config_ renewal_ignored)
      = Ret (str "certificate")) by (vm_compute; reflexivity).
    assert (X : Ret (str "renewed") = Ret (str "certificate")) by (rewrite <- A, <- B, N; reflexivity). discriminate X.
  - vm_compute. reflexivity.
Defined.

(** The port needs a restart; the SIGHUP that arrives meanwhile waits. *)
Lemma reload_all_or_nothing_witness :
  (example_pass restart_pass reloaded_once).1 = Ret (Some (Some (Ignored "port"))) /\
  g_reload_signal_requested (flags (example_pass restart_pass reloaded_once).2) = true.
Proof.
  assert (E : (example_pass restart_pass reloaded_once).1 = Ret (Some (Some (Ignored "port")))) by (vm_compute; reflexivity).
  split; [exact E|].
  destruct (reload_all_or_nothing (fun _ _ => None) 4 tls_config reloaded_once (example_pass restart_pass reloaded_once).2 1
    restart_pass (Some (Ignored "port")) tls_config_loaded reloaded_running (around_ok _) (returned_eq _ _ E)) as [_ G].
  rewrite G. reflexivity.
Defined.

Lemma stop_when_asked_witness :
  exists d', example_pass stop_pass reloaded_once = (Ret None, d') /\ (finish [Raise "a client"] d').1 = Ret 1 /\
    (finish [] d').1 = Ret 0.
Proof.
  destruct (stop_when_asked (fun _ _ => None) 4 tls_config reloaded_once 1 stop_pass tls_config_loaded reloaded_running
    (around_ok _)) as [(_ & d' & E & _ & F)|(N & _)]; [|vm_compute in N; discriminate N].
  exists d'. split; [exact E|]. split; rewrite F; reflexivity.
Defined.

(** ** Findings *)

(** Without TLS, a reload may leave nothing that is served: the check of the
    start is not repeated. *)
Definition cleartext_database (http2 : string) : Database :=
  match foldO (fun db '(key, value) => set_config_value (fun _ _ => None) db (str key) (str value)) empty_database
    [("http1_enabled", "false"); ("http2_enabled", http2); ("tls_alpn_protocols", "h2")]%string with
  | Ret db => db
  | _ => empty_database
  end.

Definition cleartext_config : ServerConfig :=
  match load (fun _ _ => None) (around (cleartext_database "true")) (str "x.db") with
  | Ret config => config
  | _ => default_config
  end.

Definition cleartext_started : Daemon :=
  match start_server 4 cleartext_config (around empty_database) with
  | Ret d => d
  | _ => mk_daemon tls_config no_flags None new_control
  end.

Lemma reload_may_serve_nothing :
  start_server 4 cleartext_config (around empty_database) = Ret cleartext_started /\
  (example_pass (mk_pass [] [SIGHUP] (around (cleartext_database "false")) []) cleartext_started).1 = Ret (Some (Some Applied)) /\
  serves_clients (config_ (example_pass (mk_pass [] [SIGHUP] (around (cleartext_database "false")) []) cleartext_started).2) = false.
Proof. split; [vm_compute; reflexivity|]. split; vm_compute; reflexivity. Qed.

(** A certificate that was replaced behind the same path is not loaded. *)
Lemma renewed_certificate_not_loaded :
  (example_pass renewal_pass started).1 = Ret (Some (Some Applied)) /\
  (certificate ∘ ctx_) <$> tls_context renewal_ignored = Some (str "certificate").
Proof. split; vm_compute; reflexivity. Qed.
