(* ===== verification/ServerSpec.v ===== *)
(** * ServerSpec: the process and its workers together

    The main thread publishes configurations, the workers notice them: what
    [DaemonSpec] promises of the control block and what [WorkerSpec] promises
    of a worker, composed. *)

From S2P Require Import Prelude Text Numbers Request Http1Frame Response StaticFiles Handler BodyStream Waf VirtualHost ReverseProxy Http2Session Config ConfigFacts Security WebSocket Tls TlsSpec State Connection ProxyExchange WebSocketProxy Reactor Worker ConnectionFacts Scenarios WorkerFacts WorkerSpec Daemon DaemonSpec.

(** ** Generations *)

Section daemon.
Context (inet_pton : Family -> bytes -> option bytes) (hardware_concurrency : Z).
Abbreviation running := (running inet_pton hardware_concurrency).
Abbreviation pass := (pass inet_pton).

(** Passes of the loop from one state to a later one, with [k] reloads. *)
Inductive continues : Daemon -> nat -> Daemon -> Prop :=
| continues_here d : continues d 0 d
| continues_passed d k d1 p r d' :
    continues d k d1 -> surroundings_ok (surroundings p) -> pass p d1 = (Ret (Some r), d') ->
    continues d (if applied r then S k else k) d'.

Lemma continues_running config d n k d' :
  running config d n -> continues d k d' -> running config d' (k + n).
Proof.
  intros R. induction 1 as [d|d k d1 p r d' _ IH Ok Ps]; [done|].
  pose proof (running_passed _ _ _ _ _ _ _ _ (IH R) Ok Ps) as R'. by destruct (applied r).
Qed.

Lemma continues_control config d n k d' :
  (exists r, config_wf r config) -> running config d n -> continues d k d' ->
  k = 0%nat -> control d' = control d.
Proof.
  intros Wf R. induction 1 as [d|d k d1 p r d' C IH Ok Ps]; [done|]. destruct (applied r) eqn:A; [done|].
  intros ->. rewrite <- (IH R eq_refl). pose proof (continues_running _ _ _ _ _ R C) as R1.
  pose proof (running_coherent _ _ _ _ _ Wf R1) as Co.
  destruct (pass_total inet_pton p d1 (coherent_quiet _ _ _ Co) Ok) as (r' & d2 & E & Pd). rewrite E in Ps. injection Ps as -> ->.
  inversion Pd as [|dn ? Rt Hd S Q G|]; subst. destruct r as [r|]; [|by destruct Hd as (_ & _ & _ & ->)].
  destruct Hd as (_ & f & d2 & Rl & _ & _ & ->). unfold with_flags in Rl. by destruct Rl; proj.
Qed.

(** Generations name configurations: within [2^64 - 1] reloads an equal
    generation means that nothing was published. *)
Lemma generations_name_configs config d n k d' :
  (exists r, config_wf r config) -> running config d n -> continues d k d' -> Z.of_nat k < 2 ^ 64 ->
  config_generation (control d') = config_generation (control d) -> control d' = control d.
Proof.
  intros Wf R C K Eg. apply (continues_control config d n k d'); try done.
  pose proof (running_coherent _ _ _ _ _ Wf R) as C1. pose proof (continues_running _ _ _ _ _ R C) as R'.
  pose proof (running_coherent _ _ _ _ _ Wf R') as C2. rewrite (coherent_generation _ _ _ C1), (coherent_generation _ _ _ C2) in Eg.
  assert (D : (Z.of_nat (S (k + n)) - Z.of_nat (S n)) mod 2 ^ 64 = 0) by (rewrite Zminus_mod, Eg, Z.sub_diag; reflexivity).
  replace (Z.of_nat (S (k + n)) - Z.of_nat (S n)) with (Z.of_nat k) in D by lia. rewrite Z.mod_small in D by lia. lia.
Qed.

Lemma running_live config d n c :
  (exists r, config_wf r config) -> running config d n -> Worker.live_config (Daemon.control d) = Some c -> c = Daemon.config_ d.
Proof. intros Wf R. rewrite (coherent_config _ _ _ (running_coherent _ _ _ _ _ Wf R)). by intros [= ->]. Qed.
End daemon.

(** ** A reload reaches every client *)

(** Every client of the worker has the configuration of the process. *)
Definition up_to_date (d : Daemon) (w : Worker) : Prop :=
  forall fd c, clients_ w !! fd = Some c -> Connection.config_ (client c) = Some (Daemon.config_ d).

Section server.
Context (limit : Z) `{MapOrder bytes, MapOrder (list bytes)} (env : Environment) (hardware_concurrency : Z).
Context (inet_pton inet_ntop : Family -> bytes -> option bytes).
Context (client_order : gmap Z Client -> list Z).
Context (ntop : ntop_text inet_ntop).

(** C11. A reload reaches every client of every worker: once a worker has been
    woken after the main thread published a configuration, all its clients,
    those it had and those it has just accepted, use the configuration that is
    live in the process - also while it drains. *)
Theorem reload_reaches_clients config d n draining w o f t f' ready draining' w' :
  (exists r, config_wf r config) -> running inet_pton hardware_concurrency config d n ->
  working limit env inet_pton inet_ntop client_order draining w o f ->
  elsewhere_ok limit f' w (elsewhere t) -> elsewhere_control (elsewhere t) = control d -> wait t = Woken ready ->
  turn env inet_pton inet_ntop client_order draining t w = (Ret (Some draining'), w') ->
  up_to_date d w'.
Proof using ntop.
  intros Wf R W El Ec Wk T fd c L. apply (working_wf limit env inet_pton inet_ntop client_order ntop) in W as [Ww Ls].
  pose proof (wp_run _ _ _ _ _ (wp_turn limit env inet_pton inet_ntop client_order ntop o f f' draining t w Ww Ls El) T)
    as (Ww' & _ & _ & _ & Ct & No).
  pose proof (running_coherent _ _ _ _ _ Wf R) as Co. rewrite Ct, Ec in No.
  rewrite (ww_current _ _ _ _ Ww' (No ready Wk ltac:(rewrite (coherent_config _ _ _ Co); by eexists)) fd c L), Ct, Ec.
  apply (coherent_config _ _ _ Co).
Qed.
End server.

(** ** Witness *)

(** A process without TLS, and one worker with a client. *)
Definition plain_config : ServerConfig :=
  match load dotted (around empty_database) (str "x.db") with
  | Ret config => config
  | _ => default_config
  end.

Definition plain_started : Daemon :=
  match start_server 1 plain_config (around empty_database) with
  | Ret d => d
  | _ => mk_daemon plain_config no_flags None new_control
  end.

Definition renamed_database : Database :=
  match set_config_value dotted empty_database (str "server_name") (str "renamed") with
  | Ret db => db
  | _ => empty_database
  end.

Definition plain_reloaded : Daemon := (pass dotted (mk_pass [] [SIGHUP] (around renamed_database) []) plain_started).2.

Definition plain_worker : Worker := (start dotted (new_worker 0 plain_config (control plain_started) example_world [])).2.

(** A client connects while the process reloads. *)
Definition reload_turn : Turn :=
  mk_turn false
    (mk_elsewhere (control plain_reloaded) (world_security (world plain_worker)) (world_proxies (world plain_worker))
       (world_turns (world plain_worker)) (list_to_set [0; 1; 2]))
    (Woken [ListenerToken [Accepted (PeerIpv4 []) silence]]) (fun _ => silence).

Abbreviation plain_turn := (turn example_env dotted example_ntop example_order).

Lemma plain_running : running dotted 1 plain_config plain_reloaded 1.
Proof.
  refine (running_passed _ _ _ _ _ (mk_pass [] [SIGHUP] (around renamed_database) []) (Some Applied) _ _ (around_ok _) _).
  - apply running_started with (around empty_database); [apply around_ok|vm_compute; reflexivity].
  - unfold plain_reloaded. apply returned_eq. vm_compute. reflexivity.
Qed.

Lemma plain_config_loaded : exists r, config_wf r plain_config.
Proof.
  exists (fun _ => Ret true). assert (E : load dotted (around empty_database) (str "x.db") = Ret plain_config) by (vm_compute; reflexivity).
  by apply load_loaded in E as [? _].
Qed.

Lemma plain_working : working 100 example_env dotted example_ntop example_order None plain_worker (list_to_set [0; 1; 2]) [].
Proof.
  refine (working_started 100 example_env dotted example_ntop example_order 0 plain_config (control plain_started) []
    example_world [] plain_worker _ _).
  - destruct example_world_ok as [_ U N A]. constructor; [|done..]. intros config E.
    assert (config = plain_config) as -> by (vm_compute in E |- *; congruence). vm_compute. by split.
  - unfold plain_worker. apply ran. vm_compute. reflexivity.
Qed.

Lemma reload_turn_control : elsewhere_control (elsewhere reload_turn) = Daemon.control plain_reloaded.
Proof. unfold reload_turn. reflexivity. Qed.

Lemma plain_generations :
  config_generation (Daemon.control plain_reloaded) = 2 /\ config_generation (control_ plain_worker) = 1 /\
  config_generation_ plain_worker = 0.
Proof. vm_compute. by split_and!. Qed.

Lemma renamed_config_ok : config_ok 100 (Daemon.config_ plain_reloaded).
Proof. vm_compute. by split. Qed.

Lemma reload_turn_ok : elsewhere_ok 100 [] plain_worker (elsewhere reload_turn).
Proof.
  destruct (working_wf 100 example_env dotted example_ntop example_order example_ntop_text _ _ _ _ plain_working) as [W _].
  destruct W as [W1 W2 W3 W4 W5 W6 W7 W8 W9 W10 W11 W12 W13]. destruct plain_generations as (G1 & G2 & G3).
  constructor.
  - rewrite reload_turn_control. intros config E. rewrite (running_live _ _ _ _ _ _ plain_config_loaded plain_running E). apply renamed_config_ok.
  - rewrite reload_turn_control, G1, G2. discriminate.
  - rewrite reload_turn_control, G1, G3. discriminate.
  - intros x Hx. apply W3. rewrite W4. do 2 apply elem_of_union_l. exact Hx.
  - exact W5.
  - exact W10.
Qed.

Lemma reload_reaches_clients_witness :
  dom (clients_ (plain_turn None reload_turn plain_worker).2) = {[5]} /\
  up_to_date plain_reloaded (plain_turn None reload_turn plain_worker).2 /\
  server_name (Daemon.config_ plain_reloaded) = str "renamed".
Proof.
  split; [vm_compute; reflexivity|]. split; [|vm_compute; reflexivity].
  assert (T : plain_turn None reload_turn plain_worker = (Ret (Some None), (plain_turn None reload_turn plain_worker).2))
    by (apply ran; vm_compute; reflexivity).
  exact (reload_reaches_clients 100 example_env 1 dotted example_ntop example_order example_ntop_text plain_config plain_reloaded 1
    None plain_worker (list_to_set [0; 1; 2]) [] reload_turn [] [ListenerToken [Accepted (PeerIpv4 []) silence]] None _
    plain_config_loaded plain_running plain_working reload_turn_ok reload_turn_control eq_refl T).
Defined.
