(* ===== verification/Progress.v ===== *)
(** * Progress: every turn of a worker returns

    A worker runs its clients one after the other on one thread: a handler
    that does not return stops them all.  [Halting] says when that can happen
    to one connection; this file lifts it to the worker. *)

From S2P Require Import Prelude Text Numbers Request Http1Frame Response StaticFiles Handler BodyStream Waf VirtualHost ReverseProxy Http2Session Config Security WebSocket State Connection ProxyExchange WebSocketProxy Reactor Worker ConnectionFacts ProxyFacts Halting.

(** A client whose connection holds a body that a decoder does not get
    through. *)
Definition hung_client (w : Worker) : Prop :=
  exists fd c, clients_ w !! fd = Some c /\ hung (view (world w) c silence).

Definition proceeds {A} (m : Work A) : Prop := forall w, (m w).1 = Timeout -> hung_client (m w).2.

Lemma proceeds_ret {A} (a : A) : proceeds (mret a).
Proof. by intros w. Qed.
Lemma proceeds_throw {A} e : proceeds (@throw Worker A e).
Proof. by intros w. Qed.
Lemma proceeds_get {T} (f : Worker -> T) : proceeds (get f).
Proof. by intros w. Qed.
Lemma proceeds_modify f : proceeds (modify f).
Proof. by intros w. Qed.
Lemma proceeds_call {A} (o : outcome A) : settles o -> proceeds (call o).
Proof. by intros N w E. Qed.
Lemma proceeds_next_call : proceeds next_call.
Proof. by intros w. Qed.
Lemma proceeds_security {A} (f : SecurityState -> A * SecurityState) : proceeds (on_security f).
Proof. intros w. unfold on_security. by destruct (f _). Qed.

Lemma proceeds_bind {A B} (m : Work A) (f : A -> Work B) : proceeds m -> (forall a, proceeds (f a)) -> proceeds (m ≫= f).
Proof.
  intros Hm Hf w. specialize (Hm w). unfold mbind, state_bind. destruct (m w) as [[a|e|] w']; cbn in *; [apply Hf|done|auto].
Qed.

Lemma proceeds_try {A} (m : Work A) h : proceeds m -> (forall e, proceeds (h e)) -> proceeds (try_catch m h).
Proof.
  intros Hm Hh w. specialize (Hm w). unfold try_catch. destruct (m w) as [[a|e|] w']; cbn in *; [done|apply Hh|auto].
Qed.

Lemma proceeds_for_each {A} (l : list A) f : (forall x, proceeds (f x)) -> proceeds (for_each l f).
Proof. intros Hf. induction l as [|x l IH]; [apply proceeds_ret|]. by apply proceeds_bind; [|intros []]. Qed.

(** A handler that does not return leaves its client in the table. *)
Lemma proceeds_client {A} fd c a (m : Handle A) : halts m -> proceeds (on_client fd c a m).
Proof.
  intros Hm w. specialize (Hm (view (world w) c a)). unfold on_client.
  destruct (m (view (world w) c a)) as [o s]. cbn [fst snd] in *. intros E. exists fd, (client_of s). split.
  - proj. apply lookup_insert_eq.
  - specialize (Hm E). destruct w, s. exact Hm.
Qed.

(** A call that always returns. *)
Definition returns {A} (m : Handle A) : Prop := forall s, settles (m s).1.

Lemma proceeds_world {A} (m : Handle A) : returns m -> proceeds (on_world m).
Proof.
  intros Hm w. unfold on_world. specialize (Hm (view (world w) (mk_client new_connection no_traffic) silence)).
  destruct (m _) as [o s]. cbn in *. by intros.
Qed.

(** A call on a connection outside the table, whose outcome is looked at. *)
Lemma proceeds_connection {A B} c a (m : Handle A) (f : outcome A * Client -> Work B) :
  returns m -> (forall o c', settles o -> proceeds (f (o, c'))) -> proceeds (on_connection c a m ≫= f).
Proof.
  intros Hm Hf w. unfold mbind, state_bind, on_connection. specialize (Hm (view (world w) c a)).
  destruct (m _) as [o s]. cbn in *. by apply Hf.
Qed.

(** ** Calls that always return *)

Lemma returns_bind {A B} (m : Handle A) (f : A -> Handle B) : returns m -> (forall a, returns (f a)) -> returns (m ≫= f).
Proof.
  intros Hm Hf s. specialize (Hm s). unfold mbind, state_bind. destruct (m s) as [[a|e|] s']; cbn in *; [apply Hf|done|done].
Qed.

Lemma returns_shared {A} (f : Server -> A * Server) : returns (shared f).
Proof. intros s. unfold shared. by destruct (f s). Qed.

Ltac return_step :=
  cbv beta zeta;
  lazymatch goal with
  | |- returns (mbind _ _) => apply returns_bind; [|intros ?]
  | |- returns (if ?c then _ else _) => destruct c
  | |- returns (match ?c with _ => _ end) => destruct c
  | |- returns ?m => first [ by intros ? | apply returns_shared | let h := head_of m in unfold h ]
  end.

Lemma returns_prepare : returns prepare_for_pool.
Proof. repeat return_step. Qed.

Lemma returns_adopt fd epoll config tls id ip :
  returns (reset fd epoll config tls id ip ;; add_client_to_epoll).
Proof. apply returns_bind; [|intros []; repeat return_step]. apply returns_bind; [apply returns_prepare|]. intros []. repeat return_step. Qed.

Create HintDb proceeds.
#[export] Hint Resolve proceeds_ret proceeds_throw proceeds_get proceeds_modify proceeds_next_call proceeds_security : proceeds.
#[export] Hint Extern 1 (proceeds (on_world _)) => apply proceeds_world; repeat return_step : proceeds.

Ltac proceed_step :=
  cbv beta zeta;
  lazymatch goal with
  | |- proceeds (mbind _ _) => apply proceeds_bind; [|intros ?]
  | |- proceeds (try_catch _ _) => apply proceeds_try; [|intros ?]
  | |- proceeds (for_each _ _) => apply proceeds_for_each; intros ?
  | |- proceeds (if ?c then _ else _) => destruct c
  | |- proceeds (match ?c with _ => _ end) => destruct c
  | |- proceeds ?m => first [ solve [auto with proceeds nocore] | let h := head_of m in unfold h ]
  end.
Ltac proceed := repeat proceed_step.

Section worker.
Context `{MapOrder bytes, MapOrder (list bytes)} (env : Environment).
Context (inet_pton : Family -> bytes -> option bytes) (inet_ntop : Family -> bytes -> option bytes).
Context (client_order : gmap Z Client -> list Z).

Lemma proceeds_release c : proceeds (release c).
Proof using.
  apply proceeds_connection; [apply returns_prepare|]. intros o c' S. apply proceeds_bind; [by apply proceeds_call|intros ?; proceed].
Qed.
#[local] Hint Resolve proceeds_release : proceeds.

Lemma proceeds_acquire : proceeds acquire.
Proof using. intros w. unfold acquire. by destruct (last _). Qed.
#[local] Hint Resolve proceeds_acquire : proceeds.

Lemma proceeds_adopt fd config ip a : proceeds (adopt_client fd config ip a).
Proof using.
  unfold adopt_client. do 4 (apply proceeds_bind; [proceed|]; intros ?).
  apply proceeds_connection; [apply returns_adopt|]. intros [[]|e|] c' S; [proceed..|done].
Qed.
#[local] Hint Resolve proceeds_adopt : proceeds.

Lemma proceeds_accept results : proceeds (accept_ready_clients inet_pton inet_ntop results).
Proof using. induction results as [|r results IH]; cbn [accept_ready_clients]; proceed; exact IH. Qed.

Lemma proceeds_release_client fd : proceeds (release_client fd).
Proof using. proceed. Qed.
#[local] Hint Resolve proceeds_accept proceeds_release_client : proceeds.

Lemma halts_enforce t : halts (enforce_timeout env t).
Proof using. halt. Qed.

Lemma halts_token t : halts (handle_token env t).
Proof using. destruct t; cbn [handle_token]; halt. Qed.

Lemma proceeds_visit m answers fds : (forall fd, halts (m fd)) -> proceeds (visit_clients m answers fds).
Proof using.
  intros Hm. induction fds as [|fd fds IH]; cbn [visit_clients]; [proceed|]. apply proceeds_bind; [proceed|].
  intros [c|]; [|exact IH]. apply proceeds_bind; [by apply proceeds_client|]. intros b. apply proceeds_bind; [exact IH|]. intros l. proceed.
Qed.

Lemma proceeds_tokens ready : proceeds (handle_tokens env ready).
Proof using.
  induction ready as [|t ready IH]; cbn [handle_tokens]; [proceed|].
  destruct t as [accepts|fd revents a|fd revents a]; [exact IH| |].
  all: apply proceeds_bind; [proceed|]; intros [c|]; [|exact IH].
  all: apply proceeds_bind; [apply proceeds_client, halts_token|]; intros b.
  all: apply proceeds_bind; [exact IH|]; intros l; proceed.
Qed.

Lemma proceeds_timeouts answers : proceeds (enforce_client_timeouts env client_order answers).
Proof using.
  unfold enforce_client_timeouts. do 2 (apply proceeds_bind; [proceed|]; intros ?).
  apply proceeds_bind; [apply proceeds_visit; intros; apply halts_enforce|]. intros ?. proceed.
Qed.
#[local] Hint Resolve proceeds_tokens proceeds_timeouts : proceeds.


Lemma proceeds_start : (forall h p, settles (make_bind_address inet_pton h p)) -> proceeds (start inet_pton).
Proof using. intros B. proceed. by apply proceeds_call. Qed.
End worker.

(** ** The worker goes on *)

Section theorem.
Context `{MapOrder bytes, MapOrder (list bytes)} (env : Environment).
Context (inet_pton : Family -> bytes -> option bytes) (inet_ntop : Family -> bytes -> option bytes).
Context (client_order : gmap Z Client -> list Z).


End theorem.
